(** * claude-runner: the job execution and scheduling core

    A shallow embedding of the parts of the repository that the
    specification talks about:

    - [State]    : [server/lib/state.ts], the run-state store;
    - [Runner]   : [runner.sh], one attempt sequence of a job;
    - [RunnerLib]: [server/lib/runner.ts], [spawnJob] and [killJob];
    - [Routes]   : [server/routes/runs.ts], the delete handler;
    - [Server]   : [server/index.ts], the authentication middleware;
    - [Jobs]     : [server/lib/jobs.ts], [toggleJob];
    - [Cron]     : [setup.sh], [cron_to_calendar_interval].

    Files are modelled by their content, the file system by finite maps
    and sets of paths, shell integers by [Z], and text by [string]: the
    bytes of a shell string, the UTF-8 encoding of a JavaScript string. *)

From Stdlib Require Import ZArith Lia Bool Ascii String.
From stdpp Require Import base option list gmap strings.

Local Open Scope string_scope.
Local Open Scope list_scope.
Local Open Scope Z_scope.

(* ===================================================================== *)
(** ** Text: characters, decimal numerals, splitting *)
(* ===================================================================== *)

Module Text.

Definition code (c : ascii) : Z := Z.of_nat (nat_of_ascii c).

Definition is_digit (c : ascii) : bool := (48 <=? code c) && (code c <=? 57).

Definition digit_val (c : ascii) : Z := code c - 48.

Definition digit_char (d : Z) : ascii := ascii_of_nat (Z.to_nat (48 + d)).

Fixpoint all_chars (p : ascii -> bool) (s : string) : bool :=
  match s with
  | EmptyString => true
  | String c s' => p c && all_chars p s'
  end.

(** [^[0-9]+$] *)
Definition all_digits (s : string) : bool :=
  negb (String.eqb s "") && all_chars is_digit s.

(** Exactly [w] characters, all of them digits. *)
Definition is_digits (w : nat) (s : string) : bool :=
  (String.length s =? w)%nat && all_chars is_digit s.

(** The value of a digit string read in base [b], most significant digit
    first. *)
Fixpoint parse_base (b : Z) (s : string) (acc : Z) : Z :=
  match s with
  | EmptyString => acc
  | String c s' => parse_base b s' (acc * b + digit_val c)
  end.

Definition dec_value (s : string) : Z := parse_base 10 s 0.

(** Decimal printing of a non-negative number, least significant digit
    first into the accumulator; [fuel] bounds the number of digits. *)
Fixpoint dec_digits (fuel : nat) (n : Z) (acc : string) : string :=
  match fuel with
  | O => acc
  | S f =>
      let acc' := String (digit_char (n mod 10)) acc in
      if n / 10 =? 0 then acc' else dec_digits f (n / 10) acc'
  end.

(** How the shell ([$i]) and JavaScript ([String(n)]) print an integer. *)
Definition string_of_Z (z : Z) : string :=
  if z <? 0
  then String "-" (dec_digits (S (Z.to_nat (Z.log2 (- z)))) (- z) "")
  else dec_digits (S (Z.to_nat (Z.log2 z))) z "".

Fixpoint repeat_char (c : ascii) (n : nat) : string :=
  match n with
  | O => ""
  | S n' => String c (repeat_char c n')
  end.

(** [s.padStart(w, "0")] *)
Definition pad0 (w : nat) (s : string) : string :=
  repeat_char "0" (w - String.length s) +:+ s.

(** [s.slice(0, n)] *)
Fixpoint take (n : nat) (s : string) : string :=
  match n, s with
  | S n', String c s' => String c (take n' s')
  | _, _ => ""
  end.

(** [s] without its first [n] characters. *)
Fixpoint skip (n : nat) (s : string) : string :=
  match n, s with
  | S n', String _ s' => skip n' s'
  | _, _ => s
  end.

(** [s.replace(/[...]/g, "")]: drop every character satisfying [p]. *)
Fixpoint remove_chars (p : ascii -> bool) (s : string) : string :=
  match s with
  | EmptyString => ""
  | String c s' => if p c then remove_chars p s' else String c (remove_chars p s')
  end.

(** [s] starts with [p]. *)
Fixpoint starts_with (p s : string) : bool :=
  match p, s with
  | EmptyString, _ => true
  | String a p', String b s' => Ascii.eqb a b && starts_with p' s'
  | String _ _, EmptyString => false
  end.

(** [p] occurs somewhere in [s] (what [grep 'p'] tests on a line). *)
Fixpoint contains (p s : string) : bool :=
  starts_with p s ||
  match s with
  | EmptyString => false
  | String _ s' => contains p s'
  end.

(** Split at the first occurrence of [d]: the text before it and the text
    after it; [None] when [d] does not occur. *)
Fixpoint split_first (d : ascii) (s : string) : option (string * string) :=
  match s with
  | EmptyString => None
  | String c s' =>
      if Ascii.eqb c d then Some ("", s')
      else match split_first d s' with
           | Some (a, b) => Some (String c a, b)
           | None => None
           end
  end.

(** Split at every occurrence of [d], keeping empty pieces. *)
Fixpoint split_all (d : ascii) (s : string) : list string :=
  match s with
  | EmptyString => [""]
  | String c s' =>
      if Ascii.eqb c d then "" :: split_all d s'
      else match split_all d s' with
           | w :: ws => String c w :: ws
           | [] => [String c ""]
           end
  end.

(** Not the character [<]. *)
Definition no_lt (c : ascii) : bool := negb (code c =? 60).

(** Shell blanks: space, tab, newline (the default [IFS]). *)
Definition is_blank (c : ascii) : bool :=
  (code c =? 32) || (code c =? 9) || (code c =? 10).

Fixpoint skip_blanks (s : string) : string :=
  match s with
  | EmptyString => ""
  | String c s' => if is_blank c then skip_blanks s' else s
  end.

(** The leading run of non-blank characters and what follows it. *)
Fixpoint take_word (s : string) : string * string :=
  match s with
  | EmptyString => ("", "")
  | String c s' =>
      if is_blank c then ("", s)
      else let '(w, r) := take_word s' in (String c w, r)
  end.

(** Drop trailing blanks. *)
Fixpoint rstrip (s : string) : string :=
  match s with
  | EmptyString => ""
  | String c s' =>
      match rstrip s' with
      | EmptyString => if is_blank c then "" else String c ""
      | r => String c r
      end
  end.

Definition trim (s : string) : string := rstrip (skip_blanks s).

Definition flush (cur : option string) : list string :=
  match cur with
  | Some w => [w]
  | None => []
  end.

Definition push_char (cur : option string) (c : ascii) : option string :=
  Some (default "" cur +:+ String c "").

(** Unquoted expansion of a variable ([for m in $mins]): the maximal runs
    of non-blank characters, in order. [cur] is the word being read. *)
Fixpoint words_from (cur : option string) (s : string) : list string :=
  match s with
  | EmptyString => flush cur
  | String c s' =>
      if is_blank c then flush cur ++ words_from None s'
      else words_from (push_char cur c) s'
  end.

Definition words (s : string) : list string := words_from None s.

(** The text up to the first newline. *)
Fixpoint first_line (s : string) : string :=
  match s with
  | EmptyString => ""
  | String c s' => if code c =? 10 then "" else String c (first_line s')
  end.

(** The leading run of digits. *)
Fixpoint take_digits (s : string) : string :=
  match s with
  | EmptyString => ""
  | String c s' => if is_digit c then String c (take_digits s') else ""
  end.

(** Shell arithmetic is 64-bit two's complement. *)
Definition wrap64 (z : Z) : Z := (z + 2 ^ 63) mod 2 ^ 64 - 2 ^ 63.

Definition is_octal_digit (c : ascii) : bool := (48 <=? code c) && (code c <=? 55).

(** The value [(( ))] gives a variable holding the digit string [s]: a
    leading zero makes it octal, and an octal numeral with an 8 or a 9 is
    an error ([None]). *)
Definition arith_value (s : string) : option Z :=
  if starts_with "0" s && negb (String.eqb s "0") then
    if all_chars is_octal_digit s then Some (wrap64 (parse_base 8 s 0)) else None
  else Some (wrap64 (dec_value s)).

Fixpoint string_rev (s : string) : string :=
  match s with
  | EmptyString => ""
  | String c s' => string_rev s' +:+ String c ""
  end.

(** *** White space in JavaScript

    [WhiteSpace] and [LineTerminator]: U+0009 to U+000D, U+0020, U+00A0,
    U+1680, U+2000 to U+200A, U+2028, U+2029, U+202F, U+205F, U+3000 and
    U+FEFF, here in UTF-8. *)

Definition js_space1 (x : Z) : bool :=
  ((9 <=? x) && (x <=? 13)) || (x =? 32).

Definition js_space2 (x y : Z) : bool := (x =? 194) && (y =? 160).

Definition js_space3 (x y z : Z) : bool :=
  ((x =? 225) && (y =? 154) && (z =? 128)) ||
  ((x =? 226) && (y =? 128) &&
   (((128 <=? z) && (z <=? 138)) || (z =? 168) || (z =? 169) || (z =? 175))) ||
  ((x =? 226) && (y =? 129) && (z =? 159)) ||
  ((x =? 227) && (y =? 128) && (z =? 128)) ||
  ((x =? 239) && (y =? 187) && (z =? 191)).

(** What follows one white-space character at the head of [s]. *)
Definition js_space (s : string) : option string :=
  match s with
  | String a (String b (String c r)) =>
      if js_space1 (code a) then Some (String b (String c r))
      else if js_space2 (code a) (code b) then Some (String c r)
      else if js_space3 (code a) (code b) (code c) then Some r
      else None
  | String a (String b r) =>
      if js_space1 (code a) then Some (String b r)
      else if js_space2 (code a) (code b) then Some r
      else None
  | String a r => if js_space1 (code a) then Some r else None
  | EmptyString => None
  end.

(** The same at the end of a text, read backwards. *)
Definition js_space_back (s : string) : option string :=
  match s with
  | String c (String b (String a r)) =>
      if js_space1 (code c) then Some (String b (String a r))
      else if js_space2 (code b) (code c) then Some (String a r)
      else if js_space3 (code a) (code b) (code c) then Some r
      else None
  | String c (String b r) =>
      if js_space1 (code c) then Some (String b r)
      else if js_space2 (code b) (code c) then Some r
      else None
  | String c r => if js_space1 (code c) then Some r else None
  | EmptyString => None
  end.

Fixpoint drop_while (next : string -> option string) (fuel : nat) (s : string)
  : string :=
  match fuel with
  | O => s
  | S fuel' =>
      match next s with
      | Some r => drop_while next fuel' r
      | None => s
      end
  end.

(** [s.trimStart()], [s.trimEnd()] and [s.trim()] *)
Definition js_trimStart (s : string) : string :=
  drop_while js_space (String.length s) s.

Definition js_trimEnd (s : string) : string :=
  string_rev (drop_while js_space_back (String.length s) (string_rev s)).

Definition js_trim (s : string) : string := js_trimEnd (js_trimStart s).

(** *** Decoding UTF-8

    [buffer.toString("utf8")] and [readFileSync(path, "utf8")]: a
    well-formed sequence is kept, anything else becomes U+FFFD, one for
    every maximal part of an ill-formed sequence. *)

Definition replacement : string :=
  String (ascii_of_nat 239) (String (ascii_of_nat 191) (String (ascii_of_nat 189) "")).

(** A character under way: the continuation bytes still needed, the
    bounds on the next one, the bytes read. *)
Record pending := mkPending {
  needed : nat;
  lower : Z;
  upper : Z;
  seen : string
}.

Inductive lead :=
| Whole
| Begins (p : pending)
| Invalid.

(** What a byte is at the start of a character. *)
Definition utf8_lead (b : ascii) : lead :=
  let x := code b in
  if x <=? 127 then Whole
  else if (194 <=? x) && (x <=? 223) then
    Begins {| needed := 1; lower := 128; upper := 191; seen := String b "" |}
  else if (224 <=? x) && (x <=? 239) then
    Begins {| needed := 2;
              lower := if x =? 224 then 160 else 128;
              upper := if x =? 237 then 159 else 191;
              seen := String b "" |}
  else if (240 <=? x) && (x <=? 244) then
    Begins {| needed := 3;
              lower := if x =? 240 then 144 else 128;
              upper := if x =? 244 then 143 else 191;
              seen := String b "" |}
  else Invalid.

Definition continues (p : pending) (b : ascii) : bool :=
  (lower p <=? code b) && (code b <=? upper p).

Definition continued (p : pending) (b : ascii) : pending :=
  {| needed := pred (needed p); lower := 128; upper := 191;
     seen := seen p +:+ String b "" |}.

Fixpoint utf8_decode_from (st : option pending) (s : string) : string :=
  match s with
  | EmptyString =>
      match st with
      | Some _ => replacement
      | None => ""
      end
  | String b s' =>
      let fresh :=
        match utf8_lead b with
        | Whole => String b (utf8_decode_from None s')
        | Begins p => utf8_decode_from (Some p) s'
        | Invalid => replacement +:+ utf8_decode_from None s'
        end in
      match st with
      | None => fresh
      | Some p =>
          if continues p b then
            (if (needed p <=? 1)%nat
             then seen p +:+ String b (utf8_decode_from None s')
             else utf8_decode_from (Some (continued p b)) s')
          else replacement +:+ fresh
      end
  end.

Definition utf8_decode (bytes : string) : string := utf8_decode_from None bytes.

(** The bytes are well-formed UTF-8 from the state [st] on. *)
Fixpoint utf8_from (st : option pending) (s : string) : bool :=
  match s with
  | EmptyString =>
      match st with
      | Some _ => false
      | None => true
      end
  | String b s' =>
      match st with
      | None =>
          match utf8_lead b with
          | Whole => utf8_from None s'
          | Begins p => utf8_from (Some p) s'
          | Invalid => false
          end
      | Some p =>
          continues p b &&
          (if (needed p <=? 1)%nat then utf8_from None s'
           else utf8_from (Some (continued p b)) s')
      end
  end.

Definition utf8 (bytes : string) : bool := utf8_from None bytes.

End Text.

(* ===================================================================== *)
(** ** JavaScript numbers that are integers *)
(* ===================================================================== *)

Module Number.

Import Text.

(** The number of decimal digits of a positive integer. *)
Definition digits (v : Z) : Z := Z.of_nat (String.length (string_of_Z v)).

(** The integer a double holds when it is given the non-negative integer
    [v]: 53 significant bits, ties to even. *)
Definition round53 (v : Z) : Z :=
  let sh := Z.log2 v + 1 - 53 in
  if sh <=? 0 then v
  else
    let q := v / 2 ^ sh in
    let r := v mod 2 ^ sh in
    let half := 2 ^ (sh - 1) in
    (if (half <? r) || ((r =? half) && Z.odd q) then q + 1 else q) * 2 ^ sh.

(** Doubles end below [2^1024]. *)
Definition overflows (v : Z) : bool := 2 ^ 1024 <=? round53 v.

(** An integer, an infinity or [NaN]. *)
Inductive jsnum :=
| NaN
| Int (z : Z)
| Inf (positive : bool).

(** The number an integer is read as. *)
Definition of_integer (n : Z) : jsnum :=
  if overflows (Z.abs n) then Inf (0 <? n)
  else Int (Z.sgn n * round53 (Z.abs n)).

(** [a + b] *)
Definition add (a b : jsnum) : jsnum :=
  match a, b with
  | NaN, _ | _, NaN => NaN
  | Int x, Int y => of_integer (x + y)
  | Inf p, Inf q => if Bool.eqb p q then Inf p else NaN
  | Inf p, Int _ | Int _, Inf p => Inf p
  end.

(** [v] without its trailing zeros. *)
Fixpoint strip_zeros (fuel : nat) (v : Z) : Z :=
  match fuel with
  | O => v
  | S f => if (v mod 10 =? 0) && negb (v =? 0) then strip_zeros f (v / 10) else v
  end.

(** The decimal of [k] significant digits nearest to the double [x] among
    those that read back as [x], if there is one. *)
Definition candidate (x : Z) (k : Z) : option Z :=
  let p := digits x - k in
  if p <? 0 then Some x
  else
    let low := x / 10 ^ p * 10 ^ p in
    let high := low + 10 ^ p in
    let low_ok := round53 low =? x in
    let high_ok := round53 high =? x in
    if low_ok && high_ok then
      (if x - low <? high - x then Some low
       else if high - x <? x - low then Some high
       else if Z.even (low / 10 ^ p) then Some low else Some high)
    else if low_ok then Some low
    else if high_ok then Some high
    else None.

Fixpoint shortest_from (fuel : nat) (x k : Z) : Z :=
  match fuel with
  | O => x
  | S f =>
      match candidate x k with
      | Some v => v
      | None => shortest_from f x (k + 1)
      end
  end.

(** The shortest decimal that reads back as the double [x]. *)
Definition shortest (x : Z) : Z := shortest_from 17 x 1.

(** [Number::toString] for a positive integer-valued double: its digits
    up to 21 of them, exponent form beyond. *)
Definition positive_text (x : Z) : string :=
  let v := shortest x in
  let n := digits v in
  if n <=? 21 then string_of_Z v
  else
    let s := string_of_Z (strip_zeros (Z.to_nat n) v) in
    match s with
    | String d EmptyString => s +:+ "e+" +:+ string_of_Z (n - 1)
    | String d rest => String d ("." +:+ rest) +:+ "e+" +:+ string_of_Z (n - 1)
    | EmptyString => s
    end.

(** [String(n)] for the number that the integer [n] is read as: below
    [2^53] every integer is a double and prints as its digits. *)
Definition number_text (n : Z) : string :=
  if Z.abs n <? 2 ^ 53 then string_of_Z n
  else
    let sign := if n <? 0 then "-" else "" in
    if overflows (Z.abs n) then sign +:+ "Infinity"
    else sign +:+ positive_text (round53 (Z.abs n)).

End Number.

(* ===================================================================== *)
(** ** The run-state store ([server/lib/state.ts]) *)
(* ===================================================================== *)

Module State.

(** [interface RunRecord]: optional members are [option]s. *)
Record RunRecord := mkRun {
  runId : string;
  jobName : string;
  startedAt : string;
  completedAt : option string;
  exitCode : option Z;
  attempts : option Z;
  status : option string;
  logFile : string
}.

(** The content of [state.json]: [None] stands for a file that is missing
    or that [JSON.parse] rejects, [Some runs] for a parsable array. *)
Definition store := option (list RunRecord).

(** [getRecentRuns]: a missing or corrupt file reads as the empty array. *)
Definition getRecentRuns (st : store) : list RunRecord :=
  match st with
  | Some runs => runs
  | None => []
  end.

(** [runs.find(r => r.runId === id)] and [runs.findIndex(...)]. *)
Definition has_id (id : string) (r : RunRecord) : bool :=
  bool_decide (runId r = id).

Fixpoint findIndex {A} (p : A -> bool) (l : list A) : option nat :=
  match l with
  | [] => None
  | x :: l' => if p x then Some 0%nat else S <$> findIndex p l'
  end.

Definition getRunById (st : store) (id : string) : option RunRecord :=
  find (has_id id) (getRecentRuns st).

(** [status === "running"]. *)
Definition is_running (r : RunRecord) : bool :=
  bool_decide (status r = Some "running").

(** [Partial<RunRecord>]: the members an update carries, any of the
    eight. One of the four optional members can be carried as
    [undefined] ([Some None]), which clears it; one of the four the
    record requires comes with its string. *)
Record Updates := mkUpdates {
  u_runId : option string;
  u_jobName : option string;
  u_startedAt : option string;
  u_completedAt : option (option string);
  u_exitCode : option (option Z);
  u_attempts : option (option Z);
  u_status : option (option string);
  u_logFile : option string
}.

(** [Object.assign(run, updates)]: a member of [updates] overwrites, an
    absent one leaves the record's member as it is. *)
Definition assign (run : RunRecord) (u : Updates) : RunRecord :=
  {| runId := default (runId run) (u_runId u);
     jobName := default (jobName run) (u_jobName u);
     startedAt := default (startedAt run) (u_startedAt u);
     completedAt := default (completedAt run) (u_completedAt u);
     exitCode := default (exitCode run) (u_exitCode u);
     attempts := default (attempts run) (u_attempts u);
     status := default (status run) (u_status u);
     logFile := default (logFile run) (u_logFile u) |}.

(** [updateRun]: the first record with the id is updated in place and the
    file rewritten; a missing file or an unknown id gives [null]. *)
Definition updateRun (st : store) (id : string) (u : Updates)
  : option RunRecord * store :=
  match st with
  | None => (None, st)
  | Some runs =>
      match findIndex (has_id id) runs with
      | None => (None, st)
      | Some idx =>
          match runs !! idx with
          | None => (None, st)
          | Some run =>
              let run' := assign run u in
              (Some run', Some (<[idx := run']> runs))
          end
      end
  end.

(** The part of the disk the store's operations touch: [state.json], the
    paths that exist, and the paths [unlinkSync] throws on. *)
Record Disk := mkDisk {
  state_file : store;
  files : gset string;
  undeletable : gset string
}.

(** [if (logFile && existsSync(logFile)) { try { unlinkSync(logFile) }
    catch {} }]: the set of existing paths afterwards. *)
Definition unlink_log (fs : gset string) (locked : gset string)
    (logFile : string) : gset string :=
  if negb (String.eqb logFile "") && bool_decide (logFile ∈ fs)
  then (if bool_decide (logFile ∈ locked) then fs else fs ∖ {[ logFile ]})
  else fs.

(** [deleteRun]: no test of [status] here. *)
Definition deleteRun (d : Disk) (id : string) : bool * Disk :=
  match state_file d with
  | None => (false, d)
  | Some runs =>
      match findIndex (has_id id) runs with
      | None => (false, d)
      | Some idx =>
          match runs !! idx with
          | None => (false, d)
          | Some run =>
              let fs := unlink_log (files d) (undeletable d) (logFile run) in
              (true, {| state_file := Some (delete idx runs);
                        files := fs;
                        undeletable := undeletable d |})
          end
      end
  end.

(** The loop shared by [deleteRuns] and [clearRuns]: a record for which
    [keep] holds goes to [toKeep]; for any other the log is unlinked and
    [deleted] is incremented. *)
Fixpoint sweep (keep : RunRecord -> bool) (locked : gset string)
    (runs : list RunRecord) (fs : gset string)
  : list RunRecord * Z * gset string :=
  match runs with
  | [] => ([], 0, fs)
  | run :: rest =>
      if keep run then
        let '(toKeep, deleted, fs') := sweep keep locked rest fs in
        (run :: toKeep, deleted, fs')
      else
        let '(toKeep, deleted, fs') :=
          sweep keep locked rest (unlink_log fs locked (logFile run)) in
        (toKeep, deleted + 1, fs')
  end.

(** [!idSet.has(run.runId) || run.status === "running"] *)
Definition deleteRuns_keeps (runIds : list string) (run : RunRecord) : bool :=
  negb (bool_decide (runId run ∈ runIds)) || is_running run.

Definition deleteRuns (d : Disk) (runIds : list string) : Z * Disk :=
  match state_file d with
  | None => (0, d)
  | Some runs =>
      let '(toKeep, deleted, fs) :=
        sweep (deleteRuns_keeps runIds) (undeletable d) runs (files d) in
      (deleted, {| state_file := Some toKeep;
                   files := fs;
                   undeletable := undeletable d |})
  end.

(** [run.status || (run.exitCode === 0 ? "success" : "failed")]: an
    absent or empty [status] is falsy. *)
Definition derived_status (run : RunRecord) : string :=
  match status run with
  | Some s => if String.eqb s "" then
                (if bool_decide (exitCode run = Some 0) then "success" else "failed")
              else s
  | None => if bool_decide (exitCode run = Some 0) then "success" else "failed"
  end.

(** [filter?.status && runStatus !== filter.status], then the guard on
    running records. *)
Definition clearRuns_keeps (filter : option string) (run : RunRecord) : bool :=
  match filter with
  | Some f =>
      if String.eqb f "" then is_running run
      else negb (String.eqb (derived_status run) f) || is_running run
  | None => is_running run
  end.

Definition clearRuns (d : Disk) (filter : option string) : Z * Disk :=
  match state_file d with
  | None => (0, d)
  | Some runs =>
      let '(toKeep, deleted, fs) :=
        sweep (clearRuns_keeps filter) (undeletable d) runs (files d) in
      (deleted, {| state_file := Some toKeep;
                   files := fs;
                   undeletable := undeletable d |})
  end.

End State.

(* ===================================================================== *)
(** ** Wall-clock readings and how the two programs print them *)
(* ===================================================================== *)

Module Clock.

Import Text.

(** A broken-down time, as [Date] and [date(1)] see it. *)
Record DateTime := mkDateTime {
  year : Z;
  month : Z;
  day : Z;
  hours : Z;
  minutes : Z;
  seconds : Z;
  millis : Z
}.

Definition valid (t : DateTime) : Prop :=
  1000 <= year t <= 9999 /\ 1 <= month t <= 12 /\ 1 <= day t <= 31 /\
  0 <= hours t <= 23 /\ 0 <= minutes t <= 59 /\ 0 <= seconds t <= 60 /\
  0 <= millis t <= 999.

(** [Date.prototype.toISOString]: [YYYY-MM-DDTHH:mm:ss.sssZ]; a year
    outside 0..9999 is printed with a sign and six digits. *)
Definition iso_year (y : Z) : string :=
  if (0 <=? y) && (y <=? 9999) then pad0 4 (string_of_Z y)
  else if y <? 0 then String "-" (pad0 6 (string_of_Z (- y)))
  else String "+" (pad0 6 (string_of_Z y)).

Definition toISOString (t : DateTime) : string :=
  iso_year (year t) +:+ "-" +:+ pad0 2 (string_of_Z (month t)) +:+ "-" +:+
  pad0 2 (string_of_Z (day t)) +:+ "T" +:+
  pad0 2 (string_of_Z (hours t)) +:+ ":" +:+
  pad0 2 (string_of_Z (minutes t)) +:+ ":" +:+
  pad0 2 (string_of_Z (seconds t)) +:+ "." +:+
  pad0 3 (string_of_Z (millis t)) +:+ "Z".

(** [date +%Y%m%d-%H%M%S] *)
Definition date_stamp (t : DateTime) : string :=
  pad0 4 (string_of_Z (year t)) +:+ pad0 2 (string_of_Z (month t)) +:+
  pad0 2 (string_of_Z (day t)) +:+ "-" +:+
  pad0 2 (string_of_Z (hours t)) +:+ pad0 2 (string_of_Z (minutes t)) +:+
  pad0 2 (string_of_Z (seconds t)).

(** [date -u +%Y-%m-%dT%H:%M:%SZ] *)
Definition date_utc (t : DateTime) : string :=
  pad0 4 (string_of_Z (year t)) +:+ "-" +:+ pad0 2 (string_of_Z (month t)) +:+
  "-" +:+ pad0 2 (string_of_Z (day t)) +:+ "T" +:+
  pad0 2 (string_of_Z (hours t)) +:+ ":" +:+ pad0 2 (string_of_Z (minutes t)) +:+
  ":" +:+ pad0 2 (string_of_Z (seconds t)) +:+ "Z".

End Clock.

(* ===================================================================== *)
(** ** Job definition files ([server/lib/jobs.ts]) *)
(* ===================================================================== *)

Module Jobs.

(** What [js-yaml] loads from a document. *)
#[local] Unset Elimination Schemes.
Inductive yval :=
| YNull
| YBool (b : bool)
| YNum (n : Z)
| YStr (s : string)
| YSeq (l : list yval)
| YMap (m : list (string * yval)).
#[local] Set Elimination Schemes.

(** A plain JavaScript object: its own keys in insertion order. *)
Definition object := list (string * yval).

Fixpoint obj_get (k : string) (o : object) : option yval :=
  match o with
  | [] => None
  | (k', v) :: o' => if String.eqb k' k then Some v else obj_get k o'
  end.

(** [o[k] = v]: an existing key keeps its place, a new one goes last. *)
Fixpoint obj_set (k : string) (v : yval) (o : object) : object :=
  match o with
  | [] => [(k, v)]
  | (k', v') :: o' =>
      if String.eqb k' k then (k, v) :: o' else (k', v') :: obj_set k v o'
  end.

(** [delete o[k]] *)
Fixpoint obj_delete (k : string) (o : object) : object :=
  match o with
  | [] => []
  | (k', v') :: o' =>
      if String.eqb k' k then obj_delete k o' else (k', v') :: obj_delete k o'
  end.

(** A job file is modelled by what [loadYaml] makes of its text:
    [Unparsable] when it throws, [Doc v] otherwise. [dumpYaml] followed by
    [loadYaml] gives the dumped value back. *)
Inductive yaml_file :=
| Unparsable
| Doc (v : yval).

Inductive job_dir := LocalDir | SharedDir.

(** The entries [<name>.yaml] of [jobs.local/] and of [jobs/], by
    [<name>]; the segments of [SCRIPT_DIR], the directory the two are in;
    the files at any other path, by its segments; and the number of times
    [setup.sh] was run to re-sync the schedules. *)
Record JobFiles := mkJobFiles {
  jobs_local : gmap string yaml_file;
  jobs_shared : gmap string yaml_file;
  script_dir : list string;
  elsewhere : list string -> option yaml_file;
  syncs : nat
}.

Definition dir_name (dir : job_dir) : string :=
  match dir with
  | LocalDir => "jobs.local"
  | SharedDir => "jobs"
  end.

(** How [path.join] takes one more segment: an empty one and [.] change
    nothing, [..] leaves the last directory (the root has none to
    leave). *)
Definition push_segment (stack : list string) (seg : string) : list string :=
  if String.eqb seg "" || String.eqb seg "." then stack
  else if String.eqb seg ".." then removelast stack
  else stack ++ [seg].

(** [join(DIR, `${name}.yaml`)], as the segments below the root. A name
    with a [/] in it leads below the directory or out of it. *)
Definition joined (w : JobFiles) (dir : job_dir) (name : string) : list string :=
  foldl push_segment (script_dir w ++ [dir_name dir])
    (Text.split_all "/" (name +:+ ".yaml")).

(** [key] for [key.yaml]. *)
Fixpoint strip_yaml (seg : string) : option string :=
  if String.eqb seg ".yaml" then Some ""
  else
    match seg with
    | String c rest => String c <$> strip_yaml rest
    | EmptyString => None
    end.

Inductive place :=
| Entry (dir : job_dir) (key : string)
| Elsewhere (path : list string).

(** Where a path is: an entry of one of the two directories, or not. *)
Definition place_of (w : JobFiles) (path : list string) : place :=
  let n := length (script_dir w) in
  if bool_decide (firstn n path = script_dir w) then
    match skipn n path with
    | [d; seg] =>
        match strip_yaml seg with
        | Some key =>
            if String.eqb d "jobs.local" then Entry LocalDir key
            else if String.eqb d "jobs" then Entry SharedDir key
            else Elsewhere path
        | None => Elsewhere path
        end
    | _ => Elsewhere path
    end
  else Elsewhere path.

Definition file_at (w : JobFiles) (pl : place) : option yaml_file :=
  match pl with
  | Entry LocalDir key => jobs_local w !! key
  | Entry SharedDir key => jobs_shared w !! key
  | Elsewhere path => elsewhere w path
  end.

(** The file at [join(DIR, `${name}.yaml`)], when there is one. The
    shell's ["${DIR}/${JOB_NAME}.yaml"] is taken to lead to the same
    file: the directories a name walks through exist and are no
    symbolic links. *)
Definition job_path (w : JobFiles) (dir : job_dir) (name : string)
  : option yaml_file :=
  file_at w (place_of w (joined w dir name)).

(** What JavaScript takes for true. *)
Definition truthy (v : yval) : bool :=
  match v with
  | YNull => false
  | YBool b => b
  | YNum n => negb (n =? 0)
  | YStr s => negb (String.eqb s "")
  | YSeq _ | YMap _ => true
  end.

(** [/^[a-z0-9-]+$/] *)
Definition job_name_char (c : ascii) : bool :=
  let n := Text.code c in
  ((97 <=? n) && (n <=? 122)) || Text.is_digit c || (n =? 45).

Definition validateJobName (name : string) : bool :=
  negb (String.eqb name "") && Text.all_chars job_name_char name.

(** [resolveJobFile]: [jobs.local/] takes precedence over [jobs/]. *)
Definition resolveJobFile (w : JobFiles) (name : string) : option job_dir :=
  if bool_decide (is_Some (job_path w LocalDir name)) then Some LocalDir
  else if bool_decide (is_Some (job_path w SharedDir name)) then Some SharedDir
  else None.

(** [readFileSync(jobFile)] for the file [resolveJobFile] found. *)
Definition read_job (w : JobFiles) (dir : job_dir) (name : string)
  : option yaml_file :=
  job_path w dir name.

(** [writeFileSync(jobFile, ...)]: every caller has checked the name
    with [validateJobName], so the file is an entry of the directory. *)
Definition write_job (w : JobFiles) (dir : job_dir) (name : string)
    (f : yaml_file) : JobFiles :=
  match dir with
  | LocalDir => {| jobs_local := <[name := f]> (jobs_local w);
                   jobs_shared := jobs_shared w;
                   script_dir := script_dir w; elsewhere := elsewhere w;
                   syncs := syncs w |}
  | SharedDir => {| jobs_local := jobs_local w;
                    jobs_shared := <[name := f]> (jobs_shared w);
                    script_dir := script_dir w; elsewhere := elsewhere w;
                    syncs := syncs w |}
  end.

Definition syncSchedule (w : JobFiles) : JobFiles :=
  {| jobs_local := jobs_local w; jobs_shared := jobs_shared w;
     script_dir := script_dir w; elsewhere := elsewhere w;
     syncs := S (syncs w) |}.

(** [getJobDefinition] *)
Definition getJobDefinition (w : JobFiles) (name : string) : option yval :=
  match resolveJobFile w name with
  | None => None
  | Some dir =>
      match read_job w dir name with
      | Some (Doc v) => Some v
      | _ => None
      end
  end.

Record ToggleResult := mkToggle {
  ok : bool;
  enabled : option bool;
  error : option string
}.

Definition toggle_error (msg : string) : ToggleResult :=
  {| ok := false; enabled := None; error := Some msg |}.

(** [parsed.enabled !== false] *)
Definition enabled_not_false (o : object) : bool :=
  match obj_get "enabled" o with
  | Some (YBool false) => false
  | _ => true
  end.

(** [toggleJob]. A document that is not a mapping makes the property
    access or the assignment throw (the module is strict code), except an
    array, on which the property is set and then ignored by [dumpYaml]. *)
Definition toggleJob (w : JobFiles) (name : string) : ToggleResult * JobFiles :=
  if negb (validateJobName name) then (toggle_error "Invalid job name", w)
  else
    match resolveJobFile w name with
    | None => (toggle_error ("Job not found: " +:+ name), w)
    | Some dir =>
        match read_job w dir name with
        | Some (Doc (YMap parsed)) =>
            let wasEnabled := enabled_not_false parsed in
            let parsed' :=
              if wasEnabled then obj_set "enabled" (YBool false) parsed
              else obj_delete "enabled" parsed in
            ({| ok := true; enabled := Some (negb wasEnabled); error := None |},
             syncSchedule (write_job w dir name (Doc (YMap parsed'))))
        | Some (Doc (YSeq l)) =>
            ({| ok := true; enabled := Some false; error := None |},
             syncSchedule (write_job w dir name (Doc (YSeq l))))
        | _ => (toggle_error "Toggle failed", w)
        end
    end.

End Jobs.

(* ===================================================================== *)
(** ** One attempt sequence ([runner.sh]) *)
(* ===================================================================== *)

Module Runner.

Import Text State Jobs.

(** [String(val)] for what YAML can hold. *)
Fixpoint js_String (v : yval) : string :=
  match v with
  | YNull => "null"
  | YBool true => "true"
  | YBool false => "false"
  | YNum n => Number.number_text n
  | YStr s => s
  | YSeq l =>
      (fix join (l : list yval) : string :=
         match l with
         | [] => ""
         | [x] => match x with YNull => "" | _ => js_String x end
         | x :: l' =>
             match x with YNull => "" | _ => js_String x end +:+ "," +:+ join l'
         end) l
  | YMap _ => "[object Object]"
  end.

(** [load_job file key]: [y.load(...) || {}], then [c[key]] printed unless
    it is [undefined] or [null]. *)
Definition load_job (doc : yval) (key : string) : string :=
  match doc with
  | YMap c =>
      match obj_get key c with
      | Some YNull | None => ""
      | Some v => js_String v
      end
  | _ => ""
  end.

(** [$(...)]: the output of the command without its NUL bytes and
    without the newlines at its end. *)
Definition is_nul (c : ascii) : bool := code c =? 0.

Fixpoint strip_newlines (s : string) : string :=
  match s with
  | EmptyString => ""
  | String c s' =>
      match strip_newlines s' with
      | EmptyString => if code c =? 10 then "" else String c ""
      | r => String c r
      end
  end.

Definition capture (out : string) : string :=
  strip_newlines (remove_chars is_nul out).

(** Neither a NUL byte nor a newline. *)
Definition printable (c : ascii) : bool :=
  negb (code c =? 0) && negb (code c =? 10).

(** [isspace], which [strtoimax] skips. *)
Definition is_space (c : ascii) : bool :=
  ((9 <=? code c) && (code c <=? 13)) || (code c =? 32).

Fixpoint skip_spaces (s : string) : string :=
  match s with
  | EmptyString => ""
  | String c s' => if is_space c then skip_spaces s' else s
  end.

Definition space_or_tab (c : ascii) : bool := (code c =? 32) || (code c =? 9).

(** An optional sign, and what follows it. *)
Definition signed (s : string) : bool * string :=
  match s with
  | String c r =>
      if Ascii.eqb c "-" then (true, r)
      else if Ascii.eqb c "+" then (false, r)
      else (false, s)
  | EmptyString => (false, s)
  end.

(** What [test] accepts as an integer operand: white space, an optional
    sign, decimal digits, then spaces or tabs, and a value that fits 64
    bits. *)
Definition shell_int (s : string) : option Z :=
  let '(negative, r) := signed (skip_spaces s) in
  let ds := take_digits r in
  let v := if negative then - dec_value ds else dec_value ds in
  if String.eqb ds "" then None
  else if negb (all_chars space_or_tab (skip (String.length ds) r)) then None
  else if (- 2 ^ 63 <=? v) && (v <? 2 ^ 63) then Some v
  else None.

(** [$((MAX_RETRIES + 1))], which is evaluated for an operand that [test]
    has accepted: blanks are skipped but no other white space, a numeral
    with a leading zero is octal, and the sum wraps at 64 bits. [None] is
    an error of the evaluation. *)
Definition plus_one (s : string) : option Z :=
  let '(negative, r) := signed (skip_blanks s) in
  let ds := take_digits r in
  if String.eqb ds "" then None
  else if negb (all_chars is_blank (skip (String.length ds) r)) then None
  else
    match arith_value ds with
    | Some v => Some (wrap64 ((if negative then - v else v) + 1))
    | None => None
    end.

(** [[ "$ATTEMPT" -le "$MAX_RETRIES" ]]: an operand that is not an integer
    makes [test] fail, which the [while] and the [if] take as false. *)
Definition test_le (a : Z) (b : string) : bool :=
  match shell_int b with
  | Some n => a <=? n
  | None => false
  end.

(** What is appended to the run's log file: a line written by [log], or
    the output of one execution of the command ([>> "$LOG_FILE" 2>&1]). *)
Inductive log_entry :=
| Line (level msg : string)
| Output (text : string).

(** What the runner does besides writing files. *)
Inductive event :=
| Exec (attempt exit : Z)
| Sleep (secs : Z).

(** The command being run, as far as the runner can tell: the exit status
    and the output of its k-th execution (a timeout shows as the status
    the timeout wrapper returns). *)
Record Payload := mkPayload {
  exit_of : Z -> Z;
  output_of : Z -> string
}.

(** The files under [~/.claude-runner] and the job directories. *)
Record World := mkWorld {
  job_files : JobFiles;
  state : store;
  lock_dirs : gset string;
  pid_files : gmap string string;
  logs : gmap string (list log_entry)
}.

(** [log LEVEL msg]: [tee -a "$LOG_FILE"]. *)
Definition append_log (file : string) (e : log_entry)
    (lg : gmap string (list log_entry)) : gmap string (list log_entry) :=
  <[file := default [] (lg !! file) ++ [e]]> lg.

(** [if (runs.length > 100) runs = runs.slice(-100)] *)
Definition keep_last_100 (runs : list RunRecord) : list RunRecord :=
  if (100 <? length runs)%nat then drop (length runs - 100) runs else runs.

(** The first [bun -e] block: push the [running] entry. *)
Definition write_running_entry (st : store)
    (RUN_ID JOB_NAME START_TIME LOG_FILE : string) : store :=
  let runs := getRecentRuns st in
  let entry :=
    {| runId := RUN_ID; jobName := JOB_NAME; startedAt := START_TIME;
       completedAt := None; exitCode := None; attempts := None;
       status := Some "running"; logFile := LOG_FILE |} in
  Some (keep_last_100 (runs ++ [entry])).

Definition final_entry (RUN_ID JOB_NAME START_TIME END_TIME : string)
    (EXIT_CODE ATTEMPT : Z) (LOG_FILE : string) : RunRecord :=
  {| runId := RUN_ID; jobName := JOB_NAME; startedAt := START_TIME;
     completedAt := Some END_TIME; exitCode := Some EXIT_CODE;
     attempts := Some ATTEMPT; status := None; logFile := LOG_FILE |}.

(** The second [bun -e] block: the entry with the run's id is replaced
    where it stands, or the final entry is pushed when it is gone. *)
Definition final_update (st : store)
    (RUN_ID JOB_NAME START_TIME END_TIME : string)
    (EXIT_CODE ATTEMPT : Z) (LOG_FILE : string) : store :=
  let runs := getRecentRuns st in
  let entry :=
    final_entry RUN_ID JOB_NAME START_TIME END_TIME EXIT_CODE ATTEMPT LOG_FILE in
  let runs' :=
    match findIndex (has_id RUN_ID) runs with
    | Some idx => <[idx := entry]> runs
    | None => runs ++ [entry]
    end in
  Some (keep_last_100 runs').

(** The shell variables the retry loop changes, the log file and the
    events so far. *)
Record Loop := mkLoop {
  ATTEMPT : Z;
  EXIT_CODE : Z;
  log_file : list log_entry;
  events : list event
}.

Definition say (level msg : string) (s : Loop) : Loop :=
  {| ATTEMPT := ATTEMPT s; EXIT_CODE := EXIT_CODE s;
     log_file := log_file s ++ [Line level msg]; events := events s |}.

(** [ATTEMPT=$((ATTEMPT + 1))] *)
Definition next_attempt (s : Loop) : Loop :=
  {| ATTEMPT := wrap64 (ATTEMPT s + 1); EXIT_CODE := EXIT_CODE s;
     log_file := log_file s; events := events s |}.

(** The body from the first [log] line to [EXIT_CODE=$?], the
    arithmetic having given [total]. *)
Definition pass (p : Payload) (total : Z) (s : Loop) : Loop :=
  let a := ATTEMPT s in
  let s1 := say "INFO" ("Attempt " +:+ string_of_Z a +:+ "/" +:+
                        string_of_Z total) s in
  let s2 := say "INFO" "Running claude..." s1 in
  let code := exit_of p a in
  say "INFO" ("Claude finished (exit " +:+ string_of_Z code +:+ ")")
    {| ATTEMPT := a; EXIT_CODE := code;
       log_file := log_file s2 ++ [Output (output_of p a)];
       events := events s2 ++ [Exec a code] |}.

(** One pass through the body up to [EXIT_CODE=$?]; [None] when the
    arithmetic of the first [log] line fails. *)
Definition attempt_once (p : Payload) (MAX_RETRIES : string) (s : Loop)
  : option Loop :=
  match plus_one MAX_RETRIES with
  | None => None
  | Some total => Some (pass p total (next_attempt s))
  end.

(** [while [ "$ATTEMPT" -le "$MAX_RETRIES" ]; do ... done]; [None] when
    [fuel] passes do not reach the end of the loop. An error in the
    arithmetic of the [log] line abandons the whole [while] command, and
    the script goes on after it with [ATTEMPT] already incremented. *)
Fixpoint retry_loop (fuel : nat) (p : Payload) (JOB_NAME MAX_RETRIES : string)
    (s : Loop) : option Loop :=
  if test_le (ATTEMPT s) MAX_RETRIES then
    match fuel with
    | O => None
    | S fuel' =>
        match attempt_once p MAX_RETRIES s with
        | None => Some (next_attempt s)
        | Some s1 =>
            if EXIT_CODE s1 =? 0 then
              Some (say "INFO" ("Job " +:+ JOB_NAME +:+ " completed successfully") s1)
            else
              let s2 :=
                say "ERROR" ("Job " +:+ JOB_NAME +:+ " failed with exit code " +:+
                             string_of_Z (EXIT_CODE s1)) s1 in
              let s3 :=
                if test_le (ATTEMPT s2) MAX_RETRIES then
                  let s' := say "INFO" "Retrying in 5 seconds..." s2 in
                  {| ATTEMPT := ATTEMPT s'; EXIT_CODE := EXIT_CODE s';
                     log_file := log_file s'; events := events s' ++ [Sleep 5] |}
                else s2 in
              retry_loop fuel' p JOB_NAME MAX_RETRIES s3
        end
    end
  else Some s.

(** What one invocation is given besides its arguments: the local time
    [date] reports for the run id, the UTC start and end times, the
    shell's process id, and the command's behaviour. *)
Record Invocation := mkInvocation {
  args : list string;
  started_local : Clock.DateTime;
  started_utc : Clock.DateTime;
  ended_utc : Clock.DateTime;
  shell_pid : Z;
  payload : Payload
}.

Record Outcome := mkOutcome {
  exit_status : Z;
  world : World;
  trace : list event
}.

Definition stop (code : Z) (w : World) : option Outcome :=
  Some {| exit_status := code; world := w; trace := [] |}.

(** The job a named invocation runs: [jobs.local/] first, then [jobs/]. *)
Definition find_job_file (w : World) (name : string) : option yaml_file :=
  match job_path (job_files w) LocalDir name with
  | Some f => Some f
  | None => job_path (job_files w) SharedDir name
  end.

(** [${s:-d}] *)
Definition or_default (s d : string) : string :=
  if String.eqb s "" then d else s.

(** [JOB_RETRIES="$(load_job "$JOB_FILE" retries)"] and
    [JOB_RETRIES="${JOB_RETRIES:-0}"] *)
Definition JOB_RETRIES (doc : yval) : string :=
  or_default (capture (load_job doc "retries")) "0".

(** [JOB_ENABLED="$(load_job "$JOB_FILE" enabled)"] *)
Definition JOB_ENABLED (doc : yval) : string :=
  capture (load_job doc "enabled").

(** [TIMESTAMP="$(date +%Y%m%d-%H%M%S)"; RUN_ID="${JOB_NAME}-${TIMESTAMP}"] *)
Definition RUN_ID (JOB_NAME : string) (t : Clock.DateTime) : string :=
  JOB_NAME +:+ "-" +:+ Clock.date_stamp t.

(** [LOG_FILE="${LOG_DIR}/${RUN_ID}.log"] *)
Definition LOG_FILE (run_id : string) : string :=
  "~/.claude-runner/logs/" +:+ run_id +:+ ".log".

(** Everything from the lock to the end of the script. The [EXIT] trap
    removes the lock directory and the pid file on the way out. *)
Definition locked_run (fuel : nat) (w : World) (inv : Invocation)
    (JOB_NAME JOB_RETRIES : string) : option Outcome :=
  let RUN_ID := RUN_ID JOB_NAME (started_local inv) in
  let LOG_FILE := LOG_FILE RUN_ID in
  if bool_decide (JOB_NAME ∈ lock_dirs w) then
    Some {| exit_status := 2;
            world := {| job_files := job_files w; state := state w;
                        lock_dirs := lock_dirs w; pid_files := pid_files w;
                        logs := append_log LOG_FILE
                                  (Line "WARN" ("Job " +:+ JOB_NAME +:+
                                     " is already running (lockfile exists). Exiting."))
                                  (logs w) |};
            trace := [] |}
  else
    let START_TIME := Clock.date_utc (started_utc inv) in
    let END_TIME := Clock.date_utc (ended_utc inv) in
    let st1 := write_running_entry (state w) RUN_ID JOB_NAME START_TIME LOG_FILE in
    let s0 :=
      say "INFO" "Workdir"
        (say "INFO" ("Starting job " +:+ JOB_NAME +:+ " (run: " +:+ RUN_ID +:+ ")")
           {| ATTEMPT := 0; EXIT_CODE := 1;
              log_file := default [] (logs w !! LOG_FILE); events := [] |}) in
    match retry_loop fuel (payload inv) JOB_NAME JOB_RETRIES s0 with
    | None => None
    | Some s =>
        let st2 :=
          final_update st1 RUN_ID JOB_NAME START_TIME END_TIME
            (EXIT_CODE s) (ATTEMPT s) LOG_FILE in
        let s' :=
          say "INFO" ("Done (exit code: " +:+ string_of_Z (EXIT_CODE s) +:+ ")") s in
        Some {| exit_status := EXIT_CODE s;
                world := {| job_files := job_files w; state := st2;
                            lock_dirs := lock_dirs w ∖ {[ JOB_NAME ]};
                            pid_files := delete JOB_NAME (pid_files w);
                            logs := <[LOG_FILE := log_file s']> (logs w) |};
                trace := events s |}
    end.

(** [runner.sh <job-name>] or [runner.sh --prompt "..."]. *)
Definition runner (fuel : nat) (w : World) (inv : Invocation) : option Outcome :=
  match args inv with
  | [] => stop 1 w
  | arg1 :: _ =>
      if String.eqb arg1 "--prompt" then locked_run fuel w inv "adhoc" "0"
      else
        let JOB_NAME := arg1 in
        match find_job_file w JOB_NAME with
        | None => stop 1 w
        | Some Unparsable => stop 1 w
        | Some (Doc doc) =>
            if String.eqb (JOB_ENABLED doc) "false" then stop 0 w
            else locked_run fuel w inv JOB_NAME (JOB_RETRIES doc)
        end
  end.

(** The [ProgramArguments] after the runner's path in the plist that
    [setup.sh] installs for a scheduled job. *)
Definition launchd_args (JOB_NAME : string) : list string := [JOB_NAME].

(** [n] executions numbered from [a + 1], with the backoff after each but
    the last. *)
Definition attempts_with_backoff (p : Payload) (a n : Z) : list event :=
  k ← seqZ (a + 1) (n - a);
  Exec k (exit_of p k) :: (if k <? n then [Sleep 5] else []).

(** The command outputs among the entries of a log, in order. *)
Fixpoint outputs_in (l : list log_entry) : list string :=
  match l with
  | [] => []
  | Output text :: l' => text :: outputs_in l'
  | Line _ _ :: l' => outputs_in l'
  end.

End Runner.

(* ===================================================================== *)
(** ** Spawning and killing ([server/lib/runner.ts]) *)
(* ===================================================================== *)

Module RunnerLib.

Import Text Number State Jobs.

(** The arguments [spawn(RUNNER, args, ...)] hands to [runner.sh]. *)
Definition spawn_args (jobNameOrPrompt : string) (isInline : bool) : list string :=
  if isInline then ["--prompt"; jobNameOrPrompt] else [jobNameOrPrompt].

(** [/[-:T]/] *)
Definition is_separator (c : ascii) : bool :=
  (code c =? 45) || (code c =? 58) || (code c =? 84).

(** The run id [spawnJob] returns, from the server's clock reading. *)
Definition spawnJob_runId (now : Clock.DateTime) (jobNameOrPrompt : string)
    (isInline : bool) : string :=
  let timestamp := take 15 (remove_chars is_separator (Clock.toISOString now)) in
  let jobName := if isInline then "adhoc" else jobNameOrPrompt in
  jobName +:+ "-" +:+ timestamp.

(** [jobExists] *)
Definition jobExists (w : Runner.World) (jobName : string) : bool :=
  bool_decide (is_Some (job_path (Runner.job_files w) LocalDir jobName)) ||
  bool_decide (is_Some (job_path (Runner.job_files w) SharedDir jobName)).

(** The number for the leading digits of [s], or [NaN] without any. *)
Definition digits_or_NaN (negative : bool) (s : string) : jsnum :=
  let ds := take_digits s in
  if String.eqb ds "" then NaN
  else of_integer (if negative then - dec_value ds else dec_value ds).

(** [parseInt(s, 10)]: white space, an optional sign, and the digits up
    to the first character that is none. *)
Definition parseInt (s : string) : jsnum :=
  match js_trimStart s with
  | EmptyString => NaN
  | String c r =>
      if Ascii.eqb c "-" then digits_or_NaN true r
      else if Ascii.eqb c "+" then digits_or_NaN false r
      else digits_or_NaN false (String c r)
  end.

(** [parseInt(readFileSync(pidFile, "utf8").trim(), 10)] *)
Definition read_pid (content : string) : jsnum :=
  parseInt (js_trim (utf8_decode content)).

(** What [process.kill(target, "SIGTERM")] can do. *)
Inductive kill_outcome :=
| Delivered
| ESRCH
| Throws (message : string).

Record KillResult := mkKill {
  killed : bool;
  kill_error : option string
}.

(** The update [killJob] applies to a stale record. *)
Definition killed_update (now : string) : Updates :=
  {| u_runId := None; u_jobName := None; u_startedAt := None;
     u_completedAt := Some (Some now); u_exitCode := Some (Some 137);
     u_attempts := None; u_status := Some (Some "killed");
     u_logFile := None |}.

(** [r.jobName === jobName && r.status === "running"] *)
Definition is_stale (jobName : string) (r : RunRecord) : bool :=
  bool_decide (State.jobName r = jobName) && is_running r.

(** [for (const run of staleRuns) updateRun(run.runId, {...})]: every call
    reads and rewrites the file. *)
Fixpoint mark_killed (now : string) (staleRuns : list RunRecord) (st : store)
  : store :=
  match staleRuns with
  | [] => st
  | run :: rest => mark_killed now rest (updateRun st (runId run) (killed_update now)).2
  end.

(** The second half of [killJob], from [getRecentRuns()] on. *)
Definition reconcile (w : Runner.World) (jobName now : string)
  : KillResult * Runner.World :=
  let runs := getRecentRuns (Runner.state w) in
  let staleRuns := filter (fun r => is_stale jobName r = true) runs in
  match staleRuns with
  | [] => ({| killed := false; kill_error := Some "No running process found" |}, w)
  | _ =>
      ({| killed := true; kill_error := None |},
       {| Runner.job_files := Runner.job_files w;
          Runner.state := mark_killed now staleRuns (Runner.state w);
          Runner.lock_dirs := Runner.lock_dirs w;
          Runner.pid_files := Runner.pid_files w;
          Runner.logs := Runner.logs w |})
  end.

(** [fs.rmSync(pidFile); fs.rmSync(lock, { recursive: true })] *)
Definition remove_lock (w : Runner.World) (jobName : string) : Runner.World :=
  {| Runner.job_files := Runner.job_files w;
     Runner.state := Runner.state w;
     Runner.lock_dirs := Runner.lock_dirs w ∖ {[ jobName ]};
     Runner.pid_files := delete jobName (Runner.pid_files w);
     Runner.logs := Runner.logs w |}.

(** [killJob]. [os] says what signalling a target does; the result comes
    with the new world and the targets [SIGTERM] was sent to. A pid file
    that holds no number makes [process.kill] throw on [NaN], and one
    that holds too many digits on an infinity. *)
Definition killJob (os : Z -> kill_outcome) (w : Runner.World)
    (jobName now : string) : KillResult * Runner.World * list Z :=
  match Runner.pid_files w !! jobName with
  | Some content =>
      match read_pid content with
      | Int pid =>
          match os (- pid) with
          | Throws message =>
              ({| killed := false; kill_error := Some message |}, w, [- pid])
          | _ =>
              let '(r, w') := reconcile (remove_lock w jobName) jobName now in
              (r, w', [- pid])
          end
      | _ =>
          ({| killed := false; kill_error := Some "invalid pid" |}, w, [])
      end
  | None =>
      let '(r, w') := reconcile w jobName now in (r, w', [])
  end.

(** Some record of the job is still marked [running]. *)
Definition has_stale (w : Runner.World) (jobName : string) : bool :=
  existsb (is_stale jobName) (getRecentRuns (Runner.state w)).


(** Every running record of the job turned into a killed one. *)
Definition force_killed (now jobName : string) (runs : list RunRecord)
  : list RunRecord :=
  (fun r => if is_stale jobName r then assign r (killed_update now) else r) <$> runs.

End RunnerLib.

(* ===================================================================== *)
(** ** The run routes ([server/routes/runs.ts]) *)
(* ===================================================================== *)

Module Routes.

Import State.

Inductive response :=
| Ok200 (body : string)
| Error (code : Z) (message : string).

(** [DELETE /api/runs/:runId] *)
Definition delete_run (d : Disk) (runId : string) : response * Disk :=
  match getRunById (state_file d) runId with
  | None => (Error 404 ("Run not found: " +:+ runId), d)
  | Some run =>
      if is_running run
      then (Error 400 "Cannot delete a running job. Kill it first.", d)
      else
        let '(deleted, d') := deleteRun d runId in
        if deleted then (Ok200 "deleted", d')
        else (Error 500 "Failed to delete run", d')
  end.

(** [POST /api/runs/delete-batch]; the schema wants at least one id. *)
Definition delete_batch (d : Disk) (runIds : list string) : response * Disk :=
  match runIds with
  | [] => (Error 400 "At least one runId required", d)
  | _ => let '(count, d') := deleteRuns d runIds in
         (Ok200 (Text.string_of_Z count), d')
  end.

(** [DELETE /api/runs]: [clearRuns(status ? { status } : undefined)] *)
Definition clear_runs (d : Disk) (status : option string) : response * Disk :=
  let filter :=
    match status with
    | Some s => if String.eqb s "" then None else Some s
    | None => None
    end in
  let '(count, d') := clearRuns d filter in
  (Ok200 (Text.string_of_Z count), d').

(** What the three operations have in common, for a loop that keeps the
    records satisfying [keep] and keeps every running record. *)
Definition spares_running (keep : RunRecord -> bool)
    (d : Disk) (count : Z) (d' : Disk) : Prop :=
  let runs := getRecentRuns (state_file d) in
  getRecentRuns (state_file d') = List.filter keep runs /\
  count = Z.of_nat (length (List.filter (fun r => negb (keep r)) runs)) /\
  (forall r, r ∈ runs -> is_running r = true ->
             r ∈ getRecentRuns (state_file d')) /\
  (forall r, r ∈ runs -> keep r = false ->
             logFile r <> "" -> logFile r ∉ undeletable d ->
             logFile r ∉ files d') /\
  files d' ⊆ files d.

(** The same disk with other paths failing to unlink. *)
Definition with_undeletable (d : Disk) (u : gset string) : Disk :=
  {| state_file := state_file d; files := files d; undeletable := u |}.

(** [POST /api/runs/trigger/:jobName]: the response, and the invocation of
    [runner.sh] that [spawnJob] starts, if any. *)
Definition trigger (w : Runner.World) (now : Clock.DateTime) (jobName : string)
  : response * option (list string) :=
  if negb (RunnerLib.jobExists w jobName)
  then (Error 404 ("Job not found: " +:+ jobName), None)
  else (Ok200 (RunnerLib.spawnJob_runId now jobName false),
        Some (RunnerLib.spawn_args jobName false)).

(** [POST /api/runs/adhoc] *)
Definition adhoc (now : Clock.DateTime) (prompt : string)
  : response * option (list string) :=
  if String.eqb prompt "" then (Error 400 "Missing 'prompt' field", None)
  else (Ok200 (RunnerLib.spawnJob_runId now prompt true),
        Some (RunnerLib.spawn_args prompt true)).

End Routes.

(* ===================================================================== *)
(** ** The authentication middleware ([server/index.ts]) *)
(* ===================================================================== *)

Module Server.

Import Jobs.

Record Request := mkRequest {
  method : string;
  path : string;
  authorization : option string;
  query_token : option string
}.

(** [config.auth_token || ""], for whatever the configuration holds
    under the key. *)
Definition AUTH_TOKEN (auth_token : option yval) : yval :=
  match auth_token with
  | Some v => if truthy v then v else YStr ""
  | None => YStr ""
  end.

Inductive verdict :=
| Next
| Unauthorized.

(** [AUTH_TOKEN === "changeme"] *)
Definition is_placeholder (token : yval) : bool :=
  match token with
  | YStr s => String.eqb s "changeme"
  | _ => false
  end.

(** [header === `Bearer ${AUTH_TOKEN}` || queryToken === AUTH_TOKEN]: the
    header is compared with the secret printed, the parameter with the
    secret itself, which it can only equal when the secret is a string. *)
Definition carries (token : yval) (req : Request) : bool :=
  bool_decide (authorization req = Some ("Bearer " +:+ Runner.js_String token)) ||
  match token with
  | YStr s => bool_decide (query_token req = Some s)
  | _ => false
  end.

(** The handler registered with [app.use("/api/*", ...)]. *)
Definition auth_middleware (token : yval) (req : Request) : verdict :=
  if negb (truthy token) || is_placeholder token then Next
  else if carries token req then Next
  else Unauthorized.

(** Enforcement is on: a secret is configured and is not the placeholder. *)
Definition enforced (token : yval) : bool :=
  truthy token && negb (is_placeholder token).

(** The pattern [/api/*]. *)
Definition under_api (p : string) : bool :=
  String.eqb p "/api" || Text.starts_with "/api/" p.

Inductive served :=
| Preflight204
| Rejected401
| JobsRoute
| RunsRoute
| EventsRoute
| Health
| ScheduleSync
| NotFound
| Static.

Definition under (base p : string) : bool :=
  String.eqb p base || Text.starts_with (base +:+ "/") p.

(** What answers a request. Under [/api], [cors()] comes first and
    answers every [OPTIONS] request itself, with 204; then the
    authentication runs, before every route registered under [/api], the
    health check among them. *)
Definition serve (auth_token : option yval) (req : Request) : served :=
  if under_api (path req) then
    if String.eqb (method req) "OPTIONS" then Preflight204
    else
      match auth_middleware (AUTH_TOKEN auth_token) req with
      | Unauthorized => Rejected401
      | Next =>
          if under "/api/jobs" (path req) then JobsRoute
          else if under "/api/runs" (path req) then RunsRoute
          else if under "/api/events" (path req) then EventsRoute
          else if String.eqb (path req) "/api/health" && String.eqb (method req) "GET"
          then Health
          else if String.eqb (path req) "/api/schedule/sync" &&
                  String.eqb (method req) "POST"
          then ScheduleSync
          else NotFound
      end
  else Static.

End Server.

(* ===================================================================== *)
(** ** The cron compiler ([setup.sh], [cron_to_calendar_interval]) *)
(* ===================================================================== *)

Module Cron.

Import Text.

(** [for ((i=0; i<max; i+=step)); do vals="$vals $i"; done], from the
    current [i]. An error in [i+=step] abandons the loop after the body
    has run once; [None] when [fuel] passes do not finish the loop. *)
Fixpoint step_loop (fuel : nat) (i max : Z) (step : option Z) (vals : string)
  : option string :=
  if i <? max then
    match fuel with
    | O => None
    | S fuel' =>
        let vals' := vals +:+ " " +:+ string_of_Z i in
        match step with
        | None => Some vals'
        | Some k => step_loop fuel' (wrap64 (i + k)) max step vals'
        end
    end
  else Some vals.

(** [for ((i=start; i<=end; i++)); do result="$result $i"; done], from the
    current [i]. *)
Fixpoint range_loop (fuel : nat) (i end_ : Z) (result : string) : option string :=
  if i <=? end_ then
    match fuel with
    | O => None
    | S fuel' => range_loop fuel' (wrap64 (i + 1)) end_ (result +:+ " " +:+ string_of_Z i)
    end
  else Some result.

(** [^\*/[0-9]+$]: the digits after the slash when the field matches. *)
Definition star_step (field : string) : option string :=
  if starts_with "*/" field && all_digits (skip 2 field)
  then Some (skip 2 field)
  else None.

(** [^[0-9]+-[0-9]+$]: the two digit strings when the part matches; these
    are [${part%-*}] and [${part#*-}]. *)
Definition range_part (part : string) : option (string * string) :=
  match split_first "-" part with
  | Some (a, b) => if all_digits a && all_digits b then Some (a, b) else None
  | None => None
  end.

(** [IFS=',' read -ra parts <<< "$field"]: the pieces between commas; a
    final empty piece is dropped, and an empty field has no piece. *)
Definition read_parts (field : string) : list string :=
  let ps := split_all "," field in
  match reverse ps with
  | "" :: before => reverse before
  | _ => ps
  end.

(** The body of [for part in "${parts[@]}"]. *)
Definition expand_part (fuel : nat) (part : string) (result : string)
  : option string :=
  match range_part part with
  | Some (a, b) =>
      match arith_value a, arith_value b with
      | Some start, Some end_ => range_loop fuel start end_ result
      | _, _ => Some result
      end
  | None => Some (result +:+ " " +:+ part)
  end.

Fixpoint expand_parts (fuel : nat) (parts : list string) (result : string)
  : option string :=
  match parts with
  | [] => Some result
  | part :: rest =>
      match expand_part fuel part result with
      | Some result' => expand_parts fuel rest result'
      | None => None
      end
  end.

(** [expand_field field max]: the text it echoes. *)
Definition expand_field (fuel : nat) (field : string) (max : Z) : option string :=
  if String.eqb field "*" then Some "*"
  else
    match star_step field with
    | Some step => step_loop fuel 0 max (arith_value step) ""
    | None => expand_parts fuel (read_parts field) ""
    end.

(** [[ "$m" != "*" ] && echo "        <key>K</key><integer>$m</integer>"] *)
Definition key_line (key v : string) : list string :=
  if String.eqb v "*" then []
  else ["        <key>" +:+ key +:+ "</key><integer>" +:+ v +:+ "</integer>"].

Definition dict_lines (m h d mo dw : string) : list string :=
  ["      <dict>"] ++ key_line "Minute" m ++ key_line "Hour" h ++
  key_line "Day" d ++ key_line "Month" mo ++ key_line "Weekday" dw ++
  ["      </dict>"].

(** [generate_dicts]: the five nested loops over the words of the
    expansions (no globbing: [set -f]); the lines echoed. *)
Definition generate_dicts (mins hours doms mons dows : string) : list string :=
  m ← words mins;
  h ← words hours;
  d ← words doms;
  mo ← words mons;
  dw ← words dows;
  dict_lines m h d mo dw.

(** [read -r min hour dom mon dow <<< "$cron"]: the first four words of
    the line, and what is left of it without the blanks around it. *)
Definition read_fields (cron : string)
  : string * string * string * string * string :=
  let line := skip_blanks (first_line cron) in
  let '(min, r1) := take_word line in
  let '(hour, r2) := take_word (skip_blanks r1) in
  let '(dom, r3) := take_word (skip_blanks r2) in
  let '(mon, r4) := take_word (skip_blanks r3) in
  (min, hour, dom, mon, rstrip (skip_blanks r4)).

(** [grep -c '<dict>'] *)
Definition grep_count (pat : string) (lines : list string) : nat :=
  length (List.filter (contains pat) lines).

(** [sed 's/^      /    /'] on one line. *)
Definition sed_unindent (line : string) : string :=
  if starts_with "      " line then "    " +:+ skip 6 line else line.

(** [echo "$dicts"]: the captured lines, or one empty line. *)
Definition echo_lines (lines : list string) : list string :=
  match lines with
  | [] => [""]
  | _ => lines
  end.

(** The end of [cron_to_calendar_interval]: one dictionary is printed as
    it is, less indented; any other number goes into an [<array>]. *)
Definition printed (dicts : list string) : list string :=
  let count := grep_count "<dict>" (echo_lines dicts) in
  if (count =? 1)%nat
  then sed_unindent <$> echo_lines dicts
  else ["    <array>"] ++ echo_lines dicts ++ ["    </array>"].

(** [cron_to_calendar_interval "$cron"]: the lines it prints. *)
Definition cron_to_calendar_interval (fuel : nat) (cron : string)
  : option (list string) :=
  let '(min, hour, dom, mon, dow) := read_fields cron in
  min_vals ← expand_field fuel min 60;
  hour_vals ← expand_field fuel hour 24;
  dom_vals ← expand_field fuel dom 32;
  mon_vals ← expand_field fuel mon 13;
  dow_vals ← expand_field fuel dow 7;
  Some (printed (generate_dicts min_vals hour_vals dom_vals mon_vals dow_vals)).

(** *** Expressions written with canonical numerals

    A field is [*], [*/step], or a comma-separated list of numbers,
    [start-end] ranges and [start-end/step] strides, where the numbers
    are written without leading zeros and lie in the field's domain, and
    steps are at least 1. *)

Definition canonical (s : string) : bool :=
  all_digits s && (String.eqb s "0" || negb (starts_with "0" s)).

Definition number_in (lo hi : Z) (s : string) : bool :=
  canonical s && (lo <=? dec_value s) && (dec_value s <=? hi).

Definition canonical_part (lo hi : Z) (part : string) : bool :=
  match split_first "-" part with
  | Some (a, rest) =>
      number_in lo hi a &&
      (number_in lo hi rest ||
       match split_first "/" rest with
       | Some (b, step) => number_in lo hi b && number_in 1 hi step
       | None => false
       end)
  | None => number_in lo hi part
  end.

Definition canonical_field (lo hi : Z) (field : string) : bool :=
  if String.eqb field "*" then true
  else if starts_with "*/" field then number_in 1 hi (skip 2 field)
  else forallb (canonical_part lo hi) (split_all "," field).

Definition not_newline (c : ascii) : bool := negb (code c =? 10).

Definition canonical_cron (cron : string) : bool :=
  all_chars not_newline cron &&
  match words cron with
  | [min; hour; dom; mon; dow] =>
      canonical_field 0 59 min && canonical_field 0 23 hour &&
      canonical_field 1 31 dom && canonical_field 1 12 mon &&
      canonical_field 0 6 dow
  | _ => false
  end.

(** *** Valid expressions

    The grammar of the specification: exactly five blank-separated
    fields, each [*], [*/step], or a comma-separated list of integers,
    [start-end] ranges and [start-end/step] strides, the integers within
    the field's domain (however many zeros they are written with) and the
    steps at least 1. *)

Definition integer_in (lo hi : Z) (s : string) : bool :=
  all_digits s && (lo <=? dec_value s) && (dec_value s <=? hi).

Definition valid_part (lo hi : Z) (part : string) : bool :=
  match split_first "-" part with
  | Some (a, rest) =>
      integer_in lo hi a &&
      (integer_in lo hi rest ||
       match split_first "/" rest with
       | Some (b, step) => integer_in lo hi b && integer_in 1 hi step
       | None => false
       end)
  | None => integer_in lo hi part
  end.

Definition valid_field (lo hi : Z) (field : string) : bool :=
  if String.eqb field "*" then true
  else if starts_with "*/" field then integer_in 1 hi (skip 2 field)
  else forallb (valid_part lo hi) (split_all "," field).

Definition valid_cron (cron : string) : bool :=
  all_chars not_newline cron &&
  match words cron with
  | [min; hour; dom; mon; dow] =>
      valid_field 0 59 min && valid_field 0 23 hour && valid_field 1 31 dom &&
      valid_field 1 12 mon && valid_field 0 6 dow
  | _ => false
  end.

(** *** The expansion the specification describes

    Each field expands into a set of integers of its domain: an integer
    into itself, [start-end] into the integers from [start] to [end],
    [start-end/step] into every [step]-th of them from [start] on, a list
    into the values of its parts, [*/step] into every [step]-th integer
    of the domain from its first on; [*] is unconstrained and counts as
    one placeholder. *)

Definition stride (start end_ step : Z) : list Z :=
  if step <=? 0 then []
  else (fun k => start + k * step) <$> seqZ 0 ((end_ - start) / step + 1).

Definition part_expansion (part : string) : list Z :=
  match split_first "-" part with
  | Some (a, rest) =>
      match split_first "/" rest with
      | Some (b, step) => stride (dec_value a) (dec_value b) (dec_value step)
      | None => stride (dec_value a) (dec_value rest) 1
      end
  | None => [dec_value part]
  end.

(** [None] for the unconstrained field. *)
Definition field_expansion (lo hi : Z) (field : string) : option (list Z) :=
  if String.eqb field "*" then None
  else if starts_with "*/" field
  then Some (stride lo hi (dec_value (skip 2 field)))
  else Some (remove_dups (part ← split_all "," field; part_expansion part)).

Definition expansion_cardinality (lo hi : Z) (field : string) : nat :=
  match field_expansion lo hi field with
  | Some values => length values
  | None => 1
  end.

(** The product of the five cardinalities. *)
Definition expected_instants (cron : string) : nat :=
  match words cron with
  | [min; hour; dom; mon; dow] =>
      (expansion_cardinality 0 59 min * expansion_cardinality 0 23 hour *
       expansion_cardinality 1 31 dom * expansion_cardinality 1 12 mon *
       expansion_cardinality 0 6 dow)%nat
  | _ => 0%nat
  end.

(** The five keys, in the order of the fields. *)
Definition keys : list string := ["Minute"; "Hour"; "Day"; "Month"; "Weekday"].

Definition key_tag (key : string) : string := "<key>" +:+ key +:+ "</key>".

(** Some line of the output names the key. *)
Definition mentions (key : string) (out : list string) : bool :=
  existsb (contains (key_tag key)) out.

(** The number of values a field's expansion holds. *)
Definition cardinality (expansion : string) : nat := length (words expansion).

(** The values between [<integer>] and [</integer>] on the lines of an
    output: what follows the opening tag up to the next [<]. *)
Fixpoint until_lt (s : string) : string :=
  match s with
  | EmptyString => ""
  | String c s' => if code c =? 60 then "" else String c (until_lt s')
  end.

Fixpoint integer_values_of_line (fuel : nat) (line : string) : list string :=
  match fuel with
  | O => []
  | S fuel' =>
      match line with
      | EmptyString => []
      | String _ rest =>
          if starts_with "<integer>" line
          then until_lt (skip 9 line) :: integer_values_of_line fuel' rest
          else integer_values_of_line fuel' rest
      end
  end.

Definition integer_values (out : list string) : list string :=
  line ← out; integer_values_of_line (String.length line) line.

(** The values printed for one key. *)
Definition key_values (key : string) (out : list string) : list string :=
  integer_values (List.filter (contains (key_tag key)) out).

End Cron.

(* ===================================================================== *)
(** ** Listing runs ([server/routes/runs.ts], [GET /api/runs]) *)
(* ===================================================================== *)

Module RunsApi.

Import State Number.

Definition number := jsnum.

(** [a + b] *)
Definition js_add (a b : number) : number := add a b.

(** How [Array.prototype.slice] reads a bound: [NaN] counts as 0, a
    negative bound is taken from the end, and both are clamped to the
    array. *)
Definition relative_index (len : Z) (k : number) : Z :=
  match k with
  | NaN => 0
  | Inf positive => if positive then len else 0
  | Int k => if k <? 0 then Z.max (len + k) 0 else Z.min k len
  end.

(** [l.slice(start, end)] *)
Definition js_slice {A} (l : list A) (start end_ : number) : list A :=
  let len := Z.of_nat (length l) in
  let k := relative_index len start in
  let final := relative_index len end_ in
  firstn (Z.to_nat (final - k)) (skipn (Z.to_nat k) l).

(** [c.req.query(name) || fallback]: a missing or empty parameter gives
    the fallback. *)
Definition query_or (q : option string) (fallback : string) : string :=
  match q with
  | Some s => if String.eqb s "" then fallback else s
  | None => fallback
  end.

(** [!r.status]: the member is absent or empty. *)
Definition no_status (r : RunRecord) : bool :=
  match status r with
  | Some s => String.eqb s ""
  | None => true
  end.

(** The predicate of [runs.filter(...)] for a non-empty [status]. *)
Definition status_filter (wanted : string) (r : RunRecord) : bool :=
  if String.eqb wanted "success" then
    no_status r && bool_decide (exitCode r = Some 0)
  else if String.eqb wanted "failed" then
    no_status r && bool_decide (exitCode r <> None) &&
    negb (bool_decide (exitCode r = Some 0))
  else bool_decide (status r = Some wanted).

(** [getRecentRuns().reverse()], filtered when [status] is given and not
    empty. *)
Definition listing (st : store) (q_status : option string) : list RunRecord :=
  let runs := reverse (getRecentRuns st) in
  match q_status with
  | Some s => if String.eqb s "" then runs else List.filter (status_filter s) runs
  | None => runs
  end.

(** [GET /api/runs]: the page and [total]. *)
Definition list_runs (st : store) (q_limit q_offset q_status : option string)
  : list RunRecord * Z :=
  let limit := RunnerLib.parseInt (query_or q_limit "30") in
  let offset := RunnerLib.parseInt (query_or q_offset "0") in
  let runs := listing st q_status in
  (js_slice runs offset (js_add offset limit), Z.of_nat (length runs)).

(** A record as [runner.sh] and [killJob] leave it: without a status
    and with an exit code, or with a status that is neither empty nor one
    of the two derived ones. *)
Definition settled (r : RunRecord) : bool :=
  match status r with
  | None => bool_decide (exitCode r <> None)
  | Some s =>
      negb (String.eqb s "") && negb (String.eqb s "success") &&
      negb (String.eqb s "failed")
  end.

(** [echo $$ > "$PIDFILE"] in [runner.sh]: the shell's process id and a
    newline. *)
Definition pid_file_content (pid : Z) : string :=
  Text.string_of_Z pid +:+ String (ascii_of_nat 10) "".

(** [POST /api/runs/kill/:jobName] *)
Definition kill (os : Z -> RunnerLib.kill_outcome) (w : Runner.World)
    (jobName now : string) : Routes.response * Runner.World :=
  let '(result, w', _) := RunnerLib.killJob os w jobName now in
  if RunnerLib.killed result then (Routes.Ok200 "killed", w')
  else (Routes.Error 404 (default "" (RunnerLib.kill_error result)), w').

End RunsApi.

(* ===================================================================== *)
(** ** Creating, updating, deleting and describing jobs
       ([server/lib/jobs.ts], [server/routes/jobs.ts]) *)
(* ===================================================================== *)

Module JobsCrud.

Import Text Jobs.

(** A YAML text handed to the server, by what [loadYaml] makes of it: the
    document, or the message of the exception. *)
Inductive yaml_text :=
| Parsed (v : yval)
| Malformed (message : string).

(** [{ ok: boolean; error?: string }] *)
Record Result := mkResult {
  ok : bool;
  error : option string
}.

Definition succeeded : Result := {| ok := true; error := None |}.

Definition failed (message : string) : Result :=
  {| ok := false; error := Some message |}.

(** [createJob]: the file goes to [jobs/]. *)
Definition createJob (w : JobFiles) (name : string) (yaml : yaml_text)
  : Result * JobFiles :=
  if negb (validateJobName name) then (failed "Job name must match [a-z0-9-]+", w)
  else
    match resolveJobFile w name with
    | Some _ => (failed ("Job already exists: " +:+ name), w)
    | None =>
        match yaml with
        | Malformed message => (failed ("Invalid YAML: " +:+ message), w)
        | Parsed v => (succeeded, syncSchedule (write_job w SharedDir name (Doc v)))
        end
    end.

(** [updateJob]: the file that [resolveJobFile] finds is overwritten. *)
Definition updateJob (w : JobFiles) (name : string) (yaml : yaml_text)
  : Result * JobFiles :=
  if negb (validateJobName name) then (failed "Job name must match [a-z0-9-]+", w)
  else
    match resolveJobFile w name with
    | None => (failed ("Job not found: " +:+ name), w)
    | Some dir =>
        match yaml with
        | Malformed message => (failed ("Invalid YAML: " +:+ message), w)
        | Parsed v => (succeeded, syncSchedule (write_job w dir name (Doc v)))
        end
    end.

(** [unlinkSync(jobFile)], of a name [validateJobName] accepts. *)
Definition remove_job (w : JobFiles) (dir : job_dir) (name : string) : JobFiles :=
  match dir with
  | LocalDir => {| jobs_local := delete name (jobs_local w);
                   jobs_shared := jobs_shared w;
                   script_dir := script_dir w; elsewhere := elsewhere w;
                   syncs := syncs w |}
  | SharedDir => {| jobs_local := jobs_local w;
                    jobs_shared := delete name (jobs_shared w);
                    script_dir := script_dir w; elsewhere := elsewhere w;
                    syncs := syncs w |}
  end.

Definition backslash : string := String (ascii_of_nat 92) "".

(** [name.includes("/") || name.includes("..") || name.includes("\\")] *)
Definition looks_like_a_path (name : string) : bool :=
  contains "/" name || contains ".." name || contains backslash name.

(** [deleteJob]. [locks] holds the names whose lock directory exists;
    [unlink_error] is the message of the exception [unlinkSync] throws,
    if it throws. *)
Definition deleteJob (unlink_error : option string) (locks : gset string)
    (w : JobFiles) (name : string) : Result * JobFiles :=
  if negb (validateJobName name) then (failed "Invalid job name", w)
  else if looks_like_a_path name then (failed "Invalid job name", w)
  else
    match resolveJobFile w name with
    | None => (failed ("Job not found: " +:+ name), w)
    | Some dir =>
        if bool_decide (name ∈ locks)
        then (failed ("Job '" +:+ name +:+ "' is currently running. Kill it first."), w)
        else
          match unlink_error with
          | Some message => (failed ("Failed to delete: " +:+ message), w)
          | None => (succeeded, syncSchedule (remove_job w dir name))
          end
    end.

(** A [Set] of strings in insertion order: [names.add(f)]. *)
Definition set_add (names : list string) (f : string) : list string :=
  if bool_decide (f ∈ names) then names else names ++ [f].

(** The names [readdirSync(dir)] gives for the [.yaml] entries of a
    directory, in the order it lists them. *)
Definition yaml_names (dir : gmap string yaml_file) : list string :=
  (map_to_list dir).*1.

(** [listJobs]: [jobs/] is read first, then [jobs.local/]. *)
Definition listJobs (w : JobFiles) : list string :=
  foldl set_add (foldl set_add [] (yaml_names (jobs_shared w)))
    (yaml_names (jobs_local w)).

(** [def.key]: only a mapping has the members asked for here. *)
Definition member (def : yval) (key : string) : option yval :=
  match def with
  | YMap o => obj_get key o
  | _ => None
  end.

(** [def.key || null] *)
Definition member_or_null (def : yval) (key : string) : option yval :=
  match member def key with
  | Some v => if truthy v then Some v else None
  | None => None
  end.

(** [def.key !== false] *)
Definition member_not_false (def : yval) (key : string) : bool :=
  match member def key with
  | Some (YBool false) => false
  | _ => true
  end.

Record JobInfo := mkJobInfo {
  name : string;
  schedule : option yval;
  workdir : option yval;
  retries : yval;
  timeout : option yval;
  notify : bool;
  enabled : bool;
  isRunning : bool
}.

(** [getJobInfo]; [None] is [null]. *)
Definition getJobInfo (locks : gset string) (w : JobFiles) (name : string)
  : option JobInfo :=
  match getJobDefinition w name with
  | None => None
  | Some def =>
      if negb (truthy def) then None
      else
        Some {| name := name;
                schedule := member_or_null def "schedule";
                workdir := member_or_null def "workdir";
                retries := default (YNum 0) (member_or_null def "retries");
                timeout := member_or_null def "timeout";
                notify := member_not_false def "notify";
                enabled := member_not_false def "enabled";
                isRunning := bool_decide (name ∈ locks) |}
  end.

(** [DELETE /api/jobs/:name]: the status and the message. *)
Definition delete_route (unlink_error : option string) (locks : gset string)
    (w : JobFiles) (name : string) : Z * string * JobFiles :=
  let '(result, w') := deleteJob unlink_error locks w name in
  if ok result then (200, "deleted", w')
  else
    let message := default "" (error result) in
    (if contains "not found" message then 404 else 400, message, w').

End JobsCrud.

(* ===================================================================== *)
(** ** The environment of a spawned runner ([server/lib/runner.ts]) *)
(* ===================================================================== *)

Module Spawn.

Import Text.

(** [`${v}`] for a variable of the environment that may be unset. *)
Definition template (v : option string) : string := default "undefined" v.

Definition extraPaths (HOME : option string) : list string :=
  ["/opt/homebrew/bin"; "/usr/local/bin";
   template HOME +:+ "/.bun/bin"; template HOME +:+ "/.local/bin"].

(** [cleanEnv.PATH || "/usr/bin:/bin"] *)
Definition currentPath (PATH : option string) : string :=
  match PATH with
  | Some p => if String.eqb p "" then "/usr/bin:/bin" else p
  | None => "/usr/bin:/bin"
  end.

(** [[...new Set([...extraPaths, ...currentPath.split(":")])]] *)
Definition path_entries (HOME PATH : option string) : list string :=
  foldl JobsCrud.set_add [] (extraPaths HOME ++ split_all ":" (currentPath PATH)).

Definition no_colon (c : ascii) : bool := negb (Ascii.eqb c ":").

(** [l.join(sep)] *)
Fixpoint join (sep : string) (l : list string) : string :=
  match l with
  | [] => ""
  | [x] => x
  | x :: l' => x +:+ sep +:+ join sep l'
  end.

Definition fullPath (HOME PATH : option string) : string :=
  join ":" (path_entries HOME PATH).

(** The [env] option of [spawn]: [process.env] without [CLAUDECODE] and
    with the extended [PATH]. *)
Definition spawn_env (env : gmap string string) : gmap string string :=
  let cleanEnv := delete "CLAUDECODE" env in
  <["PATH" := fullPath (env !! "HOME") (cleanEnv !! "PATH")]> cleanEnv.

End Spawn.

(* ===================================================================== *)
(** ** Reading logs ([server/lib/logs.ts]) *)
(* ===================================================================== *)

Module Logs.

Import Text.

(** [buffer.subarray(begin)]: a negative [begin] counts from the end. *)
Definition subarray (bytes : string) (begin : Z) : string :=
  let len := Z.of_nat (String.length bytes) in
  let k := if begin <? 0 then Z.max (len + begin) 0 else Z.min begin len in
  skip (Z.to_nat k) bytes.

(** [getLogContentFromOffset]. The file is given by its bytes, [None]
    when it does not exist or cannot be read; the content is what
    [toString("utf8")] makes of the bytes from the offset on. *)
Definition getLogContentFromOffset (file : option string) (offset : Z)
  : option (string * Z) :=
  match file with
  | None => None
  | Some bytes =>
      let size := Z.of_nat (String.length bytes) in
      if size <=? offset then Some ("", offset)
      else Some (utf8_decode (subarray bytes offset), size)
  end.

(** [getLogSize] *)
Definition getLogSize (file : option string) : Z :=
  match file with
  | None => 0
  | Some bytes => Z.of_nat (String.length bytes)
  end.

End Logs.

(* ===================================================================== *)
(** ** Which jobs [setup.sh] schedules *)
(* ===================================================================== *)

Module Setup.

Import Text Jobs.






End Setup.

(* ===================================================================== *)
(** ** Expressions the cron compiler expands in full *)
(* ===================================================================== *)

Module CronDomain.

Import Text Cron.

(** A number of the domain, or a range between two of them. *)
Definition plain_part (lo hi : Z) (part : string) : bool :=
  match split_first "-" part with
  | Some (a, b) => number_in lo hi a && number_in lo hi b
  | None => number_in lo hi part
  end.

(** A field without a stride over a range, and with a stride over [*]
    only where the domain starts at 0: [*], [*/step], or a list of
    numbers and ranges. *)
Definition plain_field (lo hi : Z) (field : string) : bool :=
  if String.eqb field "*" then true
  else if starts_with "*/" field then (lo =? 0) && number_in 1 hi (skip 2 field)
  else forallb (plain_part lo hi) (split_all "," field).

Definition plain_cron (cron : string) : bool :=
  all_chars not_newline cron &&
  match words cron with
  | [min; hour; dom; mon; dow] =>
      plain_field 0 59 min && plain_field 0 23 hour && plain_field 1 31 dom &&
      plain_field 1 12 mon && plain_field 0 6 dow
  | _ => false
  end.

(** The domain of the field a key stands for. *)
Definition domain (key : string) : Z * Z :=
  if String.eqb key "Minute" then (0, 59)
  else if String.eqb key "Hour" then (0, 23)
  else if String.eqb key "Day" then (1, 31)
  else if String.eqb key "Month" then (1, 12)
  else (0, 6).

End CronDomain.

(* ===================================================================== *)
(** ** The configuration ([server/lib/config.ts], [cfg] in [runner.sh]) *)
(* ===================================================================== *)

Module Config.

Import Text Jobs.






End Config.

(* ===================================================================== *)
(** ** The event stream ([server/routes/events.ts]) *)
(* ===================================================================== *)

Module Events.

Import Text State.

(** [`${r.runId}:${r.status || r.exitCode}`] *)
Definition hash_entry (r : RunRecord) : string :=
  let exit_text :=
    match exitCode r with
    | Some c => string_of_Z c
    | None => "undefined"
    end in
  runId r +:+ ":" +:+
  match status r with
  | Some s => if String.eqb s "" then exit_text else s
  | None => exit_text
  end.

(** What the handler keeps between two passes of its loop. The hash is
    kept as the array that [JSON.stringify] encodes, [None] standing for
    the initial empty string; [logOffsets] is keyed by run id (which is
    taken not to be the name of a member of [Object.prototype]). *)
Record Stream := mkStream {
  lastRunsHash : option (list string);
  logOffsets : gmap string Z;
  previouslyRunning : list string
}.

Definition start : Stream :=
  {| lastRunsHash := None; logOffsets := ∅; previouslyRunning := [] |}.

(** The events written to the stream. *)
Inductive sse :=
| StatusEvent (runs : list RunRecord)
| LogEvent (runId jobName content : string) (offset : Z).

(** [getLogContentFromOffset(run.logFile, offset)] and the test
    [result && result.content]: the new offset and the event, if any. *)
Definition tail_log (files : gmap string string) (run : RunRecord) (offset : Z)
  : option (Z * sse) :=
  match Logs.getLogContentFromOffset (files !! logFile run) offset with
  | Some (content, newOffset) =>
      if String.eqb content "" then None
      else Some (newOffset, LogEvent (runId run) (jobName run) content offset)
  | None => None
  end.

(** The body the two [for] loops share, for the run [find] gives for the
    id: [logOffsets[run.runId] || 0] is read, and updated when there is
    something to send. *)
Definition tail_step (files : gmap string string)
    (find_run : string -> option RunRecord)
    (acc : gmap string Z * list sse) (id : string) : gmap string Z * list sse :=
  match find_run id with
  | Some run =>
      match tail_log files run (default 0 (acc.1 !! runId run)) with
      | Some (newOffset, event) =>
          (<[runId run := newOffset]> acc.1, acc.2 ++ [event])
      | None => acc
      end
  | None => acc
  end.

(** [new Set(runs.filter(r => r.status === "running").map(r => r.runId))] *)
Definition running_ids (runs : list RunRecord) : list string :=
  foldl JobsCrud.set_add [] (runId <$> List.filter is_running runs).

(** One pass of the loop whose writes to the stream succeed (a failed
    write ends the loop), for the store and the log files as they are
    then: the state kept for the next pass and the events written.
    [runs.reverse()] reverses the array the last loop searches. *)
Definition poll (st : store) (files : gmap string string) (s : Stream)
  : Stream * list sse :=
  let runs := getRecentRuns st in
  let runsHash := hash_entry <$> runs in
  let currentlyRunning := running_ids runs in
  let flushed :=
    foldl (tail_step files
             (fun id => if bool_decide (id ∈ currentlyRunning) then None
                        else find (has_id id) runs))
          (logOffsets s, []) (previouslyRunning s) in
  let changed := negb (bool_decide (lastRunsHash s = Some runsHash)) in
  let status_events :=
    if changed then [StatusEvent (firstn 50 (reverse runs))] else [] in
  let runs' := if changed then reverse runs else runs in
  let tailed :=
    foldl (tail_step files (fun id => find (has_id id) runs'))
          (flushed.1, flushed.2 ++ status_events) currentlyRunning in
  ({| lastRunsHash := if changed then Some runsHash else lastRunsHash s;
      logOffsets := tailed.1;
      previouslyRunning := currentlyRunning |},
   tailed.2).

(** The log content the events carry for one run, in order. *)
Fixpoint delivered (id : string) (events : list sse) : string :=
  match events with
  | [] => ""
  | LogEvent rid _ content _ :: rest =>
      if String.eqb rid id then content +:+ delivered id rest
      else delivered id rest
  | StatusEvent _ :: rest => delivered id rest
  end.

End Events.

(* ===================================================================== *)
(** * Properties *)
(* ===================================================================== *)

(** ** The retention cap of the run-state store *)

Section Retention.

Import State Runner.

Lemma keep_last_100_length (runs : list RunRecord) :
  (length (keep_last_100 runs) <= 100)%nat.
Proof.
  unfold keep_last_100.
  destruct (100 <? length runs)%nat eqn:E.
  - apply Nat.ltb_lt in E. rewrite length_drop. lia.
  - apply Nat.ltb_ge in E. exact E.
Qed.

Lemma keep_last_100_drop (runs : list RunRecord) :
  keep_last_100 runs = drop (length runs - 100) runs.
Proof.
  unfold keep_last_100.
  destruct (100 <? length runs)%nat eqn:E; [reflexivity|].
  apply Nat.ltb_ge in E.
  replace (length runs - 100)%nat with 0%nat by lia. reflexivity.
Qed.

Lemma keep_last_100_split (runs : list RunRecord) :
  runs = take (length runs - 100) runs ++ keep_last_100 runs.
Proof. rewrite keep_last_100_drop. symmetry. apply take_drop. Qed.

Lemma keep_last_100_full (runs : list RunRecord) :
  (100 <= length runs)%nat -> length (keep_last_100 runs) = 100%nat.
Proof. intros H. rewrite keep_last_100_drop, length_drop. lia. Qed.

Lemma keep_last_100_last (runs : list RunRecord) (r : RunRecord) :
  last (keep_last_100 (runs ++ [r])) = Some r.
Proof.
  rewrite keep_last_100_drop, length_app. simpl.
  rewrite last_lookup, length_drop, length_app. simpl.
  rewrite lookup_drop.
  replace (length runs + 1 - 100 +
           Init.Nat.pred (length runs + 1 - (length runs + 1 - 100)))%nat
    with (length runs) by lia.
  rewrite lookup_app_r by lia. rewrite Nat.sub_diag. reflexivity.
Qed.

Lemma keep_last_100_unique (runs kept : list RunRecord) :
  runs = take (length runs - 100) runs ++ kept -> kept = keep_last_100 runs.
Proof.
  intros H. rewrite keep_last_100_drop.
  rewrite <- (take_drop (length runs - 100) runs) in H at 1.
  apply app_inv_head in H. symmetry. exact H.
Qed.

(** C6. After the runner appends the [running] entry, [state.json] holds
    at most 100 records; the records dropped are a prefix of the old
    sequence followed by the new entry, i.e. the oldest by insertion
    order, exactly as many as exceed the cap, and the new entry is the
    last record kept. The final update does the same with the sequence
    it builds: the old one with the final entry in the place of the
    first record with the run's id, or, when no record has the id, the
    old one followed by the final entry, which then is the last record
    kept. *)
Theorem store_never_exceeds_100 (st : store)
    (run_id job start stop log : string) (code att : Z) :
  let entry := {| runId := run_id; jobName := job; startedAt := start;
                  completedAt := None; exitCode := None; attempts := None;
                  status := Some "running"; logFile := log |} in
  let final := final_entry run_id job start stop code att log in
  let old := getRecentRuns st in
  let all := old ++ [entry] in
  let updated :=
    match findIndex (has_id run_id) old with
    | Some idx => <[idx := final]> old
    | None => old ++ [final]
    end in
  (exists kept,
     write_running_entry st run_id job start log = Some kept /\
     (length kept <= 100)%nat /\
     all = take (length all - 100) all ++ kept /\
     length kept = Nat.min 100 (length all) /\
     last kept = Some entry) /\
  (exists kept',
     final_update st run_id job start stop code att log = Some kept' /\
     (length kept' <= 100)%nat /\
     updated = take (length updated - 100) updated ++ kept' /\
     length kept' = Nat.min 100 (length updated) /\
     (findIndex (has_id run_id) old = None -> last kept' = Some final) /\
     (forall idx, findIndex (has_id run_id) old = Some idx ->
        length updated = length old /\
        ((length old <= 100)%nat -> kept' = <[idx := final]> old))).
Proof.
  intros entry final old all updated. split.
  - exists (keep_last_100 all).
    split; [reflexivity|].
    split; [apply keep_last_100_length|].
    split; [apply keep_last_100_split|].
    split; [rewrite keep_last_100_drop, length_drop; lia|].
    apply keep_last_100_last.
  - exists (keep_last_100 updated).
    split; [reflexivity|].
    split; [apply keep_last_100_length|].
    split; [apply keep_last_100_split|].
    split; [rewrite keep_last_100_drop, length_drop; lia|].
    split.
    + intros Hnone. unfold updated. rewrite Hnone. apply keep_last_100_last.
    + intros idx Hidx. unfold updated. rewrite Hidx.
      rewrite length_insert. split; [reflexivity|].
      intros Hle. unfold keep_last_100. rewrite length_insert.
      destruct (100 <? length old)%nat eqn:E; [|reflexivity].
      apply Nat.ltb_lt in E. lia.
Qed.

End Retention.

(** ** Authentication *)

Section Authentication.

Import Jobs Server.

Lemma auth_middleware_spec (token : yval) (req : Request) :
  auth_middleware token req = Unauthorized <->
  enforced token = true /\ carries token req = false.
Proof.
  unfold auth_middleware, enforced.
  destruct (truthy token), (is_placeholder token), (carries token req);
    simpl; split; try discriminate; try (intros [? ?]; discriminate); auto.
Qed.

Lemma enforcement_off (auth_token : option yval) :
  enforced (AUTH_TOKEN auth_token) = false <->
  match auth_token with
  | None => True
  | Some v => truthy v = false \/ v = YStr "changeme"
  end.
Proof.
  unfold enforced, AUTH_TOKEN. destruct auth_token as [v|]; [|split; auto].
  destruct (truthy v) eqn:Ht; [|split; auto].
  rewrite Ht. simpl. rewrite negb_false_iff. unfold is_placeholder.
  split.
  - intros H. right. destruct v; try discriminate.
    apply String.eqb_eq in H. subst. reflexivity.
  - intros [?| ->]; [discriminate|reflexivity].
Qed.

(** C8, as amended. A request under [/api] whose method is not [OPTIONS],
    the health check included, is answered with 401 exactly when a
    secret is enforced and the request carries it neither as
    [Authorization: Bearer <secret>] nor, the secret being a string, as
    [?token=<secret>]; an [OPTIONS] request under [/api] is answered by
    the CORS middleware, whatever it carries. Enforcement is off exactly
    when the secret is absent, falsy or ["changeme"], and then no
    request is answered with 401. *)
Theorem api_requests_need_the_secret (auth_token : option yval) (req : Request) :
  under_api (path req) = true ->
  (method req <> "OPTIONS" ->
     (serve auth_token req = Rejected401 <->
        enforced (AUTH_TOKEN auth_token) = true /\
        carries (AUTH_TOKEN auth_token) req = false)) /\
  (method req = "OPTIONS" -> serve auth_token req = Preflight204) /\
  (enforced (AUTH_TOKEN auth_token) = false <->
     match auth_token with
     | None => True
     | Some v => truthy v = false \/ v = YStr "changeme"
     end) /\
  (enforced (AUTH_TOKEN auth_token) = false ->
   forall any : Request, serve auth_token any <> Rejected401).
Proof.
  intros Hapi. split; [|split; [|split]].
  - intros Hm. unfold serve. rewrite Hapi.
    destruct (String.eqb_spec (method req) "OPTIONS") as [?|_]; [contradiction|].
    rewrite <- auth_middleware_spec.
    destruct (auth_middleware (AUTH_TOKEN auth_token) req).
    + split; [|discriminate].
      repeat match goal with |- context [if ?b then _ else _] => destruct b end;
        discriminate.
    + split; reflexivity.
  - intros Hm. unfold serve. rewrite Hapi, Hm. reflexivity.
  - apply enforcement_off.
  - intros Hoff any. unfold serve.
    destruct (under_api (path any)); [|discriminate].
    destruct (String.eqb (method any) "OPTIONS"); [discriminate|].
    destruct (auth_middleware (AUTH_TOKEN auth_token) any) eqn:Ha.
    + repeat match goal with |- context [if ?b then _ else _] => destruct b end;
        discriminate.
    + apply auth_middleware_spec in Ha as [Ha _]. congruence.
Qed.

Lemma api_requests_need_the_secret_witness :
  let req := {| method := "GET"; path := "/api/health";
                authorization := Some "Bearer wrong"; query_token := None |} in
  serve (Some (YStr "s3cret")) req = Rejected401.
Proof.
  intros req.
  assert (Ha : under_api (path req) = true) by reflexivity.
  assert (Hm : method req <> "OPTIONS") by discriminate.
  apply (proj1 (api_requests_need_the_secret (Some (YStr "s3cret")) req Ha) Hm).
  split; reflexivity.
Defined.

(** C8, as the claim has it, fails twice. With the secret ["s3cret"]
    enforced, the liveness probe without a credential is answered with
    401: the health check is registered under [/api], so the middleware
    that guards "all /api routes" runs before it. And an [OPTIONS]
    request for the runs, without a credential, is not answered with
    401: the CORS middleware, registered first, answers it. *)
Lemma probe_is_guarded_and_preflight_is_not :
  let secret := Some (YStr "s3cret") in
  enforced (AUTH_TOKEN secret) = true /\
  serve secret {| method := "GET"; path := "/api/health";
                  authorization := None; query_token := None |} = Rejected401 /\
  carries (AUTH_TOKEN secret)
    {| method := "OPTIONS"; path := "/api/runs";
       authorization := None; query_token := None |} = false /\
  serve secret {| method := "OPTIONS"; path := "/api/runs";
                  authorization := None; query_token := None |} = Preflight204.
Proof. repeat split. Qed.

(** A secret that the configuration gives as a number is enforced, and
    only the header can carry it: [?token=] is compared with the number
    itself. *)
Lemma number_as_secret :
  let secret := Some (YNum 12345) in
  serve secret {| method := "GET"; path := "/api/runs";
                  authorization := None; query_token := Some "12345" |}
    = Rejected401 /\
  serve secret {| method := "GET"; path := "/api/runs";
                  authorization := Some "Bearer 12345"; query_token := None |}
    = RunsRoute.
Proof. split; reflexivity. Qed.

End Authentication.

(** ** Run identifiers *)

Section RunIds.

Import Text Clock.

Lemma append_cons c (s t : string) : String c s +:+ t = String c (s +:+ t).
Proof. reflexivity. Qed.

Lemma append_empty (t : string) : "" +:+ t = t.
Proof. reflexivity. Qed.

Lemma append_empty_r (t : string) : t +:+ "" = t.
Proof.
  induction t as [|c t IH]; [reflexivity|]. rewrite append_cons, IH. reflexivity.
Qed.

Lemma append_inj_l (p a b : string) : p +:+ a = p +:+ b -> a = b.
Proof. induction p; simpl; intros H; [exact H|]. injection H. auto. Qed.

Lemma forallb_upto (P : Z -> bool) (hi : Z) :
  forallb (fun k => P (Z.of_nat k)) (seq 0 (Z.to_nat (hi + 1))) = true ->
  forall n, 0 <= n <= hi -> P n = true.
Proof.
  intros H n Hn. rewrite forallb_forall in H.
  specialize (H (Z.to_nat n)). rewrite Z2Nat.id in H by lia.
  apply H. apply in_seq. lia.
Qed.

Lemma pad2_digits n : 0 <= n <= 99 -> is_digits 2 (pad0 2 (string_of_Z n)) = true.
Proof.
  apply (forallb_upto (fun k => is_digits 2 (pad0 2 (string_of_Z k))) 99).
  vm_compute. reflexivity.
Qed.

Lemma pad4_digits n : 0 <= n <= 9999 -> is_digits 4 (pad0 4 (string_of_Z n)) = true.
Proof.
  apply (forallb_upto (fun k => is_digits 4 (pad0 4 (string_of_Z k))) 9999).
  vm_compute. reflexivity.
Qed.

Lemma is_digits_2 s :
  is_digits 2 s = true ->
  exists a b, s = String a (String b "") /\ is_digit a = true /\ is_digit b = true.
Proof.
  unfold is_digits. destruct s as [|a [|b [|c s]]]; try discriminate.
  simpl. intros H. exists a, b.
  destruct (is_digit a), (is_digit b); try discriminate. auto.
Qed.

Lemma is_digits_4 s :
  is_digits 4 s = true ->
  exists a b c d, s = String a (String b (String c (String d ""))) /\
    is_digit a = true /\ is_digit b = true /\ is_digit c = true /\ is_digit d = true.
Proof.
  unfold is_digits. destruct s as [|a [|b [|c [|d [|e s]]]]]; try discriminate.
  simpl. intros H. exists a, b, c, d.
  destruct (is_digit a), (is_digit b), (is_digit c), (is_digit d);
    try discriminate. auto 6.
Qed.

Lemma digit_not_separator c : is_digit c = true -> RunnerLib.is_separator c = false.
Proof.
  unfold is_digit, RunnerLib.is_separator. intros H.
  apply andb_true_iff in H as [H1 H2].
  apply Z.leb_le in H1. apply Z.leb_le in H2.
  repeat (apply orb_false_iff; split); apply Z.eqb_neq; lia.
Qed.

Lemma remove_separator_digit c s :
  is_digit c = true ->
  remove_chars RunnerLib.is_separator (String c s) =
  String c (remove_chars RunnerLib.is_separator s).
Proof. intros H. simpl. rewrite digit_not_separator by exact H. reflexivity. Qed.

Lemma remove_separator_dash s :
  remove_chars RunnerLib.is_separator (String "-" s) =
  remove_chars RunnerLib.is_separator s.
Proof. reflexivity. Qed.

Lemma remove_separator_colon s :
  remove_chars RunnerLib.is_separator (String ":" s) =
  remove_chars RunnerLib.is_separator s.
Proof. reflexivity. Qed.

Lemma remove_separator_T s :
  remove_chars RunnerLib.is_separator (String "T" s) =
  remove_chars RunnerLib.is_separator s.
Proof. reflexivity. Qed.

Lemma remove_separator_dot s :
  remove_chars RunnerLib.is_separator (String "." s) =
  String "." (remove_chars RunnerLib.is_separator s).
Proof. reflexivity. Qed.

Lemma iso_year_4 y : 0 <= y <= 9999 -> iso_year y = pad0 4 (string_of_Z y).
Proof.
  intros H. unfold iso_year.
  destruct (Z.leb_spec 0 y), (Z.leb_spec y 9999); try lia. reflexivity.
Qed.

Ltac shape2 n :=
  let a := fresh "a" in let b := fresh "b" in let E := fresh "E" in
  destruct (is_digits_2 _ (pad2_digits n ltac:(lia))) as (a & b & E & ? & ?);
  rewrite E in *; clear E.

Ltac shape4 n :=
  let a := fresh "a" in let b := fresh "b" in
  let c := fresh "c" in let d := fresh "d" in let E := fresh "E" in
  destruct (is_digits_4 _ (pad4_digits n ltac:(lia)))
    as (a & b & c & d & E & ? & ? & ? & ?);
  rewrite E in *; clear E.

Ltac all_digits_now :=
  unfold is_digits; cbn [String.length Nat.eqb all_chars];
  repeat match goal with H : is_digit _ = true |- _ => rewrite H; clear H end;
  reflexivity.

(** The server's timestamp: fourteen digits and a period. *)
Lemma server_stamp_shape (t : DateTime) :
  valid t ->
  exists d, is_digits 14 d = true /\
    take 15 (remove_chars RunnerLib.is_separator (toISOString t)) = d +:+ ".".
Proof.
  intros (Hy & Hmo & Hd & Hh & Hmi & Hs & Hms).
  unfold toISOString. rewrite iso_year_4 by lia.
  shape4 (year t). shape2 (month t). shape2 (day t).
  shape2 (hours t). shape2 (minutes t). shape2 (seconds t).
  generalize (pad0 3 (string_of_Z (millis t))) as ms. intros ms.
  rewrite !append_cons, !append_empty.
  repeat first
    [ rewrite remove_separator_digit by assumption
    | rewrite remove_separator_dash
    | rewrite remove_separator_colon
    | rewrite remove_separator_T
    | rewrite remove_separator_dot ].
  cbn [take].
  eexists (String a (String b (String c (String d (String a0 (String b0
           (String a1 (String b1 (String a2 (String b2 (String a3 (String b3
           (String a4 (String b4 "")))))))))))))).
  split; [|reflexivity]. all_digits_now.
Qed.

(** The runner's timestamp: eight digits, a hyphen, six digits. *)
Lemma runner_stamp_shape (t : DateTime) :
  valid t ->
  exists d e, is_digits 8 d = true /\ is_digits 6 e = true /\
    date_stamp t = d +:+ "-" +:+ e.
Proof.
  intros (Hy & Hmo & Hd & Hh & Hmi & Hs & Hms).
  unfold date_stamp.
  shape4 (year t). shape2 (month t). shape2 (day t).
  shape2 (hours t). shape2 (minutes t). shape2 (seconds t).
  rewrite !append_cons, !append_empty.
  exists (String a (String b (String c (String d (String a0 (String b0
           (String a1 (String b1 "")))))))),
         (String a2 (String b2 (String a3 (String b3 (String a4 (String b4 "")))))).
  split; [|split; [|reflexivity]]; all_digits_now.
Qed.

Lemma get_after_digits (n : nat) (d rest : string) :
  String.length d = n -> String.get n (d +:+ rest) = String.get 0 rest.
Proof.
  revert n. induction d as [|c d IH]; intros n H; simpl in H; subst n.
  - reflexivity.
  - simpl. apply IH. reflexivity.
Qed.

Lemma get_in_digits (n : nat) (d rest : string) (w : nat) :
  is_digits w d = true -> (n < w)%nat ->
  exists c, String.get n (d +:+ rest) = Some c /\ is_digit c = true.
Proof.
  unfold is_digits. intros H Hn.
  apply andb_true_iff in H as [Hl Hd]. apply Nat.eqb_eq in Hl. subst w.
  revert n Hn. induction d as [|c d IH]; intros n Hn; simpl in *; [lia|].
  apply andb_true_iff in Hd as [Hc Hd].
  destruct n as [|n].
  - exists c. auto.
  - apply IH; [exact Hd | lia].
Qed.

(** C10. For a trigger or an ad-hoc request served at [now], whose runner
    reads its clock at [started]: the id [spawnJob] returns is the job
    name, a hyphen, fourteen digits and a period; the id the runner stores
    is the job name, a hyphen, eight digits, a hyphen and six digits; and
    the two are different, whatever the two times. *)
Theorem api_run_id_never_matches_stored_run_id
    (now started : DateTime) (jobNameOrPrompt : string) (isInline : bool) :
  valid now -> valid started ->
  let JOB_NAME := if isInline then "adhoc" else jobNameOrPrompt in
  (exists d, is_digits 14 d = true /\
     RunnerLib.spawnJob_runId now jobNameOrPrompt isInline =
       JOB_NAME +:+ "-" +:+ d +:+ ".") /\
  (exists d e, is_digits 8 d = true /\ is_digits 6 e = true /\
     Runner.RUN_ID JOB_NAME started = JOB_NAME +:+ "-" +:+ d +:+ "-" +:+ e) /\
  RunnerLib.spawnJob_runId now jobNameOrPrompt isInline <>
    Runner.RUN_ID JOB_NAME started.
Proof.
  intros Hnow Hst JOB_NAME.
  destruct (server_stamp_shape now Hnow) as (d & Hd & Es).
  destruct (runner_stamp_shape started Hst) as (d1 & e1 & Hd1 & He1 & Er).
  unfold RunnerLib.spawnJob_runId, Runner.RUN_ID. fold JOB_NAME.
  rewrite Es, Er.
  split; [exists d; auto|]. split; [exists d1, e1; auto|].
  intros E. apply append_inj_l in E. apply append_inj_l in E.
  assert (G : String.get 8 (d +:+ ".") = String.get 8 (d1 +:+ "-" +:+ e1))
    by (rewrite E; reflexivity).
  destruct (get_in_digits 8 d "." 14 Hd ltac:(lia)) as (c & Gc & Hc).
  rewrite Gc in G.
  rewrite (get_after_digits 8 d1) in G.
  2:{ unfold is_digits in Hd1. apply andb_true_iff in Hd1 as [Hl _].
      apply Nat.eqb_eq in Hl. exact Hl. }
  simpl in G. injection G as ->. discriminate Hc.
Qed.

Lemma api_run_id_never_matches_stored_run_id_witness :
  let t := {| year := 2025; month := 3; day := 9; hours := 7;
              minutes := 5; seconds := 0; millis := 42 |} in
  RunnerLib.spawnJob_runId t "my-job" false = "my-job-20250309070500." /\
  Runner.RUN_ID "my-job" t = "my-job-20250309-070500" /\
  RunnerLib.spawnJob_runId t "my-job" false <> Runner.RUN_ID "my-job" t.
Proof.
  intros t.
  assert (V : valid t) by (unfold valid; simpl; lia).
  split; [reflexivity|]. split; [reflexivity|].
  exact (proj2 (proj2 (api_run_id_never_matches_stored_run_id t t "my-job" false V V))).
Defined.

End RunIds.

(** ** Where a job name leads *)

Section Paths.

Import Text Jobs.

Lemma all_chars_app (p : ascii -> bool) (a b : string) :
  all_chars p (a +:+ b) = all_chars p a && all_chars p b.
Proof.
  induction a as [|c a IH]; [reflexivity|].
  rewrite append_cons. simpl. rewrite IH. apply andb_assoc.
Qed.

Lemma length_append (a b : string) :
  String.length (a +:+ b) = (String.length a + String.length b)%nat.
Proof.
  induction a as [|c a IH]; [rewrite append_empty; reflexivity|].
  rewrite append_cons. simpl. rewrite IH. reflexivity.
Qed.

Lemma split_all_plain (d : ascii) (x : string) :
  all_chars (fun c => negb (Ascii.eqb c d)) x = true -> split_all d x = [x].
Proof.
  induction x as [|c x IH]; simpl; [reflexivity|].
  intros H. apply andb_true_iff in H as [Hc Hx].
  apply negb_true_iff in Hc. rewrite Hc, IH by exact Hx. reflexivity.
Qed.

Lemma contains_foreign_char (c : ascii) (p name : string) :
  job_name_char c = false -> all_chars job_name_char name = true ->
  contains (String c p) name = false.
Proof.
  intros Hc Hv. induction name as [|a s IH]; [reflexivity|].
  simpl in Hv. apply andb_true_iff in Hv as [Ha Hs].
  cbn [contains starts_with].
  destruct (Ascii.eqb_spec c a) as [->|_]; [congruence|].
  simpl. apply IH. exact Hs.
Qed.

Lemma no_slash_chars (name : string) :
  contains "/" name = false ->
  all_chars (fun c => negb (Ascii.eqb c "/")) name = true.
Proof.
  induction name as [|c name IH]; [reflexivity|].
  cbn [contains starts_with all_chars]. intros H.
  apply orb_false_iff in H as [Hc Hn].
  rewrite andb_true_r in Hc. rewrite Ascii.eqb_sym, Hc. simpl. apply IH, Hn.
Qed.

Lemma valid_name_no_slash (name : string) :
  validateJobName name = true -> contains "/" name = false.
Proof.
  intros Hv. unfold validateJobName in Hv. apply andb_true_iff in Hv as [_ Hv].
  apply contains_foreign_char; [reflexivity | exact Hv].
Qed.

Lemma strip_yaml_suffix (name : string) :
  strip_yaml (name +:+ ".yaml") = Some name.
Proof.
  induction name as [|c name IH]; [reflexivity|].
  rewrite append_cons. cbn [strip_yaml].
  destruct (String.eqb_spec (String c (name +:+ ".yaml")) ".yaml") as [E|_].
  - apply (f_equal String.length) in E. cbn [String.length] in E.
    rewrite length_append in E. simpl in E. lia.
  - rewrite IH. reflexivity.
Qed.

Lemma joined_entry (w : JobFiles) (dir : job_dir) (name : string) :
  contains "/" name = false ->
  joined w dir name = script_dir w ++ [dir_name dir; name +:+ ".yaml"].
Proof.
  intros H. unfold joined.
  rewrite split_all_plain
    by (rewrite all_chars_app, (no_slash_chars name H); reflexivity).
  cbn [foldl]. unfold push_segment.
  assert (Hlen : (5 <= String.length (name +:+ ".yaml"))%nat)
    by (rewrite length_append; simpl; lia).
  destruct (String.eqb_spec (name +:+ ".yaml") "") as [E|_];
    [rewrite E in Hlen; simpl in Hlen; lia|].
  destruct (String.eqb_spec (name +:+ ".yaml") ".") as [E|_];
    [rewrite E in Hlen; simpl in Hlen; lia|].
  destruct (String.eqb_spec (name +:+ ".yaml") "..") as [E|_];
    [rewrite E in Hlen; simpl in Hlen; lia|].
  cbn [orb]. rewrite <- app_assoc. reflexivity.
Qed.

Lemma place_of_entry (w : JobFiles) (dir : job_dir) (key : string) :
  place_of w (script_dir w ++ [dir_name dir; key +:+ ".yaml"]) = Entry dir key.
Proof.
  unfold place_of.
  rewrite take_app_length, drop_app_length.
  rewrite bool_decide_eq_true_2 by reflexivity.
  rewrite strip_yaml_suffix. destruct dir; reflexivity.
Qed.

(** A name without a [/] names the entry of the directory. *)
Lemma job_path_entry (w : JobFiles) (dir : job_dir) (name : string) :
  contains "/" name = false ->
  job_path w dir name =
    match dir with
    | LocalDir => jobs_local w !! name
    | SharedDir => jobs_shared w !! name
    end.
Proof.
  intros H. unfold job_path. rewrite joined_entry by exact H.
  rewrite place_of_entry. destruct dir; reflexivity.
Qed.

Lemma resolve_entry (w : JobFiles) (name : string) :
  contains "/" name = false ->
  resolveJobFile w name =
    if bool_decide (is_Some (jobs_local w !! name)) then Some LocalDir
    else if bool_decide (is_Some (jobs_shared w !! name)) then Some SharedDir
    else None.
Proof.
  intros H. unfold resolveJobFile. rewrite !job_path_entry by exact H.
  reflexivity.
Qed.

(** A name that begins with [./] leads where the rest of it leads. *)
Lemma joined_dot (w : JobFiles) (dir : job_dir) (name : string) :
  joined w dir ("./" +:+ name) = joined w dir name.
Proof. reflexivity. Qed.

End Paths.

(** ** Pausing and resuming a job *)

Section Toggle.

Import Text Jobs.

Lemma obj_get_set_new (k : string) (v : yval) (o : object) :
  obj_get k o = None -> obj_set k v o = o ++ [(k, v)].
Proof.
  induction o as [|[k' v'] o IH]; simpl; [reflexivity|].
  destruct (String.eqb k' k); [discriminate|].
  intros H. rewrite IH by exact H. reflexivity.
Qed.

Lemma obj_delete_absent (k : string) (o : object) :
  obj_get k o = None -> obj_delete k o = o.
Proof.
  induction o as [|[k' v'] o IH]; simpl; [reflexivity|].
  destruct (String.eqb k' k); [discriminate|].
  intros H. rewrite IH by exact H. reflexivity.
Qed.

Lemma obj_delete_set_new (k : string) (v : yval) (o : object) :
  obj_get k o = None -> obj_delete k (obj_set k v o) = o.
Proof.
  induction o as [|[k' v'] o IH]; simpl.
  - rewrite String.eqb_refl. reflexivity.
  - destruct (String.eqb k' k) eqn:E; [discriminate|].
    intros H. simpl. rewrite E, IH by exact H. reflexivity.
Qed.

Lemma obj_get_set_same (k : string) (v : yval) (o : object) :
  obj_get k (obj_set k v o) = Some v.
Proof.
  induction o as [|[k' v'] o IH]; simpl.
  - rewrite String.eqb_refl. reflexivity.
  - destruct (String.eqb k' k) eqn:E; simpl.
    + rewrite String.eqb_refl. reflexivity.
    + rewrite E. exact IH.
Qed.

Lemma obj_get_delete_same (k : string) (o : object) :
  obj_get k (obj_delete k o) = None.
Proof.
  induction o as [|[k' v'] o IH]; simpl; [reflexivity|].
  destruct (String.eqb k' k) eqn:E; simpl; [exact IH|].
  rewrite E. exact IH.
Qed.

Lemma resolve_read (w : JobFiles) (name : string) (dir : job_dir) :
  resolveJobFile w name = Some dir -> is_Some (read_job w dir name).
Proof.
  unfold resolveJobFile, read_job.
  repeat case_bool_decide; intros Hr; inversion Hr; subst; assumption.
Qed.

Lemma resolve_after_write (w : JobFiles) (name : string) (dir : job_dir)
    (f : yaml_file) :
  contains "/" name = false ->
  resolveJobFile w name = Some dir ->
  resolveJobFile (syncSchedule (write_job w dir name f)) name = Some dir /\
  read_job (syncSchedule (write_job w dir name f)) dir name = Some f.
Proof.
  intros Hns. unfold read_job.
  rewrite !resolve_entry, job_path_entry by exact Hns. intros Hr.
  destruct (bool_decide (is_Some (jobs_local w !! name))) eqn:El.
  - injection Hr as <-. simpl. rewrite lookup_insert_eq.
    rewrite bool_decide_eq_true_2 by eauto. auto.
  - destruct (bool_decide (is_Some (jobs_shared w !! name))) eqn:Es;
      [|discriminate].
    injection Hr as <-. simpl. rewrite El, lookup_insert_eq.
    rewrite bool_decide_eq_true_2 by eauto. auto.
Qed.

Lemma write_back (w : JobFiles) (name : string) (dir : job_dir)
    (f g : yaml_file) :
  contains "/" name = false ->
  read_job w dir name = Some f ->
  write_job (syncSchedule (write_job w dir name g)) dir name f =
  {| jobs_local := jobs_local w; jobs_shared := jobs_shared w;
     script_dir := script_dir w; elsewhere := elsewhere w;
     syncs := S (syncs w) |}.
Proof.
  intros Hns. unfold read_job. rewrite job_path_entry by exact Hns.
  unfold write_job, syncSchedule. destruct dir; simpl; intros H;
    rewrite insert_insert_eq, insert_id by exact H; reflexivity.
Qed.

Lemma toggleJob_mapping (w : JobFiles) (name : string) (dir : job_dir)
    (parsed : object) :
  validateJobName name = true ->
  resolveJobFile w name = Some dir ->
  read_job w dir name = Some (Doc (YMap parsed)) ->
  toggleJob w name =
  ({| ok := true; enabled := Some (negb (enabled_not_false parsed));
      error := None |},
   syncSchedule
     (write_job w dir name
        (Doc (YMap (if enabled_not_false parsed
                    then obj_set "enabled" (YBool false) parsed
                    else obj_delete "enabled" parsed))))).
Proof.
  intros Hname Hres Hread. unfold toggleJob.
  rewrite Hname, Hres, Hread. reflexivity.
Qed.

(** C9. For a job whose definition is a mapping without an [enabled] key:
    the first toggle reports [enabled: false] and stores the definition
    with [enabled: false] added; the second reports [enabled: true] and
    removes the key, so that both job directories hold exactly what they
    held at first and [getJobDefinition] returns the original definition
    (the schedules were re-synced twice). *)
Theorem toggle_twice_restores_definition
    (w : JobFiles) (name : string) (def : object) :
  validateJobName name = true ->
  getJobDefinition w name = Some (YMap def) ->
  obj_get "enabled" def = None ->
  let '(r1, w1) := toggleJob w name in
  let '(r2, w2) := toggleJob w1 name in
  r1 = {| ok := true; enabled := Some false; error := None |} /\
  getJobDefinition w1 name = Some (YMap (def ++ [("enabled", YBool false)])) /\
  r2 = {| ok := true; enabled := Some true; error := None |} /\
  getJobDefinition w2 name = Some (YMap def) /\
  jobs_local w2 = jobs_local w /\ jobs_shared w2 = jobs_shared w /\
  syncs w2 = S (S (syncs w)).
Proof.
  intros Hname Hdef Hen.
  pose proof (valid_name_no_slash name Hname) as Hns.
  unfold getJobDefinition in Hdef.
  destruct (resolveJobFile w name) as [dir|] eqn:Hres; [|discriminate].
  destruct (read_job w dir name) as [[|v]|] eqn:Hread; try discriminate.
  injection Hdef as ->.
  assert (Hwas : enabled_not_false def = true)
    by (unfold enabled_not_false; rewrite Hen; reflexivity).
  rewrite (toggleJob_mapping w name dir def Hname Hres Hread), Hwas.
  rewrite obj_get_set_new by exact Hen.
  set (def1 := def ++ [("enabled", YBool false)]).
  destruct (resolve_after_write w name dir (Doc (YMap def1)) Hns Hres)
    as [Hres1 Hread1].
  assert (Hwas1 : enabled_not_false def1 = false).
  { unfold enabled_not_false, def1.
    rewrite <- (obj_get_set_new "enabled" (YBool false) def Hen).
    rewrite obj_get_set_same. reflexivity. }
  assert (Hdel : obj_delete "enabled" def1 = def).
  { unfold def1. rewrite <- (obj_get_set_new "enabled" (YBool false) def Hen).
    apply obj_delete_set_new. exact Hen. }
  rewrite (toggleJob_mapping _ name dir def1 Hname Hres1 Hread1), Hwas1, Hdel.
  rewrite (write_back w name dir (Doc (YMap def)) (Doc (YMap def1)) Hns Hread).
  split; [reflexivity|].
  split; [unfold getJobDefinition; rewrite Hres1, Hread1; reflexivity|].
  split; [reflexivity|].
  split; [|simpl; auto].
  unfold getJobDefinition.
  assert (Hres2 : resolveJobFile
            (syncSchedule {| jobs_local := jobs_local w;
                             jobs_shared := jobs_shared w;
                             script_dir := script_dir w;
                             elsewhere := elsewhere w;
                             syncs := S (syncs w) |}) name = Some dir)
    by exact Hres.
  assert (Hread2 : read_job
            (syncSchedule {| jobs_local := jobs_local w;
                             jobs_shared := jobs_shared w;
                             script_dir := script_dir w;
                             elsewhere := elsewhere w;
                             syncs := S (syncs w) |}) dir name
            = Some (Doc (YMap def)))
    by exact Hread.
  rewrite Hres2, Hread2. reflexivity.
Qed.

Lemma toggle_twice_restores_definition_witness :
  let def := [("prompt", YStr "hello"); ("schedule", YStr "0 7 * * *")] in
  let w := {| jobs_local := ∅;
              jobs_shared := {[ "toggle-on" := Doc (YMap def) ]};
              script_dir := ["opt"; "claude-runner"];
              elsewhere := fun _ => None; syncs := 0 |} in
  let '(r1, w1) := toggleJob w "toggle-on" in
  let '(r2, w2) := toggleJob w1 "toggle-on" in
  enabled r1 = Some false /\ enabled r2 = Some true /\
  getJobDefinition w2 "toggle-on" = Some (YMap def).
Proof.
  intros def w.
  assert (Hn : validateJobName "toggle-on" = true) by reflexivity.
  assert (Hd : getJobDefinition w "toggle-on" = Some (YMap def)) by reflexivity.
  assert (He : obj_get "enabled" def = None) by reflexivity.
  pose proof (toggle_twice_restores_definition w "toggle-on" def Hn Hd He) as H.
  destruct (toggleJob w "toggle-on") as [r1 w1].
  destruct (toggleJob w1 "toggle-on") as [r2 w2].
  destruct H as (-> & _ & -> & H & _).
  split; [reflexivity|]. split; [reflexivity|]. exact H.
Defined.

End Toggle.

(** ** Decimal numerals *)

Section Numerals.

Import Text Cron.

Lemma code_digit_char (d : Z) : 0 <= d <= 9 -> code (digit_char d) = 48 + d.
Proof.
  intros H. unfold code, digit_char.
  rewrite nat_ascii_embedding by lia. lia.
Qed.

Lemma digit_char_is_digit (d : Z) : 0 <= d <= 9 -> is_digit (digit_char d) = true.
Proof.
  intros H. unfold is_digit. rewrite code_digit_char by exact H.
  apply andb_true_iff. split; apply Z.leb_le; lia.
Qed.

Lemma digit_val_digit_char (d : Z) : 0 <= d <= 9 -> digit_val (digit_char d) = d.
Proof. intros H. unfold digit_val. rewrite code_digit_char by exact H. lia. Qed.

Lemma dec_digits_all_digits (fuel : nat) (n : Z) (acc : string) :
  0 <= n -> all_chars is_digit acc = true ->
  all_chars is_digit (dec_digits fuel n acc) = true.
Proof.
  revert n acc. induction fuel as [|fuel IH]; intros n acc Hn Hacc; simpl.
  - exact Hacc.
  - assert (Hd : all_chars is_digit (String (digit_char (n mod 10)) acc) = true).
    { simpl. rewrite digit_char_is_digit, Hacc; [reflexivity|].
      pose proof (Z.mod_pos_bound n 10). lia. }
    destruct (n / 10 =? 0); [exact Hd|].
    apply IH; [apply Z.div_pos; lia | exact Hd].
Qed.

Lemma dec_digits_nonempty (fuel : nat) (n : Z) (acc : string) :
  dec_digits (S fuel) n acc <> "".
Proof.
  revert n acc. induction fuel as [|fuel IH]; intros n acc.
  - simpl. destruct (n / 10 =? 0); discriminate.
  - change (dec_digits (S (S fuel)) n acc)
      with (let acc' := String (digit_char (n mod 10)) acc in
            if n / 10 =? 0 then acc' else dec_digits (S fuel) (n / 10) acc').
    cbv zeta. destruct (n / 10 =? 0); [discriminate | apply IH].
Qed.

Lemma parse_dec_digits (fuel : nat) (n : Z) (acc : string) :
  0 <= n < 2 ^ Z.of_nat fuel ->
  parse_base 10 (dec_digits fuel n acc) 0 = parse_base 10 acc n.
Proof.
  revert n acc. induction fuel as [|fuel IH]; intros n acc Hn.
  - simpl in *. replace n with 0 by lia. reflexivity.
  - simpl dec_digits.
    assert (Hm : 0 <= n mod 10 <= 9) by (pose proof (Z.mod_pos_bound n 10); lia).
    destruct (Z.eqb_spec (n / 10) 0) as [E|E].
    + simpl. rewrite digit_val_digit_char by exact Hm.
      f_equal. pose proof (Z.div_mod n 10). lia.
    + rewrite IH.
      * simpl. rewrite digit_val_digit_char by exact Hm.
        f_equal. pose proof (Z.div_mod n 10). lia.
      * split; [apply Z.div_pos; lia|].
        rewrite Nat2Z.inj_succ, Z.pow_succ_r in Hn by lia.
        apply Z.div_lt_upper_bound; lia.
Qed.

Lemma string_of_Z_nonneg (n : Z) :
  0 <= n ->
  all_digits (string_of_Z n) = true /\ dec_value (string_of_Z n) = n.
Proof.
  intros Hn. unfold string_of_Z.
  destruct (Z.ltb_spec n 0) as [?|_]; [lia|].
  split.
  - unfold all_digits. apply andb_true_iff. split.
    + destruct (String.eqb_spec (dec_digits (S (Z.to_nat (Z.log2 n))) n "") "")
        as [E|E]; [|reflexivity].
      exfalso. exact (dec_digits_nonempty _ _ _ E).
    + apply dec_digits_all_digits; [exact Hn | reflexivity].
  - unfold dec_value. rewrite parse_dec_digits; [reflexivity|].
    split; [exact Hn|].
    rewrite Nat2Z.inj_succ, Z2Nat.id by apply Z.log2_nonneg.
    destruct (Z.eq_dec n 0) as [->|]; [reflexivity|].
    apply Z.log2_spec. lia.
Qed.

Lemma digit_not_blank (c : ascii) : is_digit c = true -> is_blank c = false.
Proof.
  unfold is_digit, is_blank. intros H.
  apply andb_true_iff in H as [H1 H2].
  apply Z.leb_le in H1. apply Z.leb_le in H2.
  repeat (apply orb_false_iff; split); apply Z.eqb_neq; lia.
Qed.

Lemma rstrip_digits (s : string) : all_chars is_digit s = true -> rstrip s = s.
Proof.
  induction s as [|c s IH]; simpl; [reflexivity|].
  intros H. apply andb_true_iff in H as [Hc Hs].
  rewrite IH by exact Hs. rewrite digit_not_blank by exact Hc.
  destruct s; reflexivity.
Qed.

Lemma trim_digits (s : string) : all_chars is_digit s = true -> trim s = s.
Proof.
  intros H. unfold trim.
  assert (skip_blanks s = s) as ->.
  { destruct s as [|c s]; [reflexivity|]. simpl in *.
    apply andb_true_iff in H as [Hc _].
    rewrite digit_not_blank by exact Hc. reflexivity. }
  apply rstrip_digits. exact H.
Qed.

Lemma wrap64_small (z : Z) : - 2 ^ 63 <= z < 2 ^ 63 -> wrap64 z = z.
Proof.
  intros H. unfold wrap64. rewrite Z.mod_small by lia. lia.
Qed.

Lemma canonical_arith_value (s : string) :
  canonical s = true -> arith_value s = Some (wrap64 (dec_value s)).
Proof.
  unfold canonical, arith_value. intros H.
  apply andb_true_iff in H as [_ H]. apply orb_true_iff in H as [H|H].
  - rewrite H. rewrite andb_false_r. reflexivity.
  - apply negb_true_iff in H. rewrite H. reflexivity.
Qed.

Lemma take_digits_digits (s : string) :
  all_chars is_digit s = true -> take_digits s = s.
Proof.
  induction s as [|c s IH]; simpl; [reflexivity|].
  intros H. apply andb_true_iff in H as [Hc Hs].
  rewrite Hc, IH by exact Hs. reflexivity.
Qed.


Lemma skip_all (s : string) : skip (String.length s) s = "".
Proof. induction s as [|c s IH]; [reflexivity | exact IH]. Qed.












(** Text without NUL bytes and newlines is captured as it is. *)
Lemma strip_newlines_printable (s : string) :
  all_chars Runner.printable s = true -> Runner.strip_newlines s = s.
Proof.
  induction s as [|c s IH]; [reflexivity|]. simpl. intros H.
  apply andb_true_iff in H as [Hc Hs]. rewrite IH by exact Hs.
  unfold Runner.printable in Hc. apply andb_true_iff in Hc as [_ Hc].
  apply negb_true_iff in Hc. rewrite Hc. destruct s; reflexivity.
Qed.

Lemma remove_nul_printable (s : string) :
  all_chars Runner.printable s = true -> remove_chars Runner.is_nul s = s.
Proof.
  induction s as [|c s IH]; [reflexivity|]. simpl. intros H.
  apply andb_true_iff in H as [Hc Hs]. rewrite IH by exact Hs.
  unfold Runner.printable in Hc. apply andb_true_iff in Hc as [Hc _].
  apply negb_true_iff in Hc. unfold Runner.is_nul. rewrite Hc. reflexivity.
Qed.

Lemma capture_printable (s : string) :
  all_chars Runner.printable s = true -> Runner.capture s = s.
Proof.
  intros H. unfold Runner.capture.
  rewrite remove_nul_printable by exact H.
  apply strip_newlines_printable, H.
Qed.

Lemma digit_printable (c : ascii) :
  is_digit c = true -> Runner.printable c = true.
Proof.
  unfold is_digit, Runner.printable. intros H.
  apply andb_true_iff in H as [H1 H2]. apply Z.leb_le in H1.
  apply andb_true_iff. split; apply negb_true_iff, Z.eqb_neq; lia.
Qed.

Lemma all_chars_impl' (p q : ascii -> bool) (s : string) :
  (forall c, p c = true -> q c = true) ->
  all_chars p s = true -> all_chars q s = true.
Proof.
  intros Hpq. induction s as [|c s IH]; [reflexivity|]. simpl. intros H.
  apply andb_true_iff in H as [Hc Hs]. rewrite (Hpq c Hc), IH by exact Hs.
  reflexivity.
Qed.

Lemma string_of_Z_printable (n : Z) :
  all_chars Runner.printable (string_of_Z n) = true.
Proof.
  unfold string_of_Z. destruct (Z.ltb_spec n 0).
  - cbn [all_chars]. apply andb_true_iff. split; [reflexivity|].
    apply (all_chars_impl' is_digit); [apply digit_printable|].
    apply dec_digits_all_digits; [lia | reflexivity].
  - apply (all_chars_impl' is_digit); [apply digit_printable|].
    apply dec_digits_all_digits; [lia | reflexivity].
Qed.

End Numerals.

(** ** The retry loop *)

Section Retry.

Import Text State Jobs Runner.

Variable p : Payload.
Variable JOB_NAME : string.
Variable MAX_RETRIES : string.
Variable R : Z.
Hypothesis retries_value : shell_int MAX_RETRIES = Some R.
Hypothesis retries_total : plus_one MAX_RETRIES = Some (R + 1).
Hypothesis retries_small : R < 2 ^ 63 - 1.

Lemma test_le_retries (a : Z) : test_le a MAX_RETRIES = (a <=? R).
Proof using retries_value. unfold test_le. rewrite retries_value. reflexivity. Qed.

Lemma attempts_with_backoff_nil (a : Z) : attempts_with_backoff p a a = [].
Proof. unfold attempts_with_backoff. rewrite Z.sub_diag. reflexivity. Qed.

Lemma attempts_with_backoff_cons (a n : Z) :
  a < n ->
  attempts_with_backoff p a n =
  Exec (a + 1) (exit_of p (a + 1)) ::
  (if a + 1 <? n then [Sleep 5] else []) ++ attempts_with_backoff p (a + 1) n.
Proof.
  intros H. unfold attempts_with_backoff.
  rewrite seqZ_cons by lia. simpl.
  replace (Z.succ (a + 1)) with (a + 1 + 1) by lia.
  replace (Z.pred (n - a)) with (n - (a + 1)) by lia.
  reflexivity.
Qed.

Lemma outputs_in_app (l1 l2 : list log_entry) :
  outputs_in (l1 ++ l2) = outputs_in l1 ++ outputs_in l2.
Proof.
  induction l1 as [|[lv m|t] l1 IH]; simpl; [reflexivity | exact IH |].
  rewrite IH. reflexivity.
Qed.

(** One pass of the body, for retries that the arithmetic can add 1 to. *)
Lemma attempt_once_pass (s : Loop) :
  0 <= ATTEMPT s <= R ->
  attempt_once p MAX_RETRIES s =
    Some (pass p (R + 1)
            {| ATTEMPT := ATTEMPT s + 1; EXIT_CODE := EXIT_CODE s;
               log_file := log_file s; events := events s |}).
Proof using retries_total retries_small.
  intros Ha. unfold attempt_once. rewrite retries_total.
  unfold next_attempt. rewrite wrap64_small by lia. reflexivity.
Qed.

Lemma retry_loop_unfold (fuel : nat) (s : Loop) :
  0 <= ATTEMPT s <= R ->
  retry_loop (S fuel) p JOB_NAME MAX_RETRIES s =
    let s1 := pass p (R + 1)
                {| ATTEMPT := ATTEMPT s + 1; EXIT_CODE := EXIT_CODE s;
                   log_file := log_file s; events := events s |} in
    if EXIT_CODE s1 =? 0 then
      Some (say "INFO" ("Job " +:+ JOB_NAME +:+ " completed successfully") s1)
    else
      let s2 :=
        say "ERROR" ("Job " +:+ JOB_NAME +:+ " failed with exit code " +:+
                     string_of_Z (EXIT_CODE s1)) s1 in
      retry_loop fuel p JOB_NAME MAX_RETRIES
        (if test_le (ATTEMPT s2) MAX_RETRIES then
           {| ATTEMPT := ATTEMPT (say "INFO" "Retrying in 5 seconds..." s2);
              EXIT_CODE := EXIT_CODE (say "INFO" "Retrying in 5 seconds..." s2);
              log_file := log_file (say "INFO" "Retrying in 5 seconds..." s2);
              events := events (say "INFO" "Retrying in 5 seconds..." s2) ++ [Sleep 5] |}
         else s2).
Proof using retries_value retries_total retries_small.
  intros Ha. cbn [retry_loop]. rewrite test_le_retries.
  destruct (Z.leb_spec (ATTEMPT s) R) as [_|?]; [|lia].
  rewrite attempt_once_pass by exact Ha. reflexivity.
Qed.

(** What the loop does from a state in which [a] attempts were made. *)
Lemma retry_loop_from (fuel : nat) (s : Loop) :
  0 <= ATTEMPT s <= R ->
  R - ATTEMPT s < Z.of_nat fuel ->
  exists s' added,
    retry_loop fuel p JOB_NAME MAX_RETRIES s = Some s' /\
    ATTEMPT s < ATTEMPT s' <= R + 1 /\
    (forall k, ATTEMPT s < k < ATTEMPT s' -> exit_of p k <> 0) /\
    (exit_of p (ATTEMPT s') = 0 \/ ATTEMPT s' = R + 1) /\
    EXIT_CODE s' = exit_of p (ATTEMPT s') /\
    events s' = events s ++ attempts_with_backoff p (ATTEMPT s) (ATTEMPT s') /\
    log_file s' = log_file s ++ added /\
    outputs_in added =
      output_of p <$> seqZ (ATTEMPT s + 1) (ATTEMPT s' - ATTEMPT s).
Proof using retries_value retries_total retries_small.
  revert s. induction fuel as [|fuel IH]; intros s Ha Hfuel; [lia|].
  rewrite retry_loop_unfold by exact Ha.
  cbv zeta.
  remember (pass p (R + 1)
              {| ATTEMPT := ATTEMPT s + 1; EXIT_CODE := EXIT_CODE s;
                 log_file := log_file s; events := events s |}) as s1 eqn:Hs1.
  assert (A1 : ATTEMPT s1 = ATTEMPT s + 1) by (subst s1; reflexivity).
  assert (E1 : EXIT_CODE s1 = exit_of p (ATTEMPT s + 1)) by (subst s1; reflexivity).
  assert (V1 : events s1 =
               events s ++ [Exec (ATTEMPT s + 1) (exit_of p (ATTEMPT s + 1))])
    by (subst s1; reflexivity).
  assert (L1 : exists l1, log_file s1 = log_file s ++ l1 /\
                 outputs_in l1 = [output_of p (ATTEMPT s + 1)]).
  { subst s1. eexists. split.
    - unfold pass, say. cbn [log_file ATTEMPT].
      rewrite <- !app_assoc. reflexivity.
    - reflexivity. }
  clear Hs1.
  destruct L1 as (l1 & L1 & O1).
  destruct (Z.eqb_spec (EXIT_CODE s1) 0) as [Ez|Enz].
  - (* success: break *)
    eexists _, (l1 ++ [_]). split; [reflexivity|].
    cbn [say ATTEMPT EXIT_CODE events log_file]. rewrite A1.
    split; [lia|]. split; [intros k Hk; lia|].
    split; [left; rewrite <- E1; exact Ez|].
    split; [exact E1|].
    split.
    { rewrite V1, attempts_with_backoff_cons by lia.
      rewrite attempts_with_backoff_nil, Z.ltb_irrefl. reflexivity. }
    split; [rewrite L1, <- app_assoc; reflexivity|].
    rewrite outputs_in_app, O1. simpl.
    replace (ATTEMPT s + 1 - ATTEMPT s) with 1 by lia. reflexivity.
  - (* failure *)
    cbn [say ATTEMPT EXIT_CODE events log_file].
    rewrite test_le_retries, A1.
    destruct (Z.leb_spec (ATTEMPT s + 1) R) as [Hle|Hgt].
    + (* retry after the backoff *)
      match goal with |- context [retry_loop fuel p JOB_NAME MAX_RETRIES ?s2] =>
        destruct (IH s2) as (s' & added & Hrun & Hat & Hnz & Hend & Hex & Hev & Hlog & Hout);
        [cbn [ATTEMPT]; lia | cbn [ATTEMPT]; lia |]
      end.
      cbn [say ATTEMPT EXIT_CODE events log_file] in *.
      exists s', (l1 ++ [Line "ERROR"
                   ("Job " +:+ JOB_NAME +:+ " failed with exit code " +:+
                    string_of_Z (EXIT_CODE s1));
                  Line "INFO" "Retrying in 5 seconds..."] ++ added).
      split; [exact Hrun|].
      split; [lia|].
      split.
      { intros k Hk. destruct (Z.eq_dec k (ATTEMPT s + 1)) as [->|Hne].
        - rewrite <- E1. exact Enz.
        - apply Hnz. lia. }
      split; [exact Hend|]. split; [exact Hex|].
      split.
      { rewrite Hev, V1, (attempts_with_backoff_cons (ATTEMPT s)) by lia.
        destruct (Z.ltb_spec (ATTEMPT s + 1) (ATTEMPT s')) as [_|?]; [|lia].
        rewrite <- !app_assoc. reflexivity. }
      split.
      { rewrite Hlog, L1. rewrite <- !app_assoc. reflexivity. }
      rewrite !outputs_in_app, O1, Hout. simpl.
      rewrite (seqZ_cons (ATTEMPT s + 1) (ATTEMPT s' - ATTEMPT s)) by lia.
      simpl.
      replace (Z.succ (ATTEMPT s + 1)) with (ATTEMPT s + 1 + 1) by lia.
      replace (Z.pred (ATTEMPT s' - ATTEMPT s))
        with (ATTEMPT s' - (ATTEMPT s + 1)) by lia.
      reflexivity.
    + (* retries used up: the loop condition fails next *)
      assert (Hfinal : forall f s2, ATTEMPT s2 = ATTEMPT s + 1 ->
                retry_loop f p JOB_NAME MAX_RETRIES s2 = Some s2).
      { intros f s2 H2. destruct f; simpl; rewrite test_le_retries, H2;
          destruct (Z.leb_spec (ATTEMPT s + 1) R); try lia; reflexivity. }
      rewrite Hfinal by exact A1.
      eexists _, (l1 ++ [_]). split; [reflexivity|].
      cbn [say ATTEMPT EXIT_CODE events log_file]. rewrite A1.
      split; [lia|]. split; [intros k Hk; lia|].
      split; [right; lia|].
      split; [exact E1|].
      split.
      { rewrite V1, attempts_with_backoff_cons by lia.
        rewrite attempts_with_backoff_nil, Z.ltb_irrefl. reflexivity. }
      split; [rewrite L1, <- app_assoc; reflexivity|].
      rewrite outputs_in_app, O1. simpl.
      replace (ATTEMPT s + 1 - ATTEMPT s) with 1 by lia. reflexivity.
Qed.

End Retry.

Section AttemptSequence.

Import Text State Jobs Runner.

Lemma findIndex_app_fresh (id : string) (runs : list RunRecord) (e : RunRecord) :
  (forall r, r ∈ runs -> runId r <> id) -> runId e = id ->
  findIndex (has_id id) (runs ++ [e]) = Some (length runs).
Proof.
  intros Hfresh He. induction runs as [|r runs IH]; simpl.
  - unfold has_id. rewrite bool_decide_eq_true_2 by exact He. reflexivity.
  - unfold has_id at 1. rewrite bool_decide_eq_false_2.
    + rewrite IH; [reflexivity|]. intros r' Hr'. apply Hfresh. now right.
    + apply Hfresh. now left.
Qed.

Lemma keep_last_100_snoc (runs : list RunRecord) (e : RunRecord) :
  exists older,
    keep_last_100 (runs ++ [e]) = older ++ [e] /\
    (length older <= 99)%nat /\
    (forall r, r ∈ older -> r ∈ runs).
Proof.
  exists (drop (length runs + 1 - 100) runs).
  rewrite keep_last_100_drop, length_app. simpl.
  split; [|split].
  - rewrite drop_app_le by lia. reflexivity.
  - rewrite length_drop. lia.
  - intros r Hr. apply list_elem_of_lookup in Hr as [i Hi].
    rewrite lookup_drop in Hi. apply list_elem_of_lookup. eauto.
Qed.

(** With an id no older record carries, the final update overwrites the
    [running] entry where it stands. *)
Lemma final_update_overwrites (st : store)
    (id job start stop log : string) (code att : Z) :
  (forall r, r ∈ getRecentRuns st -> runId r <> id) ->
  exists older,
    write_running_entry st id job start log =
      Some (older ++ [{| runId := id; jobName := job; startedAt := start;
                         completedAt := None; exitCode := None; attempts := None;
                         status := Some "running"; logFile := log |}]) /\
    final_update (write_running_entry st id job start log)
      id job start stop code att log =
      Some (older ++ [final_entry id job start stop code att log]).
Proof.
  intros Hfresh. unfold write_running_entry.
  destruct (keep_last_100_snoc (getRecentRuns st)
              {| runId := id; jobName := job; startedAt := start;
                 completedAt := None; exitCode := None; attempts := None;
                 status := Some "running"; logFile := log |})
    as (older & -> & Hlen & Hin).
  exists older. split; [reflexivity|].
  unfold final_update. cbn [getRecentRuns].
  rewrite findIndex_app_fresh; [|intros r Hr; apply Hfresh, Hin, Hr | reflexivity].
  rewrite insert_app_r_alt by lia. rewrite Nat.sub_diag. cbn [insert list_insert].
  unfold keep_last_100. rewrite length_app. simpl.
  destruct (Nat.ltb_spec 100 (length older + 1)); [lia | reflexivity].
Qed.

(** The retries a job asks for are what the shell reads: an integer
    below [2^53] under the key prints as its digits, and without the key
    (or with [null] under it) the default applies. *)
Lemma retries_of_number (def : object) (R : Z) :
  obj_get "retries" def = Some (YNum R) -> 0 <= R < 2 ^ 53 ->
  JOB_RETRIES (YMap def) = string_of_Z R.
Proof.
  intros Hret HR. unfold JOB_RETRIES, load_job. rewrite Hret.
  cbn [js_String]. unfold Number.number_text.
  destruct (Z.ltb_spec (Z.abs R) (2 ^ 53)) as [_|?]; [|lia].
  rewrite capture_printable by apply string_of_Z_printable.
  unfold or_default.
  destruct (String.eqb_spec (string_of_Z R) "") as [E|_]; [|reflexivity].
  destruct (string_of_Z_nonneg R) as [Hd _]; [lia|].
  rewrite E in Hd. discriminate.
Qed.

Lemma retries_by_default (doc : yval) :
  load_job doc "retries" = "" -> JOB_RETRIES doc = string_of_Z 0.
Proof. intros H. unfold JOB_RETRIES. rewrite H. reflexivity. Qed.

(** Retries that [test] does not take for an integer ([1e+21],
    [Infinity], [1.5], a word, a numeral beyond 64 bits): the loop is not
    entered, nothing is executed, and the record says so. *)
Lemma rejected_retries_run_nothing (fuel : nat) (w : World) (inv : Invocation)
    (name : string) (doc : yval) :
  args inv = [name] ->
  String.eqb name "--prompt" = false ->
  find_job_file w name = Some (Doc doc) ->
  shell_int (JOB_RETRIES doc) = None ->
  JOB_ENABLED doc <> "false" ->
  name ∉ lock_dirs w ->
  (forall r, r ∈ getRecentRuns (state w) ->
             runId r <> RUN_ID name (started_local inv)) ->
  let id := RUN_ID name (started_local inv) in
  let start := Clock.date_utc (started_utc inv) in
  let stop := Clock.date_utc (ended_utc inv) in
  exists out older,
    runner fuel w inv = Some out /\
    trace out = [] /\
    exit_status out = 1 /\
    state (world out) =
      Some (older ++ [final_entry id name start stop 1 0 (LOG_FILE id)]).
Proof.
  intros Hargs Hname Hfile Hrej Hen Hlock Hfresh id start stop.
  destruct (final_update_overwrites (state w) id name start stop (LOG_FILE id)
              1 0 Hfresh) as (older & Hw & Hf).
  assert (Hloop : forall s, retry_loop fuel (payload inv) name (JOB_RETRIES doc) s
                            = Some s).
  { intros s. destruct fuel; cbn [retry_loop]; unfold test_le;
      rewrite Hrej; reflexivity. }
  eexists _, older. split.
  { unfold runner. rewrite Hargs, Hname, Hfile.
    destruct (String.eqb_spec (JOB_ENABLED doc) "false") as [E|_];
      [contradiction|].
    unfold locked_run. rewrite bool_decide_eq_false_2 by exact Hlock.
    rewrite Hloop. reflexivity. }
  cbn [trace exit_status world state say EXIT_CODE ATTEMPT events].
  split; [reflexivity|]. split; [reflexivity|]. exact Hf.
Qed.

(** Numbers beyond the integers a double holds reach the shell rounded,
    and from [1e21] on in exponent form, which [test] rejects. *)
Lemma retries_beyond_the_numerals :
  JOB_RETRIES (YMap [("retries", YNum (2 ^ 53 + 1))]) = "9007199254740992" /\
  JOB_RETRIES (YMap [("retries", YNum (10 ^ 19))]) = "10000000000000000000" /\
  shell_int "10000000000000000000" = None /\
  JOB_RETRIES (YMap [("retries", YNum (10 ^ 21))]) = "1e+21" /\
  shell_int "1e+21" = None.
Proof. repeat split; vm_compute; reflexivity. Qed.


End AttemptSequence.

Section AttemptSequenceExamples.

Import Text State Jobs Runner.


End AttemptSequenceExamples.


(** ** Paused jobs *)

Section Pausing.

Import Text State Jobs Runner.

(** A named invocation of a job whose [enabled] prints as [false] stops
    before the lock: nothing is executed and nothing is written. *)
Lemma paused_job_is_skipped (fuel : nat) (w : World) (inv : Invocation)
    (name : string) (doc : yval) (rest : list string) :
  args inv = name :: rest ->
  String.eqb name "--prompt" = false ->
  find_job_file w name = Some (Doc doc) ->
  JOB_ENABLED doc = "false" ->
  runner fuel w inv = Some {| exit_status := 0; world := w; trace := [] |}.
Proof.
  intros Hargs Hname Hfile Hen. unfold runner.
  rewrite Hargs, Hname, Hfile, Hen. reflexivity.
Qed.

(** The trigger endpoint and the installed schedule start the runner with
    the same arguments. *)
Lemma trigger_runs_like_the_schedule (w : World) (now : Clock.DateTime)
    (jobName : string) :
  RunnerLib.jobExists w jobName = true ->
  (Routes.trigger w now jobName).2 = Some (launchd_args jobName).
Proof. intros H. unfold Routes.trigger. rewrite H. reflexivity. Qed.

(** C7 (the code departs from it). A job with [enabled: false], triggered
    through [POST /api/runs/trigger/paused]: the endpoint answers with a
    run id and starts [runner.sh paused], the same invocation the
    schedule would make, and that invocation exits 0 without executing
    the command or touching the store, the locks or the logs. *)
Theorem manual_trigger_of_paused_job_runs_nothing :
  let def := [("prompt", YStr "test"); ("schedule", YStr "0 7 * * *");
              ("enabled", YBool false)] in
  let w := {| job_files := {| jobs_local := ∅;
                              jobs_shared := {[ "paused" := Doc (YMap def) ]};
                              script_dir := ["opt"; "claude-runner"];
                              elsewhere := fun _ => None; syncs := 0 |};
              state := Some []; lock_dirs := ∅; pid_files := ∅; logs := ∅ |} in
  let t := {| Clock.year := 2025; Clock.month := 3; Clock.day := 9;
              Clock.hours := 7; Clock.minutes := 5; Clock.seconds := 0;
              Clock.millis := 0 |} in
  Routes.trigger w t "paused" =
    (Routes.Ok200 "paused-20250309070500.", Some ["paused"]) /\
  launchd_args "paused" = ["paused"] /\
  forall fuel t1 t2 t3 pid p,
    runner fuel w {| args := ["paused"]; started_local := t1; started_utc := t2;
                     ended_utc := t3; shell_pid := pid; payload := p |}
    = Some {| exit_status := 0; world := w; trace := [] |}.
Proof.
  intros def w t. split; [reflexivity|]. split; [reflexivity|].
  intros fuel t1 t2 t3 pid p.
  apply (paused_job_is_skipped fuel w _ "paused" (YMap def) []); reflexivity.
Qed.

End Pausing.

(** ** Deleting runs *)

Section Deletion.

Import State Routes.

Lemma unlink_log_subset (fs locked : gset string) (log : string) :
  unlink_log fs locked log ⊆ fs.
Proof.
  unfold unlink_log.
  destruct (negb (String.eqb log "") && bool_decide (log ∈ fs)); [|set_solver].
  destruct (bool_decide (log ∈ locked)); [set_solver|].
  intros x Hx. apply elem_of_difference in Hx as [Hx _]. exact Hx.
Qed.

Lemma unlink_log_removes (fs locked : gset string) (log : string) :
  log <> "" -> log ∉ locked -> log ∉ unlink_log fs locked log.
Proof.
  intros Hne Hl. unfold unlink_log.
  destruct (String.eqb_spec log "") as [?|_]; [contradiction|]. simpl.
  case_bool_decide as Hin; [|exact Hin].
  rewrite bool_decide_eq_false_2 by exact Hl.
  intros H. apply elem_of_difference in H as [_ H].
  apply H, elem_of_singleton. reflexivity.
Qed.

Lemma sweep_kept (keep : RunRecord -> bool) (locked : gset string)
    (runs : list RunRecord) (fs : gset string) :
  (sweep keep locked runs fs).1.1 = List.filter keep runs.
Proof.
  revert fs. induction runs as [|r runs IH]; intros fs; simpl; [reflexivity|].
  destruct (keep r).
  - specialize (IH fs). destruct (sweep keep locked runs fs) as [[k n] f].
    simpl in *. rewrite IH. reflexivity.
  - specialize (IH (unlink_log fs locked (logFile r))).
    destruct (sweep keep locked runs _) as [[k n] f]. exact IH.
Qed.

Lemma sweep_count (keep : RunRecord -> bool) (locked : gset string)
    (runs : list RunRecord) (fs : gset string) :
  (sweep keep locked runs fs).1.2 =
  Z.of_nat (length (List.filter (fun r => negb (keep r)) runs)).
Proof.
  revert fs. induction runs as [|r runs IH]; intros fs; simpl; [reflexivity|].
  destruct (keep r); simpl.
  - specialize (IH fs). destruct (sweep keep locked runs fs) as [[k n] f].
    exact IH.
  - specialize (IH (unlink_log fs locked (logFile r))).
    destruct (sweep keep locked runs _) as [[k n] f]. simpl in *. lia.
Qed.

Lemma sweep_files_subset (keep : RunRecord -> bool) (locked : gset string)
    (runs : list RunRecord) (fs : gset string) :
  (sweep keep locked runs fs).2 ⊆ fs.
Proof.
  revert fs. induction runs as [|r runs IH]; intros fs; simpl; [set_solver|].
  destruct (keep r).
  - specialize (IH fs). destruct (sweep keep locked runs fs) as [[k n] f].
    exact IH.
  - specialize (IH (unlink_log fs locked (logFile r))).
    pose proof (unlink_log_subset fs locked (logFile r)).
    destruct (sweep keep locked runs _) as [[k n] f]. simpl in *. set_solver.
Qed.

(** The log of every record the loop drops is gone afterwards, unless it
    has no path or the unlink fails. *)
Lemma sweep_unlinks (keep : RunRecord -> bool) (locked : gset string)
    (runs : list RunRecord) (fs : gset string) (r : RunRecord) :
  r ∈ runs -> keep r = false ->
  logFile r <> "" -> logFile r ∉ locked ->
  logFile r ∉ (sweep keep locked runs fs).2.
Proof.
  intros Hin Hk Hne Hl. revert fs.
  induction runs as [|x runs IH]; intros fs; [inversion Hin|].
  simpl. apply elem_of_cons in Hin as [<-|Hin].
  - rewrite Hk.
    pose proof (sweep_files_subset keep locked runs
                  (unlink_log fs locked (logFile r))) as Hsub.
    pose proof (unlink_log_removes fs locked (logFile r) Hne Hl).
    destruct (sweep keep locked runs _) as [[k n] f]. simpl in *. set_solver.
  - destruct (keep x).
    + specialize (IH Hin fs). destruct (sweep keep locked runs fs) as [[k n] f].
      exact IH.
    + specialize (IH Hin (unlink_log fs locked (logFile x))).
      destruct (sweep keep locked runs _) as [[k n] f]. exact IH.
Qed.

(** A failing unlink changes neither the records kept nor the count. *)
Lemma sweep_ignores_unlink_failures (keep : RunRecord -> bool)
    (locked locked' : gset string) (runs : list RunRecord) (fs fs' : gset string) :
  (sweep keep locked runs fs).1 = (sweep keep locked' runs fs').1.
Proof.
  apply injective_projections;
    [simpl; rewrite !sweep_kept | simpl; rewrite !sweep_count]; reflexivity.
Qed.

Lemma findIndex_find {A} (p : A -> bool) (l : list A) :
  match findIndex p l with
  | Some i => exists x, l !! i = Some x /\ find p l = Some x /\ p x = true
  | None => find p l = None
  end.
Proof.
  induction l as [|a l IH]; simpl; [reflexivity|].
  destruct (p a) eqn:E; [exists a; auto|].
  destruct (findIndex p l) as [i|]; simpl; [|exact IH].
  destruct IH as (x & ? & ? & ?). exists x. auto.
Qed.

Lemma filter_keeps_running (keep : RunRecord -> bool) (runs : list RunRecord)
    (r : RunRecord) :
  (forall x, is_running x = true -> keep x = true) ->
  r ∈ runs -> is_running r = true -> r ∈ List.filter keep runs.
Proof.
  intros Hk Hin Hr. apply list_elem_of_In, filter_In.
  split; [apply list_elem_of_In; exact Hin | apply Hk; exact Hr].
Qed.

Lemma deleteRuns_spec (d : Disk) (runIds : list string) (runs : list RunRecord) :
  state_file d = Some runs ->
  state_file (deleteRuns d runIds).2 =
    Some (List.filter (deleteRuns_keeps runIds) runs) /\
  (deleteRuns d runIds).1 =
    Z.of_nat (length (List.filter (fun r => negb (deleteRuns_keeps runIds r)) runs)) /\
  files (deleteRuns d runIds).2 =
    (sweep (deleteRuns_keeps runIds) (undeletable d) runs (files d)).2.
Proof.
  intros H. unfold deleteRuns. rewrite H.
  pose proof (sweep_kept (deleteRuns_keeps runIds) (undeletable d) runs (files d)).
  pose proof (sweep_count (deleteRuns_keeps runIds) (undeletable d) runs (files d)).
  destruct (sweep _ _ runs (files d)) as [[k n] f]. simpl in *. subst. auto.
Qed.

Lemma clearRuns_spec (d : Disk) (filter : option string) (runs : list RunRecord) :
  state_file d = Some runs ->
  state_file (clearRuns d filter).2 =
    Some (List.filter (clearRuns_keeps filter) runs) /\
  (clearRuns d filter).1 =
    Z.of_nat (length (List.filter (fun r => negb (clearRuns_keeps filter r)) runs)) /\
  files (clearRuns d filter).2 =
    (sweep (clearRuns_keeps filter) (undeletable d) runs (files d)).2.
Proof.
  intros H. unfold clearRuns. rewrite H.
  pose proof (sweep_kept (clearRuns_keeps filter) (undeletable d) runs (files d)).
  pose proof (sweep_count (clearRuns_keeps filter) (undeletable d) runs (files d)).
  destruct (sweep _ _ runs (files d)) as [[k n] f]. simpl in *. subst. auto.
Qed.

Lemma deleteRuns_keeps_running (runIds : list string) (r : RunRecord) :
  is_running r = true -> deleteRuns_keeps runIds r = true.
Proof. intros H. unfold deleteRuns_keeps. rewrite H. apply orb_true_r. Qed.

Lemma clearRuns_keeps_running (filter : option string) (r : RunRecord) :
  is_running r = true -> clearRuns_keeps filter r = true.
Proof.
  intros H. unfold clearRuns_keeps. rewrite H.
  destruct filter as [f|]; [|reflexivity].
  destruct (String.eqb f ""); [reflexivity | apply orb_true_r].
Qed.

Lemma deleteRuns_spares_running (d : Disk) (runIds : list string) :
  spares_running (deleteRuns_keeps runIds) d
    (deleteRuns d runIds).1 (deleteRuns d runIds).2.
Proof.
  unfold spares_running.
  destruct (state_file d) as [runs|] eqn:E.
  - destruct (deleteRuns_spec d runIds runs E) as (Hs & Hc & Hf).
    rewrite Hs, Hc, Hf. cbn [getRecentRuns].
    split; [reflexivity|]. split; [reflexivity|].
    split; [intros r Hin Hr; apply filter_keeps_running;
            auto using deleteRuns_keeps_running|].
    split; [intros r Hin Hk Hne Hl; apply sweep_unlinks; assumption|].
    apply sweep_files_subset.
  - unfold deleteRuns. rewrite E. cbn. rewrite E. cbn.
    repeat split; try reflexivity; intros r Hr; inversion Hr.
Qed.

Lemma clearRuns_spares_running (d : Disk) (filter : option string) :
  spares_running (clearRuns_keeps filter) d
    (clearRuns d filter).1 (clearRuns d filter).2.
Proof.
  unfold spares_running.
  destruct (state_file d) as [runs|] eqn:E.
  - destruct (clearRuns_spec d filter runs E) as (Hs & Hc & Hf).
    rewrite Hs, Hc, Hf. cbn [getRecentRuns].
    split; [reflexivity|]. split; [reflexivity|].
    split; [intros r Hin Hr; apply filter_keeps_running;
            auto using clearRuns_keeps_running|].
    split; [intros r Hin Hk Hne Hl; apply sweep_unlinks; assumption|].
    apply sweep_files_subset.
  - unfold clearRuns. rewrite E. cbn. rewrite E. cbn.
    repeat split; try reflexivity; intros r Hr; inversion Hr.
Qed.

(** [deleteRun] itself removes the first record with the id, running or
    not. *)
Lemma deleteRun_found (d : Disk) (id : string) (run : RunRecord) :
  getRunById (state_file d) id = Some run ->
  exists before after,
    getRecentRuns (state_file d) = before ++ run :: after /\
    (deleteRun d id).1 = true /\
    state_file (deleteRun d id).2 = Some (before ++ after) /\
    files (deleteRun d id).2 = unlink_log (files d) (undeletable d) (logFile run).
Proof.
  unfold getRunById, deleteRun. intros Hfind.
  destruct (state_file d) as [runs|]; [|discriminate]. cbn [getRecentRuns] in *.
  pose proof (findIndex_find (has_id id) runs) as Hidx.
  destruct (findIndex (has_id id) runs) as [idx|]; [|congruence].
  destruct Hidx as (x & Hx & Hfx & _).
  assert (x = run) as -> by congruence.
  rewrite Hx. cbn.
  exists (take idx runs), (drop (S idx) runs).
  split; [symmetry; apply take_drop_middle; exact Hx|].
  split; [reflexivity|]. split; [|reflexivity].
  rewrite delete_take_drop. reflexivity.
Qed.

(** The route refuses a running record and otherwise removes exactly the
    record it found. *)
Lemma delete_route_spec (d : Disk) (id : string) :
  match getRunById (state_file d) id with
  | None =>
      Routes.delete_run d id = (Routes.Error 404 ("Run not found: " +:+ id), d)
  | Some run =>
      if is_running run then
        Routes.delete_run d id =
          (Routes.Error 400 "Cannot delete a running job. Kill it first.", d)
      else
        exists before after,
          getRecentRuns (state_file d) = before ++ run :: after /\
          (Routes.delete_run d id).1 = Routes.Ok200 "deleted" /\
          state_file (Routes.delete_run d id).2 = Some (before ++ after) /\
          files (Routes.delete_run d id).2 =
            unlink_log (files d) (undeletable d) (logFile run)
  end.
Proof.
  unfold Routes.delete_run.
  destruct (getRunById (state_file d) id) as [run|] eqn:Hfind; [|reflexivity].
  destruct (is_running run) eqn:Hr; [reflexivity|].
  destruct (deleteRun_found d id run Hfind) as (b & a & Hsplit & Hok & Hst & Hfs).
  exists b, a. destruct (deleteRun d id) as [ok d']. simpl in *. subst ok.
  auto.
Qed.

Lemma delete_route_spares_running (d : Disk) (id : string) (r : RunRecord) :
  r ∈ getRecentRuns (state_file d) -> is_running r = true ->
  r ∈ getRecentRuns (state_file (delete_run d id).2).
Proof.
  intros Hin Hr. pose proof (delete_route_spec d id) as H.
  destruct (getRunById (state_file d) id) as [run|];
    [|rewrite H; exact Hin].
  destruct (is_running run) eqn:Hrun; [rewrite H; exact Hin|].
  destruct H as (b & a & Hsplit & _ & Hst & _).
  rewrite Hst. cbn [getRecentRuns]. rewrite Hsplit in Hin.
  apply elem_of_app in Hin as [Hin|Hin]; [apply elem_of_app; now left|].
  apply elem_of_cons in Hin as [->|Hin]; [congruence|].
  apply elem_of_app. now right.
Qed.

Lemma unlink_failures_do_not_matter (d : Disk) (u : gset string) :
  (forall runIds,
     (deleteRuns (with_undeletable d u) runIds).1 = (deleteRuns d runIds).1 /\
     state_file (deleteRuns (with_undeletable d u) runIds).2 =
       state_file (deleteRuns d runIds).2) /\
  (forall filter,
     (clearRuns (with_undeletable d u) filter).1 = (clearRuns d filter).1 /\
     state_file (clearRuns (with_undeletable d u) filter).2 =
       state_file (clearRuns d filter).2) /\
  (forall id,
     (delete_run (with_undeletable d u) id).1 = (delete_run d id).1 /\
     state_file (delete_run (with_undeletable d u) id).2 =
       state_file (delete_run d id).2).
Proof.
  split; [|split].
  - intros runIds. unfold deleteRuns, with_undeletable. cbn [state_file files undeletable].
    destruct (state_file d) as [runs|] eqn:E; [|simpl; rewrite E; auto].
    pose proof (sweep_ignores_unlink_failures (deleteRuns_keeps runIds)
                  u (undeletable d) runs (files d) (files d)) as H.
    destruct (sweep _ u runs (files d)) as [[k n] f].
    destruct (sweep _ (undeletable d) runs (files d)) as [[k' n'] f'].
    simpl in *. injection H as -> ->. auto.
  - intros filter. unfold clearRuns, with_undeletable. cbn [state_file files undeletable].
    destruct (state_file d) as [runs|] eqn:E; [|simpl; rewrite E; auto].
    pose proof (sweep_ignores_unlink_failures (clearRuns_keeps filter)
                  u (undeletable d) runs (files d) (files d)) as H.
    destruct (sweep _ u runs (files d)) as [[k n] f].
    destruct (sweep _ (undeletable d) runs (files d)) as [[k' n'] f'].
    simpl in *. injection H as -> ->. auto.
  - intros id. unfold delete_run, deleteRun, with_undeletable.
    cbn [state_file files undeletable].
    destruct (getRunById (state_file d) id) as [run|]; [|auto].
    destruct (is_running run); [auto|].
    destruct (state_file d) as [runs|] eqn:E; [|simpl; rewrite E; auto].
    destruct (findIndex (has_id id) runs) as [idx|]; [|simpl; rewrite E; auto].
    destruct (runs !! idx); [auto | simpl; rewrite E; auto].
Qed.

(** C5, as the code has it. Batch delete and filtered clear keep every
    running record without reporting it: the records left are those the
    loop keeps, in order, every running record among them. Deleting by id
    goes through the route, which refuses a running record with a 400
    error and leaves the disk as it is, and otherwise removes exactly the
    record found. For every record removed by any of the three, its log
    file is gone afterwards when it has a path and the unlink does not
    fail; and which unlinks fail changes neither the records left nor the
    answer. *)
Theorem deletion_spares_running_records (d : Disk) :
  (forall runIds,
     spares_running (deleteRuns_keeps runIds) d
       (deleteRuns d runIds).1 (deleteRuns d runIds).2) /\
  (forall filter,
     spares_running (clearRuns_keeps filter) d
       (clearRuns d filter).1 (clearRuns d filter).2) /\
  (forall id,
     (forall r, r ∈ getRecentRuns (state_file d) -> is_running r = true ->
                r ∈ getRecentRuns (state_file (delete_run d id).2)) /\
     forall run, getRunById (state_file d) id = Some run ->
       if is_running run then
         delete_run d id =
           (Error 400 "Cannot delete a running job. Kill it first.", d)
       else
         exists before after,
           getRecentRuns (state_file d) = before ++ run :: after /\
           (delete_run d id).1 = Ok200 "deleted" /\
           state_file (delete_run d id).2 = Some (before ++ after) /\
           (logFile run <> "" -> logFile run ∉ undeletable d ->
            logFile run ∉ files (delete_run d id).2)) /\
  (forall u runIds filter id,
     (deleteRuns (with_undeletable d u) runIds).1 = (deleteRuns d runIds).1 /\
     state_file (deleteRuns (with_undeletable d u) runIds).2 =
       state_file (deleteRuns d runIds).2 /\
     (clearRuns (with_undeletable d u) filter).1 = (clearRuns d filter).1 /\
     state_file (clearRuns (with_undeletable d u) filter).2 =
       state_file (clearRuns d filter).2 /\
     (delete_run (with_undeletable d u) id).1 = (delete_run d id).1 /\
     state_file (delete_run (with_undeletable d u) id).2 =
       state_file (delete_run d id).2).
Proof.
  split; [intros; apply deleteRuns_spares_running|].
  split; [intros; apply clearRuns_spares_running|].
  split.
  - intros id. split; [intros r; apply delete_route_spares_running|].
    intros run Hfind. pose proof (delete_route_spec d id) as H.
    rewrite Hfind in H. destruct (is_running run); [exact H|].
    destruct H as (b & a & Hsplit & Hok & Hst & Hfs).
    exists b, a.
    split; [exact Hsplit|]. split; [exact Hok|]. split; [exact Hst|].
    intros Hne Hl. rewrite Hfs. apply unlink_log_removes; assumption.
  - intros u runIds filter id.
    destruct (unlink_failures_do_not_matter d u) as (H1 & H2 & H3).
    destruct (H1 runIds), (H2 filter), (H3 id). auto 10.
Qed.

(** C5 as stated fails for delete-by-id: on the store of the repository's
    tests, [deleteRun] removes the running record [run-3] and reports
    success, and the route, which does protect it, answers with an error
    rather than skipping silently. *)
Lemma deleteRun_removes_a_running_record :
  let run1 := {| runId := "run-1"; jobName := "alpha";
                 startedAt := "2025-01-01T00:00:00Z";
                 completedAt := Some "2025-01-01T00:05:00Z";
                 exitCode := Some 0; attempts := None;
                 status := Some "success"; logFile := "/tmp/fake-log-1.txt" |} in
  let run3 := {| runId := "run-3"; jobName := "gamma";
                 startedAt := "2025-01-03T00:00:00Z";
                 completedAt := None; exitCode := None; attempts := None;
                 status := Some "running"; logFile := "/tmp/fake-log-3.txt" |} in
  let d := {| state_file := Some [run1; run3]; files := ∅; undeletable := ∅ |} in
  is_running run3 = true /\
  (deleteRun d "run-3").1 = true /\
  state_file (deleteRun d "run-3").2 = Some [run1] /\
  (delete_run d "run-3").1 =
    Error 400 "Cannot delete a running job. Kill it first.".
Proof. repeat split; reflexivity. Qed.

End Deletion.

(** ** Killing a job *)

Section Kill.

Import Text Number State RunnerLib.

Lemma assign_runId (r : RunRecord) (u : Updates) :
  u_runId u = None -> runId (assign r u) = runId r.
Proof. intros H. cbn. rewrite H. reflexivity. Qed.

Lemma update_matching_none (runs : list RunRecord) (id : string) (u : Updates) :
  id ∉ runId <$> runs ->
  (fun r => if has_id id r then assign r u else r) <$> runs = runs.
Proof.
  intros Hid. rewrite <- (list_fmap_id runs) at 2.
  apply list_fmap_ext. intros i r Hi. unfold has_id.
  rewrite bool_decide_eq_false_2; [reflexivity|].
  intros E. apply Hid. apply list_elem_of_fmap. exists r.
  split; [symmetry; exact E|]. apply list_elem_of_lookup. eauto.
Qed.

(** With distinct ids, [updateRun] changes exactly the records with the
    id. *)
Lemma updateRun_map (runs : list RunRecord) (id : string) (u : Updates) :
  NoDup (runId <$> runs) ->
  (updateRun (Some runs) id u).2 =
  Some ((fun r => if has_id id r then assign r u else r) <$> runs).
Proof.
  intros Hnd. unfold updateRun.
  assert (H : match findIndex (has_id id) runs with
              | Some idx =>
                  exists run, runs !! idx = Some run /\
                    <[idx := assign run u]> runs =
                    (fun r => if has_id id r then assign r u else r) <$> runs
              | None => (fun r => if has_id id r then assign r u else r) <$> runs = runs
              end).
  { induction runs as [|r runs IH]; [reflexivity|].
    rewrite fmap_cons in Hnd. apply NoDup_cons in Hnd as [Hr Hnd].
    specialize (IH Hnd).
    cbn [findIndex]. rewrite fmap_cons. destruct (has_id id r) eqn:E.
    - exists r. split; [reflexivity|]. cbn [insert list_insert]. f_equal.
      symmetry. apply update_matching_none.
      unfold has_id in E. apply bool_decide_eq_true in E. rewrite <- E. exact Hr.
    - destruct (findIndex (has_id id) runs) as [idx|]; cbn.
      + destruct IH as (run & Hl & Hi). exists run. split; [exact Hl|].
        f_equal. exact Hi.
      + f_equal. exact IH. }
  destruct (findIndex (has_id id) runs) as [idx|].
  - destruct H as (run & -> & ->). reflexivity.
  - rewrite H. reflexivity.
Qed.

Lemma mark_killed_map (now : string) (stale runs : list RunRecord) :
  NoDup (runId <$> runs) ->
  NoDup (runId <$> stale) ->
  mark_killed now stale (Some runs) =
  Some ((fun r => if bool_decide (runId r ∈ runId <$> stale)
                  then assign r (killed_update now) else r) <$> runs).
Proof.
  revert runs. induction stale as [|x stale IH]; intros runs Hnd Hst.
  - cbn. f_equal. induction runs as [|r runs IHr]; [reflexivity|].
    cbn. rewrite bool_decide_eq_false_2 by apply not_elem_of_nil.
    f_equal. apply IHr. apply NoDup_cons in Hnd as [_ ?]. assumption.
  - cbn [mark_killed]. rewrite updateRun_map by exact Hnd.
    rewrite fmap_cons in Hst. apply NoDup_cons in Hst as [Hx Hst].
    rewrite IH; [| |exact Hst].
    + f_equal. rewrite <- list_fmap_compose. apply list_fmap_ext.
      intros _ r _. unfold compose, has_id. rewrite fmap_cons.
      destruct (decide (runId r = runId x)) as [E|E].
      * rewrite (bool_decide_eq_true_2 (runId r = runId x)) by exact E.
        rewrite assign_runId by reflexivity.
        rewrite (bool_decide_eq_false_2 (runId r ∈ runId <$> stale))
          by (rewrite E; exact Hx).
        rewrite bool_decide_eq_true_2; [reflexivity|].
        rewrite E. apply elem_of_cons. now left.
      * rewrite (bool_decide_eq_false_2 (runId r = runId x)) by exact E.
        rewrite (bool_decide_ext (runId r ∈ runId x :: (runId <$> stale))
                   (runId r ∈ runId <$> stale)); [reflexivity|].
        rewrite elem_of_cons. tauto.
    + rewrite <- list_fmap_compose.
      erewrite list_fmap_ext; [exact Hnd|].
      intros _ r _. cbn. destruct (has_id (runId x) r); reflexivity.
Qed.

Lemma NoDup_fmap_filter (P : RunRecord -> Prop) `{!forall r, Decision (P r)}
    (runs : list RunRecord) :
  NoDup (runId <$> runs) -> NoDup (runId <$> filter P runs).
Proof.
  induction runs as [|r runs IH]; intros Hnd; [constructor|].
  rewrite fmap_cons in Hnd. apply NoDup_cons in Hnd as [Hr Hnd].
  rewrite filter_cons. destruct (decide (P r)); [|auto].
  rewrite fmap_cons. apply NoDup_cons. split; [|auto].
  intros Hin. apply Hr. apply list_elem_of_fmap in Hin as (y & Ey & Hy).
  apply list_elem_of_fmap. exists y. split; [exact Ey|].
  apply list_elem_of_filter in Hy as [_ Hy]. exact Hy.
Qed.

(** With distinct ids, the scan marks exactly the running records of the
    job. *)
Lemma mark_killed_stale (now jobName : string) (runs : list RunRecord) :
  NoDup (runId <$> runs) ->
  mark_killed now (filter (fun r => is_stale jobName r = true) runs) (Some runs) =
  Some ((fun r => if is_stale jobName r
                  then assign r (killed_update now) else r) <$> runs).
Proof.
  intros Hnd. rewrite mark_killed_map; [|exact Hnd|apply NoDup_fmap_filter, Hnd].
  f_equal. apply list_fmap_ext. intros i r Hi.
  destruct (is_stale jobName r) eqn:E.
  - rewrite bool_decide_eq_true_2; [reflexivity|].
    apply list_elem_of_fmap. exists r. split; [reflexivity|].
    apply list_elem_of_filter. split; [exact E|].
    apply list_elem_of_lookup. eauto.
  - rewrite bool_decide_eq_false_2; [reflexivity|].
    intros Hin. apply list_elem_of_fmap in Hin as (y & Ey & Hy).
    apply list_elem_of_filter in Hy as [Hs Hy].
    apply list_elem_of_lookup in Hy as [j Hj].
    assert (i = j).
    { eapply NoDup_lookup; [exact Hnd | |].
      - rewrite list_lookup_fmap, Hi. reflexivity.
      - rewrite list_lookup_fmap, Hj. cbn. rewrite Ey. reflexivity. }
    subst j. rewrite Hi in Hj. injection Hj as <-. congruence.
Qed.

Lemma filter_stale_nil (jobName : string) (runs : list RunRecord) :
  filter (fun r => is_stale jobName r = true) runs = [] <->
  existsb (is_stale jobName) runs = false.
Proof.
  induction runs as [|r runs IH]; [cbn; tauto|].
  rewrite filter_cons. cbn [existsb].
  destruct (decide (is_stale jobName r = true)) as [E|E].
  - rewrite E. cbn. split; discriminate.
  - apply not_true_is_false in E. rewrite E. exact IH.
Qed.

Lemma reconcile_spec (w : Runner.World) (jobName now : string) :
  NoDup (runId <$> getRecentRuns (Runner.state w)) ->
  if has_stale w jobName then
    reconcile w jobName now =
    ({| killed := true; kill_error := None |},
     {| Runner.job_files := Runner.job_files w;
        Runner.state := Some (force_killed now jobName (getRecentRuns (Runner.state w)));
        Runner.lock_dirs := Runner.lock_dirs w;
        Runner.pid_files := Runner.pid_files w;
        Runner.logs := Runner.logs w |})
  else
    reconcile w jobName now =
    ({| killed := false; kill_error := Some "No running process found" |}, w).
Proof.
  intros Hnd. unfold has_stale, reconcile.
  pose proof (filter_stale_nil jobName (getRecentRuns (Runner.state w))) as Hnil.
  destruct (existsb (is_stale jobName) (getRecentRuns (Runner.state w))) eqn:E.
  - destruct (filter _ (getRecentRuns (Runner.state w))) as [|x l] eqn:F.
    + destruct Hnil as [Hnil _]. discriminate (Hnil eq_refl).
    + rewrite <- F. f_equal. f_equal.
      destruct (Runner.state w) as [runs|] eqn:S.
      * cbn [getRecentRuns] in *. apply mark_killed_stale. exact Hnd.
      * cbn in F. discriminate F.
  - destruct Hnil as [_ Hnil]. rewrite (Hnil eq_refl). reflexivity.
Qed.




End Kill.

(** ** The cron compiler *)

Section CronText.

Import Text Cron.

Lemma all_chars_impl (p q : ascii -> bool) (s : string) :
  (forall c, p c = true -> q c = true) ->
  all_chars p s = true -> all_chars q s = true.
Proof.
  intros Hpq. induction s as [|c s IH]; [reflexivity|]. simpl.
  intros H. apply andb_true_iff in H as [Hc Hs].
  rewrite (Hpq c Hc), IH by exact Hs. reflexivity.
Qed.

Lemma starts_with_lt_no_lt (p : string) (c : ascii) (s : string) :
  no_lt c = true -> starts_with (String "<" p) (String c s) = false.
Proof.
  intros H. cbn [starts_with].
  destruct (Ascii.eqb_spec "<" c) as [<-|_]; [discriminate H|]. reflexivity.
Qed.

(** A pattern that begins with [<] is not found across text without
    [<]. *)
Lemma contains_after_no_lt (p v rest : string) :
  all_chars no_lt v = true ->
  contains (String "<" p) (v +:+ rest) = contains (String "<" p) rest.
Proof.
  induction v as [|c v IH]; intros H; [reflexivity|].
  simpl in H. apply andb_true_iff in H as [Hc Hv].
  rewrite append_cons.
  change (contains (String "<" p) (String c (v +:+ rest)))
    with (starts_with (String "<" p) (String c (v +:+ rest)) ||
          contains (String "<" p) (v +:+ rest)).
  rewrite starts_with_lt_no_lt by exact Hc. simpl orb. apply IH. exact Hv.
Qed.

Ltac search_line :=
  unfold key_tag; rewrite ?append_cons, ?append_empty;
  cbn -[String.append];
  rewrite ?contains_after_no_lt by assumption;
  reflexivity.

(** The line of a key holds neither [<dict>] nor the tag of another
    key. *)
Lemma key_line_no_dict (key v : string) :
  key ∈ keys -> all_chars no_lt v = true ->
  grep_count "<dict>" (key_line key v) = 0%nat.
Proof.
  intros Hk Hv. unfold key_line, grep_count.
  destruct (String.eqb v "*"); [reflexivity|].
  cbn [List.filter].
  assert (contains "<dict>"
            ("        <key>" +:+ key +:+ "</key><integer>" +:+ v +:+ "</integer>")
          = false) as ->; [|reflexivity].
  unfold keys in Hk. rewrite !elem_of_cons in Hk.
  destruct Hk as [->|[->|[->|[->|[->|Hk]]]]]; [search_line..|inversion Hk].
Qed.

Lemma key_line_other_key (key k' v : string) :
  key ∈ keys -> k' ∈ keys -> key <> k' -> all_chars no_lt v = true ->
  existsb (contains (key_tag k')) (key_line key v) = false.
Proof.
  intros Hk Hk' Hne Hv. unfold key_line.
  destruct (String.eqb v "*"); [reflexivity|].
  cbn [existsb]. rewrite orb_false_r.
  unfold keys in Hk, Hk'. rewrite !elem_of_cons in Hk, Hk'.
  destruct Hk as [->|[->|[->|[->|[->|Hk]]]]]; [..|inversion Hk];
  destruct Hk' as [->|[->|[->|[->|[->|Hk']]]]];
    try (inversion Hk'; fail); try congruence; search_line.
Qed.

Lemma key_line_star (key : string) : key_line key "*" = [].
Proof. reflexivity. Qed.

Lemma grep_count_app (p : string) (l1 l2 : list string) :
  grep_count p (l1 ++ l2) = (grep_count p l1 + grep_count p l2)%nat.
Proof. unfold grep_count. rewrite List.filter_app, length_app. reflexivity. Qed.

Lemma grep_count_bind {A} (p : string) (f : A -> list string) (l : list A) (c : nat) :
  (forall x, x ∈ l -> grep_count p (f x) = c) ->
  grep_count p (l ≫= f) = (length l * c)%nat.
Proof.
  induction l as [|x l IH]; intros H; [reflexivity|].
  rewrite bind_cons, grep_count_app, IH.
  - rewrite H by (apply elem_of_cons; now left). simpl. lia.
  - intros y Hy. apply H. apply elem_of_cons. now right.
Qed.

Lemma existsb_bind {A} (q : string -> bool) (f : A -> list string) (l : list A) :
  (forall x, x ∈ l -> existsb q (f x) = false) ->
  existsb q (l ≫= f) = false.
Proof.
  induction l as [|x l IH]; intros H; [reflexivity|].
  rewrite bind_cons, existsb_app, IH.
  - rewrite H by (apply elem_of_cons; now left). reflexivity.
  - intros y Hy. apply H. apply elem_of_cons. now right.
Qed.

(** One [<dict>] line per dictionary. *)
Lemma dict_lines_count (m h d mo dw : string) :
  all_chars no_lt m = true -> all_chars no_lt h = true ->
  all_chars no_lt d = true -> all_chars no_lt mo = true ->
  all_chars no_lt dw = true ->
  grep_count "<dict>" (dict_lines m h d mo dw) = 1%nat.
Proof.
  intros. unfold dict_lines. rewrite !grep_count_app.
  rewrite !key_line_no_dict by (assumption || (unfold keys; rewrite !elem_of_cons; auto 10)).
  reflexivity.
Qed.

Lemma words_from_chars (p : ascii -> bool) (s : string) (cur : option string) :
  all_chars p (default "" cur) = true -> all_chars p s = true ->
  Forall (fun w => all_chars p w = true) (words_from cur s).
Proof.
  revert cur. induction s as [|c s IH]; intros cur Hcur Hs.
  - destruct cur; simpl in *; auto.
  - simpl in Hs. apply andb_true_iff in Hs as [Hc Hs]. simpl.
    destruct (is_blank c).
    + apply Forall_app. split; [destruct cur; simpl; auto|].
      apply IH; [reflexivity | exact Hs].
    + apply IH; [|exact Hs].
      change (default "" (push_char cur c)) with (default "" cur +:+ String c "").
      rewrite all_chars_app, Hcur. simpl. rewrite Hc. reflexivity.
Qed.

Lemma words_chars (p : ascii -> bool) (s : string) :
  all_chars p s = true -> Forall (fun w => all_chars p w = true) (words s).
Proof. intros H. apply words_from_chars; [reflexivity | exact H]. Qed.

(** The number of [<dict>] lines [generate_dicts] prints is the product
    of the numbers of words of its five arguments. *)
Lemma generate_dicts_count (mins hours doms mons dows : string) :
  all_chars no_lt mins = true -> all_chars no_lt hours = true ->
  all_chars no_lt doms = true -> all_chars no_lt mons = true ->
  all_chars no_lt dows = true ->
  grep_count "<dict>" (generate_dicts mins hours doms mons dows) =
  (cardinality mins * cardinality hours * cardinality doms *
   cardinality mons * cardinality dows)%nat.
Proof.
  intros H1 H2 H3 H4 H5. unfold generate_dicts, cardinality.
  pose proof (words_chars no_lt mins H1) as W1.
  pose proof (words_chars no_lt hours H2) as W2.
  pose proof (words_chars no_lt doms H3) as W3.
  pose proof (words_chars no_lt mons H4) as W4.
  pose proof (words_chars no_lt dows H5) as W5.
  rewrite Forall_forall in W1, W2, W3, W4, W5.
  rewrite (grep_count_bind _ _ _
             (length (words hours) * length (words doms) *
              length (words mons) * length (words dows))); [lia|].
  intros m Hm.
  rewrite (grep_count_bind _ _ _
             (length (words doms) * length (words mons) * length (words dows)));
    [lia|].
  intros h Hh.
  rewrite (grep_count_bind _ _ _ (length (words mons) * length (words dows)));
    [lia|].
  intros d Hd.
  rewrite (grep_count_bind _ _ _ (length (words dows))); [lia|].
  intros mo Hmo.
  rewrite (grep_count_bind _ _ _ 1); [lia|].
  intros dw Hdw. apply dict_lines_count; auto.
Qed.

End CronText.

Section CronExpansion.

Import Text Cron.

Lemma digit_no_lt (c : ascii) : is_digit c = true -> no_lt c = true.
Proof.
  unfold is_digit, no_lt. intros H. apply andb_true_iff in H as [H1 H2].
  apply Z.leb_le in H1. apply Z.leb_le in H2.
  apply negb_true_iff, Z.eqb_neq. lia.
Qed.

Lemma string_of_Z_no_lt (z : Z) : all_chars no_lt (string_of_Z z) = true.
Proof.
  unfold string_of_Z. destruct (Z.ltb_spec z 0).
  - cbn [all_chars]. apply andb_true_iff. split; [reflexivity|].
    apply (all_chars_impl is_digit); [apply digit_no_lt|].
    apply dec_digits_all_digits; [lia | reflexivity].
  - apply (all_chars_impl is_digit); [apply digit_no_lt|].
    apply dec_digits_all_digits; [lia | reflexivity].
Qed.

Lemma append_value_no_lt (vals : string) (i : Z) :
  all_chars no_lt vals = true ->
  all_chars no_lt (vals +:+ " " +:+ string_of_Z i) = true.
Proof.
  intros H. rewrite !all_chars_app, H, string_of_Z_no_lt. reflexivity.
Qed.

Lemma step_loop_no_lt (fuel : nat) (i max : Z) (step : option Z) (vals e : string) :
  all_chars no_lt vals = true ->
  step_loop fuel i max step vals = Some e -> all_chars no_lt e = true.
Proof.
  revert i vals. induction fuel as [|fuel IH]; intros i vals Hv; simpl.
  - destruct (i <? max); [discriminate|]. intros [= <-]. exact Hv.
  - destruct (i <? max); [|intros [= <-]; exact Hv].
    destruct step as [k|].
    + apply IH. apply append_value_no_lt, Hv.
    + intros [= <-]. apply append_value_no_lt, Hv.
Qed.

Lemma range_loop_no_lt (fuel : nat) (i end_ : Z) (result e : string) :
  all_chars no_lt result = true ->
  range_loop fuel i end_ result = Some e -> all_chars no_lt e = true.
Proof.
  revert i result. induction fuel as [|fuel IH]; intros i result Hr; simpl.
  - destruct (i <=? end_); [discriminate|]. intros [= <-]. exact Hr.
  - destruct (i <=? end_); [|intros [= <-]; exact Hr].
    apply IH. apply append_value_no_lt, Hr.
Qed.

Lemma split_all_chars (p : ascii -> bool) (d : ascii) (s : string) :
  all_chars p s = true ->
  Forall (fun w => all_chars p w = true) (split_all d s).
Proof.
  induction s as [|c s IH]; intros H; [repeat constructor|].
  simpl in H. apply andb_true_iff in H as [Hc Hs]. specialize (IH Hs).
  simpl. destruct (Ascii.eqb c d); [constructor; [reflexivity | exact IH]|].
  destruct (split_all d s) as [|w ws]; [repeat constructor; simpl; rewrite Hc; reflexivity|].
  inversion IH; subst. constructor; [simpl; rewrite Hc; assumption | assumption].
Qed.

Lemma read_parts_subset (P : string -> Prop) (field : string) :
  Forall P (split_all "," field) -> Forall P (read_parts field).
Proof.
  intros H. unfold read_parts.
  destruct (reverse (split_all "," field)) as [|x before] eqn:E; [exact H|].
  assert (Hrev : Forall P (x :: before)) by (rewrite <- E; apply Forall_reverse, H).
  destruct x as [|c x]; [|exact H].
  inversion Hrev; subst. apply Forall_reverse. assumption.
Qed.

Lemma split_first_app (d : ascii) (s a b : string) :
  split_first d s = Some (a, b) -> s = a +:+ String d b.
Proof.
  revert a. induction s as [|c s IH]; intros a; simpl; [discriminate|].
  destruct (Ascii.eqb_spec c d) as [->|_].
  - intros [= <- <-]. reflexivity.
  - destruct (split_first d s) as [[a' b']|]; [|discriminate].
    intros [= <- <-]. rewrite append_cons, <- (IH a' eq_refl). reflexivity.
Qed.

Lemma expand_part_no_lt (fuel : nat) (part result e : string) :
  all_chars no_lt part = true -> all_chars no_lt result = true ->
  expand_part fuel part result = Some e -> all_chars no_lt e = true.
Proof.
  intros Hp Hr. unfold expand_part.
  destruct (range_part part) as [[a b]|].
  - destruct (arith_value a) as [start|]; [|intros [= <-]; exact Hr].
    destruct (arith_value b) as [end_|]; [|intros [= <-]; exact Hr].
    apply range_loop_no_lt, Hr.
  - intros [= <-]. rewrite !all_chars_app, Hr, Hp. reflexivity.
Qed.

Lemma expand_parts_no_lt (fuel : nat) (parts : list string) (result e : string) :
  Forall (fun p => all_chars no_lt p = true) parts ->
  all_chars no_lt result = true ->
  expand_parts fuel parts result = Some e -> all_chars no_lt e = true.
Proof.
  revert result. induction parts as [|part parts IH]; intros result Hp Hr; simpl.
  - intros [= <-]. exact Hr.
  - inversion Hp; subst.
    destruct (expand_part fuel part result) as [r'|] eqn:E; [|discriminate].
    apply IH; [assumption|].
    apply (expand_part_no_lt fuel part result r'); assumption.
Qed.

(** No [<] comes out of a field that holds none. *)
Lemma expand_field_no_lt (fuel : nat) (field : string) (max : Z) (e : string) :
  all_chars no_lt field = true ->
  expand_field fuel field max = Some e -> all_chars no_lt e = true.
Proof.
  intros Hf. unfold expand_field.
  destruct (String.eqb field "*"); [intros [= <-]; reflexivity|].
  destruct (star_step field) as [step|].
  - apply step_loop_no_lt. reflexivity.
  - apply expand_parts_no_lt; [|reflexivity].
    apply read_parts_subset, split_all_chars, Hf.
Qed.

(** *** More fuel does not change a result *)

Lemma step_loop_more_fuel (f f' : nat) (i max : Z) (step : option Z) (vals e : string) :
  (f <= f')%nat ->
  step_loop f i max step vals = Some e -> step_loop f' i max step vals = Some e.
Proof.
  revert f' i vals. induction f as [|f IH]; intros f' i vals Hle; simpl.
  - destruct (i <? max) eqn:E; [discriminate|]. intros [= <-].
    destruct f'; simpl; rewrite E; reflexivity.
  - destruct f' as [|f']; [lia|]. simpl.
    destruct (i <? max); [|auto]. destruct step; [|auto].
    apply IH. lia.
Qed.

Lemma range_loop_more_fuel (f f' : nat) (i end_ : Z) (result e : string) :
  (f <= f')%nat ->
  range_loop f i end_ result = Some e -> range_loop f' i end_ result = Some e.
Proof.
  revert f' i result. induction f as [|f IH]; intros f' i result Hle; simpl.
  - destruct (i <=? end_) eqn:E; [discriminate|]. intros [= <-].
    destruct f'; simpl; rewrite E; reflexivity.
  - destruct f' as [|f']; [lia|]. simpl.
    destruct (i <=? end_); [|auto]. apply IH. lia.
Qed.

Lemma expand_parts_more_fuel (f f' : nat) (parts : list string) (result e : string) :
  (f <= f')%nat ->
  expand_parts f parts result = Some e -> expand_parts f' parts result = Some e.
Proof.
  intros Hle. revert result. induction parts as [|part parts IH]; intros result; simpl;
    [auto|].
  destruct (expand_part f part result) as [r|] eqn:E; [|discriminate].
  assert (expand_part f' part result = Some r) as ->.
  { revert E. unfold expand_part. destruct (range_part part) as [[a b]|]; [|auto].
    destruct (arith_value a); [|auto]. destruct (arith_value b); [|auto].
    apply range_loop_more_fuel, Hle. }
  apply IH.
Qed.

Lemma expand_field_more_fuel (f f' : nat) (field : string) (max : Z) (e : string) :
  (f <= f')%nat ->
  expand_field f field max = Some e -> expand_field f' field max = Some e.
Proof.
  intros Hle. unfold expand_field.
  destruct (String.eqb field "*"); [auto|].
  destruct (star_step field).
  - apply step_loop_more_fuel, Hle.
  - apply expand_parts_more_fuel, Hle.
Qed.

End CronExpansion.

Section CronTermination.

Import Text Cron.

Lemma number_in_value (lo hi : Z) (s : string) :
  0 <= lo -> hi <= 59 -> number_in lo hi s = true ->
  arith_value s = Some (dec_value s) /\ lo <= dec_value s <= hi /\
  all_chars is_digit s = true.
Proof.
  intros Hlo Hhi H. unfold number_in in H.
  apply andb_true_iff in H as [H H2]. apply andb_true_iff in H as [Hc H1].
  apply Z.leb_le in H1. apply Z.leb_le in H2.
  rewrite canonical_arith_value by exact Hc.
  rewrite wrap64_small by lia.
  split; [reflexivity|]. split; [lia|].
  unfold canonical, all_digits in Hc.
  apply andb_true_iff in Hc as [Hc _]. apply andb_true_iff in Hc as [_ Hc].
  exact Hc.
Qed.

Lemma step_loop_terminates (fuel : nat) (i max k : Z) (vals : string) :
  1 <= k <= 60 -> 0 <= i -> max <= 60 ->
  max - i <= Z.of_nat fuel ->
  exists e, step_loop fuel i max (Some k) vals = Some e.
Proof.
  intros Hk. revert i vals. induction fuel as [|fuel IH]; intros i vals Hi Hmax Hf; simpl.
  - destruct (Z.ltb_spec i max); [lia | eauto].
  - destruct (Z.ltb_spec i max); [|eauto].
    rewrite wrap64_small by lia. apply IH; lia.
Qed.

Lemma range_loop_terminates (fuel : nat) (i end_ : Z) (result : string) :
  0 <= i -> end_ <= 60 ->
  end_ + 1 - i <= Z.of_nat fuel ->
  exists e, range_loop fuel i end_ result = Some e.
Proof.
  revert i result. induction fuel as [|fuel IH]; intros i result Hi Hend Hf; simpl.
  - destruct (Z.leb_spec i end_); [lia | eauto].
  - destruct (Z.leb_spec i end_); [|eauto].
    rewrite wrap64_small by lia. apply IH; lia.
Qed.

Lemma digits_have_no_slash (s : string) :
  all_chars is_digit s = true -> split_first "/" s = None.
Proof.
  induction s as [|c s IH]; [reflexivity|]. simpl. intros H.
  apply andb_true_iff in H as [Hc Hs].
  destruct (Ascii.eqb_spec c "/") as [->|_]; [discriminate Hc|].
  rewrite IH by exact Hs. reflexivity.
Qed.

Lemma canonical_part_terminates (lo hi : Z) (fuel : nat) (part result : string) :
  0 <= lo -> hi <= 59 -> (60 <= fuel)%nat ->
  canonical_part lo hi part = true ->
  exists e, expand_part fuel part result = Some e.
Proof.
  intros Hlo Hhi Hf Hv. unfold expand_part, range_part.
  unfold canonical_part in Hv.
  destruct (split_first "-" part) as [[a b]|]; [|eauto].
  destruct (all_digits a && all_digits b) eqn:Hd; [|eauto].
  apply andb_true_iff in Hd as [_ Hb].
  unfold all_digits in Hb. apply andb_true_iff in Hb as [_ Hb].
  rewrite (digits_have_no_slash b Hb), orb_false_r in Hv.
  apply andb_true_iff in Hv as [Ha Hb'].
  destruct (number_in_value lo hi a Hlo Hhi Ha) as (-> & Hra & _).
  destruct (number_in_value lo hi b Hlo Hhi Hb') as (-> & Hrb & _).
  apply range_loop_terminates; lia.
Qed.

Lemma canonical_parts_terminate (lo hi : Z) (fuel : nat) (parts : list string)
    (result : string) :
  0 <= lo -> hi <= 59 -> (60 <= fuel)%nat ->
  Forall (fun p => canonical_part lo hi p = true) parts ->
  exists e, expand_parts fuel parts result = Some e.
Proof.
  intros Hlo Hhi Hf Hv. revert result.
  induction Hv as [|part parts Hp _ IH]; intros result; simpl; [eauto|].
  destruct (canonical_part_terminates lo hi fuel part result Hlo Hhi Hf Hp) as [r ->].
  apply IH.
Qed.

(** The expansion of a well-formed field ends within 60 passes of any of
    its loops. *)
Lemma canonical_field_terminates (lo hi max : Z) (fuel : nat) (field : string) :
  0 <= lo -> hi <= 59 -> max <= 60 -> (60 <= fuel)%nat ->
  canonical_field lo hi field = true ->
  exists e, expand_field fuel field max = Some e.
Proof.
  intros Hlo Hhi Hmax Hf Hv. unfold expand_field. unfold canonical_field in Hv.
  destruct (String.eqb field "*"); [eauto|].
  unfold star_step.
  destruct (starts_with "*/" field).
  - destruct (number_in_value 1 hi (skip 2 field) ltac:(lia) Hhi Hv)
      as (Hval & Hr & Hd).
    assert (all_digits (skip 2 field) = true) as ->.
    { unfold number_in, canonical in Hv.
      apply andb_true_iff in Hv as [Hv _]. apply andb_true_iff in Hv as [Hv _].
      apply andb_true_iff in Hv as [Hv _]. exact Hv. }
    cbn [andb]. rewrite Hval. apply step_loop_terminates; lia.
  - cbn [andb]. apply (canonical_parts_terminate lo hi); try assumption.
    apply read_parts_subset. apply Forall_forall. intros p Hp.
    rewrite forallb_forall in Hv. apply Hv. apply list_elem_of_In. exact Hp.
Qed.

(** *** A well-formed field holds no [<] *)

Lemma number_in_no_lt (lo hi : Z) (s : string) :
  number_in lo hi s = true -> all_chars no_lt s = true.
Proof.
  unfold number_in, canonical, all_digits. intros H.
  apply andb_true_iff in H as [H _]. apply andb_true_iff in H as [H _].
  apply andb_true_iff in H as [H _]. apply andb_true_iff in H as [_ H].
  apply (all_chars_impl is_digit); [apply digit_no_lt | exact H].
Qed.

Lemma canonical_part_no_lt (lo hi : Z) (part : string) :
  canonical_part lo hi part = true -> all_chars no_lt part = true.
Proof.
  unfold canonical_part.
  destruct (split_first "-" part) as [[a rest]|] eqn:E; [|apply number_in_no_lt].
  intros H. apply andb_true_iff in H as [Ha Hrest].
  rewrite (split_first_app _ _ _ _ E), all_chars_app.
  rewrite (number_in_no_lt _ _ _ Ha). cbn [andb all_chars].
  apply andb_true_iff. split; [reflexivity|].
  apply orb_true_iff in Hrest as [H|H]; [exact (number_in_no_lt _ _ _ H)|].
  destruct (split_first "/" rest) as [[b step]|] eqn:E2; [|discriminate].
  apply andb_true_iff in H as [Hb Hs].
  rewrite (split_first_app _ _ _ _ E2), all_chars_app.
  rewrite (number_in_no_lt _ _ _ Hb). cbn [andb all_chars].
  apply andb_true_iff. split; [reflexivity | exact (number_in_no_lt _ _ _ Hs)].
Qed.

Lemma joined_chars (p : ascii -> bool) (d : ascii) (s : string) :
  p d = true ->
  Forall (fun w => all_chars p w = true) (split_all d s) ->
  all_chars p s = true.
Proof.
  intros Hd. induction s as [|c s IH]; [reflexivity|]. simpl.
  destruct (Ascii.eqb_spec c d) as [->|_].
  - intros H. inversion H; subst. rewrite Hd. apply IH. assumption.
  - destruct (split_all d s) as [|w ws] eqn:E.
    + intros H. inversion H as [|? ? Hc _]; subst. simpl in Hc.
      apply andb_true_iff in Hc as [Hc _]. rewrite Hc. apply IH. constructor.
    + intros H. inversion H as [|? ? Hc Hws]; subst. simpl in Hc.
      apply andb_true_iff in Hc as [Hc Hw]. rewrite Hc. apply IH.
      constructor; assumption.
Qed.

Lemma starts_with_skip (p s : string) :
  starts_with p s = true -> s = p +:+ skip (String.length p) s.
Proof.
  revert s. induction p as [|a p IH]; intros s; [reflexivity|].
  destruct s as [|b s]; [discriminate|]. cbn [starts_with].
  intros H. apply andb_true_iff in H as [Hab Hp].
  apply Ascii.eqb_eq in Hab. subst b.
  rewrite append_cons. cbn [String.length skip]. f_equal. apply IH, Hp.
Qed.

Lemma canonical_field_no_lt (lo hi : Z) (field : string) :
  canonical_field lo hi field = true -> all_chars no_lt field = true.
Proof.
  unfold canonical_field.
  destruct (String.eqb_spec field "*") as [->|_]; [reflexivity|].
  destruct (starts_with "*/" field) eqn:E.
  - intros H. rewrite (starts_with_skip _ _ E), all_chars_app.
    cbn [String.length]. rewrite (number_in_no_lt _ _ _ H). reflexivity.
  - intros H. apply (joined_chars no_lt ","); [reflexivity|].
    apply Forall_forall. intros w Hw. apply (canonical_part_no_lt lo hi).
    rewrite forallb_forall in H. apply H, list_elem_of_In, Hw.
Qed.

End CronTermination.

Section CronCount.

Import Text Cron.

Lemma contains_sed_unindent (p line : string) :
  contains (String "<" p) (sed_unindent line) = contains (String "<" p) line.
Proof.
  unfold sed_unindent. destruct (starts_with "      " line) eqn:E; [|reflexivity].
  rewrite (starts_with_skip _ _ E) at 2. cbn [String.length].
  rewrite (contains_after_no_lt p "    ") by reflexivity.
  rewrite (contains_after_no_lt p "      ") by reflexivity.
  reflexivity.
Qed.

Lemma grep_count_sed (p : string) (lines : list string) :
  grep_count (String "<" p) (sed_unindent <$> lines) =
  grep_count (String "<" p) lines.
Proof.
  unfold grep_count. induction lines as [|l lines IH]; [reflexivity|].
  rewrite fmap_cons. cbn [List.filter]. rewrite contains_sed_unindent.
  destruct (contains (String "<" p) l); cbn [length]; rewrite IH; reflexivity.
Qed.

Lemma existsb_sed (p : string) (lines : list string) :
  existsb (contains (String "<" p)) (sed_unindent <$> lines) =
  existsb (contains (String "<" p)) lines.
Proof.
  induction lines as [|l lines IH]; [reflexivity|].
  rewrite fmap_cons. cbn [existsb]. rewrite contains_sed_unindent, IH.
  reflexivity.
Qed.

Lemma grep_count_echo (lines : list string) :
  grep_count "<dict>" (echo_lines lines) = grep_count "<dict>" lines.
Proof. destruct lines; reflexivity. Qed.

Lemma words_star : words "*" = ["*"].
Proof. reflexivity. Qed.

Lemma printed_count (dicts : list string) :
  grep_count "<dict>" (printed dicts) = grep_count "<dict>" dicts.
Proof.
  unfold printed. destruct (grep_count "<dict>" (echo_lines dicts) =? 1)%nat.
  - rewrite grep_count_sed. apply grep_count_echo.
  - rewrite !grep_count_app, grep_count_echo. cbn. lia.
Qed.

Lemma printed_mentions (key : string) (dicts : list string) :
  key ∈ keys ->
  existsb (contains (key_tag key)) dicts = false ->
  mentions key (printed dicts) = false.
Proof.
  intros Hk H. unfold mentions, printed.
  assert (He : existsb (contains (key_tag key)) (echo_lines dicts) = false).
  { destruct dicts; [|exact H]. cbn [echo_lines existsb].
    unfold keys in Hk. rewrite !elem_of_cons in Hk.
    destruct Hk as [->|[->|[->|[->|[->|Hk]]]]]; [reflexivity..|inversion Hk]. }
  assert (Hw : contains (key_tag key) "    <array>" = false /\
               contains (key_tag key) "    </array>" = false).
  { unfold keys in Hk. rewrite !elem_of_cons in Hk.
    destruct Hk as [->|[->|[->|[->|[->|Hk]]]]]; [split; reflexivity..|inversion Hk]. }
  destruct Hw as [Hw1 Hw2].
  destruct (grep_count "<dict>" (echo_lines dicts) =? 1)%nat.
  - change (key_tag key) with (String "<" ("key>" +:+ key +:+ "</key>")) in *.
    rewrite existsb_sed. exact He.
  - rewrite !existsb_app, He. cbn [existsb]. rewrite Hw1, Hw2. reflexivity.
Qed.

Lemma dict_lines_mentions (key m h d mo dw : string) :
  key ∈ keys ->
  all_chars no_lt m = true -> all_chars no_lt h = true ->
  all_chars no_lt d = true -> all_chars no_lt mo = true ->
  all_chars no_lt dw = true ->
  (key = "Minute" -> m = "*") -> (key = "Hour" -> h = "*") ->
  (key = "Day" -> d = "*") -> (key = "Month" -> mo = "*") ->
  (key = "Weekday" -> dw = "*") ->
  existsb (contains (key_tag key)) (dict_lines m h d mo dw) = false.
Proof.
  intros Hk Hm Hh Hd Hmo Hdw E1 E2 E3 E4 E5.
  unfold dict_lines. rewrite !existsb_app.
  assert (Hopen : existsb (contains (key_tag key)) ["      <dict>"] = false /\
                  existsb (contains (key_tag key)) ["      </dict>"] = false).
  { unfold keys in Hk. rewrite !elem_of_cons in Hk.
    destruct Hk as [->|[->|[->|[->|[->|Hk]]]]]; [split; reflexivity..|inversion Hk]. }
  destruct Hopen as [-> ->].
  assert (Hline : forall k v, k ∈ keys -> all_chars no_lt v = true ->
                    (key = k -> v = "*") ->
                    existsb (contains (key_tag key)) (key_line k v) = false).
  { intros k v Hkk Hv Hstar. destruct (String.eqb_spec key k) as [E|E].
    - rewrite (Hstar E). reflexivity.
    - apply key_line_other_key; auto. }
  rewrite !Hline by (assumption || (unfold keys; rewrite !elem_of_cons; auto 10)).
  reflexivity.
Qed.

Lemma generate_dicts_mentions (key mins hours doms mons dows : string) :
  key ∈ keys ->
  all_chars no_lt mins = true -> all_chars no_lt hours = true ->
  all_chars no_lt doms = true -> all_chars no_lt mons = true ->
  all_chars no_lt dows = true ->
  (key = "Minute" -> mins = "*") -> (key = "Hour" -> hours = "*") ->
  (key = "Day" -> doms = "*") -> (key = "Month" -> mons = "*") ->
  (key = "Weekday" -> dows = "*") ->
  existsb (contains (key_tag key)) (generate_dicts mins hours doms mons dows) = false.
Proof.
  intros Hk H1 H2 H3 H4 H5 E1 E2 E3 E4 E5. unfold generate_dicts.
  pose proof (words_chars no_lt mins H1) as W1.
  pose proof (words_chars no_lt hours H2) as W2.
  pose proof (words_chars no_lt doms H3) as W3.
  pose proof (words_chars no_lt mons H4) as W4.
  pose proof (words_chars no_lt dows H5) as W5.
  rewrite Forall_forall in W1, W2, W3, W4, W5.
  assert (Hstar : forall e w, (e = "*") -> w ∈ words e -> w = "*").
  { intros e w -> Hw. rewrite words_star in Hw.
    apply list_elem_of_singleton in Hw. exact Hw. }
  apply existsb_bind. intros m Hm.
  apply existsb_bind. intros h Hh.
  apply existsb_bind. intros d Hd.
  apply existsb_bind. intros mo Hmo.
  apply existsb_bind. intros dw Hdw.
  apply dict_lines_mentions; eauto.
Qed.

End CronCount.

Section CronCardinality.

Import Text Cron.

Lemma append_assoc' (a b c : string) : (a +:+ b) +:+ c = a +:+ (b +:+ c).
Proof. induction a as [|x a IH]; [reflexivity|]. rewrite !append_cons, IH. reflexivity. Qed.

Lemma words_from_word (w : string) (cur : option string) :
  all_chars (fun c => negb (is_blank c)) w = true ->
  words_from cur w = flush (if String.eqb w "" then cur else Some (default "" cur +:+ w)).
Proof.
  revert cur. induction w as [|c w IH]; intros cur H; [reflexivity|].
  simpl in H. apply andb_true_iff in H as [Hc Hw].
  apply negb_true_iff in Hc. cbn [words_from]. rewrite Hc.
  rewrite IH by exact Hw. cbn [String.eqb].
  destruct (String.eqb_spec w "") as [E|_]; [rewrite E; reflexivity|].
  unfold push_char. cbn [default id]. rewrite append_assoc'. reflexivity.
Qed.

(** Appending a blank and a word appends the word to the words. *)
Lemma words_snoc (vals w : string) :
  all_chars (fun c => negb (is_blank c)) w = true -> w <> "" ->
  words (vals +:+ " " +:+ w) = words vals ++ [w].
Proof.
  intros Hw Hne. unfold words. generalize (@None string) as cur.
  induction vals as [|c vals IH]; intros cur.
  - rewrite append_empty, append_cons, append_empty. cbn [words_from is_blank].
    change (is_blank " ") with true. cbv iota.
    rewrite words_from_word by exact Hw.
    destruct (String.eqb_spec w "") as [?|_]; [contradiction|]. reflexivity.
  - rewrite append_cons. cbn [words_from]. destruct (is_blank c).
    + rewrite IH, app_assoc. reflexivity.
    + apply IH.
Qed.

Lemma digit_not_blank' (c : ascii) : is_digit c = true -> negb (is_blank c) = true.
Proof. intros H. rewrite digit_not_blank by exact H. reflexivity. Qed.

Lemma words_snoc_number (vals : string) (i : Z) :
  0 <= i -> words (vals +:+ " " +:+ string_of_Z i) = words vals ++ [string_of_Z i].
Proof.
  intros Hi. destruct (string_of_Z_nonneg i Hi) as [Hd _].
  unfold all_digits in Hd. apply andb_true_iff in Hd as [Hne Hd].
  apply words_snoc.
  - apply (all_chars_impl is_digit); [apply digit_not_blank' | exact Hd].
  - intros E. rewrite E in Hne. discriminate.
Qed.

Lemma cardinality_snoc_number (vals : string) (i : Z) :
  0 <= i -> cardinality (vals +:+ " " +:+ string_of_Z i) = S (cardinality vals).
Proof.
  intros Hi. unfold cardinality. rewrite words_snoc_number by exact Hi.
  rewrite length_app. simpl. lia.
Qed.

(** The stride over [*] yields the multiples of the step below [max]. *)
Lemma step_loop_cardinality (fuel : nat) (i max k : Z) (vals e : string) :
  1 <= k <= 60 -> 0 <= i -> max <= 60 ->
  step_loop fuel i max (Some k) vals = Some e ->
  Z.of_nat (cardinality e) =
  Z.of_nat (cardinality vals) + Z.max 0 ((max - i + k - 1) / k).
Proof.
  intros Hk. revert i vals.
  assert (Hdone : forall i, max <= i -> (max - i + k - 1) / k <= 0).
  { intros i Hi. apply Z.lt_succ_r. apply Z.div_lt_upper_bound; lia. }
  induction fuel as [|fuel IH]; intros i vals Hi Hmax; simpl.
  - destruct (Z.ltb_spec i max); [discriminate|]. intros [= <-].
    specialize (Hdone i ltac:(lia)).
    generalize dependent ((max - i + k - 1) / k). intros X HX. lia.
  - destruct (Z.ltb_spec i max).
    + rewrite wrap64_small by lia. intros Hrun. apply IH in Hrun; [|lia|lia].
      rewrite Hrun, cardinality_snoc_number by lia.
      replace (max - i + k - 1) with (max - (i + k) + k - 1 + 1 * k) by lia.
      rewrite Z.div_add by lia.
      assert (0 <= (max - (i + k) + k - 1) / k) by (apply Z.div_pos; lia).
      clear Hrun. generalize dependent ((max - (i + k) + k - 1) / k).
      intros X HX. lia.
    + intros [= <-]. specialize (Hdone i ltac:(lia)).
      generalize dependent ((max - i + k - 1) / k). intros X HX. lia.
Qed.

(** A range yields its end minus its start plus one values, or none. *)
Lemma range_loop_cardinality (fuel : nat) (i end_ : Z) (result e : string) :
  0 <= i -> end_ <= 60 ->
  range_loop fuel i end_ result = Some e ->
  Z.of_nat (cardinality e) =
  Z.of_nat (cardinality result) + Z.max 0 (end_ - i + 1).
Proof.
  revert i result. induction fuel as [|fuel IH]; intros i result Hi Hend; simpl.
  - destruct (Z.leb_spec i end_); [discriminate|]. intros [= <-]. lia.
  - destruct (Z.leb_spec i end_).
    + rewrite wrap64_small by lia. intros Hrun. apply IH in Hrun; [|lia|lia].
      rewrite Hrun, cardinality_snoc_number by lia. lia.
    + intros [= <-]. lia.
Qed.

Lemma number_in_chars (p : ascii -> bool) (lo hi : Z) (s : string) :
  (forall c, is_digit c = true -> p c = true) ->
  number_in lo hi s = true -> all_chars p s = true /\ s <> "".
Proof.
  intros Hp. unfold number_in, canonical, all_digits. intros H.
  apply andb_true_iff in H as [H _]. apply andb_true_iff in H as [H _].
  apply andb_true_iff in H as [H _]. apply andb_true_iff in H as [Hne H].
  split; [apply (all_chars_impl is_digit); assumption|].
  intros ->. discriminate Hne.
Qed.

Lemma canonical_part_chars (p : ascii -> bool) (lo hi : Z) (part : string) :
  (forall c, is_digit c = true -> p c = true) -> p "-"%char = true -> p "/"%char = true ->
  canonical_part lo hi part = true -> all_chars p part = true /\ part <> "".
Proof.
  intros Hp Hdash Hslash. unfold canonical_part.
  destruct (split_first "-" part) as [[a rest]|] eqn:E;
    [|apply number_in_chars; exact Hp].
  intros H. apply andb_true_iff in H as [Ha Hrest].
  rewrite (split_first_app _ _ _ _ E).
  split; [|destruct a; discriminate].
  rewrite all_chars_app.
  rewrite (proj1 (number_in_chars p _ _ _ Hp Ha)). cbn [andb all_chars].
  rewrite Hdash. cbn [andb].
  apply orb_true_iff in Hrest as [H|H];
    [exact (proj1 (number_in_chars p _ _ _ Hp H))|].
  destruct (split_first "/" rest) as [[b step]|] eqn:E2; [|discriminate].
  apply andb_true_iff in H as [Hb Hs].
  rewrite (split_first_app _ _ _ _ E2), all_chars_app.
  rewrite (proj1 (number_in_chars p _ _ _ Hp Hb)). cbn [andb all_chars].
  rewrite Hslash. exact (proj1 (number_in_chars p _ _ _ Hp Hs)).
Qed.

Lemma read_parts_valid (lo hi : Z) (field : string) :
  forallb (canonical_part lo hi) (split_all "," field) = true ->
  read_parts field = split_all "," field.
Proof.
  intros H. unfold read_parts.
  destruct (reverse (split_all "," field)) as [|x before] eqn:E; [reflexivity|].
  destruct x as [|c x]; [|reflexivity].
  exfalso. rewrite forallb_forall in H.
  assert (Hin : In "" (split_all "," field)).
  { apply list_elem_of_In. apply elem_of_reverse. rewrite E. now left. }
  specialize (H "" Hin). discriminate H.
Qed.

End CronCardinality.

Section Fields.

Import Text Cron.

Lemma words_from_take_word (s : string) (cur : option string) :
  words_from cur s =
  words_from (if String.eqb (take_word s).1 "" then cur
              else Some (default "" cur +:+ (take_word s).1))
             (take_word s).2.
Proof.
  revert cur. induction s as [|c s IH]; intros cur; [reflexivity|].
  cbn [take_word words_from]. destruct (is_blank c) eqn:B.
  - cbn [fst snd String.eqb words_from]. rewrite B. reflexivity.
  - rewrite IH. destruct (take_word s) as [w r]. cbn [fst snd String.eqb].
    destruct (String.eqb_spec w "") as [->|_]; [reflexivity|].
    unfold push_char. cbn [default id]. rewrite append_assoc'. reflexivity.
Qed.

Lemma take_word_rest (s : string) :
  (take_word s).2 = "" \/
  exists c r, (take_word s).2 = String c r /\ is_blank c = true.
Proof.
  induction s as [|c s IH]; [now left|]. cbn [take_word].
  destruct (is_blank c) eqn:B; [right; exists c, s; auto|].
  destruct (take_word s) as [w r]. exact IH.
Qed.

Lemma take_word_app (s : string) : s = (take_word s).1 +:+ (take_word s).2.
Proof.
  induction s as [|c s IH]; [reflexivity|]. cbn [take_word].
  destruct (is_blank c); [reflexivity|].
  destruct (take_word s) as [w r]. cbn [fst snd] in *.
  rewrite append_cons, <- IH. reflexivity.
Qed.

Lemma take_word_no_blank (s : string) :
  all_chars (fun c => negb (is_blank c)) (take_word s).1 = true.
Proof.
  induction s as [|c s IH]; [reflexivity|]. cbn [take_word].
  destruct (is_blank c) eqn:B; [reflexivity|].
  destruct (take_word s) as [w r]. cbn [fst all_chars] in *.
  rewrite B, IH. reflexivity.
Qed.

Lemma words_from_some (x r : string) :
  (r = "" \/ exists c r', r = String c r' /\ is_blank c = true) ->
  words_from (Some x) r = x :: words r.
Proof.
  intros [->|(c & r' & -> & B)]; [reflexivity|].
  unfold words. cbn [words_from]. rewrite B. reflexivity.
Qed.

Lemma words_skip_blanks (s : string) : words (skip_blanks s) = words s.
Proof.
  unfold words. induction s as [|c s IH]; [reflexivity|].
  cbn [skip_blanks]. destruct (is_blank c) eqn:B; [|reflexivity].
  cbn [words_from]. rewrite B. exact IH.
Qed.

(** The first word and the words after it. *)
Lemma words_take_word (s : string) :
  words s =
  if String.eqb (take_word (skip_blanks s)).1 "" then []
  else (take_word (skip_blanks s)).1 :: words (take_word (skip_blanks s)).2.
Proof.
  rewrite <- (words_skip_blanks s). unfold words at 1.
  rewrite words_from_take_word.
  destruct (String.eqb_spec (take_word (skip_blanks s)).1 "") as [E|_].
  - assert (Hs : skip_blanks s = (take_word (skip_blanks s)).2)
      by (rewrite (take_word_app (skip_blanks s)) at 1; rewrite E; reflexivity).
    destruct (take_word_rest (skip_blanks s)) as [->|(c & r & Hr & B)];
      [reflexivity|].
    exfalso. rewrite Hr in Hs. clear -Hs B.
    induction s as [|c' s IH]; [discriminate|].
    cbn [skip_blanks] in Hs. destruct (is_blank c') eqn:B'; [auto|].
    injection Hs as -> _. congruence.
  - cbn [default]. rewrite append_empty.
    apply words_from_some, take_word_rest.
Qed.

Lemma words_nil_blank (s : string) : words s = [] -> all_chars is_blank s = true.
Proof.
  unfold words. induction s as [|c s IH]; [reflexivity|].
  cbn [words_from all_chars]. destruct (is_blank c) eqn:B; [exact IH|].
  intros H. exfalso. unfold push_char in H. rewrite words_from_take_word in H.
  destruct (String.eqb (take_word s).1 "");
    rewrite words_from_some in H by apply take_word_rest; discriminate.
Qed.

Lemma rstrip_blanks (s : string) : all_chars is_blank s = true -> rstrip s = "".
Proof.
  induction s as [|c s IH]; [reflexivity|]. cbn [all_chars rstrip].
  intros H. apply andb_true_iff in H as [Hc Hs].
  rewrite IH by exact Hs. rewrite Hc. reflexivity.
Qed.

Lemma rstrip_word_blanks (w r : string) :
  all_chars (fun c => negb (is_blank c)) w = true ->
  all_chars is_blank r = true ->
  rstrip (w +:+ r) = w.
Proof.
  intros Hw Hr. induction w as [|c w IH]; [exact (rstrip_blanks r Hr)|].
  cbn [all_chars] in Hw. apply andb_true_iff in Hw as [Hc Hw].
  apply negb_true_iff in Hc.
  rewrite append_cons. cbn [rstrip]. rewrite IH by exact Hw.
  destruct w; [rewrite Hc|]; reflexivity.
Qed.

Lemma first_line_all (s : string) :
  all_chars not_newline s = true -> first_line s = s.
Proof.
  induction s as [|c s IH]; [reflexivity|]. cbn [all_chars first_line].
  intros H. apply andb_true_iff in H as [Hc Hs].
  unfold not_newline in Hc. apply negb_true_iff in Hc.
  rewrite Hc, IH by exact Hs. reflexivity.
Qed.

(** [read] assigns the five words of a five-word line. *)
Lemma read_fields_words (cron min hour dom mon dow : string) :
  all_chars not_newline cron = true ->
  words cron = [min; hour; dom; mon; dow] ->
  read_fields cron = (min, hour, dom, mon, dow).
Proof.
  intros Hnl Hw. unfold read_fields. rewrite first_line_all by exact Hnl.
  assert (Hstep : forall s w ws,
            words s = w :: ws ->
            (take_word (skip_blanks s)).1 = w /\
            words (take_word (skip_blanks s)).2 = ws).
  { intros s w ws H. rewrite words_take_word in H.
    destruct (String.eqb (take_word (skip_blanks s)).1 ""); [discriminate|].
    injection H as -> ->. auto. }
  destruct (Hstep _ _ _ Hw) as [E1 W1].
  assert (Hskip : skip_blanks (skip_blanks cron) = skip_blanks cron).
  { clear. induction cron as [|c s IH]; [reflexivity|].
    cbn [skip_blanks]. destruct (is_blank c) eqn:B; [exact IH|].
    cbn [skip_blanks]. rewrite B. reflexivity. }
  destruct (take_word (skip_blanks cron)) as [w1 r1]. cbn [fst snd] in *. subst w1.
  destruct (Hstep _ _ _ W1) as [E2 W2].
  destruct (take_word (skip_blanks r1)) as [w2 r2]. cbn [fst snd] in *. subst w2.
  destruct (Hstep _ _ _ W2) as [E3 W3].
  destruct (take_word (skip_blanks r2)) as [w3 r3]. cbn [fst snd] in *. subst w3.
  destruct (Hstep _ _ _ W3) as [E4 W4].
  destruct (take_word (skip_blanks r3)) as [w4 r4]. cbn [fst snd] in *. subst w4.
  destruct (Hstep _ _ _ W4) as [E5 W5].
  f_equal.
  rewrite (take_word_app (skip_blanks r4)), E5.
  apply rstrip_word_blanks.
  - rewrite <- E5. apply take_word_no_blank.
  - apply words_nil_blank. exact W5.
Qed.

End Fields.

Section CronClaims.

Import Text Cron.

Lemma cron_output (fuel : nat) (cron min hour dom mon dow : string)
    (mins hours doms mons dows : string) :
  read_fields cron = (min, hour, dom, mon, dow) ->
  expand_field fuel min 60 = Some mins ->
  expand_field fuel hour 24 = Some hours ->
  expand_field fuel dom 32 = Some doms ->
  expand_field fuel mon 13 = Some mons ->
  expand_field fuel dow 7 = Some dows ->
  cron_to_calendar_interval fuel cron =
  Some (printed (generate_dicts mins hours doms mons dows)).
Proof.
  intros R E1 E2 E3 E4 E5. unfold cron_to_calendar_interval.
  rewrite R, E1, E2, E3, E4, E5. reflexivity.
Qed.

(** What the compiler does print: for an expression written with canonical
    numerals, given 60 passes per loop or more, as many [<dict>] entries
    as the product of the numbers of words in its own five expansions,
    where a [*] field is the one placeholder and its key appears on no
    line. *)
Lemma dicts_are_the_product_of_the_printed_expansions (cron : string) :
  canonical_cron cron = true ->
  exists min hour dom mon dow mins hours doms mons dows out,
    words cron = [min; hour; dom; mon; dow] /\
    read_fields cron = (min, hour, dom, mon, dow) /\
    (forall fuel, (60 <= fuel)%nat ->
       expand_field fuel min 60 = Some mins /\
       expand_field fuel hour 24 = Some hours /\
       expand_field fuel dom 32 = Some doms /\
       expand_field fuel mon 13 = Some mons /\
       expand_field fuel dow 7 = Some dows /\
       cron_to_calendar_interval fuel cron = Some out) /\
    grep_count "<dict>" out =
      (cardinality mins * cardinality hours * cardinality doms *
       cardinality mons * cardinality dows)%nat /\
    (min = "*" -> cardinality mins = 1%nat /\ mentions "Minute" out = false) /\
    (hour = "*" -> cardinality hours = 1%nat /\ mentions "Hour" out = false) /\
    (dom = "*" -> cardinality doms = 1%nat /\ mentions "Day" out = false) /\
    (mon = "*" -> cardinality mons = 1%nat /\ mentions "Month" out = false) /\
    (dow = "*" -> cardinality dows = 1%nat /\ mentions "Weekday" out = false).
Proof.
  intros Hv. unfold canonical_cron in Hv.
  apply andb_true_iff in Hv as [Hnl Hv].
  destruct (words cron) as [|min [|hour [|dom [|mon [|dow [|]]]]]] eqn:W;
    try discriminate.
  pose proof (read_fields_words cron min hour dom mon dow Hnl W) as R.
  repeat (apply andb_true_iff in Hv as [Hv ?]).
  destruct (canonical_field_terminates 0 59 60 60 min) as [mins E1]; try lia; try assumption.
  destruct (canonical_field_terminates 0 23 24 60 hour) as [hours E2]; try lia; try assumption.
  destruct (canonical_field_terminates 1 31 32 60 dom) as [doms E3]; try lia; try assumption.
  destruct (canonical_field_terminates 1 12 13 60 mon) as [mons E4]; try lia; try assumption.
  destruct (canonical_field_terminates 0 6 7 60 dow) as [dows E5]; try lia; try assumption.
  assert (N1 : all_chars no_lt mins = true)
    by (apply (expand_field_no_lt 60 min 60);
        [apply (canonical_field_no_lt 0 59)|]; assumption).
  assert (N2 : all_chars no_lt hours = true)
    by (apply (expand_field_no_lt 60 hour 24);
        [apply (canonical_field_no_lt 0 23)|]; assumption).
  assert (N3 : all_chars no_lt doms = true)
    by (apply (expand_field_no_lt 60 dom 32);
        [apply (canonical_field_no_lt 1 31)|]; assumption).
  assert (N4 : all_chars no_lt mons = true)
    by (apply (expand_field_no_lt 60 mon 13);
        [apply (canonical_field_no_lt 1 12)|]; assumption).
  assert (N5 : all_chars no_lt dows = true)
    by (apply (expand_field_no_lt 60 dow 7);
        [apply (canonical_field_no_lt 0 6)|]; assumption).
  exists min, hour, dom, mon, dow, mins, hours, doms, mons, dows,
    (printed (generate_dicts mins hours doms mons dows)).
  split; [reflexivity|]. split; [exact R|].
  split.
  { intros fuel Hf.
    pose proof (expand_field_more_fuel 60 fuel min 60 mins Hf E1) as F1.
    pose proof (expand_field_more_fuel 60 fuel hour 24 hours Hf E2) as F2.
    pose proof (expand_field_more_fuel 60 fuel dom 32 doms Hf E3) as F3.
    pose proof (expand_field_more_fuel 60 fuel mon 13 mons Hf E4) as F4.
    pose proof (expand_field_more_fuel 60 fuel dow 7 dows Hf E5) as F5.
    repeat (split; [assumption|]).
    apply (cron_output fuel cron min hour dom mon dow); assumption. }
  split; [rewrite printed_count; apply generate_dicts_count; assumption|].
  assert (Hstar : forall f max e, f = "*" -> expand_field 60 f max = Some e -> e = "*").
  { intros f max e -> He. cbn in He. congruence. }
  repeat split;
    try (match goal with
         | Hm : ?f = "*", He : expand_field 60 ?f _ = Some ?e |- cardinality ?e = _ =>
             rewrite (Hstar f _ e Hm He); reflexivity
         end);
    apply printed_mentions;
    try (unfold keys; rewrite !elem_of_cons; auto 10; fail);
    apply generate_dicts_mentions;
    try assumption;
    try (unfold keys; rewrite !elem_of_cons; auto 10; fail);
    try discriminate;
    intros _; eapply Hstar; eassumption.
Qed.

Lemma cron_more_fuel (f f' : nat) (cron : string) (out : list string) :
  (f <= f')%nat ->
  cron_to_calendar_interval f cron = Some out ->
  cron_to_calendar_interval f' cron = Some out.
Proof.
  intros Hf. unfold cron_to_calendar_interval.
  destruct (read_fields cron) as [[[[min hour] dom] mon] dow].
  destruct (expand_field f min 60) as [mins|] eqn:E1; [|discriminate].
  destruct (expand_field f hour 24) as [hours|] eqn:E2; [|discriminate].
  destruct (expand_field f dom 32) as [doms|] eqn:E3; [|discriminate].
  destruct (expand_field f mon 13) as [mons|] eqn:E4; [|discriminate].
  destruct (expand_field f dow 7) as [dows|] eqn:E5; [|discriminate].
  rewrite (expand_field_more_fuel f f' _ _ _ Hf E1).
  rewrite (expand_field_more_fuel f f' _ _ _ Hf E2).
  rewrite (expand_field_more_fuel f f' _ _ _ Hf E3).
  rewrite (expand_field_more_fuel f f' _ _ _ Hf E4).
  rewrite (expand_field_more_fuel f f' _ _ _ Hf E5).
  intros H. exact H.
Qed.

(** C1 (the code departs from it). The number of [<dict>] entries is not
    always the product of the cardinalities of the fields' expansions.
    For the valid expression [0-30/10 * * * *] the minute field expands
    into the four integers 0, 10, 20 and 30, so the product is 4, and the
    compiler, however many passes its loops are given from 60 on, prints
    one entry: a stride over a range is not expanded, the text of the
    field is taken as its one value. For the valid expression
    [0 0 1 */3 *] the month field expands into 1, 4, 7 and 10, so the
    product is 4, and the compiler prints five entries, for the months 0,
    3, 6, 9 and 12: a stride over [*] starts at 0 in every field. The two
    examples of the claim do hold: [*/10 9-17 * * 1-5] has the product
    6 x 9 x 5 = 270 and gives 270 entries, and [* * * * *] has the product
    1 and gives the one entry [<dict></dict>], which names no key. *)
Theorem instants_are_not_the_product_of_expansions (fuel : nat) :
  (60 <= fuel)%nat ->
  (valid_cron "0-30/10 * * * *" = true /\
   field_expansion 0 59 "0-30/10" = Some [0; 10; 20; 30] /\
   expected_instants "0-30/10 * * * *" = 4%nat /\
   grep_count "<dict>" <$> cron_to_calendar_interval fuel "0-30/10 * * * *"
     = Some 1%nat) /\
  (valid_cron "0 0 1 */3 *" = true /\
   field_expansion 1 12 "*/3" = Some [1; 4; 7; 10] /\
   expected_instants "0 0 1 */3 *" = 4%nat /\
   grep_count "<dict>" <$> cron_to_calendar_interval fuel "0 0 1 */3 *"
     = Some 5%nat /\
   key_values "Month" <$> cron_to_calendar_interval fuel "0 0 1 */3 *"
     = Some ["0"; "3"; "6"; "9"; "12"]) /\
  (valid_cron "*/10 9-17 * * 1-5" = true /\
   expected_instants "*/10 9-17 * * 1-5" = 270%nat /\
   grep_count "<dict>" <$> cron_to_calendar_interval fuel "*/10 9-17 * * 1-5"
     = Some 270%nat) /\
  (valid_cron "* * * * *" = true /\
   expected_instants "* * * * *" = 1%nat /\
   cron_to_calendar_interval fuel "* * * * *" = Some ["    <dict>"; "    </dict>"] /\
   forall key, mentions key ["    <dict>"; "    </dict>"] = false).
Proof.
  intros Hf.
  assert (Hrun : forall cron out,
            cron_to_calendar_interval 60 cron = Some out ->
            cron_to_calendar_interval fuel cron = Some out)
    by (intros cron out; apply cron_more_fuel; exact Hf).
  split; [|split; [|split]].
  - split; [reflexivity|]. split; [reflexivity|]. split; [reflexivity|].
    erewrite Hrun by (vm_compute; reflexivity). reflexivity.
  - split; [reflexivity|]. split; [reflexivity|]. split; [reflexivity|].
    erewrite Hrun by (vm_compute; reflexivity). split; vm_compute; reflexivity.
  - split; [reflexivity|]. split; [vm_compute; reflexivity|].
    erewrite Hrun by (vm_compute; reflexivity). vm_compute. reflexivity.
  - split; [reflexivity|]. split; [reflexivity|].
    split; [apply Hrun; vm_compute; reflexivity|].
    intros key. unfold mentions, key_tag. cbn [existsb].
    rewrite !orb_false_r. apply orb_false_iff. split; reflexivity.
Qed.

Lemma instants_are_not_the_product_of_expansions_witness :
  expected_instants "0-30/10 * * * *" = 4%nat /\
  grep_count "<dict>" <$> cron_to_calendar_interval 100 "0-30/10 * * * *"
    = Some 1%nat.
Proof.
  assert (Hf : (60 <= 100)%nat) by lia.
  destruct (instants_are_not_the_product_of_expansions 100 Hf)
    as ((_ & _ & He & Hc) & _).
  split; [exact He | exact Hc].
Defined.

(** C3 (the code departs from it). Two well-formed expressions whose
    output holds a value that is not an integer of the field's domain:
    [0 0 */10 * *] prints day 0, because the stride over [*] starts at 0
    for every field; [0-30/10 * * * *] prints the minute [0-30/10],
    because a stride over a range is not expanded at all. *)
Theorem emitted_values_outside_the_domain :
  (valid_cron "0 0 */10 * *" = true /\
   key_values "Day" <$> cron_to_calendar_interval 60 "0 0 */10 * *"
     = Some ["0"; "10"; "20"; "30"] /\
   dec_value "0" < 1) /\
  (valid_cron "0-30/10 * * * *" = true /\
   cron_to_calendar_interval 60 "0-30/10 * * * *"
     = Some ["    <dict>";
             "      <key>Minute</key><integer>0-30/10</integer>";
             "    </dict>"] /\
   key_values "Minute" <$> cron_to_calendar_interval 60 "0-30/10 * * * *"
     = Some ["0-30/10"] /\
   all_digits "0-30/10" = false).
Proof.
  split; repeat split; try (vm_compute; reflexivity).
Qed.

End CronClaims.

(** ** Updating and deleting single records *)

Section StoreRecords.

Import State.

Lemma findIndex_split {A} (p : A -> bool) (l : list A) (i : nat) :
  findIndex p l = Some i ->
  exists before x after,
    l = before ++ x :: after /\ length before = i /\
    (forall y, y ∈ before -> p y = false) /\ p x = true.
Proof.
  revert i. induction l as [|a l IH]; intros i; simpl; [discriminate|].
  destruct (p a) eqn:E.
  - intros [= <-]. exists [], a, l. repeat split; auto.
    intros y Hy. inversion Hy.
  - destruct (findIndex p l) as [j|]; simpl; [|discriminate].
    intros [= <-]. destruct (IH j eq_refl) as (b & x & af & -> & Hl & Hb & Hx).
    exists (a :: b), x, af. repeat split; simpl; auto.
    intros y Hy. apply elem_of_cons in Hy as [->|Hy]; auto.
Qed.

Lemma find_skip {A} (p : A -> bool) (before after : list A) :
  (forall y, y ∈ before -> p y = false) ->
  find p (before ++ after) = find p after.
Proof.
  induction before as [|a b IH]; intros H; simpl; [reflexivity|].
  rewrite (H a) by (left). apply IH. intros y Hy. apply H. right. exact Hy.
Qed.

Lemma has_id_false (id : string) (r : RunRecord) :
  has_id id r = false <-> runId r <> id.
Proof. unfold has_id. apply bool_decide_eq_false. Qed.

Lemma has_id_true (id : string) (r : RunRecord) :
  has_id id r = true <-> runId r = id.
Proof. unfold has_id. apply bool_decide_eq_true. Qed.

(** [updateRun] answers [null] exactly when no record has the id (an
    unreadable file has none), and then changes nothing; otherwise it
    rewrites the first record with the id and answers the rewritten
    record: each of the eight members takes the value the update carries
    and keeps its own where the update carries none, so that an update
    which carries a run id renames the record; the records before and
    after it, the order and the number of records stay as they were.
    When the update carries no run id, job name, start time or log path
    (the updates of [killJob] carry none), these four members of every
    record stay as they were. *)
Theorem updateRun_rewrites_one_record (st : store) (id : string) (u : Updates) :
  let '(res, st') := updateRun st id u in
  (res = None <-> getRunById st id = None) /\
  (res = None -> st' = st) /\
  (forall run', res = Some run' ->
     exists before run after,
       getRecentRuns st = before ++ run :: after /\
       (forall r, r ∈ before -> runId r <> id) /\
       runId run = id /\
       st' = Some (before ++ run' :: after) /\
       runId run' = default (runId run) (u_runId u) /\
       jobName run' = default (jobName run) (u_jobName u) /\
       startedAt run' = default (startedAt run) (u_startedAt u) /\
       completedAt run' = default (completedAt run) (u_completedAt u) /\
       exitCode run' = default (exitCode run) (u_exitCode u) /\
       attempts run' = default (attempts run) (u_attempts u) /\
       status run' = default (status run) (u_status u) /\
       logFile run' = default (logFile run) (u_logFile u)) /\
  length (getRecentRuns st') = length (getRecentRuns st) /\
  (u_runId u = None -> u_jobName u = None -> u_startedAt u = None ->
   u_logFile u = None ->
   (fun r => (runId r, jobName r, startedAt r, logFile r)) <$> getRecentRuns st' =
   (fun r => (runId r, jobName r, startedAt r, logFile r)) <$> getRecentRuns st).
Proof.
  unfold updateRun, getRunById. destruct st as [runs|]; simpl.
  2:{ repeat split; auto; discriminate. }
  pose proof (findIndex_find (has_id id) runs) as Hf.
  destruct (findIndex (has_id id) runs) as [idx|] eqn:E.
  2:{ rewrite Hf. repeat split; auto; discriminate. }
  destruct (findIndex_split _ _ _ E) as (b & x & af & -> & Hl & Hb & Hx).
  destruct Hf as (x' & Hx' & Hfind & _).
  rewrite list_lookup_middle in Hx' by (symmetry; exact Hl).
  injection Hx' as <-.
  rewrite list_lookup_middle by (symmetry; exact Hl).
  replace (<[idx:=assign x u]> (b ++ x :: af)) with (b ++ assign x u :: af).
  2:{ subst idx. rewrite insert_app_r_alt by lia.
      rewrite Nat.sub_diag. reflexivity. }
  split; [|split; [|split; [|split]]].
  - rewrite Hfind. split; discriminate.
  - discriminate.
  - intros run' [= <-]. exists b, x, af.
    split; [reflexivity|].
    split; [intros r Hr; apply has_id_false, Hb, Hr|].
    split; [apply has_id_true, Hx|].
    repeat split.
  - simpl. rewrite !length_app. reflexivity.
  - intros H1 H2 H3 H4. simpl. rewrite !fmap_app, !fmap_cons.
    cbn [assign runId jobName startedAt logFile]. rewrite H1, H2, H3, H4.
    reflexivity.
Qed.

(** An update that carries a run id renames the record: the old id is not
    found afterwards. *)
Lemma updateRun_can_rename :
  let old := {| runId := "a-1"; jobName := "a"; startedAt := "T0";
                completedAt := None; exitCode := None; attempts := None;
                status := Some "running"; logFile := "/tmp/a.log" |} in
  let u := {| u_runId := Some "b-2"; u_jobName := None; u_startedAt := None;
              u_completedAt := None; u_exitCode := Some (Some 0);
              u_attempts := None; u_status := Some (Some "success");
              u_logFile := None |} in
  updateRun (Some [old]) "a-1" u =
    (Some {| runId := "b-2"; jobName := "a"; startedAt := "T0";
             completedAt := None; exitCode := Some 0; attempts := None;
             status := Some "success"; logFile := "/tmp/a.log" |},
     Some [{| runId := "b-2"; jobName := "a"; startedAt := "T0";
              completedAt := None; exitCode := Some 0; attempts := None;
              status := Some "success"; logFile := "/tmp/a.log" |}]) /\
  getRunById (updateRun (Some [old]) "a-1" u).2 "a-1" = None.
Proof. split; reflexivity. Qed.

(** [deleteRun] answers [true] exactly when a record has the id; it then
    removes the first such record (whatever its status) and unlinks its
    log, leaving the other records in order; with distinct run ids the id
    is not found afterwards, and every other id is found as before. When
    it answers [false] nothing is changed. *)
Theorem deleteRun_removes_one_record (d : Disk) (id : string) :
  let '(deleted, d') := deleteRun d id in
  deleted = bool_decide (is_Some (getRunById (state_file d) id)) /\
  (deleted = false -> d' = d) /\
  (deleted = true ->
     exists before run after,
       getRecentRuns (state_file d) = before ++ run :: after /\
       (forall r, r ∈ before -> runId r <> id) /\
       runId run = id /\
       state_file d' = Some (before ++ after) /\
       files d' = unlink_log (files d) (undeletable d) (logFile run)) /\
  (NoDup (runId <$> getRecentRuns (state_file d)) ->
     getRunById (state_file d') id = None) /\
  (forall id', id' <> id ->
     getRunById (state_file d') id' = getRunById (state_file d) id').
Proof.
  unfold deleteRun, getRunById. destruct (state_file d) as [runs|] eqn:Es; simpl.
  2:{ rewrite Es. simpl. repeat split; auto; try discriminate. }
  pose proof (findIndex_find (has_id id) runs) as Hf.
  destruct (findIndex (has_id id) runs) as [idx|] eqn:E.
  2:{ rewrite Es, Hf. simpl. repeat split; auto; try discriminate. }
  destruct (findIndex_split _ _ _ E) as (b & x & af & -> & Hl & Hb & Hx).
  destruct Hf as (x' & Hx' & Hfind & _).
  rewrite list_lookup_middle in Hx' by (symmetry; exact Hl).
  injection Hx' as <-.
  rewrite list_lookup_middle by (symmetry; exact Hl). simpl.
  replace (delete idx (b ++ x :: af)) with (b ++ af).
  2:{ subst idx. clear. induction b; simpl; [reflexivity|]. f_equal. exact IHb. }
  split; [|split; [|split; [|split]]].
  - rewrite Hfind. rewrite bool_decide_eq_true_2; [reflexivity|]. eexists; reflexivity.
  - discriminate.
  - intros _. exists b, x, af. repeat split; auto.
    + intros r Hr. apply has_id_false, Hb, Hr.
    + apply has_id_true, Hx.
  - intros Hnd. rewrite find_skip by exact Hb.
    rewrite fmap_app, fmap_cons in Hnd.
    apply NoDup_app in Hnd as (_ & _ & Hnd). apply NoDup_cons in Hnd as [Hx' _].
    apply has_id_true in Hx.
    destruct (find (has_id id) af) as [y|] eqn:Ey; [|reflexivity].
    apply find_some in Ey as [Hy Hid]. apply has_id_true in Hid.
    exfalso. apply Hx'. rewrite Hx, <- Hid.
    apply list_elem_of_fmap. exists y. split; [reflexivity|].
    apply list_elem_of_In. exact Hy.
  - intros id' Hne.
    assert (Hskip : has_id id' x = false).
    { apply has_id_false. apply has_id_true in Hx. congruence. }
    clear - Hskip. induction b as [|a b IH]; simpl.
    + rewrite Hskip. reflexivity.
    + destruct (has_id id' a); [reflexivity|exact IH].
Qed.

End StoreRecords.

(** ** Batch deletion and clearing, repeated *)

Section StoreSweeps.

Import State.

Lemma sweep_all_kept (keep : RunRecord -> bool) (locked : gset string)
    (runs : list RunRecord) (fs : gset string) :
  (forall r, r ∈ runs -> keep r = true) ->
  sweep keep locked runs fs = (runs, 0, fs).
Proof.
  induction runs as [|r runs IH]; intros H; simpl; [reflexivity|].
  rewrite (H r) by left. rewrite IH; [reflexivity|].
  intros x Hx. apply H. right. exact Hx.
Qed.

Lemma filter_all_kept (keep : RunRecord -> bool) (runs : list RunRecord) :
  forall r, r ∈ List.filter keep runs -> keep r = true.
Proof.
  intros r Hr. apply list_elem_of_In, filter_In in Hr as [_ Hr]. exact Hr.
Qed.

Lemma filter_partition_length {A} (p : A -> bool) (l : list A) :
  (length (List.filter (fun x => negb (p x)) l) + length (List.filter p l))%nat
  = length l.
Proof.
  induction l as [|a l IH]; simpl; [reflexivity|].
  destruct (p a); simpl; lia.
Qed.

(** [deleteRuns] with the same ids a second time deletes nothing and
    leaves the disk as the first call left it; the first call's count and
    the records it leaves add up to the records there were, and every
    record left either has none of the ids or is running. An unreadable
    file gives 0 and is left alone. *)
Theorem deleteRuns_twice (d : Disk) (runIds : list string) :
  let '(n1, d1) := deleteRuns d runIds in
  deleteRuns d1 runIds = (0, d1) /\
  n1 + Z.of_nat (length (getRecentRuns (state_file d1)))
    = Z.of_nat (length (getRecentRuns (state_file d))) /\
  (forall r, r ∈ getRecentRuns (state_file d1) ->
     runId r ∉ runIds \/ status r = Some "running") /\
  (state_file d = None -> n1 = 0 /\ d1 = d).
Proof.
  unfold deleteRuns at 1. destruct (state_file d) as [runs|] eqn:Es.
  2:{ unfold deleteRuns. rewrite Es. simpl. repeat split; auto. intros r Hr. inversion Hr. }
  pose proof (sweep_kept (deleteRuns_keeps runIds) (undeletable d) runs (files d)) as Hk.
  pose proof (sweep_count (deleteRuns_keeps runIds) (undeletable d) runs (files d)) as Hc.
  destruct (sweep _ _ runs (files d)) as [[k n] f]. simpl in Hk, Hc. subst k n.
  split; [|split; [|split]].
  - unfold deleteRuns. simpl.
    rewrite sweep_all_kept by apply filter_all_kept. reflexivity.
  - simpl. pose proof (filter_partition_length (deleteRuns_keeps runIds) runs). lia.
  - simpl. intros r Hr. apply filter_all_kept in Hr.
    unfold deleteRuns_keeps in Hr. apply orb_true_iff in Hr as [Hr|Hr].
    + left. apply negb_true_iff, bool_decide_eq_false in Hr. exact Hr.
    + right. apply bool_decide_eq_true in Hr. exact Hr.
  - discriminate.
Qed.

(** [clearRuns] with the same filter a second time deletes nothing more;
    count and records left add up to the records there were; and without
    a filter exactly the running records are left, in their order. *)
Theorem clearRuns_twice (d : Disk) (filter : option string) :
  let '(n1, d1) := clearRuns d filter in
  clearRuns d1 filter = (0, d1) /\
  n1 + Z.of_nat (length (getRecentRuns (state_file d1)))
    = Z.of_nat (length (getRecentRuns (state_file d))) /\
  (filter = None ->
     getRecentRuns (state_file d1) =
       List.filter is_running (getRecentRuns (state_file d))) /\
  (state_file d = None -> n1 = 0 /\ d1 = d).
Proof.
  unfold clearRuns at 1. destruct (state_file d) as [runs|] eqn:Es.
  2:{ unfold clearRuns. rewrite Es. simpl. repeat split; auto. }
  pose proof (sweep_kept (clearRuns_keeps filter) (undeletable d) runs (files d)) as Hk.
  pose proof (sweep_count (clearRuns_keeps filter) (undeletable d) runs (files d)) as Hc.
  destruct (sweep _ _ runs (files d)) as [[k n] f]. simpl in Hk, Hc. subst k n.
  split; [|split; [|split]].
  - unfold clearRuns. simpl.
    rewrite sweep_all_kept by apply filter_all_kept. reflexivity.
  - simpl. pose proof (filter_partition_length (clearRuns_keeps filter) runs). lia.
  - intros ->. reflexivity.
  - discriminate.
Qed.

End StoreSweeps.

(** ** Reading numerals back *)

Section ParseInt.

Import Text Number RunnerLib.

(** Below [2^53] every integer is a double. *)
Lemma round53_small (v : Z) : 0 <= v < 2 ^ 53 -> round53 v = v.
Proof.
  intros H. unfold round53.
  destruct (Z.leb_spec (Z.log2 v + 1 - 53) 0) as [_|Hsh]; [reflexivity|].
  exfalso. assert (Z.log2 v < 53); [|lia].
  destruct (Z.eq_dec v 0) as [->|Hv]; [cbn; lia|].
  apply Z.log2_lt_pow2; lia.
Qed.

(** Rounding does not take a number below [2^53]. *)
Lemma round53_large (v : Z) : 2 ^ 53 <= v -> 2 ^ 53 <= round53 v.
Proof.
  intros H. unfold round53.
  destruct (Z.leb_spec (Z.log2 v + 1 - 53) 0) as [_|Hsh]; [exact H|].
  set (sh := Z.log2 v + 1 - 53) in *.
  assert (Hq : 2 ^ 52 <= v / 2 ^ sh).
  { apply Z.div_le_lower_bound; [apply Z.pow_pos_nonneg; lia|].
    rewrite <- Z.pow_add_r by lia.
    replace (sh + 52) with (Z.log2 v) by (unfold sh; lia).
    apply Z.log2_spec. lia. }
  assert (Hp : 2 <= 2 ^ sh).
  { change 2 with (2 ^ 1) at 1. apply Z.pow_le_mono_r; lia. }
  set (q := v / 2 ^ sh) in *. set (p := 2 ^ sh) in *.
  change (2 ^ 53) with (2 ^ 52 * 2).
  destruct (_ || _).
  - apply Z.mul_le_mono_nonneg; lia.
  - apply Z.mul_le_mono_nonneg; lia.
Qed.

Lemma pow53_lt_pow1024 : 2 ^ 53 < 2 ^ 1024.
Proof. apply Z.pow_lt_mono_r; lia. Qed.

Lemma of_integer_small (n : Z) : Z.abs n < 2 ^ 53 -> of_integer n = Int n.
Proof.
  intros H. unfold of_integer, overflows.
  rewrite round53_small by lia.
  pose proof pow53_lt_pow1024 as Hp.
  destruct (Z.leb_spec (2 ^ 1024) (Z.abs n)) as [Hbig|_].
  - exfalso. apply (Z.lt_irrefl (2 ^ 53)).
    eapply Z.lt_le_trans; [exact Hp|].
    eapply Z.le_trans; [exact Hbig|]. apply Z.lt_le_incl, H.
  - f_equal. destruct n; reflexivity.
Qed.

(** What a non-negative integer is read as: itself below [2^53], a number
    from [2^53] on or the positive infinity otherwise. *)
Lemma of_integer_nonneg (n : Z) :
  0 <= n ->
  (exists k, of_integer n = Int k /\ 0 <= k /\
             (n < 2 ^ 53 -> k = n) /\ (2 ^ 53 <= n -> 2 ^ 53 <= k)) \/
  (of_integer n = Inf true /\ 2 ^ 53 <= n).
Proof.
  intros Hn. destruct (Z.lt_ge_cases n (2 ^ 53)) as [Hs|Hl].
  - left. exists n. rewrite of_integer_small by lia. repeat split; lia.
  - unfold of_integer. rewrite Z.abs_eq by lia.
    assert (Hpos : 0 < n) by lia.
    destruct (overflows n).
    + right. split; [|exact Hl].
      destruct (Z.ltb_spec 0 n); [reflexivity|lia].
    + left. exists (round53 n). rewrite Z.sgn_pos by exact Hpos.
      rewrite Z.mul_1_l. pose proof (round53_large n Hl).
      repeat split; lia.
Qed.

Lemma js_space_plain (c : ascii) (r : string) :
  32 < code c < 128 -> js_space (String c r) = None.
Proof.
  intros H.
  assert (H1 : js_space1 (code c) = false).
  { unfold js_space1.
    destruct (Z.leb_spec 9 (code c)), (Z.leb_spec (code c) 13),
      (Z.eqb_spec (code c) 32); cbn; try reflexivity; lia. }
  assert (Hx : forall k, 128 <= k -> (code c =? k) = false)
    by (intros k Hk; apply Z.eqb_neq; lia).
  assert (H2 : forall y, js_space2 (code c) y = false)
    by (intros y; unfold js_space2; rewrite Hx by lia; reflexivity).
  assert (H3 : forall y z, js_space3 (code c) y z = false)
    by (intros y z; unfold js_space3; rewrite !Hx by lia; reflexivity).
  destruct r as [|b [|d r]]; cbn [js_space]; rewrite H1, ?H2, ?H3; reflexivity.
Qed.

Lemma js_trimStart_plain (c : ascii) (r : string) :
  32 < code c < 128 -> js_trimStart (String c r) = String c r.
Proof.
  intros H. unfold js_trimStart. cbn [String.length drop_while].
  rewrite js_space_plain by exact H. reflexivity.
Qed.

Lemma digit_code (c : ascii) : is_digit c = true -> 48 <= code c <= 57.
Proof. unfold is_digit. intros H. apply andb_true_iff in H as [H1 H2]. lia. Qed.

Lemma digits_or_NaN_digits (negative : bool) (s : string) :
  all_digits s = true ->
  digits_or_NaN negative s =
  of_integer (if negative then - dec_value s else dec_value s).
Proof.
  intros H. unfold all_digits in H. apply andb_true_iff in H as [Hne Hd].
  unfold digits_or_NaN. rewrite take_digits_digits by exact Hd.
  apply negb_true_iff in Hne. rewrite Hne. reflexivity.
Qed.

Lemma parseInt_digits (s : string) :
  all_digits s = true -> parseInt s = of_integer (dec_value s).
Proof.
  intros H. pose proof H as H'. unfold all_digits in H'.
  apply andb_true_iff in H' as [Hne Hd].
  destruct s as [|c s]; [discriminate|].
  simpl in Hd. apply andb_true_iff in Hd as [Hc _].
  pose proof (digit_code c Hc) as Hcode.
  unfold parseInt. rewrite js_trimStart_plain by lia.
  assert (Ascii.eqb c "-" = false) as ->.
  { apply Ascii.eqb_neq. intros ->. discriminate. }
  assert (Ascii.eqb c "+" = false) as ->.
  { apply Ascii.eqb_neq. intros ->. discriminate. }
  apply (digits_or_NaN_digits false). exact H.
Qed.

(** A numeral reads back as the double nearest to its integer. *)
Lemma parseInt_string_of_Z (n : Z) : parseInt (string_of_Z n) = of_integer n.
Proof.
  destruct (Z.ltb_spec n 0) as [Hn|Hn].
  - assert (E : string_of_Z n = String "-" (string_of_Z (- n))).
    { unfold string_of_Z.
      destruct (Z.ltb_spec n 0) as [_|?]; [|lia].
      destruct (Z.ltb_spec (- n) 0) as [?|_]; [lia|]. reflexivity. }
    rewrite E. unfold parseInt.
    rewrite js_trimStart_plain by (vm_compute; split; reflexivity).
    cbn [Ascii.eqb Bool.eqb]. 
    destruct (string_of_Z_nonneg (- n)) as [Hd Hv]; [lia|].
    rewrite (digits_or_NaN_digits true) by exact Hd. rewrite Hv.
    f_equal. lia.
  - destruct (string_of_Z_nonneg n Hn) as [Hd Hv].
    rewrite parseInt_digits by exact Hd. rewrite Hv. reflexivity.
Qed.

End ParseInt.

(** ** Decoding and trimming what a file holds *)

Section Decoding.

Import Text.

Lemma utf8_lead_begins (b : ascii) (p : pending) :
  utf8_lead b = Begins p -> seen p = String b "".
Proof.
  unfold utf8_lead.
  repeat match goal with
         | |- context [if ?c then _ else _] => destruct c
         end; try discriminate; intros [= <-]; reflexivity.
Qed.

(** Well-formed UTF-8 decodes to itself. *)
Lemma utf8_decode_from_wellformed (s : string) (st : option pending) :
  utf8_from st s = true ->
  utf8_decode_from st s =
  match st with Some p => seen p | None => "" end +:+ s.
Proof.
  revert st. induction s as [|b s IH]; intros st.
  - destruct st; [discriminate|reflexivity].
  - destruct st as [p|]; cbn [utf8_from utf8_decode_from].
    + intros H. apply andb_true_iff in H as [Hc H]. rewrite Hc.
      destruct (needed p <=? 1)%nat.
      * rewrite (IH None H). reflexivity.
      * rewrite (IH _ H). cbn [seen continued].
        rewrite append_assoc'. reflexivity.
    + destruct (utf8_lead b) as [|p|] eqn:E; [| |discriminate]; intros H.
      * rewrite (IH None H). reflexivity.
      * rewrite (IH _ H), (utf8_lead_begins b p E). reflexivity.
Qed.

Lemma utf8_decode_wellformed (s : string) :
  utf8 s = true -> utf8_decode s = s.
Proof. intros H. apply (utf8_decode_from_wellformed s None H). Qed.

Lemma ascii_is_utf8 (s : string) :
  all_chars (fun c => code c <=? 127) s = true -> utf8 s = true.
Proof.
  unfold utf8. induction s as [|b s IH]; [reflexivity|].
  cbn [all_chars utf8_from]. intros H. apply andb_true_iff in H as [Hb Hs].
  unfold utf8_lead. rewrite Hb. apply IH, Hs.
Qed.

Lemma string_rev_app (a b : string) :
  string_rev (a +:+ b) = string_rev b +:+ string_rev a.
Proof.
  induction a as [|c a IH].
  - rewrite append_empty, append_empty_r. reflexivity.
  - rewrite append_cons. cbn [string_rev]. rewrite IH, append_assoc'. reflexivity.
Qed.

Lemma string_rev_involutive (s : string) : string_rev (string_rev s) = s.
Proof.
  induction s as [|c s IH]; [reflexivity|].
  cbn [string_rev]. rewrite string_rev_app, IH. reflexivity.
Qed.

Lemma all_chars_string_rev (p : ascii -> bool) (s : string) :
  all_chars p (string_rev s) = all_chars p s.
Proof.
  induction s as [|c s IH]; [reflexivity|].
  cbn [string_rev all_chars]. rewrite all_chars_app, IH. cbn [all_chars].
  rewrite andb_true_r. apply andb_comm.
Qed.

Lemma js_space_back_plain (c : ascii) (r : string) :
  32 < code c < 128 -> js_space_back (String c r) = None.
Proof.
  intros H.
  assert (H1 : js_space1 (code c) = false).
  { unfold js_space1.
    destruct (Z.leb_spec 9 (code c)), (Z.leb_spec (code c) 13),
      (Z.eqb_spec (code c) 32); cbn; try reflexivity; lia. }
  assert (Hx : forall k, 128 <= k -> (code c =? k) = false)
    by (intros k Hk; apply Z.eqb_neq; lia).
  assert (Hge : (128 <=? code c) = false) by (apply Z.leb_gt; lia).
  assert (H2 : forall y, js_space2 y (code c) = false)
    by (intros y; unfold js_space2; rewrite Hx by lia; apply andb_false_r).
  assert (H3 : forall x y, js_space3 x y (code c) = false).
  { intros x y. unfold js_space3. rewrite !Hx by lia. rewrite Hge.
    cbn [andb orb]. rewrite !andb_false_r. reflexivity. }
  destruct r as [|b [|a r]]; cbn [js_space_back]; rewrite H1, ?H2, ?H3; reflexivity.
Qed.

Lemma js_space_back_newline (r : string) :
  js_space_back (String (ascii_of_nat 10) r) = Some r.
Proof. destruct r as [|b [|a r]]; reflexivity. Qed.

(** A numeral and the newline after it trim to the numeral. *)
Lemma js_trim_numeral_line (s : string) :
  all_digits s = true -> js_trim (s +:+ String (ascii_of_nat 10) "") = s.
Proof.
  intros H. unfold all_digits in H. apply andb_true_iff in H as [Hne Hall].
  destruct s as [|c s]; [discriminate|]. clear Hne.
  pose proof Hall as Hc. cbn [all_chars] in Hc. apply andb_true_iff in Hc as [Hc _].
  pose proof (digit_code c Hc) as Hcode.
  unfold js_trim. rewrite append_cons, js_trimStart_plain by lia.
  rewrite <- append_cons. unfold js_trimEnd.
  rewrite string_rev_app, length_append.
  change (string_rev (String (ascii_of_nat 10) "")) with (String (ascii_of_nat 10) "").
  rewrite append_cons, append_empty. rewrite Nat.add_1_r.
  cbn [drop_while]. rewrite js_space_back_newline.
  pose proof (all_chars_string_rev is_digit (String c s)) as Hr.
  rewrite Hall in Hr.
  assert (Hlen : String.length (string_rev (String c s)) = String.length (String c s)).
  { generalize (String c s). intros t. induction t as [|d t IH]; [reflexivity|].
    cbn [string_rev]. rewrite length_append, IH. simpl. lia. }
  destruct (string_rev (String c s)) as [|c' r'] eqn:E; [discriminate Hlen|].
  cbn [all_chars] in Hr. apply andb_true_iff in Hr as [Hc' _].
  pose proof (digit_code c' Hc') as Hcode'.
  cbn [String.length drop_while]. rewrite js_space_back_plain by lia.
  rewrite <- E. apply string_rev_involutive.
Qed.

End Decoding.

(** ** The paginated listing *)

Section Listing.

Import Text Number State RunsApi.

Lemma string_of_Z_not_empty (n : Z) : string_of_Z n <> "".
Proof.
  unfold string_of_Z. destruct (n <? 0); [discriminate|].
  apply dec_digits_nonempty.
Qed.

Lemma query_or_numeral (n : Z) (fallback : string) :
  query_or (Some (string_of_Z n)) fallback = string_of_Z n.
Proof.
  unfold query_or.
  destruct (String.eqb_spec (string_of_Z n) "") as [E|_]; [|reflexivity].
  exfalso. exact (string_of_Z_not_empty n E).
Qed.

(** A bound read from a non-negative integer is the integer, clamped to
    the array. *)
Lemma relative_index_of_integer (len n : Z) :
  0 <= n -> 0 <= len < 2 ^ 53 ->
  relative_index len (of_integer n) = Z.min n len.
Proof.
  intros Hn Hlen.
  destruct (of_integer_nonneg n Hn) as [(k & -> & Hk & Hs & Hl)|[-> Hl]];
    cbn [relative_index].
  - destruct (Z.ltb_spec k 0); lia.
  - lia.
Qed.

Lemma relative_index_add (len a b : Z) :
  0 <= a -> 0 <= b -> 0 <= len < 2 ^ 53 ->
  relative_index len (js_add (of_integer a) (of_integer b)) = Z.min (a + b) len.
Proof.
  intros Ha Hb Hlen. unfold js_add.
  destruct (of_integer_nonneg a Ha) as [(ka & -> & Hka & Hsa & Hla)|[-> Hla]];
    destruct (of_integer_nonneg b Hb) as [(kb & -> & Hkb & Hsb & Hlb)|[-> Hlb]];
    cbn [add Bool.eqb relative_index]; try lia.
  rewrite relative_index_of_integer by lia. lia.
Qed.

Lemma js_slice_window {A} (l : list A) (offset limit : Z) :
  0 <= offset -> 0 <= limit -> Z.of_nat (length l) < 2 ^ 53 ->
  js_slice l (of_integer offset) (js_add (of_integer offset) (of_integer limit)) =
  firstn (Z.to_nat limit) (skipn (Z.to_nat offset) l).
Proof.
  intros Ho Hl Hlen. unfold js_slice.
  rewrite relative_index_add, relative_index_of_integer by lia.
  set (len := Z.of_nat (length l)) in *.
  destruct (Z.le_gt_cases len offset) as [Hbig|Hsmall].
  - rewrite !Z.min_r by lia. rewrite Z.sub_diag. simpl.
    rewrite (skipn_all2 (n := Z.to_nat offset)) by (unfold len in Hbig; lia).
    rewrite firstn_nil. reflexivity.
  - rewrite (Z.min_l offset) by lia.
    destruct (Z.le_gt_cases len (offset + limit)) as [Hend|Hend].
    + rewrite Z.min_r by lia.
      rewrite !firstn_all2; [reflexivity| |];
        rewrite length_skipn; unfold len in *; lia.
    + rewrite Z.min_l by lia. f_equal. lia.
Qed.

Lemma listing_length (st : store) (q_status : option string) :
  (length (listing st q_status) <= length (getRecentRuns st))%nat.
Proof.
  unfold listing. destruct q_status as [s|]; [destruct (String.eqb s "")|];
    rewrite ?length_reverse; try lia.
  etransitivity; [apply List.filter_length_le|]. rewrite length_reverse. lia.
Qed.

(** [GET /api/runs?limit=L&offset=O] with numerals for a non-negative
    [O] and [L], however large they are, over a store of fewer than
    [2^32] records (the most an array holds): the page holds the [L]
    records that follow the first [O] of the listing (newest first,
    filtered by [status] when given), fewer at its end, and [total] is
    the length of the listing, whatever the page. Without the two
    parameters the page is the first 30. *)
Theorem list_runs_page (st : store) (q_status : option string) (limit offset : Z) :
  0 <= offset -> 0 <= limit ->
  Z.of_nat (length (getRecentRuns st)) < 2 ^ 32 ->
  list_runs st (Some (string_of_Z limit)) (Some (string_of_Z offset)) q_status =
    (firstn (Z.to_nat limit) (skipn (Z.to_nat offset) (listing st q_status)),
     Z.of_nat (length (listing st q_status))) /\
  list_runs st None None q_status =
    (firstn 30 (listing st q_status), Z.of_nat (length (listing st q_status))).
Proof.
  intros Ho Hl Hlen. unfold list_runs.
  pose proof (listing_length st q_status) as Hle.
  assert (Hlen' : Z.of_nat (length (listing st q_status)) < 2 ^ 53) by lia.
  split.
  - rewrite !query_or_numeral, !parseInt_string_of_Z.
    rewrite js_slice_window by assumption. reflexivity.
  - simpl query_or.
    change "30" with (string_of_Z 30). change "0" with (string_of_Z 0).
    rewrite !parseInt_string_of_Z.
    rewrite js_slice_window by (assumption || lia). reflexivity.
Qed.

(** The second page of two of a store of three records, the newest
    first. *)
Lemma list_runs_page_witness :
  let r1 := {| runId := "a-20250309-070000"; jobName := "a";
               startedAt := "2025-03-09T07:00:00Z";
               completedAt := Some "2025-03-09T07:01:00Z"; exitCode := Some 0;
               attempts := Some 1; status := None; logFile := "/tmp/a.log" |} in
  let r2 := {| runId := "b-20250309-080000"; jobName := "b";
               startedAt := "2025-03-09T08:00:00Z";
               completedAt := Some "2025-03-09T08:01:00Z"; exitCode := Some 1;
               attempts := Some 3; status := None; logFile := "/tmp/b.log" |} in
  let r3 := {| runId := "a-20250309-090000"; jobName := "a";
               startedAt := "2025-03-09T09:00:00Z";
               completedAt := None; exitCode := None;
               attempts := None; status := Some "running";
               logFile := "/tmp/c.log" |} in
  list_runs (Some [r1; r2; r3]) (Some "2") (Some "1") None = ([r2; r1], 3) /\
  list_runs (Some [r1; r2; r3]) None None None = ([r3; r2; r1], 3).
Proof.
  intros r1 r2 r3.
  apply (list_runs_page (Some [r1; r2; r3]) None 2 1); [lia | lia | reflexivity].
Defined.

Lemma pages_concat {A} (l : list A) (limit : nat) (n : nat) :
  concat ((fun k => firstn limit (skipn (k * limit) l)) <$> seq 0 n)
  = firstn (n * limit) l.
Proof.
  induction n as [|n IH]; [reflexivity|].
  rewrite seq_S, fmap_app, concat_app, IH. simpl.
  rewrite app_nil_r.
  rewrite <- (firstn_skipn (n * limit) (firstn (limit + n * limit) l)) at 1.
  rewrite firstn_firstn. rewrite Nat.min_l by lia.
  f_equal. rewrite skipn_firstn_comm. f_equal. lia.
Qed.

(** Walking the pages of size [L > 0] at offsets 0, L, 2L, ... of a
    store of fewer than [2^32] records returns every record of the
    listing exactly once and in order, as soon as the pages reach its
    end. *)
Theorem list_runs_pages_cover (st : store) (q_status : option string)
    (limit : Z) (n : nat) :
  0 < limit ->
  Z.of_nat (length (getRecentRuns st)) < 2 ^ 32 ->
  Z.of_nat (length (listing st q_status)) <= Z.of_nat n * limit ->
  concat ((fun k : nat =>
             (list_runs st (Some (string_of_Z limit))
                (Some (string_of_Z (Z.of_nat k * limit))) q_status).1) <$> seq 0 n)
  = listing st q_status.
Proof.
  intros Hl Hlen Hn.
  transitivity (concat ((fun k => firstn (Z.to_nat limit)
                                    (skipn (k * Z.to_nat limit) (listing st q_status)))
                        <$> seq 0 n)).
  - f_equal. apply list_fmap_ext. intros _ k _.
    destruct (list_runs_page st q_status limit (Z.of_nat k * limit)) as [-> _];
      [lia | lia | exact Hlen |].
    simpl. do 2 f_equal. lia.
  - rewrite pages_concat. apply firstn_all2. lia.
Qed.

(** Two pages of two cover a store of three records. *)
Lemma list_runs_pages_cover_witness :
  let r1 := {| runId := "a-20250309-070000"; jobName := "a";
               startedAt := "2025-03-09T07:00:00Z";
               completedAt := Some "2025-03-09T07:01:00Z"; exitCode := Some 0;
               attempts := Some 1; status := None; logFile := "/tmp/a.log" |} in
  let r2 := {| runId := "b-20250309-080000"; jobName := "b";
               startedAt := "2025-03-09T08:00:00Z";
               completedAt := Some "2025-03-09T08:01:00Z"; exitCode := Some 1;
               attempts := Some 3; status := None; logFile := "/tmp/b.log" |} in
  let r3 := {| runId := "a-20250309-090000"; jobName := "a";
               startedAt := "2025-03-09T09:00:00Z";
               completedAt := None; exitCode := None;
               attempts := None; status := Some "running";
               logFile := "/tmp/c.log" |} in
  (list_runs (Some [r1; r2; r3]) (Some "2") (Some "0") None).1 ++
  (list_runs (Some [r1; r2; r3]) (Some "2") (Some "2") None).1 ++ []
  = [r3; r2; r1].
Proof.
  intros r1 r2 r3.
  apply (list_runs_pages_cover (Some [r1; r2; r3]) None 2 2);
    [lia | reflexivity | simpl; lia].
Defined.

Lemma relative_index_nonneg (len : Z) (k : number) :
  0 <= len -> 0 <= relative_index len k.
Proof.
  intros H. unfold relative_index.
  destruct k as [|k|[|]]; try lia.
  destruct (Z.ltb_spec k 0); lia.
Qed.

(** A [limit] that is given but does not start with a number (after white
    space and a sign) is [NaN] and never falls back to 30: the page is
    empty for every offset, while [total] still counts the listing. *)
Theorem list_runs_limit_not_a_number (st : store)
    (q_offset q_status : option string) (limit : string) :
  limit <> "" -> RunnerLib.parseInt limit = NaN ->
  list_runs st (Some limit) q_offset q_status =
    ([], Z.of_nat (length (listing st q_status))).
Proof.
  intros Hne Hnan. unfold list_runs.
  assert (query_or (Some limit) "30" = limit) as ->.
  { unfold query_or. destruct (String.eqb_spec limit ""); [contradiction|reflexivity]. }
  rewrite Hnan.
  generalize (RunnerLib.parseInt (query_or q_offset "0")). intros off.
  f_equal. unfold js_slice.
  assert (js_add off NaN = NaN) as -> by (destruct off; reflexivity).
  set (len := Z.of_nat (length (listing st q_status))).
  assert (Hlen : 0 <= len) by (unfold len; lia).
  pose proof (relative_index_nonneg len off Hlen) as Hk.
  cbn [relative_index].
  replace (Z.to_nat (0 - _)) with 0%nat by lia. reflexivity.
Qed.

(** [limit=all] over a store of three records: an empty page, and a total
    of 3. *)
Lemma list_runs_limit_not_a_number_witness :
  let r1 := {| runId := "a-20250309-070000"; jobName := "a";
               startedAt := "2025-03-09T07:00:00Z";
               completedAt := Some "2025-03-09T07:01:00Z"; exitCode := Some 0;
               attempts := Some 1; status := None; logFile := "/tmp/a.log" |} in
  let r2 := {| runId := "b-20250309-080000"; jobName := "b";
               startedAt := "2025-03-09T08:00:00Z";
               completedAt := Some "2025-03-09T08:01:00Z"; exitCode := Some 1;
               attempts := Some 3; status := None; logFile := "/tmp/b.log" |} in
  let r3 := {| runId := "a-20250309-090000"; jobName := "a";
               startedAt := "2025-03-09T09:00:00Z";
               completedAt := None; exitCode := None;
               attempts := None; status := Some "running";
               logFile := "/tmp/c.log" |} in
  list_runs (Some [r1; r2; r3]) (Some "all") (Some "1") None = ([], 3).
Proof.
  intros r1 r2 r3.
  apply (list_runs_limit_not_a_number (Some [r1; r2; r3]) (Some "1") None "all");
    [discriminate | reflexivity].
Defined.

(** A carriage return, a no-break space or a byte-order mark before the
    digits is white space to [parseInt]; a letter is not. *)
Lemma parseInt_white_space :
  RunnerLib.parseInt (String (ascii_of_nat 13) "2") = Int 2 /\
  RunnerLib.parseInt (String (ascii_of_nat 194) (String (ascii_of_nat 160) "25")) = Int 25 /\
  RunnerLib.parseInt (String (ascii_of_nat 239) (String (ascii_of_nat 187)
                        (String (ascii_of_nat 191) "7"))) = Int 7 /\
  RunnerLib.parseInt " +12px" = Int 12 /\
  RunnerLib.parseInt "x12" = NaN /\
  RunnerLib.parseInt "- 1" = NaN.
Proof. repeat split; vm_compute; reflexivity. Qed.

End Listing.

(** ** Clearing by status and listing by status *)

Section ClearAndList.

Import Text State RunsApi.

Lemma settled_filter_agrees (s : string) (r : RunRecord) :
  s <> "" -> s <> "running" -> settled r = true ->
  clearRuns_keeps (Some s) r = negb (status_filter s r).
Proof.
  intros Hne Hrun Hs. unfold clearRuns_keeps, status_filter, derived_status,
    is_running, no_status, settled in *.
  destruct (status r) as [t|]; destruct (exitCode r) as [c|];
    repeat match goal with
           | |- context [String.eqb ?a ?b] => destruct (String.eqb_spec a b)
           | H : context [String.eqb ?a ?b] |- _ => destruct (String.eqb_spec a b)
           end;
    simpl in *; repeat case_bool_decide; simpl in *;
    try reflexivity; try discriminate; try congruence.
Qed.

Lemma filter_ext_in {A} (p q : A -> bool) (l : list A) :
  (forall x, x ∈ l -> p x = q x) -> List.filter p l = List.filter q l.
Proof.
  induction l as [|a l IH]; intros H; simpl; [reflexivity|].
  rewrite (H a) by left. rewrite IH; [reflexivity|].
  intros x Hx. apply H. right. exact Hx.
Qed.

Lemma filter_reverse {A} (p : A -> bool) (l : list A) :
  List.filter p (reverse l) = reverse (List.filter p l).
Proof.
  induction l as [|a l IH]; simpl; [reflexivity|].
  rewrite reverse_cons, List.filter_app, IH. simpl.
  destruct (p a); [rewrite reverse_cons | rewrite app_nil_r]; reflexivity.
Qed.

Lemma filter_filter_neg {A} (p : A -> bool) (l : list A) :
  List.filter p (List.filter (fun x => negb (p x)) l) = [].
Proof.
  induction l as [|a l IH]; simpl; [reflexivity|].
  destruct (p a) eqn:E; simpl; [exact IH | rewrite E; exact IH].
Qed.

(** [DELETE /api/runs?status=s] and [GET /api/runs?status=s] agree, for
    a status other than [running] and a store of settled records (what
    the runner and [killJob] write): the number deleted is the [total]
    the listing reported, the records left are those the listing did not
    show, in their order, and the same listing is empty afterwards. *)
Theorem clearing_removes_what_the_listing_shows (d : Disk) (s : string) :
  s <> "" -> s <> "running" ->
  (forall r, r ∈ getRecentRuns (state_file d) -> settled r = true) ->
  let '(resp, d') := Routes.clear_runs d (Some s) in
  resp = Routes.Ok200
           (string_of_Z (list_runs (state_file d) None None (Some s)).2) /\
  getRecentRuns (state_file d') =
    List.filter (fun r => negb (status_filter s r)) (getRecentRuns (state_file d)) /\
  listing (state_file d') (Some s) = [].
Proof.
  intros Hne Hrun Hset. unfold Routes.clear_runs.
  destruct (String.eqb_spec s "") as [?|_]; [contradiction|].
  unfold list_runs, listing. simpl snd.
  destruct (String.eqb_spec s "") as [?|_]; [contradiction|].
  unfold clearRuns. destruct (state_file d) as [runs|] eqn:Es; simpl in Hset |- *.
  2:{ rewrite Es. simpl. repeat split; reflexivity. }
  pose proof (sweep_kept (clearRuns_keeps (Some s)) (undeletable d) runs (files d)) as Hk.
  pose proof (sweep_count (clearRuns_keeps (Some s)) (undeletable d) runs (files d)) as Hc.
  destruct (sweep _ _ runs (files d)) as [[k n] f]. cbn [fst snd] in Hk, Hc. subst k n.
  assert (Hkeep : List.filter (clearRuns_keeps (Some s)) runs =
                  List.filter (fun r => negb (status_filter s r)) runs).
  { apply filter_ext_in. intros r Hr. apply settled_filter_agrees; auto. }
  assert (Hdrop : List.filter (fun r => negb (clearRuns_keeps (Some s) r)) runs =
                  List.filter (status_filter s) runs).
  { apply filter_ext_in. intros r Hr.
    rewrite settled_filter_agrees by auto. apply negb_involutive. }
  cbn [getRecentRuns state_file]. rewrite Hkeep, Hdrop. split; [|split].
  - rewrite filter_reverse, length_reverse. reflexivity.
  - reflexivity.
  - rewrite filter_reverse, filter_filter_neg. reflexivity.
Qed.

Lemma clearing_removes_what_the_listing_shows_witness :
  let d := {| state_file :=
                Some [ {| runId := "a-1"; jobName := "a"; startedAt := "t0";
                          completedAt := Some "t1"; exitCode := Some 2;
                          attempts := Some 1; status := None; logFile := "a.log" |} ];
              files := ∅; undeletable := ∅ |} in
  let '(resp, d') := Routes.clear_runs d (Some "failed") in
  resp = Routes.Ok200
           (string_of_Z (list_runs (state_file d) None None (Some "failed")).2) /\
  getRecentRuns (state_file d') =
    List.filter (fun r => negb (status_filter "failed" r)) (getRecentRuns (state_file d)) /\
  listing (state_file d') (Some "failed") = [].
Proof.
  intros d.
  apply (clearing_removes_what_the_listing_shows d "failed");
    [discriminate | discriminate |].
  intros r Hr. apply list_elem_of_singleton in Hr. subst r. reflexivity.
Defined.

End ClearAndList.

(** ** Creating, updating and deleting job definitions *)

Section JobFilesCrud.

Import Text Jobs JobsCrud.

(** Writing or removing an entry moves no path. *)
Lemma job_path_other_write (w : JobFiles) (dir d : job_dir)
    (name other : string) (f : yaml_file) :
  place_of w (joined w d other) <> Entry dir name ->
  job_path (syncSchedule (write_job w dir name f)) d other = job_path w d other.
Proof.
  intros Hne. unfold job_path.
  assert (joined (syncSchedule (write_job w dir name f)) d other = joined w d other)
    as -> by (destruct dir; reflexivity).
  assert (place_of (syncSchedule (write_job w dir name f)) (joined w d other)
          = place_of w (joined w d other)) as -> by (destruct dir; reflexivity).
  destruct (place_of w (joined w d other)) as [d0 key|path].
  - destruct dir, d0; cbn; try reflexivity;
      apply lookup_insert_ne; congruence.
  - destruct dir; reflexivity.
Qed.

Lemma job_path_other_remove (w : JobFiles) (dir d : job_dir)
    (name other : string) :
  place_of w (joined w d other) <> Entry dir name ->
  job_path (syncSchedule (remove_job w dir name)) d other = job_path w d other.
Proof.
  intros Hne. unfold job_path.
  assert (joined (syncSchedule (remove_job w dir name)) d other = joined w d other)
    as -> by (destruct dir; reflexivity).
  assert (place_of (syncSchedule (remove_job w dir name)) (joined w d other)
          = place_of w (joined w d other)) as -> by (destruct dir; reflexivity).
  destruct (place_of w (joined w d other)) as [d0 key|path].
  - destruct dir, d0; cbn; try reflexivity;
      apply lookup_delete_ne; congruence.
  - destruct dir; reflexivity.
Qed.

(** A name whose two paths lead to another place than the written entry
    reads as before. *)
Lemma getJobDefinition_other_write (w : JobFiles) (dir : job_dir)
    (name other : string) (f : yaml_file) :
  (forall d, place_of w (joined w d other) <> Entry dir name) ->
  getJobDefinition (syncSchedule (write_job w dir name f)) other =
  getJobDefinition w other.
Proof.
  intros Hne. unfold getJobDefinition, resolveJobFile, read_job.
  rewrite !job_path_other_write by apply Hne.
  repeat case_bool_decide; rewrite ?job_path_other_write by apply Hne;
    reflexivity.
Qed.

Lemma getJobDefinition_other_remove (w : JobFiles) (dir : job_dir)
    (name other : string) :
  (forall d, place_of w (joined w d other) <> Entry dir name) ->
  getJobDefinition (syncSchedule (remove_job w dir name)) other =
  getJobDefinition w other.
Proof.
  intros Hne. unfold getJobDefinition, resolveJobFile, read_job.
  rewrite !job_path_other_remove by apply Hne.
  repeat case_bool_decide; rewrite ?job_path_other_remove by apply Hne;
    reflexivity.
Qed.

(** Another name without a [/] leads to another entry. *)
Lemma other_name_other_place (w : JobFiles) (d dir : job_dir)
    (name other : string) :
  other <> name -> contains "/" other = false ->
  place_of w (joined w d other) <> Entry dir name.
Proof.
  intros Hne Hs. rewrite joined_entry by exact Hs. rewrite place_of_entry.
  congruence.
Qed.

Lemma resolve_none (w : JobFiles) (name : string) :
  contains "/" name = false ->
  resolveJobFile w name = None <->
  jobs_local w !! name = None /\ jobs_shared w !! name = None.
Proof.
  intros Hs. rewrite resolve_entry by exact Hs.
  repeat case_bool_decide; split;
    try discriminate; try (intros [? ?]);
    try (exfalso; match goal with
                  | H : is_Some ?x, E : ?x = None |- _ =>
                      rewrite E in H; destruct H; discriminate
                  end).
  - intros _. split; apply eq_None_not_Some; assumption.
  - reflexivity.
Qed.

Lemma valid_name_is_no_path (name : string) :
  validateJobName name = true -> looks_like_a_path name = false.
Proof.
  intros Hv. unfold validateJobName in Hv. apply andb_true_iff in Hv as [_ Hv].
  unfold looks_like_a_path, backslash.
  rewrite !contains_foreign_char by (reflexivity || exact Hv). reflexivity.
Qed.

(** [createJob] succeeds exactly for a well-formed name that no file of
    either directory has and a text that parses; it then puts the
    document into [jobs/], where [getJobDefinition] finds it, and
    re-syncs the schedules once. When it fails nothing is written. No
    other job's definition changes either way: a name reads as before
    when neither of its two paths leads to the written file, as is the
    case of every other name without a [/]. *)
Theorem createJob_adds_a_shared_definition (w : JobFiles) (name : string)
    (yaml : yaml_text) :
  let '(r, w') := createJob w name yaml in
  (ok r = true <->
     validateJobName name = true /\ resolveJobFile w name = None /\
     exists v, yaml = Parsed v) /\
  (ok r = false -> w' = w /\ is_Some (error r)) /\
  (forall v, ok r = true -> yaml = Parsed v ->
     getJobDefinition w' name = Some v /\
     jobs_shared w' = <[name := Doc v]> (jobs_shared w) /\
     jobs_local w' = jobs_local w /\
     syncs w' = S (syncs w)) /\
  (forall other,
     (forall d, place_of w (joined w d other) <> Entry SharedDir name) ->
     getJobDefinition w' other = getJobDefinition w other) /\
  (forall other, other <> name -> contains "/" other = false ->
     getJobDefinition w' other = getJobDefinition w other).
Proof.
  unfold createJob. destruct (validateJobName name) eqn:Hv; simpl.
  2:{ repeat split; eauto; try discriminate. intros (? & _). discriminate. }
  destruct (resolveJobFile w name) as [dir|] eqn:Hr.
  { repeat split; eauto; try discriminate. intros (_ & ? & _). discriminate. }
  destruct yaml as [v|m].
  2:{ repeat split; eauto; try discriminate. intros (_ & _ & v & ?). discriminate. }
  pose proof (valid_name_no_slash name Hv) as Hplain.
  apply (resolve_none w name Hplain) in Hr as [Hl Hs].
  split; [|split; [|split; [|split]]].
  - simpl. split; [|reflexivity]. intros _. repeat split; eauto.
  - discriminate.
  - intros v' _ [= <-]. repeat split.
    unfold getJobDefinition, read_job.
    rewrite resolve_entry by exact Hplain.
    cbn [syncSchedule write_job jobs_local jobs_shared].
    rewrite Hl, lookup_insert_eq.
    rewrite bool_decide_eq_false_2 by (intros [? ?]; discriminate).
    rewrite bool_decide_eq_true_2 by eauto.
    rewrite job_path_entry by exact Hplain. cbn.
    rewrite lookup_insert_eq. reflexivity.
  - intros other Hne.
    apply (getJobDefinition_other_write w SharedDir name other (Doc v) Hne).
  - intros other Hne Hs'.
    apply (getJobDefinition_other_write w SharedDir name other (Doc v)).
    intros d. apply other_name_other_place; assumption.
Qed.

(** After [createJob] of [nightly] the names [./nightly] and
    [../jobs/nightly] read the new file too. *)
Lemma createJob_is_seen_under_its_aliases :
  let w := {| jobs_local := ∅; jobs_shared := ∅;
              script_dir := ["opt"; "claude-runner"];
              elsewhere := fun _ => None; syncs := 0 |} in
  let w' := snd (createJob w "nightly" (Parsed (YMap [("retries", YNum 2)]))) in
  getJobDefinition w "./nightly" = None /\
  getJobDefinition w' "./nightly" = Some (YMap [("retries", YNum 2)]) /\
  getJobDefinition w' "../jobs/nightly" = Some (YMap [("retries", YNum 2)]).
Proof. repeat split; vm_compute; reflexivity. Qed.

(** [updateJob] succeeds exactly for a well-formed name that has a file
    and a text that parses; it then overwrites the file that is in force
    ([jobs.local/] before [jobs/]), so that [getJobDefinition] returns
    the new document, and leaves a file of the same name in the other
    directory as it is. When it fails nothing is written. No other job's
    definition changes either way: a name reads as before when neither
    of its two paths leads to the written file, as is the case of every
    other name without a [/]. *)
Theorem updateJob_overwrites_the_definition_in_force (w : JobFiles)
    (name : string) (yaml : yaml_text) :
  let '(r, w') := updateJob w name yaml in
  (ok r = true <->
     validateJobName name = true /\ is_Some (resolveJobFile w name) /\
     exists v, yaml = Parsed v) /\
  (ok r = false -> w' = w /\ is_Some (error r)) /\
  (forall v, ok r = true -> yaml = Parsed v ->
     getJobDefinition w' name = Some v /\
     resolveJobFile w' name = resolveJobFile w name /\
     (resolveJobFile w name = Some LocalDir -> jobs_shared w' = jobs_shared w) /\
     (resolveJobFile w name = Some SharedDir -> jobs_local w' = jobs_local w) /\
     syncs w' = S (syncs w)) /\
  (forall other dir,
     resolveJobFile w name = Some dir ->
     (forall d, place_of w (joined w d other) <> Entry dir name) ->
     getJobDefinition w' other = getJobDefinition w other) /\
  (forall other, other <> name -> contains "/" other = false ->
     getJobDefinition w' other = getJobDefinition w other).
Proof.
  unfold updateJob. destruct (validateJobName name) eqn:Hv; simpl.
  2:{ repeat split; eauto; try discriminate. intros (? & _). discriminate. }
  destruct (resolveJobFile w name) as [dir|] eqn:Hr.
  2:{ repeat split; eauto; try discriminate. intros (_ & [? ?] & _). discriminate. }
  destruct yaml as [v|m].
  2:{ repeat split; eauto; try discriminate. intros (_ & _ & v & ?). discriminate. }
  pose proof (valid_name_no_slash name Hv) as Hplain.
  destruct (resolve_after_write w name dir (Doc v) Hplain Hr) as [Hr' Hread].
  split; [|split; [|split; [|split]]].
  - simpl. split; [|reflexivity]. intros _. repeat split; eauto.
  - discriminate.
  - intros v' _ [= <-]. split; [|split; [|split; [|split]]].
    + unfold getJobDefinition. rewrite Hr', Hread. reflexivity.
    + exact Hr'.
    + intros [= ->]. reflexivity.
    + intros [= ->]. reflexivity.
    + destruct dir; reflexivity.
  - intros other dir' [= <-] Hne.
    apply (getJobDefinition_other_write w dir name other (Doc v) Hne).
  - intros other Hne Hs'.
    apply (getJobDefinition_other_write w dir name other (Doc v)).
    intros d. apply other_name_other_place; assumption.
Qed.

(** [deleteJob] of a job that is not running and whose file can be
    unlinked removes the one file that is in force. A job defined in one
    directory is gone afterwards; a job defined in both loses its
    [jobs.local/] file only, so that it still exists, now with the
    definition of [jobs/]. No other job's definition changes: a name
    reads as before when neither of its two paths leads to the removed
    file, as is the case of every other name without a [/]. *)
Theorem deleteJob_removes_the_file_in_force (locks : gset string)
    (w : JobFiles) (name : string) (dir : job_dir) :
  validateJobName name = true ->
  resolveJobFile w name = Some dir ->
  name ∉ locks ->
  let '(r, w') := deleteJob None locks w name in
  r = succeeded /\
  syncs w' = S (syncs w) /\
  read_job w' dir name = None /\
  (dir = SharedDir -> getJobDefinition w' name = None /\
                      jobs_local w' = jobs_local w) /\
  (dir = LocalDir ->
     jobs_shared w' = jobs_shared w /\
     resolveJobFile w' name =
       (if bool_decide (is_Some (jobs_shared w !! name))
        then Some SharedDir else None) /\
     getJobDefinition w' name =
       match jobs_shared w !! name with
       | Some (Doc v) => Some v
       | _ => None
       end) /\
  (forall other,
     (forall d, place_of w (joined w d other) <> Entry dir name) ->
     getJobDefinition w' other = getJobDefinition w other) /\
  (forall other, other <> name -> contains "/" other = false ->
     getJobDefinition w' other = getJobDefinition w other).
Proof.
  intros Hv Hr Hl. unfold deleteJob.
  rewrite Hv, (valid_name_is_no_path name Hv), Hr. simpl.
  rewrite bool_decide_eq_false_2 by exact Hl.
  pose proof (valid_name_no_slash name Hv) as Hplain.
  split; [reflexivity|]. split; [destruct dir; reflexivity|].
  split.
  { unfold read_job. rewrite job_path_entry by exact Hplain.
    destruct dir; simpl; apply lookup_delete_eq. }
  split; [|split; [|split]].
  - intros ->. split; [|reflexivity].
    rewrite resolve_entry in Hr by exact Hplain.
    destruct (bool_decide (is_Some (jobs_local w !! name))) eqn:El; [discriminate|].
    unfold getJobDefinition. rewrite resolve_entry by exact Hplain.
    simpl. rewrite El.
    rewrite lookup_delete_eq.
    rewrite bool_decide_eq_false_2 by (intros [? ?]; discriminate). reflexivity.
  - intros ->. split; [reflexivity|].
    unfold getJobDefinition, read_job.
    rewrite resolve_entry by exact Hplain.
    cbn [syncSchedule remove_job jobs_local jobs_shared].
    rewrite lookup_delete_eq.
    rewrite (bool_decide_eq_false_2 (is_Some None)) by (intros [? ?]; discriminate).
    split; [reflexivity|].
    case_bool_decide as Hs.
    + rewrite job_path_entry by exact Hplain.
      destruct Hs as [f Hf]. cbn. rewrite Hf. reflexivity.
    + apply eq_None_not_Some in Hs. rewrite Hs. reflexivity.
  - intros other Hne.
    apply (getJobDefinition_other_remove w dir name other Hne).
  - intros other Hne Hs'.
    apply (getJobDefinition_other_remove w dir name other).
    intros d. apply other_name_other_place; assumption.
Qed.

Lemma deleteJob_removes_the_file_in_force_witness :
  let w := {| jobs_local := {[ "nightly" := Doc (YMap [("retries", YNum 2)]) ]};
              jobs_shared := {[ "nightly" := Doc (YMap [("retries", YNum 0)]) ]};
              script_dir := ["opt"; "claude-runner"];
              elsewhere := fun _ => None; syncs := 0 |} in
  let '(r, w') := deleteJob None ∅ w "nightly" in
  r = succeeded /\
  syncs w' = S (syncs w) /\
  read_job w' LocalDir "nightly" = None /\
  (LocalDir = SharedDir -> getJobDefinition w' "nightly" = None /\
                           jobs_local w' = jobs_local w) /\
  (LocalDir = LocalDir ->
     jobs_shared w' = jobs_shared w /\
     resolveJobFile w' "nightly" =
       (if bool_decide (is_Some (jobs_shared w !! "nightly"))
        then Some SharedDir else None) /\
     getJobDefinition w' "nightly" =
       match jobs_shared w !! "nightly" with
       | Some (Doc v) => Some v
       | _ => None
       end) /\
  (forall other,
     (forall d, place_of w (joined w d other) <> Entry LocalDir "nightly") ->
     getJobDefinition w' other = getJobDefinition w other) /\
  (forall other, other <> "nightly" -> contains "/" other = false ->
     getJobDefinition w' other = getJobDefinition w other).
Proof.
  intros w.
  apply (deleteJob_removes_the_file_in_force ∅ w "nightly" LocalDir);
    [reflexivity | reflexivity | set_solver].
Defined.

(** [deleteJob] changes nothing when it fails: a name that is not well
    formed or has no file, a job whose lock directory exists, or a file
    that cannot be unlinked; in each case an error is reported. *)
Theorem deleteJob_refusals (unlink_error : option string) (locks : gset string)
    (w : JobFiles) (name : string) :
  let '(r, w') := deleteJob unlink_error locks w name in
  (ok r = true <->
     validateJobName name = true /\ is_Some (resolveJobFile w name) /\
     (name ∉ locks) /\ unlink_error = None) /\
  (ok r = false -> w' = w /\ is_Some (error r)).
Proof.
  unfold deleteJob. destruct (validateJobName name) eqn:Hv; simpl.
  2:{ repeat split; eauto; try discriminate. intros (? & _). discriminate. }
  rewrite (valid_name_is_no_path name Hv).
  destruct (resolveJobFile w name) as [dir|] eqn:Hr.
  2:{ repeat split; eauto; try discriminate. intros (_ & [? ?] & _). discriminate. }
  case_bool_decide as Hl.
  { repeat split; eauto; try discriminate. intros (_ & _ & ? & _). contradiction. }
  destruct unlink_error as [m|].
  { repeat split; eauto; try discriminate. intros (_ & _ & _ & ?). discriminate. }
  simpl. repeat split; eauto; discriminate.
Qed.

End JobFilesCrud.

(** ** Listing and describing jobs *)

Section JobListing.

Import Text Jobs JobsCrud.

Lemma set_add_elem (names : list string) (f x : string) :
  x ∈ set_add names f <-> x ∈ names \/ x = f.
Proof.
  unfold set_add. case_bool_decide as H.
  - split; [auto|]. intros [?| ->]; assumption.
  - rewrite elem_of_app, list_elem_of_singleton. reflexivity.
Qed.

Lemma set_add_NoDup (names : list string) (f : string) :
  NoDup names -> NoDup (set_add names f).
Proof.
  intros Hnd. unfold set_add. case_bool_decide as H; [exact Hnd|].
  apply NoDup_app. split; [exact Hnd|]. split.
  - intros x Hx Hf. apply list_elem_of_singleton in Hf. subst. contradiction.
  - apply NoDup_singleton.
Qed.

Lemma foldl_set_add (l acc : list string) :
  (NoDup acc -> NoDup (foldl set_add acc l)) /\
  (forall x, x ∈ foldl set_add acc l <-> x ∈ acc \/ x ∈ l).
Proof.
  revert acc. induction l as [|f l IH]; intros acc; simpl.
  - split; [auto|]. intros x. split; [auto|]. intros [?|H]; [assumption|inversion H].
  - destruct (IH (set_add acc f)) as [Hnd Hin]. split.
    + intros H. apply Hnd, set_add_NoDup, H.
    + intros x. rewrite Hin, set_add_elem, elem_of_cons. tauto.
Qed.

Lemma yaml_names_elem (dir : gmap string yaml_file) (x : string) :
  x ∈ yaml_names dir <-> is_Some (dir !! x).
Proof.
  unfold yaml_names. rewrite list_elem_of_fmap. split.
  - intros ([k f] & -> & H). apply elem_of_map_to_list in H. eauto.
  - intros [f H]. exists (x, f). split; [reflexivity|].
    apply elem_of_map_to_list. exact H.
Qed.

(** [listJobs] names every job that has a file in [jobs/] or in
    [jobs.local/], each once even when both directories define it, and
    nothing else: a name without a [/] is listed exactly when [jobExists]
    accepts it for a trigger and [resolveJobFile] finds its file. The two
    join the name to the directory, so that they accept [./name] (and
    any other path to the file) whenever they accept [name]. *)
Theorem listJobs_lists_what_exists (w : Runner.World) :
  let jobs := Runner.job_files w in
  NoDup (listJobs jobs) /\
  (forall name,
     contains "/" name = false ->
     (name ∈ listJobs jobs <-> RunnerLib.jobExists w name = true) /\
     (name ∈ listJobs jobs <-> is_Some (resolveJobFile jobs name))) /\
  (forall name,
     RunnerLib.jobExists w ("./" +:+ name) = RunnerLib.jobExists w name /\
     resolveJobFile jobs ("./" +:+ name) = resolveJobFile jobs name).
Proof.
  intros jobs. unfold listJobs.
  destruct (foldl_set_add (yaml_names (jobs_shared jobs)) []) as [Hnd1 Hin1].
  destruct (foldl_set_add (yaml_names (jobs_local jobs))
              (foldl set_add [] (yaml_names (jobs_shared jobs)))) as [Hnd2 Hin2].
  split; [apply Hnd2, Hnd1, NoDup_nil_2|].
  split; [|intros name; split; reflexivity].
  intros name Hplain.
  assert (Hmem : name ∈ foldl set_add (foldl set_add [] (yaml_names (jobs_shared jobs)))
                          (yaml_names (jobs_local jobs)) <->
                 is_Some (jobs_local jobs !! name) \/ is_Some (jobs_shared jobs !! name)).
  { rewrite Hin2, Hin1, !yaml_names_elem. split.
    - intros [[H|H]|H]; [inversion H|auto|auto].
    - intros [H|H]; auto. }
  split; rewrite Hmem.
  - unfold RunnerLib.jobExists. fold jobs.
    rewrite !job_path_entry by exact Hplain.
    rewrite orb_true_iff, !bool_decide_eq_true.
    reflexivity.
  - rewrite resolve_entry by exact Hplain.
    repeat case_bool_decide; split; eauto.
    intros [?|?]; contradiction.
    intros [? ?]. discriminate.
Qed.

(** With the one file [jobs/nightly.yaml], the names [./nightly] and
    [../jobs/nightly] are accepted for a trigger and are not listed. *)
Lemma accepted_and_not_listed :
  let jobs := {| jobs_local := ∅;
                 jobs_shared := {[ "nightly" := Doc (YMap [("retries", YNum 2)]) ]};
                 script_dir := ["opt"; "claude-runner"];
                 elsewhere := fun _ => None; syncs := 0 |} in
  let w := {| Runner.job_files := jobs; Runner.state := Some [];
              Runner.lock_dirs := ∅; Runner.pid_files := ∅; Runner.logs := ∅ |} in
  listJobs jobs = ["nightly"] /\
  RunnerLib.jobExists w "./nightly" = true /\
  RunnerLib.jobExists w "../jobs/nightly" = true /\
  resolveJobFile jobs "../jobs/nightly" = Some LocalDir /\
  RunnerLib.jobExists w "../nightly" = false.
Proof. repeat split; vm_compute; reflexivity. Qed.

Lemma obj_get_set_other (k k' : string) (v : yval) (o : object) :
  k <> k' -> obj_get k (obj_set k' v o) = obj_get k o.
Proof.
  intros Hne. induction o as [|[a x] o IH]; simpl.
  - destruct (String.eqb_spec k' k); [congruence|reflexivity].
  - destruct (String.eqb_spec a k') as [->|Ha]; simpl.
    + destruct (String.eqb_spec k' k); [congruence|reflexivity].
    + destruct (String.eqb_spec a k); [reflexivity|exact IH].
Qed.

Lemma obj_get_delete_other (k k' : string) (o : object) :
  k <> k' -> obj_get k (obj_delete k' o) = obj_get k o.
Proof.
  intros Hne. induction o as [|[a x] o IH]; simpl; [reflexivity|].
  destruct (String.eqb_spec a k') as [->|Ha]; simpl.
  - destruct (String.eqb_spec k' k); [congruence|exact IH].
  - destruct (String.eqb_spec a k); [reflexivity|exact IH].
Qed.

(** Toggling a job whose definition is a mapping flips the [enabled]
    flag that [getJobInfo] reports, the answer of [toggleJob] is the flag
    reported afterwards, and nothing else in the description changes. *)
Theorem toggleJob_flips_what_getJobInfo_reports (locks : gset string)
    (w : JobFiles) (name : string) (dir : job_dir) (parsed : object) :
  validateJobName name = true ->
  resolveJobFile w name = Some dir ->
  read_job w dir name = Some (Doc (YMap parsed)) ->
  let '(r, w') := toggleJob w name in
  exists info info',
    getJobInfo locks w name = Some info /\
    getJobInfo locks w' name = Some info' /\
    Jobs.enabled r = Some (enabled info') /\
    enabled info' = negb (enabled info) /\
    info' = {| name := name; schedule := schedule info; workdir := workdir info;
               retries := retries info; timeout := timeout info;
               notify := notify info; enabled := negb (enabled info);
               isRunning := isRunning info |}.
Proof.
  intros Hv Hr Hread. rewrite (toggleJob_mapping w name dir parsed Hv Hr Hread).
  cbv beta iota zeta.
  match goal with
  | |- context [write_job w dir name (Doc (YMap ?p))] => set (parsed' := p)
  end.
  destruct (resolve_after_write w name dir (Doc (YMap parsed'))
              (valid_name_no_slash name Hv) Hr) as [Hr' Hread'].
  unfold getJobInfo, getJobDefinition. rewrite Hr, Hread, Hr', Hread'. simpl.
  eexists _, _. split; [reflexivity|]. split; [reflexivity|].
  assert (Hother : forall k, k <> "enabled" -> obj_get k parsed' = obj_get k parsed).
  { intros k Hk. unfold parsed'. destruct (enabled_not_false parsed);
      [apply obj_get_set_other | apply obj_get_delete_other]; exact Hk. }
  assert (Hen : member_not_false (YMap parsed') "enabled"
                = negb (member_not_false (YMap parsed) "enabled")).
  { unfold member_not_false, member, parsed', enabled_not_false.
    destruct (obj_get "enabled" parsed) as [[| [|] | | | |]|] eqn:E;
      rewrite ?obj_get_set_same, ?obj_get_delete_same; reflexivity. }
  assert (Hold : member_not_false (YMap parsed) "enabled" = enabled_not_false parsed).
  { reflexivity. }
  cbn [enabled Jobs.enabled schedule workdir retries timeout notify isRunning].
  rewrite Hen, Hold. split; [reflexivity|].
  split; [reflexivity|].
  unfold member_or_null, member_not_false, member.
  rewrite !Hother by discriminate. reflexivity.
Qed.

Lemma toggleJob_flips_what_getJobInfo_reports_witness :
  let w := {| jobs_local := ∅;
              jobs_shared := {[ "nightly" := Doc (YMap [("schedule", YStr "0 7 * * *")]) ]};
              script_dir := ["opt"; "claude-runner"];
              elsewhere := fun _ => None; syncs := 0 |} in
  let '(r, w') := toggleJob w "nightly" in
  exists info info',
    getJobInfo ∅ w "nightly" = Some info /\
    getJobInfo ∅ w' "nightly" = Some info' /\
    Jobs.enabled r = Some (enabled info') /\
    enabled info' = negb (enabled info) /\
    info' = {| name := "nightly"; schedule := schedule info; workdir := workdir info;
               retries := retries info; timeout := timeout info;
               notify := notify info; enabled := negb (enabled info);
               isRunning := isRunning info |}.
Proof.
  intros w.
  apply (toggleJob_flips_what_getJobInfo_reports ∅ w "nightly" SharedDir
           [("schedule", YStr "0 7 * * *")]); reflexivity.
Defined.

End JobListing.

(** ** The answers of [DELETE /api/jobs/:name] *)

Section DeleteRoute.

Import Text Jobs JobsCrud.

Lemma not_found_after_prefix (pre rest : string) :
  contains "not found" (pre +:+ ("not found" +:+ rest)) = true.
Proof.
  induction pre as [|c pre IH].
  - rewrite append_empty. destruct rest; reflexivity.
  - rewrite append_cons. cbn [contains]. rewrite IH. apply orb_true_r.
Qed.

Lemma not_found_needs_a_blank (s : string) :
  all_chars job_name_char s = true ->
  starts_with "not found" (s +:+ "' is currently running. Kill it first.") = false.
Proof.
  intros H.
  destruct s as [|c1 [|c2 [|c3 [|c4 s]]]];
    rewrite ?append_cons, ?append_empty; cbn [starts_with];
    try (rewrite ?andb_false_r; reflexivity).
  simpl in H. repeat (apply andb_true_iff in H as [? H]).
  destruct (Ascii.eqb_spec " " c4) as [<-|_]; [discriminate|].
  destruct (Ascii.eqb "n" c1), (Ascii.eqb "o" c2), (Ascii.eqb "t" c3); reflexivity.
Qed.

Lemma not_found_not_in_running_message (s : string) :
  all_chars job_name_char s = true ->
  contains "not found" (s +:+ "' is currently running. Kill it first.") = false.
Proof.
  induction s as [|c s IH]; intros H.
  - vm_compute. reflexivity.
  - pose proof (not_found_needs_a_blank (String c s) H) as Hs.
    simpl in H. apply andb_true_iff in H as [_ H].
    rewrite append_cons in *. cbn [contains]. rewrite Hs, (IH H). reflexivity.
Qed.

(** [DELETE /api/jobs/:name] answers 400 for a name that is not well
    formed, 404 for a well-formed name without a file, 400 (never 404)
    for a job whose lock directory exists, and 200 when the file was
    removed; whenever the answer is not 200 the job files are unchanged. *)
Theorem delete_route_answers (unlink_error : option string) (locks : gset string)
    (w : JobFiles) (name : string) :
  let '(code, message, w') := delete_route unlink_error locks w name in
  (validateJobName name = false -> code = 400) /\
  (validateJobName name = true -> resolveJobFile w name = None -> code = 404) /\
  (validateJobName name = true -> is_Some (resolveJobFile w name) ->
     name ∈ locks -> code = 400) /\
  (validateJobName name = true -> is_Some (resolveJobFile w name) ->
     name ∉ locks -> unlink_error = None ->
     code = 200 /\ resolveJobFile w' name <> resolveJobFile w name) /\
  (code <> 200 -> w' = w).
Proof.
  unfold delete_route, deleteJob.
  destruct (validateJobName name) eqn:Hv; simpl.
  2:{ repeat split; auto; try discriminate. }
  rewrite (valid_name_is_no_path name Hv).
  destruct (resolveJobFile w name) as [dir|] eqn:Hr.
  2:{ simpl. repeat split; auto; try discriminate;
        intros; match goal with H : is_Some None |- _ => destruct H; discriminate end. }
  case_bool_decide as Hl.
  { assert (Hc : contains "not found"
              ("Job '" +:+ name +:+ "' is currently running. Kill it first.") = false).
    { unfold validateJobName in Hv. apply andb_true_iff in Hv as [_ Hv].
      pose proof (not_found_not_in_running_message name Hv) as H.
      rewrite !append_cons, append_empty. cbn [contains starts_with].
      simpl. exact H. }
    unfold failed. cbn [ok error]. cbv beta iota zeta.
    cbn [default from_option id]. rewrite Hc.
    repeat split; auto; try discriminate; try contradiction. }
  destruct unlink_error as [m|]; simpl.
  { destruct (contains "not found" ("Failed to delete: " +:+ m));
      repeat split; auto; try discriminate; try contradiction. }
  repeat split; auto; try discriminate; try contradiction.
  intros E. pose proof (resolve_read _ _ _ E) as [f Hf].
  unfold read_job in Hf.
  rewrite job_path_entry in Hf by (apply valid_name_no_slash, Hv).
  destruct dir; simpl in Hf; rewrite lookup_delete_eq in Hf; discriminate.
Qed.

End DeleteRoute.

(** ** The lock of [runner.sh] *)

Section RunnerLock.

Import Text State Jobs Runner.

(** The job name an invocation runs under, when it gets as far as the
    lock. *)
Lemma runner_reaches_lock (fuel : nat) (w : World) (inv : Invocation)
    (out : Outcome) :
  runner fuel w inv = Some out ->
  (out = {| exit_status := exit_status out; world := w; trace := [] |} /\
   (exit_status out = 0 \/ exit_status out = 1)) \/
  exists JOB_NAME JOB_RETRIES,
    locked_run fuel w inv JOB_NAME JOB_RETRIES = Some out /\
    match args inv with
    | arg1 :: _ => JOB_NAME = if String.eqb arg1 "--prompt" then "adhoc" else arg1
    | [] => False
    end.
Proof.
  unfold runner, stop. destruct (args inv) as [|arg1 rest].
  { intros [= <-]. left. simpl. auto. }
  destruct (String.eqb arg1 "--prompt").
  { intros H. right. eauto. }
  destruct (find_job_file w arg1) as [[|doc]|].
  - intros [= <-]. left. simpl. auto.
  - destruct (String.eqb _ "false").
    + intros [= <-]. left. simpl. auto.
    + intros H. right. eauto.
  - intros [= <-]. left. simpl. auto.
Qed.

(** An invocation that gets as far as the lock and finds the lock
    directory of its job taken (["adhoc"] for every [--prompt] run, so
    that ad-hoc prompts exclude each other) exits with status 2: it
    executes nothing and leaves the store, the locks, the pid files and
    the job files as they are. *)
Theorem second_run_of_a_locked_job_backs_off (fuel : nat) (w : World)
    (inv : Invocation) (arg1 : string) (rest : list string) :
  args inv = arg1 :: rest ->
  (String.eqb arg1 "--prompt" = false ->
     exists doc, find_job_file w arg1 = Some (Doc doc) /\
                 JOB_ENABLED doc <> "false") ->
  (if String.eqb arg1 "--prompt" then "adhoc" else arg1) ∈ lock_dirs w ->
  exists out,
    runner fuel w inv = Some out /\
    exit_status out = 2 /\ trace out = [] /\
    state (world out) = state w /\
    lock_dirs (world out) = lock_dirs w /\
    pid_files (world out) = pid_files w /\
    job_files (world out) = job_files w.
Proof.
  intros Hargs Hjob Hl. unfold runner. rewrite Hargs.
  destruct (String.eqb arg1 "--prompt") eqn:Hp.
  - unfold locked_run. rewrite bool_decide_eq_true_2 by exact Hl.
    eexists. split; [reflexivity|]. repeat split.
  - destruct (Hjob eq_refl) as (doc & -> & Hen).
    destruct (String.eqb_spec (JOB_ENABLED doc) "false") as [?|_];
      [contradiction|].
    unfold locked_run. rewrite bool_decide_eq_true_2 by exact Hl.
    eexists. split; [reflexivity|]. repeat split.
Qed.

Lemma second_run_of_a_locked_job_backs_off_witness :
  let w := {| job_files := {| jobs_local := ∅; jobs_shared := ∅;
                              script_dir := ["opt"; "claude-runner"];
                              elsewhere := fun _ => None; syncs := 0 |};
              state := Some []; lock_dirs := {[ "adhoc" ]}; pid_files := ∅;
              logs := ∅ |} in
  let t := {| Clock.year := 2025; Clock.month := 3; Clock.day := 9;
              Clock.hours := 7; Clock.minutes := 5; Clock.seconds := 0;
              Clock.millis := 0 |} in
  let inv := {| args := ["--prompt"; "hello"]; started_local := t; started_utc := t;
                ended_utc := t; shell_pid := 1;
                payload := {| exit_of := fun _ => 0; output_of := fun _ => "" |} |} in
  exists out,
    runner 1 w inv = Some out /\
    exit_status out = 2 /\ trace out = [] /\
    state (world out) = state w /\
    lock_dirs (world out) = lock_dirs w /\
    pid_files (world out) = pid_files w /\
    job_files (world out) = job_files w.
Proof.
  intros w t inv.
  apply (second_run_of_a_locked_job_backs_off 1 w inv "--prompt" ["hello"]).
  - reflexivity.
  - discriminate.
  - simpl. set_solver.
Defined.

(** Every invocation that comes to an end leaves the lock directories
    exactly as it found them (the lock it took is removed on the way
    out, a lock it found is not touched), leaves no pid file that was not
    there, and never writes a job file. *)
Theorem runner_leaves_the_locks_as_found (fuel : nat) (w : World)
    (inv : Invocation) (out : Outcome) :
  runner fuel w inv = Some out ->
  lock_dirs (world out) = lock_dirs w /\
  (forall j, pid_files (world out) !! j = pid_files w !! j \/
             pid_files (world out) !! j = None) /\
  job_files (world out) = job_files w.
Proof.
  intros H. destruct (runner_reaches_lock fuel w inv out H)
    as [[-> _]|(JOB_NAME & JOB_RETRIES & Hrun & _)].
  { simpl. auto. }
  clear H. unfold locked_run in Hrun.
  case_bool_decide as Hl.
  { injection Hrun as <-. simpl. auto. }
  destruct (retry_loop _ _ _ _ _) as [s|]; [|discriminate].
  injection Hrun as <-. simpl. split; [|split; [|reflexivity]].
  - apply set_eq. intros x. rewrite elem_of_difference, elem_of_singleton.
    split; [tauto|]. intros Hx. split; [exact Hx|]. intros ->. contradiction.
  - intros j. destruct (decide (j = JOB_NAME)) as [->|Hne].
    + right. apply lookup_delete_eq.
    + left. apply lookup_delete_ne. congruence.
Qed.

Lemma runner_leaves_the_locks_as_found_witness :
  let w := {| job_files := {| jobs_local := ∅; jobs_shared := ∅;
                              script_dir := ["opt"; "claude-runner"];
                              elsewhere := fun _ => None; syncs := 0 |};
              state := Some []; lock_dirs := ∅; pid_files := ∅; logs := ∅ |} in
  let t := {| Clock.year := 2025; Clock.month := 3; Clock.day := 9;
              Clock.hours := 7; Clock.minutes := 5; Clock.seconds := 0;
              Clock.millis := 0 |} in
  let inv := {| args := ["--prompt"; "hello"]; started_local := t; started_utc := t;
                ended_utc := t; shell_pid := 1;
                payload := {| exit_of := fun _ => 0; output_of := fun _ => "" |} |} in
  exists out,
    runner 1 w inv = Some out /\
    lock_dirs (world out) = lock_dirs w /\
    (forall j, pid_files (world out) !! j = pid_files w !! j \/
               pid_files (world out) !! j = None) /\
    job_files (world out) = job_files w.
Proof.
  intros w t inv. eexists. split; [reflexivity|].
  apply (runner_leaves_the_locks_as_found 1 w inv). reflexivity.
Defined.

End RunnerLock.

(** ** Retries below zero, and jobs the API reports as paused *)

Section RunnerEdges.

Import Text State Jobs Runner.











End RunnerEdges.

(** ** What the writers of the store leave in it *)

Section SettledStore.

Import Text State Runner RunnerLib RunsApi.

Lemma keep_last_100_Forall (P : RunRecord -> Prop) (runs : list RunRecord) :
  Forall P runs -> Forall P (keep_last_100 runs).
Proof.
  intros H. unfold keep_last_100. destruct (_ <? _)%nat; [|exact H].
  apply Forall_drop. exact H.
Qed.

Lemma updateRun_Forall (P : RunRecord -> Prop) (st : store) (id : string)
    (u : Updates) :
  (forall r, P r -> P (assign r u)) ->
  Forall P (getRecentRuns st) ->
  Forall P (getRecentRuns (updateRun st id u).2).
Proof.
  intros Hu H. unfold updateRun. destruct st as [runs|]; [|exact H].
  destruct (findIndex (has_id id) runs) as [idx|]; [|exact H].
  destruct (runs !! idx) as [run|] eqn:E; [|exact H].
  simpl in *. apply Forall_insert; [exact H|].
  apply Hu. eapply Forall_lookup_1; eauto.
Qed.

Lemma mark_killed_Forall (P : RunRecord -> Prop) (now : string)
    (stale : list RunRecord) (st : store) :
  (forall r, P r -> P (assign r (killed_update now))) ->
  Forall P (getRecentRuns st) ->
  Forall P (getRecentRuns (mark_killed now stale st)).
Proof.
  intros Hu. revert st. induction stale as [|x stale IH]; intros st H; simpl.
  - exact H.
  - apply IH. apply updateRun_Forall; assumption.
Qed.

(** The three writers of [state.json] keep it settled: if every record
    has either a status other than the empty one, ["success"] and
    ["failed"], or no status and an exit code, then so has every record
    after [runner.sh] pushed its [running] entry, after it wrote its
    final entry, and after [killJob]. The final entry itself has no
    status, so that the listing and [clearRuns] take it for a success
    exactly when its exit code is 0 and for a failure otherwise. *)
Theorem writers_keep_the_store_settled (st : store) :
  Forall (fun r => settled r = true) (getRecentRuns st) ->
  (forall id job start log,
     Forall (fun r => settled r = true)
       (getRecentRuns (write_running_entry st id job start log))) /\
  (forall id job start stop code att log,
     Forall (fun r => settled r = true)
       (getRecentRuns (final_update st id job start stop code att log)) /\
     let e := final_entry id job start stop code att log in
     status_filter "success" e = (code =? 0) /\
     status_filter "failed" e = negb (code =? 0) /\
     derived_status e = (if code =? 0 then "success" else "failed") /\
     is_running e = false) /\
  (forall os w jobName now,
     Runner.state w = st ->
     Forall (fun r => settled r = true)
       (getRecentRuns (Runner.state (killJob os w jobName now).1.2))).
Proof.
  intros H. split; [|split].
  - intros id job start log. unfold write_running_entry. cbn [getRecentRuns].
    apply keep_last_100_Forall, Forall_app. split; [exact H|].
    apply Forall_singleton. reflexivity.
  - intros id job start stop code att log. split.
    + unfold final_update. cbn [getRecentRuns]. apply keep_last_100_Forall.
      destruct (findIndex _ _) as [idx|].
      * apply Forall_insert; [exact H|]. reflexivity.
      * apply Forall_app. split; [exact H|]. apply Forall_singleton. reflexivity.
    + cbv zeta. unfold status_filter, derived_status, is_running, no_status,
        final_entry. cbn [status exitCode String.eqb Ascii.eqb Bool.eqb].
      destruct (Z.eqb_spec code 0) as [->|Hc].
      * rewrite !bool_decide_eq_true_2 by (reflexivity || discriminate).
        rewrite bool_decide_eq_false_2 by discriminate. auto.
      * rewrite !(bool_decide_eq_false_2 (Some code = Some 0)) by congruence.
        rewrite bool_decide_eq_true_2 by discriminate.
        rewrite bool_decide_eq_false_2 by discriminate. auto.
  - intros os w jobName now <-.
    assert (Hrec : forall w0, Runner.state w0 = Runner.state w ->
              Forall (fun r => settled r = true)
                (getRecentRuns (Runner.state (reconcile w0 jobName now).2))).
    { intros w0 E. unfold reconcile. rewrite E.
      destruct (filter _ _) as [|x l] eqn:Ef; cbn [snd Runner.state];
        rewrite ?E; [exact H|].
      apply mark_killed_Forall; [|exact H].
      intros r _. reflexivity. }
    unfold killJob.
    destruct (Runner.pid_files w !! jobName) as [content|].
    + destruct (read_pid content) as [|pid|q]; [exact H| |exact H].
      destruct (os (- pid)); try exact H.
      * specialize (Hrec (remove_lock w jobName) eq_refl).
        destruct (reconcile (remove_lock w jobName) jobName now). exact Hrec.
      * specialize (Hrec (remove_lock w jobName) eq_refl).
        destruct (reconcile (remove_lock w jobName) jobName now). exact Hrec.
    + specialize (Hrec w eq_refl).
      destruct (reconcile w jobName now). exact Hrec.
Qed.

(** A store of a finished and a running record: it is settled, and it
    stays so when a run is pushed, when the run that is under way
    finishes, and when its job is killed, which rewrites the running
    record. *)
Lemma writers_keep_the_store_settled_witness :
  let finished := {| runId := "b-20250309-080000"; jobName := "b";
                     startedAt := "2025-03-09T08:00:00Z";
                     completedAt := Some "2025-03-09T08:01:00Z";
                     exitCode := Some 1; attempts := Some 3; status := None;
                     logFile := "/tmp/b.log" |} in
  let running := {| runId := "a-20250309-090000"; jobName := "a";
                    startedAt := "2025-03-09T09:00:00Z";
                    completedAt := None; exitCode := None; attempts := None;
                    status := Some "running"; logFile := "/tmp/a.log" |} in
  let st := Some [finished; running] in
  let w := {| Runner.job_files :=
                {| Jobs.jobs_local := ∅; Jobs.jobs_shared := ∅;
                   Jobs.script_dir := ["opt"; "claude-runner"];
                   Jobs.elsewhere := fun _ => None; Jobs.syncs := 0 |};
              Runner.state := st; Runner.lock_dirs := {[ "a" ]};
              Runner.pid_files := {[ "a" := pid_file_content 4242 ]};
              Runner.logs := ∅ |} in
  Forall (fun r => settled r = true)
    (getRecentRuns (write_running_entry st "c-20250309-100000" "c"
                      "2025-03-09T10:00:00Z" "/tmp/c.log")) /\
  Forall (fun r => settled r = true)
    (getRecentRuns (final_update st "a-20250309-090000" "a"
                      "2025-03-09T09:00:00Z" "2025-03-09T09:02:00Z" 0 1
                      "/tmp/a.log")) /\
  Forall (fun r => settled r = true)
    (getRecentRuns (Runner.state (killJob (fun _ => ESRCH) w "a"
                                    "2025-03-09T09:01:00Z").1.2)) /\
  getRecentRuns (Runner.state (killJob (fun _ => ESRCH) w "a"
                                 "2025-03-09T09:01:00Z").1.2) =
    [finished;
     {| runId := "a-20250309-090000"; jobName := "a";
        startedAt := "2025-03-09T09:00:00Z";
        completedAt := Some "2025-03-09T09:01:00Z"; exitCode := Some 137;
        attempts := None; status := Some "killed"; logFile := "/tmp/a.log" |}].
Proof.
  intros finished running st w.
  assert (Hst : Forall (fun r => settled r = true) (getRecentRuns st))
    by (repeat constructor).
  destruct (writers_keep_the_store_settled st Hst) as (H1 & H2 & H3).
  split; [apply H1|]. split; [apply H2|].
  split; [apply (H3 (fun _ => ESRCH) w); reflexivity|].
  vm_compute. reflexivity.
Defined.

End SettledStore.

(** ** Killing a job *)

Section KillAgain.

Import Text State RunnerLib RunsApi.

Lemma force_killed_ids (now jobName : string) (runs : list RunRecord) :
  runId <$> force_killed now jobName runs = runId <$> runs.
Proof.
  unfold force_killed. rewrite <- list_fmap_compose.
  apply list_fmap_ext. intros _ r _. simpl. destruct (is_stale jobName r); reflexivity.
Qed.

Lemma force_killed_none_stale (now jobName : string) (runs : list RunRecord) :
  existsb (is_stale jobName) (force_killed now jobName runs) = false.
Proof.
  induction runs as [|r runs IH]; [reflexivity|].
  unfold force_killed in *. rewrite fmap_cons. cbn [existsb]. rewrite IH.
  rewrite orb_false_r. destruct (is_stale jobName r) eqn:E; [|exact E].
  unfold is_stale, is_running, assign, killed_update. cbn.
  rewrite (bool_decide_eq_false_2 (Some "killed" = Some "running")) by discriminate.
  apply andb_false_r.
Qed.

Lemma reconcile_after_success (w : Runner.World) (jobName now now' : string) :
  NoDup (runId <$> getRecentRuns (Runner.state w)) ->
  killed (reconcile w jobName now).1 = true ->
  Runner.pid_files w !! jobName = None ->
  forall os,
    killJob os (reconcile w jobName now).2 jobName now' =
    ({| killed := false; kill_error := Some "No running process found" |},
     (reconcile w jobName now).2, []).
Proof.
  intros Hnd Hk Hpid os. pose proof (reconcile_spec w jobName now Hnd) as Hs.
  destruct (has_stale w jobName); rewrite Hs in Hk |- *; [|discriminate].
  cbn [fst snd]. unfold killJob. cbn [Runner.pid_files]. rewrite Hpid.
  match goal with |- context [reconcile ?w1 jobName now'] =>
    pose proof (reconcile_spec w1 jobName now') as Hs2 end.
  cbn [Runner.state getRecentRuns] in Hs2.
  rewrite force_killed_ids in Hs2. specialize (Hs2 Hnd).
  unfold has_stale in Hs2. cbn [Runner.state getRecentRuns] in Hs2.
  rewrite force_killed_none_stale in Hs2. rewrite Hs2. reflexivity.
Qed.

Lemma killJob_success (os : Z -> kill_outcome) (w : Runner.World)
    (jobName now : string) :
  killed (killJob os w jobName now).1.1 = true ->
  exists w0,
    Runner.state w0 = Runner.state w /\
    Runner.pid_files w0 !! jobName = None /\
    (killJob os w jobName now).1 = reconcile w0 jobName now.
Proof.
  unfold killJob.
  destruct (Runner.pid_files w !! jobName) as [content|] eqn:Ep.
  - destruct (read_pid content) as [|pid|q]; [discriminate| |discriminate].
    destruct (os (- pid)); try discriminate; intros Hk;
      exists (remove_lock w jobName);
      (split; [reflexivity|]); (split; [apply lookup_delete_eq|]);
      destruct (reconcile (remove_lock w jobName) jobName now); reflexivity.
  - intros Hk. exists w. split; [reflexivity|]. split; [exact Ep|].
    destruct (reconcile w jobName now); reflexivity.
Qed.

(** With distinct run ids in the store: after a kill that succeeded, a
    second kill of the same job finds neither a pid file nor a running
    record, sends no signal, changes nothing, and the route answers 404
    ["No running process found"]. *)
Theorem killing_a_killed_job_again (os os' : Z -> kill_outcome)
    (w : Runner.World) (jobName now now' : string) :
  NoDup (runId <$> getRecentRuns (Runner.state w)) ->
  killed (killJob os w jobName now).1.1 = true ->
  let w' := (killJob os w jobName now).1.2 in
  killJob os' w' jobName now' =
    ({| killed := false; kill_error := Some "No running process found" |}, w', []) /\
  kill os' w' jobName now' = (Routes.Error 404 "No running process found", w').
Proof.
  intros Hnd Hk w'.
  assert (H : killJob os' w' jobName now' =
              ({| killed := false; kill_error := Some "No running process found" |},
               w', [])).
  { subst w'. destruct (killJob_success os w jobName now Hk) as (w0 & Hst & Hp & E).
    rewrite E in Hk |- *. rewrite <- Hst in Hnd.
    apply reconcile_after_success; assumption. }
  split; [exact H|]. unfold kill. rewrite H. reflexivity.
Qed.

Lemma killing_a_killed_job_again_witness :
  let run := {| runId := "a-1"; jobName := "a"; startedAt := "t0";
                completedAt := None; exitCode := None; attempts := None;
                status := Some "running"; logFile := "a.log" |} in
  let w := {| Runner.job_files :=
                {| Jobs.jobs_local := ∅; Jobs.jobs_shared := ∅;
                   Jobs.script_dir := ["opt"; "claude-runner"];
                   Jobs.elsewhere := fun _ => None; Jobs.syncs := 0 |};
              Runner.state := Some [run]; Runner.lock_dirs := ∅;
              Runner.pid_files := ∅; Runner.logs := ∅ |} in
  let w' := (killJob (fun _ => Delivered) w "a" "t1").1.2 in
  killJob (fun _ => Delivered) w' "a" "t2" =
    ({| killed := false; kill_error := Some "No running process found" |}, w', []) /\
  kill (fun _ => Delivered) w' "a" "t2" =
    (Routes.Error 404 "No running process found", w').
Proof.
  intros run w.
  apply (killing_a_killed_job_again (fun _ => Delivered) (fun _ => Delivered)
           w "a" "t1" "t2").
  - simpl. apply NoDup_singleton.
  - reflexivity.
Defined.

(** The pid file that [runner.sh] writes is read back by [killJob] as
    the same number (a process id is far below [2^53]): for a lock held
    by the shell with process id [pid], [SIGTERM] goes to the process
    group [-pid] and to nothing else. *)
Theorem kill_signals_the_group_of_the_recorded_pid (os : Z -> kill_outcome)
    (w : Runner.World) (jobName now : string) (pid : Z) :
  0 < pid < 2 ^ 53 ->
  Runner.pid_files w !! jobName = Some (pid_file_content pid) ->
  read_pid (pid_file_content pid) = Number.Int pid /\
  (killJob os w jobName now).2 = [- pid].
Proof.
  intros Hpid Hfile.
  assert (Hp : read_pid (pid_file_content pid) = Number.Int pid).
  { destruct (string_of_Z_nonneg pid) as [Hd Hv]; [lia|].
    unfold read_pid, pid_file_content.
    rewrite utf8_decode_wellformed.
    - rewrite js_trim_numeral_line by exact Hd.
      rewrite parseInt_digits by exact Hd. rewrite Hv.
      apply of_integer_small. lia.
    - apply ascii_is_utf8. rewrite all_chars_app. cbn [all_chars].
      rewrite ?andb_true_r.
      unfold all_digits in Hd. apply andb_true_iff in Hd as [_ Hall].
      eapply all_chars_impl; [|exact Hall]. intros c Hc.
      pose proof (digit_code c Hc). apply Z.leb_le. lia. }
  split; [exact Hp|].
  unfold killJob. rewrite Hfile, Hp.
  destruct (os (- pid)); try reflexivity;
    destruct (reconcile (remove_lock w jobName) jobName now); reflexivity.
Qed.

Lemma kill_signals_the_group_of_the_recorded_pid_witness :
  let w := {| Runner.job_files :=
                {| Jobs.jobs_local := ∅; Jobs.jobs_shared := ∅;
                   Jobs.script_dir := ["opt"; "claude-runner"];
                   Jobs.elsewhere := fun _ => None; Jobs.syncs := 0 |};
              Runner.state := Some []; Runner.lock_dirs := {[ "a" ]};
              Runner.pid_files := {[ "a" := pid_file_content 4242 ]};
              Runner.logs := ∅ |} in
  read_pid (pid_file_content 4242) = Number.Int 4242 /\
  (killJob (fun _ => ESRCH) w "a" "t1").2 = [- 4242].
Proof.
  intros w.
  apply (kill_signals_the_group_of_the_recorded_pid (fun _ => ESRCH) w "a" "t1" 4242).
  - lia.
  - reflexivity.
Defined.

End KillAgain.

(** ** What is answered with 401 *)

Section Unauthorized.

Import Server.

(** A request is answered with 401 exactly when its path is under
    [/api], its method is not [OPTIONS], a secret is enforced and the
    request does not carry it. The middleware runs before every route
    under [/api], so this includes [GET /api/health] and
    [POST /api/schedule/sync]; an [OPTIONS] request under [/api] is
    answered 204 by [cors()] before the middleware, with or without the
    secret; a path outside [/api] (the web interface) is never answered
    with 401. The secret is whatever the configuration holds under
    [auth_token], a string or not. *)
Theorem unauthorized_exactly_under_api (auth_token : option Jobs.yval)
    (req : Request) :
  (serve auth_token req = Rejected401 <->
     under_api (path req) = true /\
     method req <> "OPTIONS" /\
     enforced (AUTH_TOKEN auth_token) = true /\
     carries (AUTH_TOKEN auth_token) req = false) /\
  (under_api (path req) = false -> serve auth_token req = Static) /\
  (under_api (path req) = true -> method req = "OPTIONS" ->
   serve auth_token req = Preflight204) /\
  (enforced (AUTH_TOKEN auth_token) = true ->
   forall m, m <> "OPTIONS" ->
     serve auth_token {| method := m; path := "/api/health";
                         authorization := None; query_token := None |}
     = Rejected401).
Proof.
  split; [|split; [|split]].
  - unfold serve. destruct (under_api (path req)).
    + destruct (String.eqb_spec (method req) "OPTIONS") as [Hm|Hm].
      { split; [discriminate|]. intros (_ & ? & _). contradiction. }
      rewrite <- auth_middleware_spec.
      destruct (auth_middleware (AUTH_TOKEN auth_token) req).
      * split; [|intros (_ & _ & ?); discriminate].
        repeat match goal with |- context [if ?b then _ else _] => destruct b end;
          discriminate.
      * split; auto.
    + split; [discriminate | intros [? _]; discriminate].
  - intros H. unfold serve. rewrite H. reflexivity.
  - intros H Hm. unfold serve. rewrite H, Hm. reflexivity.
  - intros H m Hm. unfold serve. cbn [path under_api method].
    change (String.eqb "/api/health" "/api" || Text.starts_with "/api/" "/api/health")
      with true. cbv iota.
    destruct (String.eqb_spec m "OPTIONS") as [?|_]; [contradiction|].
    assert (auth_middleware (AUTH_TOKEN auth_token)
              {| method := m; path := "/api/health";
                 authorization := None; query_token := None |} = Unauthorized) as ->.
    { apply auth_middleware_spec. split; [exact H|].
      unfold carries. cbn [authorization query_token].
      rewrite bool_decide_eq_false_2 by discriminate.
      destruct (AUTH_TOKEN auth_token); reflexivity. }
    reflexivity.
Qed.

(** With the secret [s3cret] enforced: a request for the runs without it
    is answered 401, the same request as [OPTIONS] is answered 204, and
    a numeric secret is accepted in the header and never in the query. *)
Lemma unauthorized_examples :
  let bare := {| method := "GET"; path := "/api/runs";
                 authorization := None; query_token := None |} in
  let preflight := {| method := "OPTIONS"; path := "/api/runs";
                      authorization := None; query_token := None |} in
  let by_query := {| method := "GET"; path := "/api/runs";
                     authorization := None; query_token := Some "12345" |} in
  let by_header := {| method := "GET"; path := "/api/runs";
                      authorization := Some "Bearer 12345"; query_token := None |} in
  serve (Some (Jobs.YStr "s3cret")) bare = Rejected401 /\
  serve (Some (Jobs.YStr "s3cret")) preflight = Preflight204 /\
  serve (Some (Jobs.YNum 12345)) by_query = Rejected401 /\
  serve (Some (Jobs.YNum 12345)) by_header = RunsRoute /\
  serve (Some (Jobs.YStr "12345")) by_query = RunsRoute.
Proof. repeat split; vm_compute; reflexivity. Qed.

End Unauthorized.

(** ** The environment handed to a spawned runner *)

Section SpawnEnvironment.

Import Text JobsCrud Spawn.

Lemma split_all_pieces (d : ascii) (s : string) :
  Forall (fun w => all_chars (fun c => negb (Ascii.eqb c d)) w = true)
    (split_all d s).
Proof.
  induction s as [|c s IH]; simpl.
  - constructor; [reflexivity|constructor].
  - destruct (Ascii.eqb c d) eqn:E.
    + constructor; [reflexivity|exact IH].
    + destruct (split_all d s) as [|w ws]; [repeat constructor; simpl; rewrite E; reflexivity|].
      inversion IH; subst. constructor; [|assumption].
      simpl. rewrite E. simpl. assumption.
Qed.

Lemma split_all_nonempty (d : ascii) (s : string) : split_all d s <> [].
Proof.
  destruct s as [|c s]; simpl; [discriminate|].
  destruct (Ascii.eqb c d); [discriminate|].
  destruct (split_all d s); discriminate.
Qed.

Lemma split_all_app (d : ascii) (x r : string) :
  all_chars (fun c => negb (Ascii.eqb c d)) x = true ->
  split_all d (x +:+ String d r) = x :: split_all d r.
Proof.
  induction x as [|c x IH]; intros H.
  - rewrite append_empty. simpl. rewrite Ascii.eqb_refl. reflexivity.
  - simpl in H. apply andb_true_iff in H as [Hc Hx].
    apply negb_true_iff in Hc. rewrite append_cons. simpl.
    rewrite Hc, IH by exact Hx. reflexivity.
Qed.

Lemma split_join (l : list string) :
  l <> [] ->
  Forall (fun w => all_chars no_colon w = true) l ->
  split_all ":" (join ":" l) = l.
Proof.
  induction l as [|x l IH]; intros Hne H; [contradiction|].
  inversion H as [|? ? Hx Hl]; subst.
  destruct l as [|y l].
  - simpl. apply split_all_plain. exact Hx.
  - change (join ":" (x :: y :: l)) with (x +:+ ":" +:+ join ":" (y :: l)).
    change (":" +:+ join ":" (y :: l)) with (String ":" (join ":" (y :: l))).
    rewrite split_all_app by exact Hx.
    rewrite IH; [reflexivity | discriminate | exact Hl].
Qed.

Lemma foldl_set_add_prefix (l acc : list string) :
  exists rest, foldl set_add acc l = acc ++ rest.
Proof.
  revert acc. induction l as [|f l IH]; intros acc; simpl.
  - exists []. rewrite app_nil_r. reflexivity.
  - destruct (IH (set_add acc f)) as [rest Hr]. rewrite Hr.
    unfold set_add. case_bool_decide.
    + eauto.
    + exists ([f] ++ rest). rewrite app_assoc. reflexivity.
Qed.

(** The environment [spawnJob] gives to [runner.sh]: [CLAUDECODE] is not
    in it, every other variable but [PATH] is passed on as it is, and
    [PATH] lists [/opt/homebrew/bin] first, no directory twice, and every
    directory of the server's [PATH] (of [/usr/bin:/bin] when that is
    unset or empty); when [HOME] has no colon in it, the directories of
    the new [PATH] are exactly these entries. *)
Theorem spawned_runner_environment (env : gmap string string) :
  let HOME := env !! "HOME" in
  let PATH := env !! "PATH" in
  let child := spawn_env env in
  child !! "CLAUDECODE" = None /\
  (forall k, k <> "PATH" -> k <> "CLAUDECODE" -> child !! k = env !! k) /\
  child !! "PATH" = Some (fullPath HOME PATH) /\
  NoDup (path_entries HOME PATH) /\
  (exists rest, path_entries HOME PATH = "/opt/homebrew/bin" :: rest) /\
  (forall d, d ∈ split_all ":" (currentPath PATH) -> d ∈ path_entries HOME PATH) /\
  (all_chars no_colon (template HOME) = true ->
   split_all ":" (fullPath HOME PATH) = path_entries HOME PATH).
Proof.
  intros HOME PATH child. unfold child, spawn_env. cbv zeta.
  assert (Hpath : delete "CLAUDECODE" env !! "PATH" = PATH)
    by (apply lookup_delete_ne; discriminate).
  rewrite Hpath. fold HOME.
  destruct (foldl_set_add (extraPaths HOME ++ split_all ":" (currentPath PATH)) [])
    as [Hnd Hin].
  split; [|split; [|split; [|split; [|split; [|split]]]]].
  - rewrite lookup_insert_ne by discriminate. apply lookup_delete_eq.
  - intros k Hk1 Hk2. rewrite lookup_insert_ne by congruence.
    apply lookup_delete_ne. congruence.
  - apply lookup_insert_eq.
  - apply Hnd, NoDup_nil_2.
  - unfold path_entries, extraPaths. cbn [app foldl].
    destruct (foldl_set_add_prefix
                (["/usr/local/bin"; template HOME +:+ "/.bun/bin";
                  template HOME +:+ "/.local/bin"] ++ split_all ":" (currentPath PATH))
                (set_add [] "/opt/homebrew/bin")) as [rest Hr].
    exists rest. exact Hr.
  - intros d Hd. apply Hin. right. apply elem_of_app. right. exact Hd.
  - intros Hh. unfold fullPath. apply split_join.
    + destruct (foldl_set_add_prefix
                  (["/usr/local/bin"; template HOME +:+ "/.bun/bin";
                    template HOME +:+ "/.local/bin"] ++ split_all ":" (currentPath PATH))
                  (set_add [] "/opt/homebrew/bin")) as [rest Hr].
      unfold path_entries, extraPaths. cbn [app foldl].
      cbn [app foldl] in Hr. rewrite Hr. discriminate.
    + apply Forall_forall. intros d Hd. apply Hin in Hd as [Hd|Hd]; [inversion Hd|].
      apply elem_of_app in Hd as [Hd|Hd].
      * unfold extraPaths in Hd.
        repeat (apply elem_of_cons in Hd as [->|Hd]);
          try reflexivity; try (rewrite all_chars_app, Hh; reflexivity).
        inversion Hd.
      * pose proof (split_all_pieces ":" (currentPath PATH)) as Hp.
        rewrite Forall_forall in Hp. apply Hp. exact Hd.
Qed.

End SpawnEnvironment.

(** ** Tailing a log *)

Section LogTail.

Import Text Logs.

Lemma take_skip (n : nat) (s : string) : take n s +:+ skip n s = s.
Proof.
  revert s. induction n as [|n IH]; intros s.
  - destruct s; rewrite append_empty; reflexivity.
  - destruct s as [|c s]; [reflexivity|]. simpl. rewrite append_cons, IH. reflexivity.
Qed.

Lemma skip_append (a b : string) : skip (String.length a) (a +:+ b) = b.
Proof.
  induction a as [|c a IH]; [rewrite append_empty; destruct b; reflexivity|].
  rewrite append_cons. simpl. exact IH.
Qed.

Lemma skip_skip (n m : nat) (s : string) : skip n (skip m s) = skip (m + n) s.
Proof.
  revert s. induction m as [|m IH]; intros s.
  - destruct s; reflexivity.
  - destruct s as [|c s]; simpl; [destruct n; reflexivity | apply IH].
Qed.

Lemma length_skip (n : nat) (s : string) :
  String.length (skip n s) = (String.length s - n)%nat.
Proof.
  revert s. induction n as [|n IH]; intros s.
  - destruct s; simpl; lia.
  - destruct s as [|c s]; simpl; [reflexivity | apply IH].
Qed.

(** Reading a log from an offset inside it, when the bytes from there on
    are well-formed UTF-8, returns the text from there to the end and
    the size as the next offset, so that the bytes before the offset and
    the content make up the file. A second read at the returned offset,
    after the file has grown by well-formed UTF-8, returns exactly what
    was appended: nothing is delivered twice and nothing is skipped. *)
Theorem log_is_tailed_without_gaps (old appended : string) (offset : Z) :
  0 <= offset <= Z.of_nat (String.length old) ->
  utf8 (skip (Z.to_nat offset) old) = true ->
  utf8 appended = true ->
  exists content next,
    getLogContentFromOffset (Some old) offset = Some (content, next) /\
    take (Z.to_nat offset) old +:+ content = old /\
    next = Z.of_nat (String.length old) /\
    getLogContentFromOffset (Some (old +:+ appended)) next =
      Some (appended, Z.of_nat (String.length (old +:+ appended))).
Proof.
  intros Ho Hold Happ.
  assert (Hsecond :
    getLogContentFromOffset (Some (old +:+ appended))
      (Z.of_nat (String.length old))
    = Some (appended, Z.of_nat (String.length (old +:+ appended)))).
  { unfold getLogContentFromOffset, subarray. rewrite length_append.
    destruct (Z.leb_spec (Z.of_nat (String.length old + String.length appended))
                (Z.of_nat (String.length old))) as [Hle|Hgt].
    - assert (String.length appended = 0%nat) by lia.
      destruct appended; [|discriminate]. simpl. rewrite Nat.add_0_r. reflexivity.
    - destruct (Z.ltb_spec (Z.of_nat (String.length old)) 0) as [?|_]; [lia|].
      rewrite Z.min_l by lia. rewrite Nat2Z.id, skip_append.
      rewrite utf8_decode_wellformed by exact Happ. reflexivity. }
  unfold getLogContentFromOffset at 1. unfold subarray.
  destruct (Z.leb_spec (Z.of_nat (String.length old)) offset) as [Hle|Hgt].
  - assert (offset = Z.of_nat (String.length old)) as -> by lia.
    exists "", (Z.of_nat (String.length old)).
    split; [reflexivity|]. split; [|split; [reflexivity|exact Hsecond]].
    clear Hold Hsecond. rewrite Nat2Z.id.
    rewrite <- (take_skip (String.length old) old) at 3.
    f_equal. pose proof (length_skip (String.length old) old) as Hl.
    rewrite Nat.sub_diag in Hl.
    destruct (skip (String.length old) old); [reflexivity|discriminate].
  - destruct (Z.ltb_spec offset 0) as [?|_]; [lia|].
    rewrite Z.min_l by lia.
    rewrite utf8_decode_wellformed by exact Hold.
    eexists _, _. split; [reflexivity|].
    split; [apply take_skip|]. split; [reflexivity|exact Hsecond].
Qed.

Lemma log_is_tailed_without_gaps_witness :
  exists content next,
    getLogContentFromOffset (Some "first line") 6 = Some (content, next) /\
    take (Z.to_nat 6) "first line" +:+ content = "first line" /\
    next = Z.of_nat (String.length "first line") /\
    getLogContentFromOffset (Some ("first line" +:+ ", more")) next =
      Some (", more", Z.of_nat (String.length ("first line" +:+ ", more"))).
Proof.
  apply (log_is_tailed_without_gaps "first line" ", more" 6);
    [simpl; lia | reflexivity | reflexivity].
Defined.

(** A character whose bytes are written in two parts and read in
    between is lost: the two bytes of U+00E9 come out as two U+FFFD. *)
Lemma split_character_is_replaced :
  let e1 := String (ascii_of_nat 195) "" in
  let e2 := String (ascii_of_nat 169) "" in
  getLogContentFromOffset (Some ("caf" +:+ e1)) 0 = Some ("caf" +:+ replacement, 4) /\
  getLogContentFromOffset (Some ("caf" +:+ e1 +:+ e2)) 4 = Some (replacement, 5) /\
  getLogContentFromOffset (Some ("caf" +:+ e1 +:+ e2)) 0 =
    Some ("caf" +:+ e1 +:+ e2, 5).
Proof. repeat split; vm_compute; reflexivity. Qed.

End LogTail.

(** ** The jobs [setup.sh] schedules and the jobs the API describes *)

Section SetupSchedule.

Import Text Jobs JobsCrud Setup.






End SetupSchedule.

(** ** Ad-hoc prompts *)

Section AdhocRun.

Import Text State Jobs Runner.

(** [POST /api/runs/adhoc] with a non-empty prompt starts
    [runner.sh --prompt <prompt>], and that invocation, when no ad-hoc
    run holds the lock, executes the command exactly once whatever its
    exit status: an ad-hoc prompt is never retried. The run is recorded
    under the job name ["adhoc"] with [attempts: 1] and the command's
    exit status, which is also the script's. *)
Theorem adhoc_prompt_runs_exactly_once (fuel : nat) (w : World)
    (inv : Invocation) (now : Clock.DateTime) (prompt : string) :
  prompt <> "" ->
  args inv = RunnerLib.spawn_args prompt true ->
  "adhoc" ∉ lock_dirs w ->
  (forall r, r ∈ getRecentRuns (state w) ->
             runId r <> RUN_ID "adhoc" (started_local inv)) ->
  (0 < fuel)%nat ->
  let id := RUN_ID "adhoc" (started_local inv) in
  let start := Clock.date_utc (started_utc inv) in
  let stop := Clock.date_utc (ended_utc inv) in
  let code := exit_of (payload inv) 1 in
  (Routes.adhoc now prompt).2 = Some (args inv) /\
  exists out older,
    runner fuel w inv = Some out /\
    trace out = [Exec 1 code] /\
    exit_status out = code /\
    state (world out) =
      Some (older ++ [final_entry id "adhoc" start stop code 1 (LOG_FILE id)]).
Proof.
  intros Hp Hargs Hlock Hfresh Hfuel id start stop code.
  split.
  { unfold Routes.adhoc. destruct (String.eqb_spec prompt "") as [?|_];
      [contradiction|]. rewrite Hargs. reflexivity. }
  set (s0 := say "INFO" "Workdir"
               (say "INFO" ("Starting job " +:+ "adhoc" +:+ " (run: " +:+ id +:+ ")")
                  {| ATTEMPT := 0; EXIT_CODE := 1;
                     log_file := default [] (logs w !! LOG_FILE id);
                     events := [] |})).
  destruct (retry_loop_from (payload inv) "adhoc" "0" 0 eq_refl eq_refl
              eq_refl fuel s0)
    as (s' & added & Hrun & Hat & Hnz & Hend & Hex & Hev & Hlog & Hout);
    [cbn; lia | cbn; lia |].
  cbn [s0 say ATTEMPT events log_file] in Hat, Hnz, Hev, Hlog, Hout.
  assert (Ha : ATTEMPT s' = 1) by lia.
  destruct (final_update_overwrites (state w) id "adhoc" start stop (LOG_FILE id)
              (EXIT_CODE s') (ATTEMPT s') Hfresh) as (older & Hw & Hf).
  eexists _, older. split.
  { unfold runner. rewrite Hargs. unfold RunnerLib.spawn_args.
    change (String.eqb "--prompt" "--prompt") with true. cbv iota.
    unfold locked_run. rewrite bool_decide_eq_false_2 by exact Hlock.
    fold id. fold start. fold stop. fold s0. rewrite Hrun. reflexivity. }
  cbn [trace exit_status world state].
  split.
  { rewrite Hev, Ha. unfold attempts_with_backoff. reflexivity. }
  split; [rewrite Hex, Ha; reflexivity|].
  rewrite Hf, Hex, Ha. reflexivity.
Qed.

Lemma adhoc_prompt_runs_exactly_once_witness :
  let w := {| job_files := {| jobs_local := ∅; jobs_shared := ∅;
                              script_dir := ["opt"; "claude-runner"];
                              elsewhere := fun _ => None; syncs := 0 |};
              state := Some []; lock_dirs := ∅; pid_files := ∅; logs := ∅ |} in
  let t := {| Clock.year := 2025; Clock.month := 3; Clock.day := 9;
              Clock.hours := 7; Clock.minutes := 5; Clock.seconds := 0;
              Clock.millis := 0 |} in
  let inv := {| args := ["--prompt"; "say hello"]; started_local := t;
                started_utc := t; ended_utc := t; shell_pid := 1;
                payload := {| exit_of := fun _ => 3; output_of := fun _ => "" |} |} in
  exists out,
    runner 1 w inv = Some out /\ trace out = [Exec 1 3] /\ exit_status out = 3.
Proof.
  intros w t inv.
  assert (H1 : "say hello" <> "") by discriminate.
  assert (H2 : args inv = RunnerLib.spawn_args "say hello" true) by reflexivity.
  assert (H3 : "adhoc" ∉ lock_dirs w) by (simpl; set_solver).
  assert (H4 : forall r, r ∈ getRecentRuns (state w) ->
                 runId r <> RUN_ID "adhoc" (started_local inv))
    by (intros r Hr; simpl in Hr; inversion Hr).
  assert (H5 : (0 < 1)%nat) by lia.
  destruct (adhoc_prompt_runs_exactly_once 1 w inv t "say hello" H1 H2 H3 H4 H5)
    as (_ & out & older & Hrun & Htr & Hex & _).
  exists out. auto.
Defined.

End AdhocRun.

(** ** The values of fully expanded expressions *)

Section CronValues.

Import Text Cron CronDomain.

Lemma canonical_small (i : Z) : 0 <= i <= 59 -> canonical (string_of_Z i) = true.
Proof.
  apply (forallb_upto (fun i => canonical (string_of_Z i)) 59).
  vm_compute. reflexivity.
Qed.

Lemma number_in_small (lo hi i : Z) :
  0 <= lo -> hi <= 59 -> lo <= i <= hi -> number_in lo hi (string_of_Z i) = true.
Proof.
  intros Hlo Hhi Hi. unfold number_in.
  rewrite canonical_small by lia.
  destruct (string_of_Z_nonneg i) as [_ ->]; [lia|].
  apply andb_true_iff. split; [apply andb_true_iff; split; [reflexivity|]|];
    apply Z.leb_le; lia.
Qed.

Lemma number_in_word (lo hi : Z) (s : string) :
  number_in lo hi s = true ->
  all_chars (fun c => negb (is_blank c)) s = true /\ s <> "".
Proof. apply number_in_chars. apply digit_not_blank'. Qed.

Lemma step_loop_words (P : string -> Prop) (fuel : nat) (i max k : Z)
    (vals e : string) :
  1 <= k <= 60 -> 0 <= i -> max <= 60 ->
  (forall j, 0 <= j < max -> P (string_of_Z j)) ->
  Forall P (words vals) ->
  step_loop fuel i max (Some k) vals = Some e ->
  Forall P (words e).
Proof.
  intros Hk Hi Hmax HP. revert i vals Hi.
  induction fuel as [|fuel IH]; intros i vals Hi Hv; simpl.
  - destruct (Z.ltb_spec i max); [discriminate|]. intros [= <-]. exact Hv.
  - destruct (Z.ltb_spec i max); [|intros [= <-]; exact Hv].
    rewrite wrap64_small by lia. apply IH; [lia|].
    rewrite words_snoc_number by lia. apply Forall_app. split; [exact Hv|].
    apply Forall_singleton. apply HP. lia.
Qed.

Lemma range_loop_words (P : string -> Prop) (fuel : nat) (i lo end_ : Z)
    (result e : string) :
  0 <= lo <= i -> end_ <= 60 ->
  (forall j, lo <= j <= end_ -> P (string_of_Z j)) ->
  Forall P (words result) ->
  range_loop fuel i end_ result = Some e ->
  Forall P (words e).
Proof.
  intros Hi Hend HP. revert i result Hi.
  induction fuel as [|fuel IH]; intros i result Hi Hv; simpl.
  - destruct (Z.leb_spec i end_); [discriminate|]. intros [= <-]. exact Hv.
  - destruct (Z.leb_spec i end_); [|intros [= <-]; exact Hv].
    rewrite wrap64_small by lia. apply IH; [lia|].
    rewrite words_snoc_number by lia. apply Forall_app. split; [exact Hv|].
    apply Forall_singleton. apply HP. lia.
Qed.

Lemma number_in_all_digits (lo hi : Z) (s : string) :
  number_in lo hi s = true -> all_digits s = true.
Proof.
  unfold number_in, canonical. intros H.
  apply andb_true_iff in H as [H _]. apply andb_true_iff in H as [H _].
  apply andb_true_iff in H as [H _]. exact H.
Qed.

Lemma plain_part_words (lo hi : Z) (fuel : nat) (part result e : string) :
  0 <= lo -> hi <= 59 ->
  plain_part lo hi part = true ->
  Forall (fun w => number_in lo hi w = true) (words result) ->
  expand_part fuel part result = Some e ->
  Forall (fun w => number_in lo hi w = true) (words e).
Proof.
  intros Hlo Hhi Hp Hv. unfold expand_part, range_part. unfold plain_part in Hp.
  destruct (split_first "-" part) as [[a b]|] eqn:E.
  - apply andb_true_iff in Hp as [Ha Hb].
    rewrite (number_in_all_digits _ _ _ Ha), (number_in_all_digits _ _ _ Hb).
    cbn [andb].
    destruct (number_in_value lo hi a Hlo Hhi Ha) as (-> & Hra & _).
    destruct (number_in_value lo hi b Hlo Hhi Hb) as (-> & Hrb & _).
    apply (range_loop_words _ fuel (dec_value a) lo); [lia | lia | | exact Hv].
    intros j Hj. apply number_in_small; lia.
  - intros [= <-]. destruct (number_in_word lo hi part Hp) as [Hw Hne].
    rewrite words_snoc by assumption. apply Forall_app. split; [exact Hv|].
    apply Forall_singleton. exact Hp.
Qed.

Lemma plain_parts_words (lo hi : Z) (fuel : nat) (parts : list string)
    (result e : string) :
  0 <= lo -> hi <= 59 ->
  Forall (fun p => plain_part lo hi p = true) parts ->
  Forall (fun w => number_in lo hi w = true) (words result) ->
  expand_parts fuel parts result = Some e ->
  Forall (fun w => number_in lo hi w = true) (words e).
Proof.
  intros Hlo Hhi Hp. revert result.
  induction Hp as [|part parts Hpart _ IH]; intros result Hv; simpl.
  - intros [= <-]. exact Hv.
  - destruct (expand_part fuel part result) as [r|] eqn:E; [|discriminate].
    apply IH. eapply plain_part_words; eauto.
Qed.

Lemma plain_part_valid (lo hi : Z) (part : string) :
  plain_part lo hi part = true -> canonical_part lo hi part = true.
Proof.
  unfold plain_part, canonical_part.
  destruct (split_first "-" part) as [[a b]|]; [|auto].
  intros H. apply andb_true_iff in H as [Ha Hb]. rewrite Ha, Hb. reflexivity.
Qed.

Lemma plain_field_valid (lo hi : Z) (field : string) :
  plain_field lo hi field = true -> canonical_field lo hi field = true.
Proof.
  unfold plain_field, canonical_field.
  destruct (String.eqb field "*"); [auto|].
  destruct (starts_with "*/" field).
  - intros H. apply andb_true_iff in H as [_ H]. exact H.
  - intros H. rewrite forallb_forall in H |- *.
    intros p Hp. apply plain_part_valid, H, Hp.
Qed.

(** The expansion of a plain field is the placeholder for [*] and holds
    numbers of the domain otherwise. *)
Lemma plain_field_words (lo hi : Z) (fuel : nat) (field e : string) :
  0 <= lo -> hi <= 59 ->
  plain_field lo hi field = true ->
  expand_field fuel field (hi + 1) = Some e ->
  e = "*" \/ Forall (fun w => number_in lo hi w = true) (words e).
Proof.
  intros Hlo Hhi Hp. pose proof (plain_field_valid lo hi field Hp) as Hv.
  unfold expand_field. unfold plain_field in Hp. unfold canonical_field in Hv.
  destruct (String.eqb field "*"); [intros [= <-]; auto|].
  unfold star_step. destruct (starts_with "*/" field).
  - apply andb_true_iff in Hp as [Hz Hn]. apply Z.eqb_eq in Hz. subst lo.
    rewrite (number_in_all_digits _ _ _ Hn). cbn [andb].
    destruct (number_in_value 1 hi (skip 2 field) ltac:(lia) Hhi Hn)
      as (-> & Hr & _).
    intros Hrun. right.
    apply (step_loop_words _ fuel 0 (hi + 1) (dec_value (skip 2 field)) "" e);
      [lia | lia | lia | | constructor | exact Hrun].
    intros j Hj. apply number_in_small; lia.
  - cbn [andb]. rewrite (read_parts_valid lo hi field Hv). intros Hrun. right.
    apply (plain_parts_words lo hi fuel (split_all "," field) "" e);
      [assumption | assumption | | constructor | exact Hrun].
    apply Forall_forall. intros p Hin.
    rewrite forallb_forall in Hp. apply Hp, list_elem_of_In, Hin.
Qed.

(** *** Reading the values back from the lines *)

Lemma ivl_fuel (n : nat) (s : string) :
  (String.length s <= n)%nat ->
  integer_values_of_line n s = integer_values_of_line (String.length s) s.
Proof.
  revert n. induction s as [|c s IH]; intros n Hn.
  - destruct n; reflexivity.
  - destruct n as [|n]; [simpl in Hn; lia|].
    cbn [String.length integer_values_of_line].
    rewrite (IH n) by (simpl in Hn; lia). reflexivity.
Qed.

Lemma ivl_cons (c : ascii) (s : string) :
  integer_values_of_line (String.length (String c s)) (String c s) =
  (if starts_with "<integer>" (String c s)
   then [until_lt (skip 9 (String c s))] else []) ++
  integer_values_of_line (String.length s) s.
Proof.
  cbn [String.length integer_values_of_line].
  destruct (starts_with "<integer>" (String c s)); reflexivity.
Qed.

Lemma ivl_no_lt (s1 s2 : string) :
  all_chars no_lt s1 = true ->
  integer_values_of_line (String.length (s1 +:+ s2)) (s1 +:+ s2) =
  integer_values_of_line (String.length s2) s2.
Proof.
  induction s1 as [|c s1 IH]; intros H; [rewrite append_empty; reflexivity|].
  simpl in H. apply andb_true_iff in H as [Hc Hs].
  rewrite append_cons, ivl_cons, starts_with_lt_no_lt by exact Hc.
  apply IH. exact Hs.
Qed.

Lemma ivl_lt_other (c : ascii) (s : string) :
  Ascii.eqb "i" c = false ->
  integer_values_of_line (String.length (String "<" (String c s)))
    (String "<" (String c s)) =
  integer_values_of_line (String.length (String c s)) (String c s).
Proof.
  intros Hc. rewrite ivl_cons. cbn [starts_with]. rewrite Hc.
  rewrite andb_false_r. reflexivity.
Qed.

Lemma until_lt_value (v rest : string) :
  all_chars no_lt v = true -> until_lt (v +:+ String "<" rest) = v.
Proof.
  induction v as [|c v IH]; intros H; [reflexivity|].
  simpl in H. apply andb_true_iff in H as [Hc Hv].
  rewrite append_cons. cbn [until_lt]. unfold no_lt in Hc.
  apply negb_true_iff in Hc. rewrite Hc, IH by exact Hv. reflexivity.
Qed.

(** The text of a key line, with its indentation. *)
Lemma key_line_text (indent key v : string) :
  indent +:+ "<key>" +:+ key +:+ "</key><integer>" +:+ v +:+ "</integer>" =
  indent +:+ String "<" (("key>" +:+ key) +:+
    String "<" ("/key>" +:+
      String "<" (("integer>" +:+ v) +:+ String "<" "/integer>"))).
Proof.
  rewrite !append_assoc'. rewrite ?append_cons, ?append_empty. reflexivity.
Qed.

Lemma ivl_key_line (indent key v : string) :
  all_chars no_lt indent = true -> all_chars no_lt key = true ->
  all_chars no_lt v = true ->
  let line := indent +:+ "<key>" +:+ key +:+ "</key><integer>" +:+ v +:+ "</integer>" in
  integer_values_of_line (String.length line) line = [v].
Proof.
  intros Hi Hk Hv line. unfold line. rewrite key_line_text.
  rewrite ivl_no_lt by exact Hi.
  assert (Hkey : exists c r, "key>" +:+ key = String c r /\ Ascii.eqb "i" c = false)
    by (eexists _, _; split; [rewrite append_cons; reflexivity | reflexivity]).
  destruct Hkey as (c & r & Ek & Hc).
  assert (Hkn : all_chars no_lt ("key>" +:+ key) = true)
    by (rewrite all_chars_app, Hk; reflexivity).
  rewrite Ek in *. rewrite (append_cons c r).
  rewrite ivl_lt_other by exact Hc. rewrite <- (append_cons c r).
  rewrite ivl_no_lt by exact Hkn.
  change ("/key>" +:+ String "<" (("integer>" +:+ v) +:+ String "<" "/integer>"))
    with (String "/" ("key>" +:+ String "<" (("integer>" +:+ v) +:+ String "<" "/integer>"))).
  rewrite ivl_lt_other by reflexivity.
  change (String "/" ("key>" +:+ String "<" (("integer>" +:+ v) +:+ String "<" "/integer>")))
    with ("/key>" +:+ String "<" (("integer>" +:+ v) +:+ String "<" "/integer>")).
  rewrite ivl_no_lt by reflexivity.
  rewrite ivl_cons.
  assert (Hs : starts_with "<integer>"
                 (String "<" (("integer>" +:+ v) +:+ String "<" "/integer>")) = true).
  { rewrite append_assoc'. rewrite ?append_cons, ?append_empty. reflexivity. }
  rewrite Hs.
  assert (Hskip : skip 9 (String "<" (("integer>" +:+ v) +:+ String "<" "/integer>"))
                  = v +:+ String "<" "/integer>").
  { rewrite append_assoc'. rewrite ?append_cons, ?append_empty. reflexivity. }
  rewrite Hskip, until_lt_value by exact Hv.
  assert (Hin : all_chars no_lt ("integer>" +:+ v) = true)
    by (rewrite all_chars_app, Hv; reflexivity).
  rewrite ivl_no_lt by exact Hin.
  reflexivity.
Qed.

Lemma ivl_sed_unindent (line : string) :
  integer_values_of_line (String.length (sed_unindent line)) (sed_unindent line) =
  integer_values_of_line (String.length line) line.
Proof.
  unfold sed_unindent. destruct (starts_with "      " line) eqn:E; [|reflexivity].
  rewrite (starts_with_skip _ _ E) at 3 4. cbn [String.length].
  rewrite (ivl_no_lt "    ") by reflexivity.
  rewrite (ivl_no_lt "      ") by reflexivity. reflexivity.
Qed.

Lemma existsb_false_elem (q : string -> bool) (l : list string) (x : string) :
  existsb q l = false -> x ∈ l -> q x = false.
Proof.
  intros H Hx. apply list_elem_of_In in Hx.
  destruct (q x) eqn:E; [|reflexivity].
  assert (existsb q l = true) by (apply existsb_exists; eauto). congruence.
Qed.

Lemma key_in_keys (key : string) :
  key ∈ keys ->
  key = "Minute" \/ key = "Hour" \/ key = "Day" \/ key = "Month" \/ key = "Weekday".
Proof.
  unfold keys. rewrite !elem_of_cons. intros [?|[?|[?|[?|[?|H]]]]]; auto 10.
  inversion H.
Qed.

Lemma key_line_elem (K x line : string) :
  line ∈ key_line K x ->
  x <> "*" /\
  line = "        " +:+ "<key>" +:+ K +:+ "</key><integer>" +:+ x +:+ "</integer>".
Proof.
  unfold key_line. destruct (String.eqb_spec x "*") as [->|Hne].
  - intros H. inversion H.
  - intros H. apply list_elem_of_singleton in H. subst line. split; [exact Hne|].
    reflexivity.
Qed.

(** A line of a dictionary that carries the tag of a key is the line of
    that key, with the word of its field. *)
Lemma dict_line_with_key (key m h d mo dw line : string) :
  key ∈ keys ->
  all_chars no_lt m = true -> all_chars no_lt h = true ->
  all_chars no_lt d = true -> all_chars no_lt mo = true ->
  all_chars no_lt dw = true ->
  line ∈ dict_lines m h d mo dw ->
  contains (key_tag key) line = true ->
  exists v,
    line = "        " +:+ "<key>" +:+ key +:+ "</key><integer>" +:+ v +:+ "</integer>" /\
    v <> "*" /\
    ((key = "Minute" /\ v = m) \/ (key = "Hour" /\ v = h) \/
     (key = "Day" /\ v = d) \/ (key = "Month" /\ v = mo) \/
     (key = "Weekday" /\ v = dw)).
Proof.
  intros Hk Hm Hh Hd Hmo Hdw Hin Hc.
  assert (Hother : forall K x, K ∈ keys -> all_chars no_lt x = true ->
            line ∈ key_line K x ->
            K = key /\ x <> "*" /\
            line = "        " +:+ "<key>" +:+ K +:+ "</key><integer>" +:+ x +:+ "</integer>").
  { intros K x HK Hx Hl. destruct (String.eqb_spec K key) as [E|E].
    - split; [exact E|]. apply key_line_elem. exact Hl.
    - pose proof (key_line_other_key K key x HK Hk E Hx) as Hno.
      rewrite (existsb_false_elem _ _ _ Hno Hl) in Hc. discriminate. }
  assert (Hfix : forall l0, (l0 = "      <dict>" \/ l0 = "      </dict>") ->
            contains (key_tag key) l0 = false).
  { intros l0 Hl0. destruct (key_in_keys key Hk) as [->|[->|[->|[->| ->]]]];
      destruct Hl0 as [-> | ->]; reflexivity. }
  unfold dict_lines in Hin. rewrite !elem_of_app in Hin.
  assert (HK : forall K, K ∈ ["Minute"; "Hour"; "Day"; "Month"; "Weekday"] -> K ∈ keys)
    by (intros K HKin; exact HKin).
  destruct Hin as [Hin|[Hin|[Hin|[Hin|[Hin|[Hin|Hin]]]]]].
  - apply list_elem_of_singleton in Hin. rewrite (Hfix line) in Hc by auto. discriminate.
  - destruct (Hother "Minute" m) as (<- & Hne & ->); [unfold keys; rewrite !elem_of_cons; auto 10 | auto..].
    exists m. auto 10.
  - destruct (Hother "Hour" h) as (<- & Hne & ->); [unfold keys; rewrite !elem_of_cons; auto 10 | auto..].
    exists h. auto 10.
  - destruct (Hother "Day" d) as (<- & Hne & ->); [unfold keys; rewrite !elem_of_cons; auto 10 | auto..].
    exists d. auto 10.
  - destruct (Hother "Month" mo) as (<- & Hne & ->); [unfold keys; rewrite !elem_of_cons; auto 10 | auto..].
    exists mo. auto 10.
  - destruct (Hother "Weekday" dw) as (<- & Hne & ->); [unfold keys; rewrite !elem_of_cons; auto 10 | auto..].
    exists dw. auto 10.
  - apply list_elem_of_singleton in Hin. rewrite (Hfix line) in Hc by auto. discriminate.
Qed.

Lemma expansion_words_no_lt (lo hi : Z) (e w : string) :
  e = "*" \/ Forall (fun w => number_in lo hi w = true) (words e) ->
  w ∈ words e -> all_chars no_lt w = true.
Proof.
  intros [->|H] Hw.
  - rewrite words_star in Hw. apply list_elem_of_singleton in Hw. subst. reflexivity.
  - rewrite Forall_forall in H. apply (number_in_no_lt lo hi), H, Hw.
Qed.

Lemma expansion_word_in_domain (lo hi : Z) (e w : string) :
  e = "*" \/ Forall (fun w => number_in lo hi w = true) (words e) ->
  w ∈ words e -> w <> "*" -> number_in lo hi w = true.
Proof.
  intros [->|H] Hw Hne.
  - rewrite words_star in Hw. apply list_elem_of_singleton in Hw. contradiction.
  - rewrite Forall_forall in H. apply H, Hw.
Qed.

(** For an expression whose fields are [*], lists of numbers and ranges
    within the domain, or [*/step] in the minute, hour or weekday field,
    the compiler, given 60 passes per loop or more, prints an output in
    which every value of every key is a number of the key's domain,
    written without sign, blanks or leading zeros. (A stride over a
    range, and [*/step] for the day or the month, are left out: there
    the output holds other values.) *)
Theorem plain_expressions_emit_values_of_the_domain (fuel : nat) (cron : string) :
  plain_cron cron = true -> (60 <= fuel)%nat ->
  exists out,
    cron_to_calendar_interval fuel cron = Some out /\
    forall key v, key ∈ keys -> v ∈ key_values key out ->
      number_in (domain key).1 (domain key).2 v = true.
Proof.
  intros Hp Hf. unfold plain_cron in Hp.
  apply andb_true_iff in Hp as [Hnl Hp].
  destruct (words cron) as [|min [|hour [|dom [|mon [|dow [|]]]]]] eqn:W;
    try discriminate.
  pose proof (read_fields_words cron min hour dom mon dow Hnl W) as R.
  repeat (apply andb_true_iff in Hp as [Hp ?]).
  rename Hp into P1, H2 into P2, H1 into P3, H0 into P4, H into P5.
  destruct (canonical_field_terminates 0 59 60 fuel min ltac:(lia) ltac:(lia) ltac:(lia) Hf
              (plain_field_valid _ _ _ P1)) as [mins E1].
  destruct (canonical_field_terminates 0 23 24 fuel hour ltac:(lia) ltac:(lia) ltac:(lia) Hf
              (plain_field_valid _ _ _ P2)) as [hours E2].
  destruct (canonical_field_terminates 1 31 32 fuel dom ltac:(lia) ltac:(lia) ltac:(lia) Hf
              (plain_field_valid _ _ _ P3)) as [doms E3].
  destruct (canonical_field_terminates 1 12 13 fuel mon ltac:(lia) ltac:(lia) ltac:(lia) Hf
              (plain_field_valid _ _ _ P4)) as [mons E4].
  destruct (canonical_field_terminates 0 6 7 fuel dow ltac:(lia) ltac:(lia) ltac:(lia) Hf
              (plain_field_valid _ _ _ P5)) as [dows E5].
  pose proof (plain_field_words 0 59 fuel min mins ltac:(lia) ltac:(lia) P1 E1) as V1.
  pose proof (plain_field_words 0 23 fuel hour hours ltac:(lia) ltac:(lia) P2 E2) as V2.
  pose proof (plain_field_words 1 31 fuel dom doms ltac:(lia) ltac:(lia) P3 E3) as V3.
  pose proof (plain_field_words 1 12 fuel mon mons ltac:(lia) ltac:(lia) P4 E4) as V4.
  pose proof (plain_field_words 0 6 fuel dow dows ltac:(lia) ltac:(lia) P5 E5) as V5.
  exists (printed (generate_dicts mins hours doms mons dows)).
  split; [exact (cron_output fuel cron _ _ _ _ _ _ _ _ _ _ R E1 E2 E3 E4 E5)|].
  intros key v Hk Hv. unfold key_values, integer_values in Hv.
  apply list_elem_of_bind in Hv as (line & Hv & Hline).
  apply list_elem_of_In, filter_In in Hline as [Hline Hc].
  apply list_elem_of_In in Hline.
  (* the line comes from a dictionary *)
  assert (Hsrc : exists l0, l0 ∈ generate_dicts mins hours doms mons dows /\
                   contains (key_tag key) l0 = true /\
                   v ∈ integer_values_of_line (String.length l0) l0).
  { assert (Hwrap : forall l0, (l0 = "    <array>" \/ l0 = "    </array>" \/ l0 = "") ->
              contains (key_tag key) l0 = false).
    { intros l0 Hl0. destruct (key_in_keys key Hk) as [->|[->|[->|[->| ->]]]];
        destruct Hl0 as [-> | [-> | ->]]; reflexivity. }
    assert (Hecho : forall l0, l0 ∈ echo_lines (generate_dicts mins hours doms mons dows) ->
              contains (key_tag key) l0 = true ->
              l0 ∈ generate_dicts mins hours doms mons dows).
    { intros l0 Hl0 Hc0. unfold echo_lines in Hl0.
      destruct (generate_dicts mins hours doms mons dows); [|exact Hl0].
      apply list_elem_of_singleton in Hl0. rewrite (Hwrap l0) in Hc0 by auto.
      discriminate. }
    unfold printed in Hline.
    destruct (grep_count "<dict>" (echo_lines _) =? 1)%nat.
    - apply list_elem_of_fmap in Hline as (l0 & -> & Hl0).
      change (key_tag key) with (String "<" ("key>" +:+ key +:+ "</key>")) in Hc.
      rewrite contains_sed_unindent in Hc. rewrite ivl_sed_unindent in Hv.
      exists l0. split; [apply Hecho; assumption|]. split; assumption.
    - rewrite !elem_of_app in Hline. destruct Hline as [Hline|[Hline|Hline]].
      + apply list_elem_of_singleton in Hline. rewrite (Hwrap line) in Hc by auto.
        discriminate.
      + exists line. split; [apply Hecho; assumption|]. split; assumption.
      + apply list_elem_of_singleton in Hline. rewrite (Hwrap line) in Hc by auto.
        discriminate. }
  destruct Hsrc as (l0 & Hl0 & Hc0 & Hv0).
  unfold generate_dicts in Hl0.
  apply list_elem_of_bind in Hl0 as (m & Hl0 & Hm).
  apply list_elem_of_bind in Hl0 as (h & Hl0 & Hh).
  apply list_elem_of_bind in Hl0 as (d & Hl0 & Hd).
  apply list_elem_of_bind in Hl0 as (mo & Hl0 & Hmo).
  apply list_elem_of_bind in Hl0 as (dw & Hl0 & Hdw).
  pose proof (expansion_words_no_lt _ _ _ _ V1 Hm) as N1.
  pose proof (expansion_words_no_lt _ _ _ _ V2 Hh) as N2.
  pose proof (expansion_words_no_lt _ _ _ _ V3 Hd) as N3.
  pose proof (expansion_words_no_lt _ _ _ _ V4 Hmo) as N4.
  pose proof (expansion_words_no_lt _ _ _ _ V5 Hdw) as N5.
  destruct (dict_line_with_key key m h d mo dw l0 Hk N1 N2 N3 N4 N5 Hl0 Hc0)
    as (x & -> & Hne & Hx).
  assert (Hkey : all_chars no_lt key = true).
  { destruct (key_in_keys key Hk) as [->|[->|[->|[->| ->]]]]; reflexivity. }
  assert (Hxn : all_chars no_lt x = true).
  { destruct Hx as [[_ ->]|[[_ ->]|[[_ ->]|[[_ ->]|[_ ->]]]]]; assumption. }
  rewrite (ivl_key_line "        " key x eq_refl Hkey Hxn) in Hv0.
  apply list_elem_of_singleton in Hv0. subst v.
  destruct Hx as [[-> ->]|[[-> ->]|[[-> ->]|[[-> ->]|[-> ->]]]]]; cbn [domain fst snd].
  - exact (expansion_word_in_domain _ _ _ _ V1 Hm Hne).
  - exact (expansion_word_in_domain _ _ _ _ V2 Hh Hne).
  - exact (expansion_word_in_domain _ _ _ _ V3 Hd Hne).
  - exact (expansion_word_in_domain _ _ _ _ V4 Hmo Hne).
  - exact (expansion_word_in_domain _ _ _ _ V5 Hdw Hne).
Qed.

Lemma plain_expressions_emit_values_of_the_domain_witness :
  exists out,
    cron_to_calendar_interval 60 "*/15 9-17 1,15 * 1-5" = Some out /\
    forall key v, key ∈ keys -> v ∈ key_values key out ->
      number_in (domain key).1 (domain key).2 v = true.
Proof.
  apply (plain_expressions_emit_values_of_the_domain 60 "*/15 9-17 1,15 * 1-5").
  - vm_compute. reflexivity.
  - lia.
Defined.

End CronValues.

(** ** The merged configuration *)

Section Configuration.

Import Text Jobs Config.




End Configuration.

(** ** The event stream and the logs of running jobs *)

Section EventStream.

Import Text State Logs JobsCrud Events.

Lemma delivered_app (id : string) (a b : list sse) :
  delivered id (a ++ b) = delivered id a +:+ delivered id b.
Proof.
  induction a as [|e a IH]; [rewrite append_empty; reflexivity|].
  destruct e as [runs|rid job content offset]; simpl; [exact IH|].
  destruct (String.eqb rid id); [|exact IH].
  rewrite IH, append_assoc'. reflexivity.
Qed.

Lemma tail_log_in_range (files : gmap string string) (run : RunRecord)
    (bytes : string) (o : Z) :
  files !! logFile run = Some bytes ->
  0 <= o <= Z.of_nat (String.length bytes) ->
  utf8 (skip (Z.to_nat o) bytes) = true ->
  match tail_log files run o with
  | Some (n, e) =>
      n = Z.of_nat (String.length bytes) /\
      e = LogEvent (runId run) (jobName run) (skip (Z.to_nat o) bytes) o
  | None => skip (Z.to_nat o) bytes = "" /\ o = Z.of_nat (String.length bytes)
  end.
Proof.
  intros Hf Ho Hu. unfold tail_log, getLogContentFromOffset, subarray. rewrite Hf.
  destruct (Z.leb_spec (Z.of_nat (String.length bytes)) o) as [Hle|Hgt].
  - simpl. assert (o = Z.of_nat (String.length bytes)) as -> by lia.
    rewrite Nat2Z.id. split; [apply skip_all|reflexivity].
  - destruct (Z.ltb_spec o 0) as [?|_]; [lia|].
    rewrite Z.min_l by lia.
    rewrite utf8_decode_wellformed by exact Hu.
    destruct (String.eqb_spec (skip (Z.to_nat o) bytes) "") as [He|Hne].
    + pose proof (length_skip (Z.to_nat o) bytes) as Hl. rewrite He in Hl.
      simpl in Hl. lia.
    + split; reflexivity.
Qed.

Lemma tail_step_other (files : gmap string string)
    (look : string -> option RunRecord) (acc : gmap string Z * list sse)
    (id id0 : string) :
  (forall i run, look i = Some run -> runId run = i) ->
  id <> id0 \/ look id0 = None ->
  (tail_step files look acc id).1 !! id0 = acc.1 !! id0 /\
  delivered id0 (tail_step files look acc id).2 = delivered id0 acc.2.
Proof.
  intros Hlook Hother. unfold tail_step.
  destruct (look id) as [run|] eqn:El; [|split; reflexivity].
  assert (runId run <> id0) as Hne.
  { rewrite (Hlook _ _ El). destruct Hother as [?|Hn]; [assumption|].
    intros ->. congruence. }
  destruct (tail_log files run _) as [[n e]|] eqn:Et; [|split; reflexivity].
  cbn [fst snd]. split; [apply lookup_insert_ne; exact Hne|].
  rewrite delivered_app. unfold tail_log in Et.
  destruct (getLogContentFromOffset _ _) as [[content next]|]; [|discriminate].
  destruct (String.eqb content ""); [discriminate|].
  injection Et as _ <-. simpl.
  destruct (String.eqb_spec (runId run) id0) as [?|_]; [contradiction|].
  apply append_empty_r.
Qed.

Lemma tail_fold_other (files : gmap string string)
    (look : string -> option RunRecord) (ids : list string)
    (acc : gmap string Z * list sse) (id0 : string) :
  (forall i run, look i = Some run -> runId run = i) ->
  id0 ∉ ids \/ look id0 = None ->
  (foldl (tail_step files look) acc ids).1 !! id0 = acc.1 !! id0 /\
  delivered id0 (foldl (tail_step files look) acc ids).2 = delivered id0 acc.2.
Proof.
  intros Hlook. revert acc. induction ids as [|id ids IH]; intros acc Hother.
  - split; reflexivity.
  - simpl.
    destruct (IH (tail_step files look acc id)) as [H1 H2].
    { destruct Hother as [Hn|?]; [left|right; assumption].
      intros Hin. apply Hn. right. exact Hin. }
    destruct (tail_step_other files look acc id id0 Hlook) as [H3 H4].
    { destruct Hother as [Hn|?]; [left|right; assumption].
      intros ->. apply Hn. left. }
    rewrite H1, H2, H3, H4. split; reflexivity.
Qed.

Lemma tail_fold_one (files : gmap string string)
    (look : string -> option RunRecord) (ids : list string)
    (acc : gmap string Z * list sse) (run : RunRecord) (bytes : string) :
  (forall i r, look i = Some r -> runId r = i) ->
  NoDup ids -> runId run ∈ ids -> look (runId run) = Some run ->
  files !! logFile run = Some bytes ->
  0 <= default 0 (acc.1 !! runId run) <= Z.of_nat (String.length bytes) ->
  utf8 (skip (Z.to_nat (default 0 (acc.1 !! runId run))) bytes) = true ->
  default 0 ((foldl (tail_step files look) acc ids).1 !! runId run) =
    Z.of_nat (String.length bytes) /\
  delivered (runId run) (foldl (tail_step files look) acc ids).2 =
    delivered (runId run) acc.2 +:+
    skip (Z.to_nat (default 0 (acc.1 !! runId run))) bytes.
Proof.
  intros Hlook Hnd Hin Hl Hf. revert acc.
  induction ids as [|id ids IH]; intros acc Ho Hu; [inversion Hin|].
  apply NoDup_cons in Hnd as [Hfresh Hnd]. simpl.
  destruct (decide (id = runId run)) as [->|Hne].
  - destruct (tail_fold_other files look ids
                (tail_step files look acc (runId run)) (runId run) Hlook)
      as [H1 H2]; [left; exact Hfresh|].
    rewrite H1, H2. unfold tail_step. rewrite Hl.
    pose proof (tail_log_in_range files run bytes _ Hf Ho Hu) as Ht.
    destruct (tail_log files run _) as [[n e]|].
    + destruct Ht as [-> ->]. cbn [fst snd].
      rewrite lookup_insert_eq, delivered_app. simpl.
      rewrite String.eqb_refl, append_empty_r. split; reflexivity.
    + destruct Ht as [He Hlen]. rewrite He, append_empty_r, Hlen.
      split; reflexivity.
  - destruct (tail_step_other files look acc id (runId run) Hlook) as [H3 H4];
      [left; exact Hne|].
    assert (Hin' : runId run ∈ ids)
      by (apply elem_of_cons in Hin as [?|?]; [congruence|assumption]).
    destruct (IH Hnd Hin' (tail_step files look acc id)) as [H1 H2];
      [rewrite H3; exact Ho | rewrite H3; exact Hu|].
    rewrite H1, H2, H3, H4. split; reflexivity.
Qed.

Lemma find_has_id (id : string) (runs : list RunRecord) (run : RunRecord) :
  find (has_id id) runs = Some run -> runId run = id /\ run ∈ runs.
Proof.
  intros H. apply find_some in H as [Hin Hid].
  split; [apply has_id_true, Hid | apply list_elem_of_In, Hin].
Qed.

Lemma find_unique (runs : list RunRecord) (r : RunRecord) :
  NoDup (runId <$> runs) -> r ∈ runs -> find (has_id (runId r)) runs = Some r.
Proof.
  induction runs as [|a runs IH]; intros Hnd Hin; [inversion Hin|].
  rewrite fmap_cons in Hnd. apply NoDup_cons in Hnd as [Hfresh Hnd]. simpl.
  apply elem_of_cons in Hin as [->|Hin].
  - rewrite (proj2 (has_id_true (runId a) a)) by reflexivity. reflexivity.
  - rewrite (proj2 (has_id_false (runId r) a)); [apply IH; assumption|].
    intros He. apply Hfresh. rewrite He. apply list_elem_of_fmap. eauto.
Qed.

Lemma running_ids_spec (runs : list RunRecord) :
  NoDup (running_ids runs) /\
  forall id, id ∈ running_ids runs <->
             exists r, r ∈ runs /\ is_running r = true /\ runId r = id.
Proof.
  unfold running_ids.
  destruct (foldl_set_add (runId <$> List.filter is_running runs) []) as [Hnd Hin].
  split; [apply Hnd, NoDup_nil_2|].
  intros id. rewrite Hin, list_elem_of_fmap. split.
  - intros [H|[r [-> Hr]]]; [inversion H|].
    apply list_elem_of_In, filter_In in Hr as [Hr Hrun].
    exists r. split; [apply list_elem_of_In, Hr|]. split; [exact Hrun|reflexivity].
  - intros [r [Hr [Hrun <-]]]. right. exists r. split; [reflexivity|].
    apply list_elem_of_In, filter_In. split; [apply list_elem_of_In, Hr|exact Hrun].
Qed.

Lemma poll_one (st : store) (files : gmap string string) (s : Stream)
    (r : RunRecord) (bytes : string) :
  NoDup (runId <$> getRecentRuns st) ->
  r ∈ getRecentRuns st ->
  is_running r = true \/
    (NoDup (previouslyRunning s) /\ runId r ∈ previouslyRunning s) ->
  files !! logFile r = Some bytes ->
  0 <= default 0 (logOffsets s !! runId r) <= Z.of_nat (String.length bytes) ->
  utf8 (skip (Z.to_nat (default 0 (logOffsets s !! runId r))) bytes) = true ->
  delivered (runId r) (poll st files s).2 =
    skip (Z.to_nat (default 0 (logOffsets s !! runId r))) bytes /\
  default 0 (logOffsets (poll st files s).1 !! runId r) =
    Z.of_nat (String.length bytes) /\
  previouslyRunning (poll st files s).1 = running_ids (getRecentRuns st).
Proof.
  intros Hnd Hin Hcase Hf Ho Hwf. unfold poll.
  set (runs := getRecentRuns st) in *.
  set (changed := negb _).
  set (look1 := fun id : string => if bool_decide (id ∈ running_ids runs) then None
                          else find (has_id id) runs).
  set (runs' := if changed then reverse runs else runs).
  set (look3 := fun id : string => find (has_id id) runs').
  set (status_events := if changed then [StatusEvent _] else []).
  cbn [fst snd logOffsets previouslyRunning].
  split; [|split; [|reflexivity]].
  all: destruct (running_ids_spec runs) as [Hrnd Hrin].
  all: assert (Hl1 : forall i run, look1 i = Some run -> runId run = i)
    by (intros i run; unfold look1; case_bool_decide; [discriminate|];
        intros Hq; apply find_has_id in Hq as [? _]; assumption).
  all: assert (Hl3 : forall i run, look3 i = Some run -> runId run = i)
    by (intros i run Hq; apply find_has_id in Hq as [? _]; assumption).
  all: assert (Hfind3 : look3 (runId r) = Some r)
    by (unfold look3, runs'; destruct changed;
        [apply find_unique;
         [rewrite fmap_reverse, reverse_Permutation; exact Hnd
         |apply elem_of_reverse, Hin]
        |apply find_unique; assumption]).
  all: assert (Hstatus : delivered (runId r) status_events = "")
    by (unfold status_events; destruct changed; reflexivity).
  all: set (flushed := foldl (tail_step files look1) (logOffsets s, [])
                             (previouslyRunning s)).
  all: destruct (decide (is_running r = true)) as [Hrun|Hnot].
  all: try (assert (Hcur : runId r ∈ running_ids runs)
              by (apply Hrin; exists r; auto);
            destruct (tail_fold_other files look1 (previouslyRunning s)
                        (logOffsets s, []) (runId r) Hl1) as [H1 H2];
              [right; unfold look1; rewrite bool_decide_eq_true_2 by exact Hcur;
               reflexivity|];
            fold flushed in H1, H2; cbn [fst snd] in H1, H2;
            destruct (tail_fold_one files look3 (running_ids runs)
                        (flushed.1, flushed.2 ++ status_events) r bytes
                        Hl3 Hrnd Hcur Hfind3 Hf) as [H3 H4];
              [cbn [fst]; rewrite H1; exact Ho
              |cbn [fst]; rewrite H1; exact Hwf|];
            cbn [fst snd] in H3, H4).
  - rewrite H4, delivered_app, H2, Hstatus, H1. reflexivity.
  - destruct Hcase as [?|[Hprev Hwas]]; [contradiction|].
    assert (Hcur : runId r ∉ running_ids runs).
    { intros Hc. apply Hrin in Hc as [r2 [Hr2 [Hrun2 Hid]]].
      assert (r2 = r) as ->; [|contradiction].
      pose proof (find_unique runs r2 Hnd Hr2) as Hu.
      rewrite Hid, (find_unique runs r Hnd Hin) in Hu. congruence. }
    assert (Hfind1 : look1 (runId r) = Some r).
    { unfold look1. rewrite bool_decide_eq_false_2 by exact Hcur.
      apply find_unique; assumption. }
    destruct (tail_fold_one files look1 (previouslyRunning s)
                (logOffsets s, []) r bytes Hl1 Hprev Hwas Hfind1 Hf Ho Hwf)
      as [H1 H2].
    fold flushed in H1, H2. cbn [fst snd] in H1, H2.
    destruct (tail_fold_other files look3 (running_ids runs)
                (flushed.1, flushed.2 ++ status_events) (runId r) Hl3)
      as [H3 H4]; [left; exact Hcur|].
    cbn [fst snd] in H3, H4.
    rewrite H4, delivered_app, H2, Hstatus. simpl.
    rewrite append_empty_r. reflexivity.
  - rewrite H3. reflexivity.
  - destruct Hcase as [?|[Hprev Hwas]]; [contradiction|].
    assert (Hcur : runId r ∉ running_ids runs).
    { intros Hc. apply Hrin in Hc as [r2 [Hr2 [Hrun2 Hid]]].
      assert (r2 = r) as ->; [|contradiction].
      pose proof (find_unique runs r2 Hnd Hr2) as Hu.
      rewrite Hid, (find_unique runs r Hnd Hin) in Hu. congruence. }
    assert (Hfind1 : look1 (runId r) = Some r).
    { unfold look1. rewrite bool_decide_eq_false_2 by exact Hcur.
      apply find_unique; assumption. }
    destruct (tail_fold_one files look1 (previouslyRunning s)
                (logOffsets s, []) r bytes Hl1 Hprev Hwas Hfind1 Hf Ho Hwf)
      as [H1 H2].
    fold flushed in H1, H2. cbn [fst snd] in H1, H2.
    destruct (tail_fold_other files look3 (running_ids runs)
                (flushed.1, flushed.2 ++ status_events) (runId r) Hl3)
      as [H3 H4]; [left; exact Hcur|].
    cbn [fst snd] in H3, H4.
    rewrite H3. exact H1.
Qed.

(** While a run is recorded as running, a pass of the event stream sends
    the text of its log from the offset kept for it to the end; the next
    pass sends exactly what was appended in between, also when the run
    has finished by then, which is the flush of a run that just
    completed. Run ids are distinct in both stores; the log from the
    offset on, and what is appended, are well-formed UTF-8, so that the
    content of an event has the bytes it was decoded from. *)
Theorem stream_delivers_each_log_byte_once
    (st st' : store) (files files' : gmap string string) (s : Stream)
    (r r' : RunRecord) (bytes appended : string) :
  NoDup (runId <$> getRecentRuns st) ->
  NoDup (runId <$> getRecentRuns st') ->
  r ∈ getRecentRuns st -> is_running r = true ->
  r' ∈ getRecentRuns st' -> runId r' = runId r -> logFile r' = logFile r ->
  files !! logFile r = Some bytes ->
  files' !! logFile r = Some (bytes +:+ appended) ->
  0 <= default 0 (logOffsets s !! runId r) <= Z.of_nat (String.length bytes) ->
  utf8 (skip (Z.to_nat (default 0 (logOffsets s !! runId r))) bytes) = true ->
  utf8 appended = true ->
  let first := poll st files s in
  let second := poll st' files' first.1 in
  delivered (runId r) first.2 =
    skip (Z.to_nat (default 0 (logOffsets s !! runId r))) bytes /\
  delivered (runId r) second.2 = appended /\
  default 0 (logOffsets second.1 !! runId r) =
    Z.of_nat (String.length (bytes +:+ appended)).
Proof.
  intros Hnd Hnd' Hin Hrun Hin' Hid Hlog Hf Hf' Ho Hu Happ first second.
  destruct (poll_one st files s r bytes Hnd Hin (or_introl Hrun) Hf Ho Hu)
    as [H1 [H2 H3]].
  fold first in H1, H2, H3.
  split; [exact H1|].
  assert (Hwas : runId r' ∈ previouslyRunning first.1).
  { rewrite H3, Hid. apply running_ids_spec. exists r. auto. }
  assert (Hprev : NoDup (previouslyRunning first.1))
    by (rewrite H3; apply running_ids_spec).
  destruct (poll_one st' files' first.1 r' (bytes +:+ appended) Hnd' Hin'
              (or_intror (conj Hprev Hwas))) as [H4 [H5 _]].
  - rewrite Hlog. exact Hf'.
  - rewrite Hid, H2, length_append. lia.
  - rewrite Hid, H2, Nat2Z.id, skip_append. exact Happ.
  - fold second in H4, H5. rewrite Hid in H4, H5.
    rewrite H4, H5, H2, Nat2Z.id, skip_append. split; reflexivity.
Qed.

Lemma stream_delivers_each_log_byte_once_witness :
  let running :=
    {| runId := "nightly-20260101T030000"; jobName := "nightly";
       startedAt := "2026-01-01T03:00:00Z"; completedAt := None;
       exitCode := None; attempts := None; status := Some "running";
       logFile := "~/.claude-runner/logs/nightly-20260101T030000.log" |} in
  let finished :=
    {| runId := "nightly-20260101T030000"; jobName := "nightly";
       startedAt := "2026-01-01T03:00:00Z";
       completedAt := Some "2026-01-01T03:00:09Z";
       exitCode := Some 0; attempts := Some 1; status := None;
       logFile := "~/.claude-runner/logs/nightly-20260101T030000.log" |} in
  let first :=
    poll (Some [running]) {[ logFile running := "started" ]} start in
  let second :=
    poll (Some [finished]) {[ logFile running := "started" +:+ ", done" ]}
         first.1 in
  delivered (runId running) first.2 = "started" /\
  delivered (runId running) second.2 = ", done" /\
  default 0 (logOffsets second.1 !! runId running) = 13.
Proof.
  intros running finished.
  apply (stream_delivers_each_log_byte_once
           (Some [running]) (Some [finished])
           {[ logFile running := "started" ]}
           {[ logFile running := "started" +:+ ", done" ]}
           start running finished "started" ", done").
  - apply NoDup_singleton.
  - apply NoDup_singleton.
  - left.
  - reflexivity.
  - left.
  - reflexivity.
  - reflexivity.
  - apply lookup_singleton_eq.
  - apply lookup_singleton_eq.
  - vm_compute. split; discriminate.
  - reflexivity.
  - reflexivity.
Defined.

(** A character whose bytes reach the log in two parts, with a pass of
    the stream in between, is delivered as two U+FFFD. *)
Lemma stream_replaces_a_split_character :
  let running :=
    {| runId := "nightly-20260101T030000"; jobName := "nightly";
       startedAt := "2026-01-01T03:00:00Z"; completedAt := None;
       exitCode := None; attempts := None; status := Some "running";
       logFile := "~/.claude-runner/logs/nightly-20260101T030000.log" |} in
  let e1 := String (ascii_of_nat 195) "" in
  let e2 := String (ascii_of_nat 169) "" in
  let first :=
    poll (Some [running]) {[ logFile running := "caf" +:+ e1 ]} start in
  let second :=
    poll (Some [running]) {[ logFile running := "caf" +:+ e1 +:+ e2 ]} first.1 in
  delivered (runId running) first.2 = "caf" +:+ replacement /\
  delivered (runId running) second.2 = replacement.
Proof. split; vm_compute; reflexivity. Qed.

End EventStream.
